(* ===== verification/_CoqProject ===== *)
-Q . S2P
Prelude.v
CMemory.v
GaloisField.v
Crc32c.v
ErasureCode.v
EcAlgebra.v
KernelLemmas.v
KernelBytes.v
KernelWords.v
GfTable.v
EcTheorems.v
RaidSlice.v
RaidUpdate.v
BitFields.v
DirtyBits.v
BlockMd.v
JournalMd.v
HashTable.v
HashInv.v
HashRefine.v
HashApi.v
HashRegistry.v
Heap.v
RscPool.v
RscPoolProof.v
Topology.v
TopoIter.v
AddrMap.v
Roles.v
LockServer.v
LockPlan.v
Mssa.v
MssaProof.v
MssaPlan.v
MssaRead.v
Pausable.v
PausableProof.v
PausableFlags.v
PausableDrain.v
PausableWake.v
PausableLayer.v
Raft.v
RaftCluster.v
RaftVotes.v
RaftElection.v
RaftSafety.v
RaftCommit.v
