(* ===== verification/Prelude.v ===== *)
(** * A verification library for the NVMesh storage code

    NVMesh turns the NVMe drives of many servers into shared, redundant
    volumes.  A client kernel module ([src/clnt]) splits a volume's I/O into
    commands to target servers ([src/srv]); parities are computed at the client;
    a management daemon, TOMA ([src/toma]), agrees on the topology.  This
    library models the parts of that code that carry its correctness and that
    do not depend on devices or on the network: how data is protected by
    parities and checksums, how the state of a stripe is recorded in dirty bits
    and metadata, where the blocks of a volume are and which locks protect them,
    what an erasure coded I/O reads and writes, how TOMA elects its leader and
    counts what is committed, and the containers and pools the daemons rely on.

    ** Conventions

    C functions are Rocq functions of the same name.  Code that can reach a
    [BUG_ON], leave an array or dereference [NULL] returns [res]: [Ok] of the
    result, or [Fault].  A theorem that concludes [f x = Ok y] therefore shows
    that [f] returns, that its accesses are in bounds and that no assertion
    fires.  Machine integers are [Z]; where the source wraps, the model wraps
    ([u8] .. [u64], [s32]).  [for (i = 0; i < n; i++)] is [for_up n], with the
    rule [for_up_inv].  Loops without a bound in the source run on fuel; for
    each of them the fuel is the size of what it walks (the slots of a hash
    table, the elements of a heap) and the theorems show that it is enough,
    that is that [Fault NO_FUEL] is not the result.  Logging, tracing and
    statistics are left out.

    ** The parts

    - [Prelude]: faults, loops, wrap-around, generic lemmas, tactics and the
      hint database [cint].  [CMemory]: a memory of byte buffers, pointers that may
      be [NULL] or the [(void * )(-1)] marker, little-endian words.

    - Erasure code ([clnt/block/datapath_ec/nvmeibc_block_dp_ec_gf.c]).
      [GaloisField]: the logarithm tables, [gfmul], [gfdiv], [gfmul_q] and their
      64-bit versions; the tables implement multiplication modulo 0x11d and
      division by it, the 64-bit routines are the byte routines on eight bytes.
      [Crc32c]: the bitwise, table, 64-bit and instruction CRC routines are one
      function.  [ErasureCode]: the eight byte kernels and eight 64-bit kernels
      that encode, update and decode; the class [GfKernels] is the contract of a
      table of kernels, on the contents of buffers and the CRC array.
      [EcAlgebra], [KernelLemmas], [KernelBytes], [KernelWords]: both tables
      satisfy it.  [GfTable]: the dispatchers [ec_encode_data_1] and
      [ec_decode_data_1], the choice of a table at run time, and the entry
      points; the class [EcTable] is what they promise.  [EcTheorems]: encoding,
      losing up to two blocks and decoding gives the blocks back; an update
      leaves the parities of the new data; the tables agree.  Vector tables
      (SSE2, AVX2, NEON, the kernel's RAID library) are parameters of the
      platform and are assumed to satisfy [GfKernels]; the witnesses use the two
      tables proved here.

    - A slice of a volume ([nvmeibc_block_dp_ec_gf_praid.c]).  [RaidSlice]:
      [nvmeibc_reed_solomon_fill_missing] rebuilds lost blocks, computes wanted
      parities and returns salted CRCs.  [RaidUpdate]:
      [nvmeibc_reed_solomon_update_parities] folds rewritten rows into the
      parities.  Both are proved against [EcTable] only.

    - State of a stripe.  [BitFields]: packed members as fields of an integer.
      [DirtyBits] ([nvmeibc_block_dp_dbits.c/.h], [nvmeib_shared.h]): markers of
      degraded segments; encoding, merging, applying a transaction and
      intersecting are decided over all markers.  [BlockMd]
      ([nvmeibc_block_dp_block_md.c/.h]): the metadata word of a block and the
      check of a read.  [JournalMd] ([nvmeib_shared_ec.h/.inc.c],
      [nvmeibc_block_dp_block_md_tables.c]): compressed transaction bitmaps,
      journal metadata and the validation of journal entries.

    - Volumes ([clnt/block/nvmeibc_topology.c/.h], [datapath_utils_generic],
      [controlpath/nvmeibc_b_cp_topo_algorithms.c]).  [Topology]: chunks, raids and
      segments, and what a well-formed topology is.  [TopoIter]: the search for the
      chunk of a block and the walk over the pieces of an I/O; the walk ends, and the
      pieces are the blocks of the I/O in order.  [AddrMap]: slices, snakes, locks
      and the conversions between the addresses of disks, raids, chunks and
      volumes.  [Roles]: the bitmaps of roles derived from the access modes of the
      segments.  [LockServer]: import, check and shift of the lock maps and the lock
      array of an I/O; [LockPlan]: its size, and that every block of the I/O is
      protected by the locks of its blockset.

    - Plans of erasure coded I/O ([datapath_ec/nvmeibc_block_dp_ec.c]).  [Mssa]:
      [mssa_init], which decides for each slice what is written, what is read before
      and how the parities are made, the counters and bitmaps taken from its maps, and
      the walk over the strategies of [nvmeibc_block_dp_ec_reed_solomon.c].
      [MssaProof]: each step changes one row of the maps; the choice of a strategy is
      sound for every set of lost segments.  [MssaPlan], [MssaRead]: for snakes of
      one block, the height with which [nvmesh_dp_lib_api.c] opens volumes, plans of
      writes and reads are complete and never fault; for higher snakes, writes on
      which the checks of [mssa_init] fire ([MssaPlan.analyser_bugs]).

    - Containers.  [HashTable] ([common/nvmeib_hash.c/.h]): the table; [HashInv]:
      linear probing and backward-shift deletion; [HashRefine]: the table
      refines a finite map; [HashApi]: the record [hash_api] of the typed
      interfaces and the refinement for any sequence of operations;
      [HashRegistry]: the registry of tables, its idle resizing and shutdown.
      [Heap] ([common/nvmeib_heap.c]): the timer heap is a priority queue whose
      elements know their index.

    - [RscPool], [RscPoolProof] ([common_public/nvmeib_rsc_pool.c/.h]): the pool
      of resources shared by actors, as a step relation over its operations;
      resources are conserved, quotas fit the pool, and a pool without actors
      can be freed.

    - The pausable disk ([clnt/nvmeibc_pausable.c]), through which every command
      reaches a disk.  [Pausable]: calls, completions, pausing and continuing as
      accesses to shared memory, interleaved over any number of threads and CPUs;
      the sums over the per-CPU counters are read one CPU at a time.
      [PausableProof], [PausableFlags], [PausableDrain], [PausableWake]: the
      invariants, layer by layer.  [PausableLayer]: a pause is acknowledged only
      when nothing is in flight, no request is lost, the layer does not deadlock,
      and what a late completion does to a disk that has gone on.  Memory is
      sequentially consistent; the callers keep the order pause, acknowledgement,
      continue, with fewer than 2^31 transfers in flight.

    - The Raft of the topology managers ([toma/nvmeibt_raft.c], with the saving
      and restarting of [toma/nvmeibt_topology.c]).  [Raft]: the context of a node
      and every handler as a function from the context to the context and the
      messages it sends; what a handler reads from outside is its argument [env].
      [RaftCluster]: any number of nodes, every message that was ever sent, and
      the events of a node; a message can be lost, delayed, reordered and
      delivered again.  [RaftVotes], [RaftElection]: the votes that messages
      carry and the invariant that every handler keeps.  [RaftSafety]: one leader
      per term under every schedule that keeps the conditions of [orderly], and
      the runs with two leaders that the code allows without them.  [RaftCommit]:
      an index is committed exactly when a majority of the members reported it,
      with the runs in which stale counters or late replies break this, and the
      counters of the members and votes while members come and go.
    ** Bounds

    A raid has at most [N_MAX_RAID_SLICE_LEN] segments and a plan at most 32 slices,
    as the arrays of the source.  The walk over an I/O gets one unit of fuel per
    block, [set_bio_blocks] likewise: each step takes at least one block.  The scans
    for a set bit ([skip_set]) get 32 units, more than there are roles.

    A hash table is proved up to [MAX_ELEMENTS] elements, below the point where
    its load factor overflows an [int] ([HashApi.load_factor_overflows]).  Block
    lengths, numbers of rows and buffers are arbitrary; the 64-bit kernels need
    lengths that are multiples of eight, as the sector sizes are.  Dirty-bit
    markers and compressed bitmaps are finite and checked exhaustively by
    computation.

    ** Not modelled

    - The vector kernels ([nvmeibc_block_dp_ec_gf_avx2.c] and its SSE2 and NEON
      relatives): intrinsics and assembly.
    - RDMA, InfiniBand and NVMe transports ([common/nvmeib_rdma.c],
      [clnt/nvmeibc_ib_*.c], [srv/nvmeibs_net.c], [srv/nvmeibs_nvme.c],
      [softiwarp]): they program devices.
    - The block layer and the I/O state machines of the client (the stages of
      commands in [datapath_ec] and [datapath_mirror], acquiring locks,
      [recovery], the journal manager) and the journal server
      ([srv/nvmeibs_serjio.c]): their steps are completions of device commands
      and timers spread over callbacks.
    - TOMA apart from its Raft: the calculation of topologies, configuration
      files, Kafka, GPT labels and RPC.  Of Raft: the content of the sections of a
      buffer and their merging (an arbitrary function), applying a committed
      topology, the members read from a saved buffer (the members are fixed in
      [RaftCluster], their changes are in [RaftCommit]), incremental buffers,
      shutdown terms and statistics.
    - Tracing, statistics, procfs, kernel threads, build and installation
      scripts, tests and simulators, bundled third-party sources ([tools/lz4],
      [kernels], [ofeds]). *)
From stdpp Require Import base list gmap numbers.
From Stdlib Require Import ZArith Lia.

(** * Faults of the C code

    A C routine either returns normally or reaches a point the source marks
    as impossible.  [BUG] is a [BUG_ON]/[BUG()]/[NVMEIB_HASH_ASSERT] that
    fires, [OOB] an access outside an array or a buffer, [NULL_DEREF] a
    dereference of [NULL] or of the [(void * )(-1)] marker.  [NO_FUEL] is no
    event of the program: it says that a loop the source leaves unbounded has
    not ended within the steps the model gives it. *)
Inductive fault : Set :=
| BUG
| OOB
| NULL_DEREF
| NO_FUEL.

Inductive res (A : Type) : Type :=
| Ok (a : A)
| Fault (f : fault).
Arguments Ok {A} _.
Arguments Fault {A} _.

#[export] Instance res_ret : MRet res := fun _ a => Ok a.
#[export] Instance res_bind : MBind res := fun _ _ k r =>
  match r with Ok a => k a | Fault f => Fault f end.

#[export] Instance fault_eq_dec : EqDecision fault.
Proof. solve_decision. Defined.

Declare Scope c_scope.
Delimit Scope c_scope with c.
Notation "'BUG_ON' b ; k" := (if b then Fault BUG else k)
  (at level 100, b at level 99, k at level 200, right associativity) : c_scope.

Lemma bind_ok {A B} (r : res A) (k : A → res B) (b : B) :
  r ≫= k = Ok b → ∃ a, r = Ok a ∧ k a = Ok b.
Proof. destruct r as [a|f]; simpl; [eauto | done]. Qed.

(** [rstep] runs a statement whose result is known. *)
Ltac rstep := cbn [mbind res_bind mret res_ret].

(** [res_inv] decomposes a successful sequence of C statements. *)
Ltac res_inv :=
  repeat match goal with
  | H : (_ ≫= _) = Ok _ |- _ =>
      let a := fresh "a" in let Ha := fresh "Ha" in
      apply bind_ok in H as (a & Ha & H)
  | H : Ok _ = Ok _ |- _ => injection H as H; subst
  | H : Fault _ = Ok _ |- _ => discriminate H
  | H : Ok _ = Fault _ |- _ => discriminate H
  | H : (if ?b then Fault _ else _) = Ok _ |- _ =>
      let E := fresh "E" in destruct b eqn:E; [discriminate H |]
  end.

(** * Loops

    [for_up n body s] is [for (i = 0; i < n; i++) s = body(i, s)] and
    [for_down n body s] is [for (i = n-1; i >= 0; i--) s = body(i, s)]. *)
Fixpoint for_from {St} (i n : nat) (body : nat → St → res St) (s : St) : res St :=
  match n with
  | O => Ok s
  | S n' => s' ← body i s; for_from (S i) n' body s'
  end.

Definition for_up {St} (n : nat) (body : nat → St → res St) (s : St) : res St :=
  for_from 0 n body s.

Fixpoint for_down {St} (n : nat) (body : nat → St → res St) (s : St) : res St :=
  match n with
  | O => Ok s
  | S n' => s' ← body n' s; for_down n' body s'
  end.

Section loops.
Context {St : Type} (body : nat → St → res St).

Lemma for_from_inv (I : nat → St → Prop) i n s :
  I i s →
  (∀ k s', i ≤ k < i + n → I k s' → ∃ s'', body k s' = Ok s'' ∧ I (S k) s'') →
  ∃ s', for_from i n body s = Ok s' ∧ I (i + n) s'.
Proof.
  revert i s. induction n as [|n IH]; intros i s HI Hstep; simpl.
  - exists s. by rewrite Nat.add_0_r.
  - destruct (Hstep i s) as (s1 & -> & H1); [lia | done |]. simpl.
    destruct (IH (S i) s1) as (s2 & -> & H2); [done | |].
    + intros k s' Hk. apply Hstep. lia.
    + exists s2. split; [done|]. by replace (i + S n) with (S i + n) by lia.
Qed.

(** Loop rule with an invariant; the conclusion includes that the loop
    runs to its end without a fault. *)
Lemma for_up_inv (I : nat → St → Prop) n s :
  I 0 s →
  (∀ k s', k < n → I k s' → ∃ s'', body k s' = Ok s'' ∧ I (S k) s'') →
  ∃ s', for_up n body s = Ok s' ∧ I n s'.
Proof.
  intros H0 Hstep. destruct (for_from_inv I 0 n s) as (s' & Hs & HI); eauto.
  intros k s' Hk. apply Hstep. lia.
Qed.

Lemma for_down_inv (I : nat → St → Prop) n s :
  I n s →
  (∀ k s', k < n → I (S k) s' → ∃ s'', body k s' = Ok s'' ∧ I k s'') →
  ∃ s', for_down n body s = Ok s' ∧ I 0 s'.
Proof.
  revert s. induction n as [|n IH]; intros s HI Hstep; simpl; [eauto|].
  destruct (Hstep n s) as (s1 & -> & H1); [lia | done |]. simpl.
  apply IH; [done|]. intros k s' Hk. apply Hstep. lia.
Qed.
End loops.

(** A loop whose body never faults is a fold. *)
Lemma for_from_pure {St} (body : nat → St → res St) (step : nat → St → St) i n s :
  (∀ k s', i ≤ k < i + n → body k s' = Ok (step k s')) →
  for_from i n body s = Ok (foldl (fun s k => step k s) s (seq i n)).
Proof.
  revert i s. induction n as [|n IH]; intros i s Hb; simpl; [done|].
  rewrite Hb by lia. rstep. apply IH. intros. apply Hb. lia.
Qed.

Lemma for_up_pure {St} (body : nat → St → res St) (step : nat → St → St) n s :
  (∀ k s', k < n → body k s' = Ok (step k s')) →
  for_up n body s = Ok (foldl (fun s k => step k s) s (seq 0 n)).
Proof. intros Hb. apply for_from_pure. intros. apply Hb. lia. Qed.

Lemma for_down_pure {St} (body : nat → St → res St) (step : nat → St → St) n s :
  (∀ k s', k < n → body k s' = Ok (step k s')) →
  for_down n body s = Ok (foldr step s (seq 0 n)).
Proof.
  revert s. induction n as [|n IH]; intros s Hb; [done|]. cbn [for_down].
  rewrite Hb by lia. rstep. rewrite IH by (intros; apply Hb; lia).
  by rewrite seq_S, foldr_app.
Qed.

Lemma for_from_ext {St} (b1 b2 : nat → St → res St) i n s :
  (∀ k s', i ≤ k < i + n → b1 k s' = b2 k s') →
  for_from i n b1 s = for_from i n b2 s.
Proof.
  revert i s. induction n as [|n IH]; intros i s Hb; simpl; [done|].
  rewrite Hb by lia. destruct (b2 i s); simpl; [|done].
  apply IH. intros. apply Hb. lia.
Qed.

Lemma for_up_ext {St} (b1 b2 : nat → St → res St) n s :
  (∀ k s', k < n → b1 k s' = b2 k s') → for_up n b1 s = for_up n b2 s.
Proof. intros Hb. apply for_from_ext. intros. apply Hb. lia. Qed.

Lemma for_down_ext {St} (b1 b2 : nat → St → res St) n s :
  (∀ k s', k < n → b1 k s' = b2 k s') → for_down n b1 s = for_down n b2 s.
Proof.
  revert s. induction n as [|n IH]; intros s Hb; [done|]. cbn [for_down].
  rewrite Hb by lia. destruct (b2 n s); rstep; [|done]. apply IH. intros. apply Hb. lia.
Qed.

Lemma foldr_seq_ext {St} (f g : nat → St → St) n s :
  (∀ k s', k < n → f k s' = g k s') → foldr f s (seq 0 n) = foldr g s (seq 0 n).
Proof.
  revert s. induction n as [|n IH]; intros s H; [done|].
  rewrite seq_S, !foldr_app. cbn [foldr]. rewrite H by lia. apply IH. intros. apply H. lia.
Qed.

Lemma list_filter_iff_seq (P Q : nat → Prop) `{∀ x, Decision (P x), ∀ x, Decision (Q x)} n :
  (∀ i, i < n → P i ↔ Q i) → filter P (seq 0 n) = filter Q (seq 0 n).
Proof.
  induction n as [|n IH]; intros HPQ; [done|]. rewrite seq_S, !list.filter_app, IH by auto with lia.
  f_equal. rewrite !filter_cons, !filter_nil. specialize (HPQ n ltac:(lia)). cbn [Nat.add].
  repeat case_decide; naive_solver.
Qed.

Lemma length_filter_fmap {A B} (f : A → B) (P : B → Prop) `{∀ x, Decision (P x)} l :
  length (filter P (f <$> l)) = length (filter (fun x => P (f x)) l).
Proof.
  induction l as [|x l IH]; [done|]. rewrite fmap_cons, !filter_cons. case_decide; simpl; auto.
Qed.

(** * Machine integers

    A w-bit unsigned integer is a [Z] in [0, 2^w); [wrap w] is the reduction
    C performs on assignment or on unsigned arithmetic. *)
Definition wrap (w x : Z) : Z := (x mod 2 ^ w)%Z.
Abbreviation u8 := (wrap 8).
Abbreviation u16 := (wrap 16).
Abbreviation u32 := (wrap 32).
Abbreviation u64 := (wrap 64).
(** Conversion to a signed 32-bit integer. *)
Definition s32 (x : Z) : Z := (wrap 32 (x + 2 ^ 31) - 2 ^ 31)%Z.

Definition byte_range (x : Z) : Prop := (0 ≤ x < 256)%Z.

Create HintDb cint.

Section widths.
Local Open Scope Z_scope.

Lemma wrap_range w x : 0 ≤ w → 0 ≤ wrap w x < 2 ^ w.
Proof. intros. apply Z.mod_pos_bound. lia. Qed.

Lemma wrap_small w x : 0 ≤ x < 2 ^ w → wrap w x = x.
Proof. apply Z.mod_small. Qed.

Lemma wrap_land w x : 0 ≤ w → wrap w x = Z.land x (Z.ones w).
Proof. intros. unfold wrap. by rewrite Z.land_ones. Qed.

Lemma wrap_testbit w x i : 0 ≤ w → 0 ≤ i →
  Z.testbit (wrap w x) i = (i <? w) && Z.testbit x i.
Proof.
  intros. unfold wrap. destruct (Z.ltb_spec i w).
  - by rewrite Z.mod_pow2_bits_low.
  - by rewrite Z.mod_pow2_bits_high.
Qed.

(** A non-negative number is below [2^w] exactly when no bit from [w] on is set. *)
Lemma testbit_high w x i : 0 ≤ x < 2 ^ w → w ≤ i → Z.testbit x i = false.
Proof.
  intros Hx Hi. destruct (Z.eq_dec x 0) as [->|]; [apply Z.bits_0|].
  apply Z.bits_above_log2; [lia|].
  apply Z.log2_lt_pow2; [lia|].
  assert (2 ^ w ≤ 2 ^ i) by (apply Z.pow_le_mono_r; lia). lia.
Qed.

Lemma bits_bound w x :
  0 ≤ w → 0 ≤ x → (∀ i, w ≤ i → Z.testbit x i = false) → x < 2 ^ w.
Proof.
  intros Hw Hx Hb. destruct (Z.eq_dec x 0) as [->|Hne]; [lia|].
  apply Z.log2_lt_pow2; [lia|].
  destruct (Z.lt_ge_cases (Z.log2 x) w) as [|Hge]; [done|].
  specialize (Hb (Z.log2 x) Hge). rewrite Z.bit_log2 in Hb by lia. done.
Qed.

Lemma lxor_bound w x y : 0 ≤ w → 0 ≤ x < 2 ^ w → 0 ≤ y < 2 ^ w →
  0 ≤ Z.lxor x y < 2 ^ w.
Proof.
  intros Hw Hx Hy. assert (0 ≤ Z.lxor x y) by (apply Z.lxor_nonneg; lia).
  split; [done|]. apply bits_bound; [done..|]. intros i Hi.
  rewrite Z.lxor_spec, (testbit_high w x), (testbit_high w y) by done. done.
Qed.

Lemma land_bound_l w x y : 0 ≤ w → 0 ≤ x < 2 ^ w → 0 ≤ Z.land x y < 2 ^ w.
Proof.
  intros Hw Hx. assert (0 ≤ Z.land x y) by (apply Z.land_nonneg; lia).
  split; [done|]. apply bits_bound; [done..|]. intros i Hi.
  by rewrite Z.land_spec, (testbit_high w x).
Qed.

Lemma lor_bound w x y : 0 ≤ w → 0 ≤ x < 2 ^ w → 0 ≤ y < 2 ^ w →
  0 ≤ Z.lor x y < 2 ^ w.
Proof.
  intros Hw Hx Hy. assert (0 ≤ Z.lor x y) by (apply Z.lor_nonneg; lia).
  split; [done|]. apply bits_bound; [done..|]. intros i Hi.
  rewrite Z.lor_spec, (testbit_high w x), (testbit_high w y) by done. done.
Qed.

Lemma byte_lxor x y : byte_range x → byte_range y → byte_range (Z.lxor x y).
Proof. apply (lxor_bound 8); lia. Qed.

Lemma byte_0 : byte_range 0.
Proof. unfold byte_range. lia. Qed.

Lemma u8_byte x : byte_range (wrap 8 x).
Proof. apply wrap_range. lia. Qed.

Lemma lxor_cancel_l x y : Z.lxor x (Z.lxor x y) = y.
Proof. by rewrite <-Z.lxor_assoc, Z.lxor_nilpotent, Z.lxor_0_l. Qed.

Lemma lxor_cancel_r x y : Z.lxor (Z.lxor x y) y = x.
Proof. by rewrite Z.lxor_assoc, Z.lxor_nilpotent, Z.lxor_0_r. Qed.
End widths.

#[export] Hint Resolve byte_lxor byte_0 u8_byte : cint.

(** [xor_ring] proves equalities of nested exclusive ors up to associativity,
    commutativity and cancellation, bit by bit. *)
Ltac xor_ring :=
  apply Z.bits_inj'; intros ?i ?Hi; rewrite ?Z.lxor_spec, ?Z.bits_0;
  repeat match goal with |- context [Z.testbit ?x ?i] => destruct (Z.testbit x i) end;
  reflexivity.

(** * Exhaustive checks over small ranges *)
Definition all_below (n : nat) (P : Z → bool) : bool :=
  forallb (fun k => P (Z.of_nat k)) (seq 0 n).

Lemma all_below_spec n P : all_below n P = true →
  ∀ x, (0 ≤ x < Z.of_nat n)%Z → P x = true.
Proof.
  intros H x Hx. unfold all_below in H. rewrite List.forallb_forall in H.
  specialize (H (Z.to_nat x)). rewrite Z2Nat.id in H by lia.
  apply H, List.in_seq. lia.
Qed.

Definition all_below2 (n1 n2 : nat) (P : Z → Z → bool) : bool :=
  all_below n1 (fun x => all_below n2 (P x)).

Lemma all_below2_spec n1 n2 P : all_below2 n1 n2 P = true →
  ∀ x y, (0 ≤ x < Z.of_nat n1)%Z → (0 ≤ y < Z.of_nat n2)%Z → P x y = true.
Proof.
  intros H x y Hx Hy.
  exact (all_below_spec _ _ (all_below_spec _ _ H x Hx) y Hy).
Qed.
