(* ===== verification/CMemory.v ===== *)
(** * Buffers, pointers and little-endian words

    The data path works on arrays of buffer pointers in which [NULL] means
    "not available" and [(void * )(-1)] "not wanted".  Memory is a store of
    numbered byte buffers; pointers to the same buffer alias.  Every access
    is checked: reading through [NULL] or past the end of a buffer is a
    [Fault], so a theorem that a routine returns [Ok] also shows that its
    accesses are in bounds. *)
From stdpp Require Import base list gmap numbers.
From Stdlib Require Import ZArith Lia.
From S2P Require Import Prelude.

Inductive ptr : Set :=
| NULL
| MINUS1
| PTR (b : nat).

#[export] Instance ptr_eq_dec : EqDecision ptr.
Proof. solve_decision. Defined.

Definition is_null (p : ptr) : bool := bool_decide (p = NULL).
Definition is_minus1 (p : ptr) : bool := bool_decide (p = MINUS1).

Lemma is_minus1_spec p : is_minus1 p = false ↔ p ≠ MINUS1.
Proof. unfold is_minus1. by rewrite bool_decide_eq_false. Qed.

Abbreviation mem := (gmap nat (list Z)).

Definition load8 (m : mem) (p : ptr) (i : nat) : res Z :=
  match p with
  | PTR b =>
      match m !! b with
      | Some buf => match buf !! i with Some v => Ok v | None => Fault OOB end
      | None => Fault OOB
      end
  | _ => Fault NULL_DEREF
  end.

Definition store8 (m : mem) (p : ptr) (i : nat) (v : Z) : res mem :=
  match p with
  | PTR b =>
      match m !! b with
      | Some buf =>
          if decide (i < length buf) then Ok (<[b := <[i := v]> buf]> m)
          else Fault OOB
      | None => Fault OOB
      end
  | _ => Fault NULL_DEREF
  end.

(** Arrays of the C code ([data], [coding], [crc], ...): checked read and
    checked update by index. *)
Definition aget {A} (l : list A) (i : nat) : res A :=
  match l !! i with Some x => Ok x | None => Fault OOB end.
Definition aset {A} (l : list A) (i : nat) (x : A) : res (list A) :=
  if decide (i < length l) then Ok (<[i := x]> l) else Fault OOB.

Lemma aget_ok {A} (l : list A) i x : aget l i = Ok x ↔ l !! i = Some x.
Proof. unfold aget. destruct (l !! i); split; congruence. Qed.

Lemma aset_ok {A} (l : list A) i x : i < length l → aset l i x = Ok (<[i := x]> l).
Proof. intros. unfold aset. by rewrite decide_True. Qed.

(** A loop that assigns each of the first [n] elements of an array from its old value. *)
Lemma for_up_map_gen {A} (b : nat → list A → res (list A)) (f : A → A) n (l : list A) : (n ≤ length l)%nat →
  (∀ k x s, k < n → l !! k = Some x → s !! k = Some x → b k s = aset s k (f x)) →
  for_up n b l = Ok ((f <$> take n l) ++ drop n l).
Proof.
  intros Hn Hb. destruct (for_up_inv b (fun k s => s = (f <$> take k l) ++ drop k l) n l) as (s & -> & ->); [done| |done].
  intros k s Hk ->. destruct (lookup_lt_is_Some_2 l k) as [x Ex]; [lia|].
  assert (length (f <$> take k l) = k) as Hk' by (rewrite length_fmap, length_take; lia).
  rewrite (Hb k x) by (done || (rewrite lookup_app_r, Hk', Nat.sub_diag, lookup_drop, Nat.add_0_r by lia; done)).
  rewrite aset_ok by (rewrite length_app, Hk', length_drop; lia). eexists. split; [reflexivity|].
  rewrite insert_app_r_alt, Hk', Nat.sub_diag by lia. rewrite (take_S_r _ _ _ Ex), fmap_app, <-app_assoc.
  by rewrite (drop_S _ _ _ Ex).
Qed.

Lemma for_up_map {A} (f : A → A) n (l : list A) : (n ≤ length l)%nat →
  for_up n (fun i s => x ← aget s i; aset s i (f x)) l = Ok ((f <$> take n l) ++ drop n l).
Proof. intros Hn. apply for_up_map_gen; [done|]. intros k x s _ _ Hs. by rewrite (proj2 (aget_ok _ _ _) Hs). Qed.

(** ** Loads after stores *)
Lemma load8_lt m p i v : load8 m p i = Ok v → ∃ b buf,
  p = PTR b ∧ m !! b = Some buf ∧ buf !! i = Some v ∧ i < length buf.
Proof.
  destruct p as [| |b]; simpl; try done. destruct (m !! b) as [buf|] eqn:Hb; [|done].
  destruct (buf !! i) eqn:Hi; [|done]. intros [= ->].
  exists b, buf. eauto using lookup_lt_Some.
Qed.

Lemma store8_ok m p i v w : load8 m p i = Ok w → ∃ m', store8 m p i v = Ok m'.
Proof.
  intros (b & buf & -> & Hb & _ & Hlt)%load8_lt. simpl. rewrite Hb.
  rewrite decide_True by done. eauto.
Qed.

Lemma load8_store8 m p i v m' q j : store8 m p i v = Ok m' →
  load8 m' q j = if decide (q = p ∧ j = i) then Ok v else load8 m q j.
Proof.
  destruct p as [| |b]; simpl; try done. destruct (m !! b) as [buf|] eqn:Hb; [|done].
  destruct (decide (i < length buf)) as [Hi|]; [|done]. intros [= <-].
  destruct q as [| |c]; [by rewrite decide_False by (intros [? ?]; done) .. |]; simpl.
  destruct (decide (c = b)) as [->|Hne].
  - rewrite lookup_insert_eq, Hb. destruct (decide (j = i)) as [->|Hji].
    + rewrite decide_True by done. by rewrite list_lookup_insert_eq.
    + rewrite decide_False by (intros [? ?]; done). by rewrite list_lookup_insert_ne.
  - rewrite lookup_insert_ne by done. by rewrite decide_False by (intros [? ?]; congruence).
Qed.

Lemma load8_store8_eq m p i v m' : store8 m p i v = Ok m' → load8 m' p i = Ok v.
Proof. intros H. rewrite (load8_store8 _ _ _ _ _ p i H). by rewrite decide_True. Qed.

Lemma load8_store8_ne m p i v m' q j : store8 m p i v = Ok m' →
  q ≠ p ∨ j ≠ i → load8 m' q j = load8 m q j.
Proof.
  intros H Hne. rewrite (load8_store8 _ _ _ _ _ q j H).
  apply decide_False. naive_solver.
Qed.

(** ** Contents of buffers

    [holds m p n f]: the first [n] bytes of the buffer [p] are [f 0 .. f (n-1)].
    [written m p n f m']: [m'] is [m] with the first [n] bytes of [p] replaced
    by [f 0 .. f (n-1)], every other byte unchanged. *)
Definition holds (m : mem) (p : ptr) (n : nat) (f : nat → Z) : Prop :=
  ∀ j, j < n → load8 m p j = Ok (f j).

Definition valid (m : mem) (p : ptr) (n : nat) : Prop :=
  ∀ j, j < n → ∃ v, load8 m p j = Ok v.

Definition written (m : mem) (p : ptr) (n : nat) (f : nat → Z) (m' : mem) : Prop :=
  holds m' p n f ∧ ∀ q j, q ≠ p ∨ n ≤ j → load8 m' q j = load8 m q j.

Lemma holds_valid m p n f : holds m p n f → valid m p n.
Proof. intros H j Hj. eauto. Qed.

Lemma holds_le m p n k f : k ≤ n → holds m p n f → holds m p k f.
Proof. intros Hk H j Hj. apply H. lia. Qed.

Lemma holds_ext m p n f g : (∀ j, j < n → f j = g j) → holds m p n f → holds m p n g.
Proof. intros Hfg H j Hj. rewrite <-Hfg by done. auto. Qed.

Lemma written_ext m p n f g m' : (∀ j, j < n → f j = g j) →
  written m p n f m' → written m p n g m'.
Proof. intros Hfg [H1 H2]. split; [|done]. eauto using holds_ext. Qed.

Lemma written_0 m p f : written m p 0 f m.
Proof. split; [intros j ?; lia | done]. Qed.

Lemma written_step m p n f m1 m2 :
  written m p n f m1 → store8 m1 p n (f n) = Ok m2 → written m p (S n) f m2.
Proof.
  intros [H1 H2] Hs. split.
  - intros j Hj. destruct (decide (j = n)) as [->|].
    + by eapply load8_store8_eq.
    + erewrite load8_store8_ne by eauto. apply H1. lia.
  - intros q j Hq. erewrite load8_store8_ne by (eauto; naive_solver lia).
    apply H2. naive_solver lia.
Qed.

Lemma written_holds m p n f m' : written m p n f m' → holds m' p n f.
Proof. by intros [H _]. Qed.

Lemma written_frame m p n f m' q k g :
  written m p n f m' → q ≠ p → holds m q k g → holds m' q k g.
Proof. intros [_ Hf] Hq Hg j Hj. rewrite Hf by (by left). auto. Qed.

Lemma written_valid m p n f m' q k :
  written m p n f m' → valid m q k → valid m' q k.
Proof.
  intros [Hh Hf] Hv j Hj. destruct (decide (q = p ∧ j < n)) as [[-> Hn]|Hne].
  - eauto.
  - rewrite Hf; [auto|]. destruct (decide (q = p)); [right|left]; [|done].
    assert (¬ j < n) by naive_solver. lia.
Qed.

(** Checking contents and sizes by evaluation. *)
Definition holdsb (m : mem) (p : ptr) (n : nat) (f : nat → Z) : bool :=
  forallb (fun j => match load8 m p j with Ok v => (v =? f j)%Z | Fault _ => false end) (seq 0 n).
Definition validb (m : mem) (p : ptr) (n : nat) : bool :=
  forallb (fun j => match load8 m p j with Ok _ => true | Fault _ => false end) (seq 0 n).

Lemma holdsb_ok m p n f : holdsb m p n f = true → holds m p n f.
Proof.
  intros H j Hj. unfold holdsb in H. rewrite List.forallb_forall in H.
  specialize (H j ltac:(apply List.in_seq; lia)). destruct (load8 m p j); [|done].
  apply Z.eqb_eq in H. by subst.
Qed.
Lemma validb_ok m p n : validb m p n = true → valid m p n.
Proof.
  intros H j Hj. unfold validb in H. rewrite List.forallb_forall in H.
  specialize (H j ltac:(apply List.in_seq; lia)). destruct (load8 m p j); [eauto|done].
Qed.

(** ** Little-endian words *)
Fixpoint le_word (bs : list Z) : Z :=
  match bs with
  | [] => 0
  | b :: t => b + 256 * le_word t
  end%Z.

Fixpoint le_bytes (n : nat) (w : Z) : list Z :=
  match n with
  | O => []
  | S n' => (w mod 256)%Z :: le_bytes n' (w / 256)%Z
  end.

Definition le_byte (k : nat) (w : Z) : Z := ((w / 256 ^ Z.of_nat k) mod 256)%Z.

Fixpoint load_bytes (m : mem) (p : ptr) (off n : nat) : res (list Z) :=
  match n with
  | O => Ok []
  | S n' => b ← load8 m p off; bs ← load_bytes m p (S off) n'; Ok (b :: bs)
  end.

Fixpoint store_bytes (m : mem) (p : ptr) (off : nat) (bs : list Z) : res mem :=
  match bs with
  | [] => Ok m
  | b :: t => m' ← store8 m p off b; store_bytes m' p (S off) t
  end.

(** [((u64 * )p)[j]] read and written. *)
Definition load64 (m : mem) (p : ptr) (j : nat) : res Z :=
  bs ← load_bytes m p (8 * j) 8; Ok (le_word bs).
Definition store64 (m : mem) (p : ptr) (j : nat) (w : Z) : res mem :=
  store_bytes m p (8 * j) (le_bytes 8 w).

Definition memcpy (m : mem) (dst src : ptr) (len : nat) : res mem :=
  bs ← load_bytes m src 0 len; store_bytes m dst 0 bs.

Lemma length_le_bytes n w : length (le_bytes n w) = n.
Proof. revert w. induction n; intros; simpl; auto. Qed.

Lemma le_bytes_range n w : Forall byte_range (le_bytes n w).
Proof.
  revert w. induction n as [|n IH]; intros w; simpl; constructor; [|done].
  apply Z.mod_pos_bound. lia.
Qed.

Lemma le_bytes_lookup n w k : k < n → le_bytes n w !! k = Some (le_byte k w).
Proof.
  revert w k. induction n as [|n IH]; intros w k Hk; [lia|].
  destruct k as [|k]; simpl.
  - unfold le_byte. simpl. by rewrite Z.div_1_r.
  - rewrite IH by lia. f_equal. unfold le_byte.
    rewrite Zdiv.Zdiv_Zdiv by lia. do 2 f_equal.
    rewrite <-Z.pow_succ_r by lia. f_equal. lia.
Qed.

Lemma le_byte_range k w : byte_range (le_byte k w).
Proof. apply Z.mod_pos_bound. lia. Qed.

Lemma le_word_bytes n w : le_word (le_bytes n w) = (w mod 256 ^ Z.of_nat n)%Z.
Proof.
  revert w. induction n as [|n IH]; intros w; cbn [le_word le_bytes].
  - by rewrite Z.mod_1_r.
  - rewrite IH. replace (Z.of_nat (S n)) with (Z.succ (Z.of_nat n)) by lia.
    rewrite Z.pow_succ_r by lia. rewrite Z.rem_mul_r by lia. done.
Qed.

Lemma le_bytes_word bs : Forall byte_range bs → le_bytes (length bs) (le_word bs) = bs.
Proof.
  induction 1 as [|b bs Hb _ IH]; simpl; [done|]. unfold byte_range in Hb. f_equal.
  - rewrite Z.mul_comm, Z.mod_add by lia. by apply Z.mod_small.
  - rewrite Z.mul_comm, Z.div_add by lia. by rewrite Z.div_small.
Qed.

Lemma le_word_range bs : Forall byte_range bs →
  (0 ≤ le_word bs < 256 ^ Z.of_nat (length bs))%Z.
Proof.
  intros H. rewrite <-(le_bytes_word bs) at 1 2 by done.
  rewrite le_word_bytes. apply Z.mod_pos_bound. lia.
Qed.

Lemma load_bytes_ok m p off n f :
  (∀ k, off ≤ k < off + n → load8 m p k = Ok (f k)) →
  load_bytes m p off n = Ok (f <$> seq off n).
Proof.
  revert off. induction n as [|n IH]; intros off H; simpl; [done|].
  rewrite H by lia; simpl. rewrite IH; [done|]. intros k Hk. apply H. lia.
Qed.

Lemma load64_ok m p j f :
  (∀ k, 8 * j ≤ k < 8 * j + 8 → load8 m p k = Ok (f k)) →
  load64 m p j = Ok (le_word (f <$> seq (8 * j) 8)).
Proof. intros H. unfold load64. by rewrite (load_bytes_ok _ _ _ _ f). Qed.

Lemma store_bytes_written m p off f bs m1 :
  written m p off f m1 →
  (∀ k, k < length bs → ∃ v, load8 m p (off + k) = Ok v) →
  (∀ k b, bs !! k = Some b → f (off + k) = b) →
  ∃ m2, store_bytes m1 p off bs = Ok m2 ∧ written m p (off + length bs) f m2.
Proof.
  revert off m1. induction bs as [|b bs IH]; intros off m1 Hw Hv Hf; simpl.
  - exists m1. by rewrite Nat.add_0_r.
  - destruct (Hv 0) as [w Hw0]; [simpl; lia|]. rewrite Nat.add_0_r in Hw0.
    destruct (store8_ok m1 p off b w) as [m2 Hm2].
    { destruct Hw as [_ Hfr]. by rewrite Hfr by (by right). }
    assert (f off = b) as <- by (rewrite <-(Nat.add_0_r off); by apply Hf).
    rewrite Hm2; simpl. destruct (IH (S off) m2) as (m3 & -> & Hw3).
    + by eapply written_step.
    + intros k Hk. rewrite Nat.add_succ_comm. apply Hv. simpl. lia.
    + intros k b' Hb'. rewrite Nat.add_succ_comm. by apply Hf.
    + exists m3. split; [done|]. by rewrite <-Nat.add_succ_comm.
Qed.

Lemma memcpy_written m dst src len f :
  holds m src len f → valid m dst len →
  ∃ m', memcpy m dst src len = Ok m' ∧ written m dst len f m'.
Proof.
  intros Hs Hd. unfold memcpy. rewrite (load_bytes_ok _ _ _ _ f).
  2:{ intros k Hk. apply Hs. lia. }
  simpl. destruct (store_bytes_written m dst 0 f (f <$> seq 0 len) m) as (m' & -> & Hw).
  - apply written_0.
  - intros k Hk. rewrite length_fmap, length_seq in Hk. by apply Hd.
  - intros k b (x & -> & Hx)%list_lookup_fmap_Some.
    apply lookup_seq in Hx as [-> _]. done.
  - exists m'. split; [done|]. by rewrite length_fmap, length_seq in Hw.
Qed.

(** ** Progress of loops that fill buffers

    [mem_at m m' l F]: [m'] is [m] after the first [l q] bytes of every buffer
    [q] have been overwritten by [F q]. *)
Definition mem_at (m m' : mem) (l : ptr → nat) (F : ptr → nat → Z) : Prop :=
  ∀ q j, load8 m' q j = if decide (j < l q) then Ok (F q j) else load8 m q j.

Definition upd {A B} `{EqDecision A} (f : A → B) (a : A) (b : B) : A → B :=
  fun x => if decide (x = a) then b else f x.

Lemma upd_eq {A B} `{EqDecision A} (f : A → B) a b : upd f a b a = b.
Proof. unfold upd. by rewrite decide_True. Qed.
Lemma upd_ne {A B} `{EqDecision A} (f : A → B) a b x : x ≠ a → upd f a b x = f x.
Proof. intros. unfold upd. by rewrite decide_False. Qed.

(** The word at index [j] of a buffer that holds [f]. *)
Definition wordof (f : nat → Z) (j : nat) : Z := le_word (f <$> seq (8 * j) 8).

Section progress.
Context (m m1 : mem) (l : ptr → nat) (F : ptr → nat → Z) (Hat : mem_at m m1 l F).

Lemma load8_at p len D j : holds m p len D → l p ≤ j → j < len → load8 m1 p j = Ok (D j).
Proof using Hat. intros Hp Hl Hj. rewrite Hat, decide_False by lia. auto. Qed.

Lemma load64_at p len D j : holds m p len D → l p ≤ 8 * j → 8 * S j ≤ len →
  load64 m1 p j = Ok (wordof D j).
Proof using Hat.
  intros Hp Hl Hj. apply load64_ok. intros k Hk. apply load8_at with len; [done|lia..].
Qed.

Lemma valid_at p len : valid m p len → valid m1 p len.
Proof using Hat. intros Hv j Hj. rewrite Hat. case_decide; eauto. Qed.

Lemma store8_at p len j : valid m p len → j < len → l p = j →
  ∃ m2, store8 m1 p j (F p j) = Ok m2 ∧ mem_at m m2 (upd l p (S j)) F.
Proof using Hat.
  intros Hv Hj Hl. destruct (valid_at p len Hv j Hj) as [v Hload].
  destruct (store8_ok m1 p j (F p j) v Hload) as [m2 Hm2]. exists m2. split; [done|].
  intros q i. rewrite (load8_store8 _ _ _ _ _ q i Hm2), Hat. unfold upd.
  destruct (decide (q = p)) as [->|Hq].
  - rewrite Hl. destruct (decide (i = j)) as [->|].
    { by rewrite decide_True, decide_True by (done || lia). }
    rewrite (decide_False (P := p = p ∧ i = j)) by naive_solver.
    destruct (decide (i < j)); [by rewrite decide_True by lia | by rewrite decide_False by lia].
  - by rewrite (decide_False (P := q = p ∧ i = j)) by naive_solver.
Qed.
End progress.

Lemma mem_at_refl m F : mem_at m m (fun _ => 0) F.
Proof. intros q j. by rewrite decide_False by lia. Qed.

Lemma mem_at_ext m m' l l' F F' :
  (∀ q, l q = l' q) → (∀ q j, j < l q → F q j = F' q j) → mem_at m m' l F → mem_at m m' l' F'.
Proof.
  intros Hl HF H q j. rewrite H, <-Hl. case_decide; [|done]. by rewrite HF.
Qed.

Lemma mem_at_holds m m' l F p n : mem_at m m' l F → n ≤ l p → holds m' p n (F p).
Proof. intros H Hn j Hj. by rewrite H, decide_True by lia. Qed.

Lemma mem_at_frame m m' l F p n D : mem_at m m' l F → l p = 0 → holds m p n D → holds m' p n D.
Proof. intros H Hl Hp j Hj. rewrite H, decide_False by lia. auto. Qed.

Lemma le_byte_word bs k b : Forall byte_range bs → bs !! k = Some b →
  le_byte k (le_word bs) = b.
Proof.
  intros Hbs Hk. assert (k < length bs) by eauto using lookup_lt_Some.
  assert (Some (le_byte k (le_word bs)) = Some b) as E; [|congruence].
  rewrite <-Hk, <-(le_bytes_lookup (length bs)) by done. by rewrite le_bytes_word.
Qed.

Lemma store_bytes_at m m1 l F p len off bs : mem_at m m1 l F → valid m p len →
  off + length bs ≤ len → l p = off →
  (∀ k b, bs !! k = Some b → F p (off + k) = b) →
  ∃ m2, store_bytes m1 p off bs = Ok m2 ∧ mem_at m m2 (upd l p (off + length bs)) F.
Proof.
  revert off m1 l. induction bs as [|b bs IH]; intros off m1 l Hat Hv Hlen Hl HF; simpl in *.
  - exists m1. split; [done|]. eapply mem_at_ext; [|done|exact Hat].
    intros q. unfold upd. case_decide; subst; lia.
  - assert (F p off = b) as <- by (rewrite <-(HF 0 b eq_refl); f_equal; lia).
    destruct (store8_at _ _ _ _ Hat p len off) as (m2 & -> & Hat2); [done|lia|done|]. rstep.
    destruct (IH (S off) m2 _ Hat2 Hv) as (m3 & -> & Hat3).
    + lia.
    + apply upd_eq.
    + intros k b' Hb'. rewrite <-(HF (S k) b' Hb'). f_equal. lia.
    + exists m3. split; [done|]. eapply mem_at_ext; [|done|exact Hat3].
      intros q. unfold upd. repeat case_decide; subst; lia.
Qed.

Lemma wordof_range f j : (∀ k, byte_range (f k)) → (0 ≤ wordof f j < 2 ^ 64)%Z.
Proof.
  intros Hf. unfold wordof. pose proof (le_word_range (f <$> seq (8 * j) 8)) as H.
  rewrite length_fmap, length_seq in H. apply H, Forall_fmap, Forall_seq. auto.
Qed.

Lemma le_bytes_wordof f j : (∀ k, byte_range (f k)) →
  le_bytes 8 (wordof f j) = f <$> seq (8 * j) 8.
Proof.
  intros Hf. pose proof (le_bytes_word (f <$> seq (8 * j) 8)) as H.
  rewrite length_fmap, length_seq in H. apply H, Forall_fmap, Forall_seq. auto.
Qed.

Lemma store64_at m m1 l F p len j : mem_at m m1 l F → valid m p len → 8 * S j ≤ len →
  l p = 8 * j → (∀ k, byte_range (F p k)) →
  ∃ m2, store64 m1 p j (wordof (F p) j) = Ok m2 ∧ mem_at m m2 (upd l p (8 * S j)) F.
Proof.
  intros Hat Hv Hj Hl HF. unfold store64. rewrite le_bytes_wordof by done.
  destruct (store_bytes_at m m1 l F p len (8 * j) (F p <$> seq (8 * j) 8)) as (m2 & Hm2 & Hat2);
    rewrite ?length_fmap, ?length_seq in *; try done; try lia.
  - intros k b (x & -> & Hx)%list_lookup_fmap_Some. by apply lookup_seq in Hx as [-> _].
  - exists m2. split; [exact Hm2|]. by replace (8 * S j) with (8 * j + 8) by lia.
Qed.

(** [touched m m' n W]: [m'] differs from [m] at most in the first [n] bytes of
    the buffers in [W], and no buffer has shrunk. *)
Definition touched (m m' : mem) (n : nat) (W : ptr → Prop) : Prop :=
  ∀ q j, load8 m' q j = load8 m q j ∨ (W q ∧ j < n ∧ ∃ v, load8 m' q j = Ok v).

Lemma touched_refl m n W : touched m m n W.
Proof. intros q j. by left. Qed.

Lemma touched_trans m1 m2 m3 n W : touched m1 m2 n W → touched m2 m3 n W → touched m1 m3 n W.
Proof.
  intros H12 H23 q j. destruct (H23 q j) as [E|]; [|by right]. rewrite E. apply H12.
Qed.

Lemma touched_mono m m' n (W W' : ptr → Prop) :
  (∀ q, W q → W' q) → touched m m' n W → touched m m' n W'.
Proof. intros HW H q j. destruct (H q j) as [|(?&?&?)]; [by left|right; auto]. Qed.

#[export] Instance touched_proper m m' n :
  Proper (pointwise_relation ptr iff ==> iff) (touched m m' n).
Proof.
  intros W W' HW. split; apply touched_mono; intros q; apply HW.
Qed.

Lemma touched_holds m m' n W p k D : touched m m' n W → ¬ W p → holds m p k D → holds m' p k D.
Proof. intros H HW Hp j Hj. destruct (H p j) as [->|[? _]]; [auto|done]. Qed.

Lemma touched_valid m m' n W p k : touched m m' n W → valid m p k → valid m' p k.
Proof. intros H Hp j Hj. destruct (H p j) as [->|(_&_&?)]; auto. Qed.

Lemma mem_at_touched m m' l F n (W : ptr → Prop) : mem_at m m' l F →
  (∀ q, l q = 0 ∨ (W q ∧ l q ≤ n)) → touched m m' n W.
Proof.
  intros H Hl q j. destruct (decide (j < l q)) as [Hj|Hj].
  - right. destruct (Hl q) as [|[? ?]]; [lia|]. split_and!; [done|lia|].
    exists (F q j). by rewrite H, decide_True.
  - left. by rewrite H, decide_False.
Qed.

Lemma written_touched m p n f m' : written m p n f m' → touched m m' n (fun q => q = p).
Proof.
  intros [Hh Hf] q j. destruct (decide (q = p ∧ j < n)) as [[-> Hj]|Hne].
  - right. eauto.
  - left. apply Hf. destruct (decide (q = p)); [right|by left].
    destruct (decide (j < n)); [naive_solver | lia].
Qed.
