(* ===== verification/GaloisField.v ===== *)
(** * The Galois field GF(2^8) of the erasure code

    Models the arithmetic of
    [clnt/block/datapath_ec/nvmeibc_block_dp_ec_gf.c]: the exponential and
    logarithm tables, the table based multiplication and division, the Horner
    step [gfmul_q] used for the Q parity, and the 64-bit variants that treat a
    word as eight bytes in parallel.

    The theorems show that the tables implement carry-less multiplication
    modulo x^8+x^4+x^3+x^2+1, that the table operations satisfy the field
    laws, and that every 64-bit variant acts on each of its eight bytes as the
    corresponding byte operation does. *)
From stdpp Require Import base list numbers.
From Stdlib Require Import ZArith Lia.
From S2P Require Import Prelude CMemory.
Local Open Scope Z_scope.

(** ** Tables and byte operations of the source *)
Definition POLY : Z := 0x1d.

Definition gff_base : list Z :=
  [1; 2; 4; 8; 16; 32; 64; 128; 29; 58; 116; 232; 205; 135; 19; 38;
   76; 152; 45; 90; 180; 117; 234; 201; 143; 3; 6; 12; 24; 48; 96; 192;
   157; 39; 78; 156; 37; 74; 148; 53; 106; 212; 181; 119; 238; 193; 159; 35;
   70; 140; 5; 10; 20; 40; 80; 160; 93; 186; 105; 210; 185; 111; 222; 161;
   95; 190; 97; 194; 153; 47; 94; 188; 101; 202; 137; 15; 30; 60; 120; 240;
   253; 231; 211; 187; 107; 214; 177; 127; 254; 225; 223; 163; 91; 182; 113; 226;
   217; 175; 67; 134; 17; 34; 68; 136; 13; 26; 52; 104; 208; 189; 103; 206;
   129; 31; 62; 124; 248; 237; 199; 147; 59; 118; 236; 197; 151; 51; 102; 204;
   133; 23; 46; 92; 184; 109; 218; 169; 79; 158; 33; 66; 132; 21; 42; 84;
   168; 77; 154; 41; 82; 164; 85; 170; 73; 146; 57; 114; 228; 213; 183; 115;
   230; 209; 191; 99; 198; 145; 63; 126; 252; 229; 215; 179; 123; 246; 241; 255;
   227; 219; 171; 75; 150; 49; 98; 196; 149; 55; 110; 220; 165; 87; 174; 65;
   130; 25; 50; 100; 200; 141; 7; 14; 28; 56; 112; 224; 221; 167; 83; 166;
   81; 162; 89; 178; 121; 242; 249; 239; 195; 155; 43; 86; 172; 69; 138; 9;
   18; 36; 72; 144; 61; 122; 244; 245; 247; 243; 251; 235; 203; 139; 11; 22;
   44; 88; 176; 125; 250; 233; 207; 131; 27; 54; 108; 216; 173; 71; 142; 1].

Definition gflog_base : list Z :=
  [0; 255; 1; 25; 2; 50; 26; 198; 3; 223; 51; 238; 27; 104; 199; 75;
   4; 100; 224; 14; 52; 141; 239; 129; 28; 193; 105; 248; 200; 8; 76; 113;
   5; 138; 101; 47; 225; 36; 15; 33; 53; 147; 142; 218; 240; 18; 130; 69;
   29; 181; 194; 125; 106; 39; 249; 185; 201; 154; 9; 120; 77; 228; 114; 166;
   6; 191; 139; 98; 102; 221; 48; 253; 226; 152; 37; 179; 16; 145; 34; 136;
   54; 208; 148; 206; 143; 150; 219; 189; 241; 210; 19; 92; 131; 56; 70; 64;
   30; 66; 182; 163; 195; 72; 126; 110; 107; 58; 40; 84; 250; 133; 186; 61;
   202; 94; 155; 159; 10; 21; 121; 43; 78; 212; 229; 172; 115; 243; 167; 87;
   7; 112; 192; 247; 140; 128; 99; 13; 103; 74; 222; 237; 49; 197; 254; 24;
   227; 165; 153; 119; 38; 184; 180; 124; 17; 68; 146; 217; 35; 32; 137; 46;
   55; 63; 209; 91; 149; 188; 207; 205; 144; 135; 151; 178; 220; 252; 190; 97;
   242; 86; 211; 171; 20; 42; 93; 158; 132; 60; 57; 83; 71; 109; 65; 162;
   31; 45; 67; 216; 183; 123; 164; 118; 196; 23; 73; 236; 127; 12; 111; 246;
   108; 161; 59; 82; 41; 157; 85; 170; 251; 96; 134; 177; 187; 204; 62; 90;
   203; 89; 95; 176; 156; 169; 160; 81; 11; 245; 22; 235; 122; 117; 44; 215;
   79; 174; 213; 233; 230; 231; 173; 232; 116; 214; 244; 234; 168; 80; 88; 175].

(** Table access [t[i]]; the theorems below show that every index the code
    computes is below 256. *)
Definition tbl (t : list Z) (i : Z) : Z := nth (Z.to_nat i) t 0.

Definition gfmul (a b : Z) : Z :=
  if (a =? 0) || (b =? 0) then 0
  else
    let log := tbl gflog_base a + tbl gflog_base b in
    let log := if 255 <? log then log - 255 else log in
    tbl gff_base log.

Definition gfdiv (num denom : Z) : res Z :=
  if num =? 0 then Ok 0
  else if denom =? 0 then Fault BUG
  else
    let log := tbl gflog_base num - tbl gflog_base denom in
    let log := if log <=? 0 then log + 255 else log in
    Ok (tbl gff_base log).

Definition gfmul_q (q d : Z) : Z :=
  let hibit := Z.land q 0x80 in
  let q := u8 (Z.lxor d (Z.shiftl q 1)) in
  if hibit =? 0 then q else Z.lxor q POLY.

(** [pow] is an [unsigned char]: the argument is truncated at the call. *)
Definition gfpowmul (pow b : Z) : Z :=
  if b =? 0 then 0
  else
    let power := u8 pow + tbl gflog_base b in
    let power := if 255 <? power then power - 255 else power in
    tbl gff_base power.

(** ** Operations on eight bytes in a word *)
Definition HIBITS : Z := 0x8080808080808080.
Definition MASK : Z := 0xfefefefefefefefe.
Definition POLY64 : Z := 0x1d1d1d1d1d1d1d1d.
Definition LOBITS : Z := 0x0101010101010101.
Definition POLYROT : Z := 0x8E8E8E8E8E8E8E8E.

Definition gfmul_q_64 (q d : Z) : Z :=
  let mask := Z.land q HIBITS in
  let mask := u64 (u64 (Z.shiftl mask 1) - Z.shiftr mask 7) in
  Z.lxor (Z.lxor d (Z.land (u64 (Z.shiftl q 1)) MASK)) (Z.land mask POLY64).

Definition gfmul_g_64 (q : Z) : Z :=
  let mask := Z.land q HIBITS in
  let mask := u64 (u64 (Z.shiftl mask 1) - Z.shiftr mask 7) in
  Z.lxor (Z.land (u64 (Z.shiftl q 1)) MASK) (Z.land mask POLY64).

Fixpoint gf_mul_64_loop (n : nat) (factor val ret : Z) : Z :=
  match n with
  | O => ret
  | S n' =>
      let ret := if Z.land factor 1 =? 0 then ret else Z.lxor ret val in
      gf_mul_64_loop n' (Z.shiftr factor 1) (gfmul_g_64 val) ret
  end.
Definition gf_mul_64 (factor val : Z) : Z := gf_mul_64_loop 8 factor val 0.

Fixpoint gfpowmul_64 (pow : nat) (b : Z) : Z :=
  match pow with O => b | S j => gfpowmul_64 j (gfmul_g_64 b) end.

Definition gfdiv_g_64 (q : Z) : Z :=
  let mask := Z.land q LOBITS in
  let mask := u64 (u64 (Z.shiftl mask 8) - mask) in
  Z.lxor (Z.shiftr (Z.land q (u64 (Z.lnot LOBITS))) 1) (Z.land mask POLYROT).

Fixpoint gfpowdiv_64 (pow : nat) (b : Z) : Z :=
  match pow with O => b | S j => gfpowdiv_64 j (gfdiv_g_64 b) end.

(** ** Reference arithmetic

    [xtime] multiplies by x modulo the field polynomial and [gf_ref] is
    schoolbook multiplication of polynomials over GF(2), one bit of the first
    factor at a time. *)
Definition xtime (a : Z) : Z :=
  Z.lxor ((2 * a) mod 256) (if 128 <=? a then POLY else 0).

Fixpoint gf_ref_loop (n : nat) (a b : Z) : Z :=
  match n with
  | O => 0
  | S n' => Z.lxor (if Z.odd a then b else 0) (gf_ref_loop n' (a / 2) (xtime b))
  end.
Definition gf_ref (a b : Z) : Z := gf_ref_loop 8 a b.

(** ** Finite facts about the tables, checked exhaustively *)
Definition bytes_all (P : Z → bool) : bool := all_below 256 P.

Lemma bytes_all_spec P : bytes_all P = true → ∀ x, byte_range x → P x = true.
Proof. intros H x Hx. apply (all_below_spec 256 P H). exact Hx. Qed.

(** [by_bytes1 P x] proves [P x = true] for a byte [x] by evaluating [P] on all of them. *)
Ltac by_bytes1 P x :=
  let H := fresh in
  assert (bytes_all P = true) as H by (vm_compute; reflexivity);
  apply (bytes_all_spec P H x).
Lemma gflog_range a : byte_range a → a ≠ 0 → 1 ≤ tbl gflog_base a ≤ 255.
Proof.
  intros Ha Hne.
  assert (((a =? 0) || ((1 <=? tbl gflog_base a) && (tbl gflog_base a <=? 255))) = true) as H
    by (by by_bytes1 (fun a => (a =? 0) || ((1 <=? tbl gflog_base a) && (tbl gflog_base a <=? 255))) a).
  lia.
Qed.

Lemma gff_log a : byte_range a → a ≠ 0 → tbl gff_base (tbl gflog_base a) = a.
Proof.
  intros Ha Hne.
  assert (((a =? 0) || (tbl gff_base (tbl gflog_base a) =? a)) = true) as H
    by (by by_bytes1 (fun a => (a =? 0) || (tbl gff_base (tbl gflog_base a) =? a)) a).
  lia.
Qed.

Lemma gff_byte n : 0 ≤ n < 256 → 1 ≤ tbl gff_base n < 256.
Proof.
  intros Hn.
  assert (((1 <=? tbl gff_base n) && (tbl gff_base n <? 256)) = true) as H
    by (by by_bytes1 (fun n => (1 <=? tbl gff_base n) && (tbl gff_base n <? 256)) n).
  lia.
Qed.

Lemma gflog_ff n : 1 ≤ n < 256 → tbl gflog_base (tbl gff_base n) = n.
Proof.
  intros Hn.
  assert (((n =? 0) || (tbl gflog_base (tbl gff_base n) =? n)) = true) as H
    by (by by_bytes1 (fun n => (n =? 0) || (tbl gflog_base (tbl gff_base n) =? n)) n; unfold byte_range; lia).
  lia.
Qed.

Lemma xtime_byte a : byte_range a → byte_range (xtime a).
Proof.
  intros Ha.
  assert (((0 <=? xtime a) && (xtime a <? 256)) = true) as H
    by (by by_bytes1 (fun a => (0 <=? xtime a) && (xtime a <? 256)) a).
  unfold byte_range. lia.
Qed.

Lemma xtime_bits a : byte_range a →
  xtime a = Z.lxor (u8 (Z.shiftl a 1)) (if Z.testbit a 7 then POLY else 0).
Proof.
  intros Ha. apply Z.eqb_eq.
  by by_bytes1 (fun a => xtime a =? Z.lxor (u8 (Z.shiftl a 1))
                                   (if Z.testbit a 7 then POLY else 0)) a.
Qed.

Lemma u8_lxor a b : u8 (Z.lxor a b) = Z.lxor (u8 a) (u8 b).
Proof.
  apply Z.bits_inj'. intros i Hi. rewrite Z.lxor_spec, !wrap_testbit, Z.lxor_spec by lia.
  destruct (i <? 8), (Z.testbit a i), (Z.testbit b i); done.
Qed.

Lemma xtime_lxor a b : byte_range a → byte_range b →
  xtime (Z.lxor a b) = Z.lxor (xtime a) (xtime b).
Proof.
  intros Ha Hb. rewrite !xtime_bits by auto with cint.
  rewrite Z.shiftl_lxor, u8_lxor, Z.lxor_spec.
  destruct (Z.testbit a 7), (Z.testbit b 7); simpl xorb; cbv iota; xor_ring.
Qed.

Lemma xtime_gff n : 1 ≤ n ≤ 255 →
  xtime (tbl gff_base n) = tbl gff_base (if n =? 255 then 1 else n + 1).
Proof.
  intros Hn.
  assert (((n =? 0) || (xtime (tbl gff_base n) =? tbl gff_base (if n =? 255 then 1 else n + 1)))
          = true) as H.
  { by_bytes1 (fun n => (n =? 0) || (xtime (tbl gff_base n) =?
      tbl gff_base (if n =? 255 then 1 else n + 1))) n. unfold byte_range. lia. }
  lia.
Qed.

Lemma gf_ref_1 a : byte_range a → gf_ref a 1 = a.
Proof. intros Ha. apply Z.eqb_eq. by by_bytes1 (fun a => gf_ref a 1 =? a) a. Qed.

#[export] Hint Resolve xtime_byte : cint.

(** ** Linearity of the reference multiplication *)
Lemma gf_ref_loop_byte n a b : byte_range b → byte_range (gf_ref_loop n a b).
Proof.
  revert a b. induction n as [|n IH]; intros a b Hb; simpl; auto with cint.
  apply byte_lxor; [destruct (Z.odd a); auto with cint | auto with cint].
Qed.
#[export] Hint Resolve gf_ref_loop_byte : cint.

Lemma gf_ref_loop_lxor n a b c : byte_range b → byte_range c →
  gf_ref_loop n a (Z.lxor b c) = Z.lxor (gf_ref_loop n a b) (gf_ref_loop n a c).
Proof.
  revert a b c. induction n as [|n IH]; intros a b c Hb Hc; simpl; [done|].
  rewrite xtime_lxor, IH by auto with cint. destruct (Z.odd a); xor_ring.
Qed.

Lemma gf_ref_loop_xtime n a b : byte_range b →
  gf_ref_loop n a (xtime b) = xtime (gf_ref_loop n a b).
Proof.
  revert a b. induction n as [|n IH]; intros a b Hb; simpl; [done|].
  rewrite IH, xtime_lxor by (destruct (Z.odd a); auto with cint).
  by destruct (Z.odd a).
Qed.

Lemma gf_ref_lxor a b c : byte_range b → byte_range c →
  gf_ref a (Z.lxor b c) = Z.lxor (gf_ref a b) (gf_ref a c).
Proof. apply gf_ref_loop_lxor. Qed.

(** ** Powers of the generator *)
Definition red (n : Z) : Z := if 255 <? n then n - 255 else n.

Lemma xtime_iter_byte n a : byte_range a → byte_range (Nat.iter n xtime a).
Proof. induction n; simpl; auto with cint. Qed.
#[export] Hint Resolve xtime_iter_byte : cint.

Lemma xtime_iter_lxor n a b : byte_range a → byte_range b →
  Nat.iter n xtime (Z.lxor a b) = Z.lxor (Nat.iter n xtime a) (Nat.iter n xtime b).
Proof.
  intros Ha Hb. induction n as [|n IH]; simpl; [done|].
  by rewrite IH, xtime_lxor by auto with cint.
Qed.

Lemma xtime_iter_0 n : Nat.iter n xtime 0 = 0.
Proof. induction n as [|n IH]; simpl; [done|]. by rewrite IH. Qed.

Lemma xtime_iter_gff n l : (n ≤ 255)%nat → 1 ≤ l ≤ 255 →
  Nat.iter n xtime (tbl gff_base l) = tbl gff_base (red (l + Z.of_nat n)).
Proof.
  intros Hn Hl. induction n as [|n IH]; simpl Nat.iter.
  - unfold red. rewrite Z.add_0_r. by destruct (Z.ltb_spec 255 l); [lia|].
  - rewrite IH by lia. rewrite xtime_gff.
    2:{ unfold red. destruct (Z.ltb_spec 255 (l + Z.of_nat n)); lia. }
    f_equal. unfold red. destruct (Z.ltb_spec 255 (l + Z.of_nat n)),
      (Z.ltb_spec 255 (l + Z.of_nat (S n))); case_match; lia.
Qed.

Lemma gf_ref_gff a n : byte_range a → (1 ≤ n ≤ 255)%nat →
  gf_ref a (tbl gff_base (Z.of_nat n)) = Nat.iter n xtime a.
Proof.
  intros Ha. induction n as [|n IH]; [lia|]. intros Hn.
  destruct (decide (n = 0)%nat) as [->|].
  - change (tbl gff_base (Z.of_nat 1)) with (xtime 1). unfold gf_ref.
    rewrite gf_ref_loop_xtime by (unfold byte_range; lia). simpl. f_equal.
    by apply gf_ref_1.
  - assert (tbl gff_base (Z.of_nat (S n)) = xtime (tbl gff_base (Z.of_nat n))) as ->.
    { rewrite xtime_gff by lia. f_equal. destruct (Z.eqb_spec (Z.of_nat n) 255); lia. }
    unfold gf_ref. rewrite gf_ref_loop_xtime.
    2:{ pose proof (gff_byte (Z.of_nat n)). unfold byte_range. lia. }
    simpl. f_equal. apply IH. lia.
Qed.

(** The table multiplication is the reference multiplication. *)
Lemma gfmul_is_ref a b : byte_range a → byte_range b → gfmul a b = gf_ref a b.
Proof.
  intros Ha Hb. unfold gfmul. destruct (Z.eqb_spec b 0) as [->|Hb0].
  { rewrite orb_true_r. unfold gf_ref. simpl. repeat case_match; done. }
  destruct (Z.eqb_spec a 0) as [->|Ha0]; simpl; [done|].
  pose proof (gflog_range a Ha Ha0). pose proof (gflog_range b Hb Hb0).
  pose proof (gf_ref_gff a (Z.to_nat (tbl gflog_base b)) Ha ltac:(lia)) as E1.
  rewrite Z2Nat.id, gff_log in E1 by (done || lia). rewrite E1.
  pose proof (xtime_iter_gff (Z.to_nat (tbl gflog_base b)) (tbl gflog_base a)
    ltac:(lia) ltac:(lia)) as E2.
  by rewrite gff_log, Z2Nat.id in E2 by (done || lia).
Qed.

Lemma gfmul_byte a b : byte_range a → byte_range b → byte_range (gfmul a b).
Proof. intros. rewrite gfmul_is_ref by done. unfold gf_ref. auto with cint. Qed.
#[export] Hint Resolve gfmul_byte : cint.

Lemma gfmul_comm a b : gfmul a b = gfmul b a.
Proof. unfold gfmul. by rewrite orb_comm, Z.add_comm. Qed.

Lemma gfmul_0_l b : gfmul 0 b = 0.
Proof. done. Qed.

Lemma gfmul_nz a b : byte_range a → byte_range b → a ≠ 0 → b ≠ 0 →
  gfmul a b = tbl gff_base (red (tbl gflog_base a + tbl gflog_base b)) ∧
  1 ≤ red (tbl gflog_base a + tbl gflog_base b) ≤ 255.
Proof.
  intros Ha Hb Ha0 Hb0. unfold gfmul, red.
  pose proof (gflog_range a Ha Ha0). pose proof (gflog_range b Hb Hb0).
  destruct (Z.eqb_spec a 0), (Z.eqb_spec b 0); try done. simpl.
  split; [done|]. destruct (Z.ltb_spec 255 (tbl gflog_base a + tbl gflog_base b)); lia.
Qed.

Lemma gfmul_log a b : byte_range a → byte_range b → a ≠ 0 → b ≠ 0 →
  gfmul a b ≠ 0 ∧ tbl gflog_base (gfmul a b) = red (tbl gflog_base a + tbl gflog_base b).
Proof.
  intros Ha Hb Ha0 Hb0. destruct (gfmul_nz a b) as [-> Hr]; [done..|].
  pose proof (gff_byte (red (tbl gflog_base a + tbl gflog_base b))).
  split; [lia|]. apply gflog_ff. lia.
Qed.

(** ** The field laws *)
Lemma gfmul_assoc a b c : byte_range a → byte_range b → byte_range c →
  gfmul a (gfmul b c) = gfmul (gfmul a b) c.
Proof.
  intros Ha Hb Hc.
  destruct (Z.eq_dec a 0) as [->|Ha0]; [done|].
  destruct (Z.eq_dec b 0) as [->|Hb0]; [by rewrite (gfmul_comm a 0), !gfmul_0_l, gfmul_comm|].
  destruct (Z.eq_dec c 0) as [->|Hc0].
  { by rewrite (gfmul_comm b 0), gfmul_0_l, (gfmul_comm a 0), (gfmul_comm _ 0). }
  destruct (gfmul_log a b) as [Hab Lab]; [done..|].
  destruct (gfmul_log b c) as [Hbc Lbc]; [done..|].
  destruct (gfmul_nz a (gfmul b c)) as [-> _]; auto with cint.
  destruct (gfmul_nz (gfmul a b) c) as [-> _]; auto with cint.
  rewrite Lab, Lbc. f_equal.
  pose proof (gflog_range a Ha Ha0). pose proof (gflog_range b Hb Hb0).
  pose proof (gflog_range c Hc Hc0). unfold red.
  destruct (Z.ltb_spec 255 (tbl gflog_base a + tbl gflog_base b)),
    (Z.ltb_spec 255 (tbl gflog_base b + tbl gflog_base c)); case_match; case_match; lia.
Qed.

Lemma gfmul_lxor_r a b c : byte_range a → byte_range b → byte_range c →
  gfmul a (Z.lxor b c) = Z.lxor (gfmul a b) (gfmul a c).
Proof. intros. rewrite !gfmul_is_ref by auto with cint. by apply gf_ref_lxor. Qed.

Lemma gfmul_lxor_l a b c : byte_range a → byte_range b → byte_range c →
  gfmul (Z.lxor a b) c = Z.lxor (gfmul a c) (gfmul b c).
Proof. intros. rewrite !(gfmul_comm _ c). by apply gfmul_lxor_r. Qed.

Lemma gfmul_1_r a : byte_range a → gfmul a 1 = a.
Proof. intros. rewrite gfmul_is_ref by (done || unfold byte_range; lia). by apply gf_ref_1. Qed.

Lemma gfdiv_mul a b : byte_range a → byte_range b → b ≠ 0 → gfdiv (gfmul a b) b = Ok a.
Proof.
  intros Ha Hb Hb0. unfold gfdiv.
  destruct (Z.eq_dec a 0) as [->|Ha0]; [done|].
  destruct (gfmul_log a b) as [Hnz Hl]; [done..|].
  destruct (Z.eqb_spec (gfmul a b) 0); [done|]. destruct (Z.eqb_spec b 0); [done|].
  f_equal. rewrite Hl. transitivity (tbl gff_base (tbl gflog_base a)); [f_equal | by apply gff_log].
  pose proof (gflog_range a Ha Ha0). pose proof (gflog_range b Hb Hb0). unfold red.
  destruct (Z.ltb_spec 255 (tbl gflog_base a + tbl gflog_base b)); case_match; lia.
Qed.

(** Multiplication by a power of the generator. *)
Lemma gfpowmul_iter n b : (n ≤ 255)%nat → byte_range b →
  gfpowmul (Z.of_nat n) b = Nat.iter n xtime b.
Proof.
  intros Hn Hb. unfold gfpowmul. destruct (Z.eqb_spec b 0) as [->|Hb0].
  { by rewrite xtime_iter_0. }
  rewrite wrap_small by lia. pose proof (gflog_range b Hb Hb0).
  pose proof (xtime_iter_gff n (tbl gflog_base b) Hn ltac:(lia)) as E.
  rewrite gff_log in E by done. rewrite E. unfold red. by rewrite Z.add_comm.
Qed.

(** [g^n * b] as a table product. *)
Lemma xtime_iter_mul n b : (n ≤ 255)%nat → byte_range b →
  Nat.iter n xtime b = gfmul (tbl gff_base (Z.of_nat n)) b.
Proof.
  intros Hn Hb. destruct n as [|n].
  - simpl. change (tbl gff_base (Z.of_nat 0)) with 1. rewrite gfmul_comm. by rewrite gfmul_1_r.
  - rewrite gfmul_comm. pose proof (gff_byte (Z.of_nat (S n))).
    rewrite gfmul_is_ref by (done || unfold byte_range; lia).
    symmetry. apply gf_ref_gff; [done | lia].
Qed.

Lemma xtime_iter_255 b : byte_range b → Nat.iter 255 xtime b = b.
Proof.
  intros Hb. rewrite xtime_iter_mul by done.
  change (tbl gff_base (Z.of_nat 255)) with 1. by rewrite gfmul_comm, gfmul_1_r.
Qed.

(** The Horner step of the Q parity multiplies by the generator and adds. *)
Lemma gfmul_q_xtime q d : byte_range q → byte_range d →
  gfmul_q q d = Z.lxor (xtime q) d.
Proof.
  intros Hq Hd. unfold gfmul_q. rewrite u8_lxor, (wrap_small 8 d) by exact Hd.
  rewrite xtime_bits by done.
  assert ((Z.land q 0x80 =? 0) = negb (Z.testbit q 7)) as ->.
  { apply eqb_prop. by by_bytes1 (fun q => eqb (Z.land q 0x80 =? 0) (negb (Z.testbit q 7))) q. }
  destruct (Z.testbit q 7); simpl negb; cbv iota; xor_ring.
Qed.

Lemma gfmul_q_byte q d : byte_range q → byte_range d → byte_range (gfmul_q q d).
Proof. intros. rewrite gfmul_q_xtime by done. auto with cint. Qed.
#[export] Hint Resolve gfmul_q_byte : cint.

(** ** Words of eight bytes *)
Lemma le_cons_testbit b t i : byte_range b → 0 ≤ i →
  Z.testbit (b + 256 * t) i = if i <? 8 then Z.testbit b i else Z.testbit t (i - 8).
Proof.
  intros Hb Hi. destruct (Z.ltb_spec i 8).
  - rewrite <-(Z.mod_pow2_bits_low (b + 256 * t) 8 i) by lia.
    change 256 with (2 ^ 8). rewrite Z.mul_comm, Z.mod_add by lia.
    by rewrite Z.mod_small by exact Hb.
  - rewrite <-(Z.sub_add 8 i) at 1. rewrite <-Z.div_pow2_bits by lia.
    change (2 ^ 8) with 256. rewrite Z.mul_comm, Z.div_add by lia.
    by rewrite Z.div_small by exact Hb.
Qed.

Lemma le_word_bitop (op : Z → Z → Z) (bop : bool → bool → bool) xs ys :
  (∀ a b i, Z.testbit (op a b) i = bop (Z.testbit a i) (Z.testbit b i)) →
  (∀ a b, byte_range a → byte_range b → byte_range (op a b)) → op 0 0 = 0 →
  length xs = length ys → Forall byte_range xs → Forall byte_range ys →
  le_word (zip_with op xs ys) = op (le_word xs) (le_word ys).
Proof.
  intros Hop Hbyte H0 Hlen Hxs Hys. revert ys Hlen Hys.
  induction Hxs as [|x xs Hx Hxs IH]; intros [|y ys] Hlen Hys; try done; simpl in *.
  apply Forall_cons_1 in Hys as [Hy Hys]. rewrite IH by (congruence || done).
  apply Z.bits_inj'. intros i Hi.
  rewrite Hop, !le_cons_testbit, !Hop by auto. by destruct (i <? 8).
Qed.

Lemma le_word_lxor xs ys : length xs = length ys → Forall byte_range xs →
  Forall byte_range ys →
  le_word (zip_with Z.lxor xs ys) = Z.lxor (le_word xs) (le_word ys).
Proof. apply (le_word_bitop _ xorb); auto with cint. apply Z.lxor_spec. Qed.

Lemma le_word_land xs ys : length xs = length ys → Forall byte_range xs →
  Forall byte_range ys →
  le_word (zip_with Z.land xs ys) = Z.land (le_word xs) (le_word ys).
Proof.
  apply (le_word_bitop _ andb); [apply Z.land_spec | | done].
  intros a b Ha Hb. by apply (land_bound_l 8).
Qed.

Lemma le_word_scale c (f : Z → Z) bs :
  le_word ((fun b => c * f b) <$> bs) = c * le_word (f <$> bs).
Proof.
  induction bs as [|b bs IH]; [simpl; lia|]. rewrite !fmap_cons. cbn [le_word].
  rewrite IH. lia.
Qed.

Lemma map_bytes (f : Z → Z) bs : (∀ b, byte_range b → byte_range (f b)) →
  Forall byte_range bs → Forall byte_range (f <$> bs).
Proof. intros Hf Hbs. apply Forall_fmap. eapply Forall_impl; eauto. Qed.

Lemma le_word_map_land c bs : byte_range c → Forall byte_range bs →
  Z.land (le_word bs) (le_word (replicate (length bs) c)) =
  le_word ((fun b => Z.land b c) <$> bs).
Proof.
  intros Hc Hbs. rewrite <-le_word_land; rewrite ?length_replicate; auto.
  - f_equal. clear. induction bs; simpl; f_equal; auto.
  - by apply Forall_replicate.
Qed.

Lemma le_word_map_lxor (f g : Z → Z) bs :
  (∀ b, byte_range b → byte_range (f b)) → (∀ b, byte_range b → byte_range (g b)) →
  Forall byte_range bs →
  Z.lxor (le_word (f <$> bs)) (le_word (g <$> bs)) =
  le_word ((fun b => Z.lxor (f b) (g b)) <$> bs).
Proof.
  intros Hf Hg Hbs. rewrite <-le_word_lxor; rewrite ?length_fmap; auto using map_bytes.
  f_equal. clear. induction bs; simpl; f_equal; auto.
Qed.

Lemma zip_with_ext_bytes (f g : Z → Z → Z) xs ys :
  (∀ x y, byte_range x → byte_range y → f x y = g x y) →
  Forall byte_range xs → Forall byte_range ys → zip_with f xs ys = zip_with g xs ys.
Proof.
  intros Hfg Hxs. revert ys. induction Hxs as [|x xs Hx _ IH]; intros [|y ys] Hys; try done.
  apply Forall_cons_1 in Hys as [Hy Hys]. simpl. f_equal; auto.
Qed.

Lemma word_const c : le_word (replicate 8 c) = c * LOBITS.
Proof. unfold LOBITS. simpl. lia. Qed.

Section swar.
Context (bs : list Z) (Hlen : length bs = 8%nat) (Hbs : Forall byte_range bs).

Lemma word_land c : byte_range c →
  Z.land (le_word bs) (c * LOBITS) = le_word ((fun b => Z.land b c) <$> bs).
Proof using Hlen Hbs.
  intros Hc. rewrite <-word_const, <-Hlen. by apply le_word_map_land.
Qed.

Lemma word_range (f : Z → Z) : (∀ b, byte_range b → byte_range (f b)) →
  0 ≤ le_word (f <$> bs) < 2 ^ 64.
Proof using Hlen Hbs.
  intros Hf. pose proof (le_word_range (f <$> bs) (map_bytes f bs Hf Hbs)) as H.
  rewrite length_fmap, Hlen in H. exact H.
Qed.

(** The borrow trick: [(h << 8) - h] turns a flag in each byte into 0xff. *)
Lemma word_spread (h : Z → Z) : (∀ b, byte_range b → h b = 0 ∨ h b = 1) →
  u64 (u64 (256 * le_word (h <$> bs)) - le_word (h <$> bs)) =
  le_word ((fun b => 255 * h b) <$> bs).
Proof using Hlen Hbs.
  intros Hh. unfold wrap. rewrite Zminus_mod_idemp_l.
  replace (256 * le_word (h <$> bs) - le_word (h <$> bs))
    with (255 * le_word (h <$> bs)) by lia.
  rewrite <-le_word_scale. apply Z.mod_small, word_range.
  intros b Hb. unfold byte_range. destruct (Hh b Hb) as [-> | ->]; lia.
Qed.

Lemma gfmul_g_64_bytes : gfmul_g_64 (le_word bs) = le_word (xtime <$> bs).
Proof using Hlen Hbs.
  unfold gfmul_g_64. change HIBITS with (128 * LOBITS).
  rewrite word_land by (unfold byte_range; lia).
  assert ((fun b => Z.land b 128) <$> bs = (fun b => 128 * (b / 128)) <$> bs) as ->.
  { apply list_fmap_ext. intros i b Hb. apply Z.eqb_eq.
    by_bytes1 (fun b => Z.land b 128 =? 128 * (b / 128)) b.
    by eapply Forall_lookup_1 in Hb. }
  rewrite le_word_scale.
  rewrite (Z.shiftl_mul_pow2 (128 * _)), Z.shiftr_div_pow2 by lia.
  replace (128 * le_word ((fun b => b / 128) <$> bs) * 2 ^ 1)
    with (256 * le_word ((fun b => b / 128) <$> bs)) by lia.
  replace (128 * le_word ((fun b => b / 128) <$> bs) / 2 ^ 7)
    with (le_word ((fun b => b / 128) <$> bs)) by (change (2 ^ 7) with 128; rewrite Z.mul_comm, Z.div_mul; lia).
  rewrite word_spread.
  2:{ intros b Hb. unfold byte_range in Hb.
      assert (b / 128 < 2) by (apply Z.div_lt_upper_bound; lia).
      assert (0 ≤ b / 128) by (apply Z.div_pos; lia). lia. }
  change POLY64 with (POLY * LOBITS). rewrite <-word_const.
  replace 8%nat with (length ((fun b => 255 * (b / 128)) <$> bs)) by (by rewrite length_fmap).
  rewrite le_word_map_land.
  2:{ unfold byte_range, POLY. lia. }
  2:{ apply map_bytes; [|done]. intros b Hb. unfold byte_range in *.
      assert (b / 128 < 2) by (apply Z.div_lt_upper_bound; lia).
      assert (0 ≤ b / 128) by (apply Z.div_pos; lia). lia. }
  rewrite <-list_fmap_compose.
  assert (Z.land (u64 (Z.shiftl (le_word bs) 1)) MASK =
          le_word ((fun b => 2 * Z.land b 127) <$> bs)) as ->.
  { rewrite le_word_scale, <-word_land by (unfold byte_range; lia).
    change MASK with (Z.shiftl (127 * LOBITS) 1).
    rewrite wrap_land, <-Z.land_assoc, (Z.land_comm (Z.ones 64)) by lia.
    change (Z.land (Z.shiftl (127 * LOBITS) 1) (Z.ones 64)) with (Z.shiftl (127 * LOBITS) 1).
    rewrite <-Z.shiftl_land, Z.shiftl_mul_pow2 by lia. lia. }
  rewrite le_word_map_lxor; [|..|done].
  - f_equal. apply list_fmap_ext. intros i b Hb. apply Z.eqb_eq. simpl.
    by_bytes1 (fun b => Z.lxor (2 * Z.land b 127) (Z.land (255 * (b / 128)) POLY) =? xtime b) b.
    by eapply Forall_lookup_1 in Hb.
  - intros b Hb. assert ((0 <=? 2 * Z.land b 127) && (2 * Z.land b 127 <? 256) = true).
    { by by_bytes1 (fun b => (0 <=? 2 * Z.land b 127) && (2 * Z.land b 127 <? 256)) b. }
    unfold byte_range. lia.
  - intros b Hb. simpl. rewrite Z.land_comm. apply (land_bound_l 8); unfold POLY; lia.
Qed.

Lemma gfmul_q_64_bytes ds : length ds = 8%nat → Forall byte_range ds →
  gfmul_q_64 (le_word bs) (le_word ds) = le_word (zip_with gfmul_q bs ds).
Proof using Hlen Hbs.
  intros Hlds Hds.
  transitivity (Z.lxor (gfmul_g_64 (le_word bs)) (le_word ds)).
  { unfold gfmul_q_64, gfmul_g_64. xor_ring. }
  rewrite gfmul_g_64_bytes, <-le_word_lxor; [|rewrite length_fmap; congruence | | done].
  2:{ apply map_bytes; auto with cint. }
  f_equal. rewrite zip_with_fmap_l.
  apply (zip_with_ext_bytes _ _ bs ds); [|done..].
  intros x y Hx Hy. by rewrite gfmul_q_xtime.
Qed.
End swar.

(** Division by the generator, one byte and eight bytes at a time. *)
Definition xdiv (b : Z) : Z := Z.lxor (b / 2) (Z.land (255 * (b mod 2)) 0x8E).

Lemma xdiv_byte b : byte_range b → byte_range (xdiv b).
Proof.
  intros Hb. assert ((0 <=? xdiv b) && (xdiv b <? 256) = true).
  { by by_bytes1 (fun b => (0 <=? xdiv b) && (xdiv b <? 256)) b. }
  unfold byte_range. lia.
Qed.
#[export] Hint Resolve xdiv_byte : cint.

Lemma xdiv_xtime b : byte_range b → xdiv (xtime b) = b.
Proof. intros Hb. apply Z.eqb_eq. by by_bytes1 (fun b => xdiv (xtime b) =? b) b. Qed.

Lemma gfdiv_g_64_bytes bs : length bs = 8%nat → Forall byte_range bs →
  gfdiv_g_64 (le_word bs) = le_word (xdiv <$> bs).
Proof.
  intros Hlen Hbs. unfold gfdiv_g_64.
  assert (∀ b, byte_range b → b mod 2 = 0 ∨ b mod 2 = 1) as Hmod.
  { intros b Hb. pose proof (Z.mod_pos_bound b 2). lia. }
  assert (Z.land (le_word bs) LOBITS = le_word ((fun b => b mod 2) <$> bs)) as ->.
  { replace LOBITS with (1 * LOBITS) by lia. rewrite word_land by (done || unfold byte_range; lia).
    f_equal. apply list_fmap_ext. intros i b Hb. apply (Z.land_ones b 1). lia. }
  rewrite (Z.shiftl_mul_pow2 _ 8) by lia. change (2 ^ 8) with 256.
  rewrite (Z.mul_comm (le_word _) 256), word_spread by done.
  change (u64 (Z.lnot LOBITS)) with (254 * LOBITS).
  rewrite word_land by (done || unfold byte_range; lia).
  assert ((fun b => Z.land b 254) <$> bs = (fun b => 2 * (b / 2)) <$> bs) as ->.
  { apply list_fmap_ext. intros i b Hb. apply Z.eqb_eq.
    by_bytes1 (fun b => Z.land b 254 =? 2 * (b / 2)) b. by eapply Forall_lookup_1 in Hb. }
  rewrite le_word_scale, Z.shiftr_div_pow2 by lia. change (2 ^ 1) with 2.
  rewrite (Z.mul_comm 2), Z.div_mul by lia.
  change POLYROT with (0x8E * LOBITS). rewrite <-word_const.
  replace 8%nat with (length ((fun b => 255 * (b mod 2)) <$> bs)) by (by rewrite length_fmap).
  rewrite le_word_map_land.
  2:{ unfold byte_range. lia. }
  2:{ apply map_bytes; [|done]. intros b Hb. unfold byte_range. destruct (Hmod b Hb); lia. }
  rewrite <-list_fmap_compose, le_word_map_lxor; [done | | | done].
  - intros b Hb. unfold byte_range in *.
    assert (b / 2 < 256) by (apply Z.div_lt_upper_bound; lia).
    assert (0 ≤ b / 2) by (apply Z.div_pos; lia). lia.
  - intros b Hb. simpl. rewrite Z.land_comm. apply (land_bound_l 8); lia.
Qed.

(** [n] multiplications and divisions by the generator, and multiplication by
    a constant, on all eight bytes at once. *)
Lemma gfpowmul_64_bytes n bs : length bs = 8%nat → Forall byte_range bs →
  gfpowmul_64 n (le_word bs) = le_word (Nat.iter n xtime <$> bs).
Proof.
  revert bs. induction n as [|n IH]; intros bs Hlen Hbs; simpl.
  - by rewrite list_fmap_id.
  - rewrite gfmul_g_64_bytes, IH by (rewrite ?length_fmap; auto using map_bytes, xtime_byte).
    rewrite <-list_fmap_compose. f_equal. apply list_fmap_ext. intros i b _.
    simpl. by rewrite Nat.iter_swap.
Qed.

Lemma gfpowdiv_64_bytes n bs : length bs = 8%nat → Forall byte_range bs →
  gfpowdiv_64 n (le_word bs) = le_word (Nat.iter n xdiv <$> bs).
Proof.
  revert bs. induction n as [|n IH]; intros bs Hlen Hbs; simpl.
  - by rewrite list_fmap_id.
  - rewrite gfdiv_g_64_bytes, IH by (rewrite ?length_fmap; auto using map_bytes, xdiv_byte).
    rewrite <-list_fmap_compose. f_equal. apply list_fmap_ext. intros i b _.
    simpl. by rewrite Nat.iter_swap.
Qed.

Lemma xdiv_iter_xtime n b : byte_range b → Nat.iter n xdiv (Nat.iter n xtime b) = b.
Proof.
  intros Hb. induction n as [|n IH]; [done|].
  rewrite Nat.iter_succ_r. simpl. rewrite xdiv_xtime by auto with cint. done.
Qed.

Lemma gf_mul_64_loop_bytes n a bs rs : length bs = 8%nat → length rs = 8%nat →
  Forall byte_range bs → Forall byte_range rs → 0 ≤ a →
  gf_mul_64_loop n a (le_word bs) (le_word rs) =
  le_word (zip_with (fun r b => Z.lxor r (gf_ref_loop n a b)) rs bs).
Proof.
  revert a bs rs. induction n as [|n IH]; intros a bs rs Hlb Hlr Hbs Hrs Ha; simpl.
  - f_equal. rewrite <-Hlr in Hlb. clear -Hlb. revert bs Hlb.
    induction rs as [|r rs IH]; intros [|b bs] Hl; try done. simpl in *.
    rewrite Z.lxor_0_r. f_equal. apply IH. lia.
  - assert ((Z.land a 1 =? 0) = negb (Z.odd a)) as ->.
    { change 1 with (Z.ones 1). rewrite Z.land_ones by lia. change (2 ^ 1) with 2.
      rewrite Zmod_odd. by destruct (Z.odd a). }
    rewrite gfmul_g_64_bytes by done.
    assert (∃ rs', (if negb (Z.odd a) then le_word rs else Z.lxor (le_word rs) (le_word bs)) =
              le_word rs' ∧ rs' = zip_with (fun r b => Z.lxor r (if Z.odd a then b else 0)) rs bs)
      as (rs' & -> & Hrs').
    { eexists; split; [|done]. destruct (Z.odd a); simpl.
      - by rewrite le_word_lxor by (congruence || done).
      - f_equal. rewrite <-Hlr in Hlb. clear -Hlb. revert bs Hlb.
        induction rs as [|r rs IH]; intros [|b bs] Hl; try done. simpl in *.
        rewrite Z.lxor_0_r. f_equal. apply IH. lia. }
    assert (length rs' = 8%nat) as Hlr' by (subst; rewrite length_zip_with; lia).
    rewrite Z.shiftr_div_pow2 by lia. change (2 ^ 1) with 2.
    rewrite IH; [|by rewrite length_fmap|done|auto using map_bytes, xtime_byte| |].
    2:{ subst rs'. clear -Hrs Hbs. revert bs Hbs.
        induction Hrs as [|r rs Hr _ IH]; intros [|b bs] Hbs; try constructor.
        - apply Forall_cons_1 in Hbs as [? ?]. destruct (Z.odd a); auto with cint.
        - apply Forall_cons_1 in Hbs as [? ?]. by apply IH. }
    2:{ apply Z.div_pos; lia. }
    f_equal. subst rs'. clear. revert bs.
    induction rs as [|r rs IH]; intros [|b bs]; try done. simpl. f_equal; [|apply IH].
    by rewrite Z.lxor_assoc.
Qed.

Lemma gf_mul_64_bytes a bs : length bs = 8%nat → Forall byte_range bs → byte_range a →
  gf_mul_64 a (le_word bs) = le_word (gfmul a <$> bs).
Proof.
  intros Hlen Hbs Ha. unfold gf_mul_64. change 0 with (le_word (replicate 8 0)) at 1.
  unfold byte_range in Ha.
  rewrite gf_mul_64_loop_bytes; [|done|done|done|by apply Forall_replicate; auto with cint|lia].
  f_equal. replace (replicate 8 0) with (replicate (length bs) 0) by (by rewrite Hlen).
  clear Hlen. induction Hbs as [|b bs Hb _ IH]; [done|].
  cbn [length replicate zip_with]. rewrite fmap_cons, Z.lxor_0_l. f_equal; [|done].
  rewrite gfmul_is_ref by done. done.
Qed.

(** ** The field *)
Definition gf_inv (b : Z) : Z := tbl gff_base (255 - tbl gflog_base b).

Lemma gf_inv_ok b : byte_range b → b ≠ 0 → byte_range (gf_inv b) ∧ gfmul (gf_inv b) b = 1.
Proof.
  intros Hb Hb0.
  assert (((b =? 0) || ((0 <=? gf_inv b) && (gf_inv b <? 256) && (gfmul (gf_inv b) b =? 1))) = true) as H
    by (by by_bytes1 (fun b => (b =? 0) || ((0 <=? gf_inv b) && (gf_inv b <? 256) && (gfmul (gf_inv b) b =? 1))) b).
  unfold byte_range. lia.
Qed.

Lemma gfdiv_ok a b : byte_range a → byte_range b → b ≠ 0 →
  ∃ q, gfdiv a b = Ok q ∧ byte_range q ∧ gfmul q b = a.
Proof.
  intros Ha Hb Hb0. destruct (gf_inv_ok b Hb Hb0) as [Hi Hib].
  assert (gfmul (gfmul a (gf_inv b)) b = a) as E
    by (by rewrite <-gfmul_assoc, Hib, gfmul_1_r by auto with cint).
  exists (gfmul a (gf_inv b)). split_and!; [|auto with cint|done].
  rewrite <-E at 1. apply gfdiv_mul; auto with cint.
Qed.

(** C14: the log/antilog tables implement the field GF(256) of polynomials
    modulo x^8+x^4+x^3+x^2+1: the table product of two bytes is their schoolbook
    product, it is commutative, associative, has unit 1 and distributes over
    exclusive or; division by a non-zero byte succeeds and undoes it. *)
Theorem gf_tables_field a b c (Ha : byte_range a) (Hb : byte_range b) (Hc : byte_range c) :
  gfmul a b = gf_ref a b ∧ byte_range (gfmul a b) ∧ gfmul a b = gfmul b a ∧
  gfmul a (gfmul b c) = gfmul (gfmul a b) c ∧ gfmul a 1 = a ∧
  gfmul a (Z.lxor b c) = Z.lxor (gfmul a b) (gfmul a c) ∧
  (b ≠ 0 → gfdiv (gfmul a b) b = Ok a ∧ ∃ q, gfdiv a b = Ok q ∧ byte_range q ∧ gfmul q b = a).
Proof.
  split_and!; [by apply gfmul_is_ref|by apply gfmul_byte|apply gfmul_comm|by apply gfmul_assoc|
    by apply gfmul_1_r|by apply gfmul_lxor_r|].
  intros Hb0. split; [by apply gfdiv_mul|by apply gfdiv_ok].
Qed.

Lemma gf_tables_field_witness :
  gfmul 0x53 0xCA = gf_ref 0x53 0xCA ∧ gfdiv (gfmul 0x53 0xCA) 0xCA = Ok 0x53.
Proof.
  destruct (gf_tables_field 0x53 0xCA 7) as (H & _ & _ & _ & _ & _ & Hd);
    [unfold byte_range; lia..|]. split; [exact H|]. by apply Hd.
Defined.

(** C17: the 64-bit routines do to a word what the byte routines do to each of
    its eight bytes: one Horner step of the Q parity, multiplication by a
    constant and by a power of the generator; dividing by that power undoes it. *)
Theorem word_ops_bytewise bs ds a n
    (Hbl : length bs = 8%nat) (Hb : Forall byte_range bs)
    (Hdl : length ds = 8%nat) (Hd : Forall byte_range ds) (Ha : byte_range a) (Hn : (n ≤ 255)%nat) :
  gfmul_q_64 (le_word bs) (le_word ds) = le_word (zip_with gfmul_q bs ds) ∧
  gf_mul_64 a (le_word bs) = le_word (gfmul a <$> bs) ∧
  gfpowmul_64 n (le_word bs) = le_word (gfpowmul (Z.of_nat n) <$> bs) ∧
  gfpowdiv_64 n (gfpowmul_64 n (le_word bs)) = le_word bs.
Proof.
  split_and!; [by apply gfmul_q_64_bytes|by apply gf_mul_64_bytes| |];
    rewrite gfpowmul_64_bytes by done.
  - f_equal. apply list_fmap_ext. intros i b Hi. symmetry. apply gfpowmul_iter; [done|].
    exact (Forall_lookup_1 _ _ _ _ Hb Hi).
  - rewrite gfpowdiv_64_bytes by (rewrite ?length_fmap; auto using map_bytes, xtime_iter_byte).
    rewrite <-list_fmap_compose. f_equal. transitivity (id <$> bs); [|apply list_fmap_id].
    apply list_fmap_ext. intros i b Hi. apply xdiv_iter_xtime. exact (Forall_lookup_1 _ _ _ _ Hb Hi).
Qed.

Lemma word_ops_bytewise_witness :
  gfpowdiv_64 9 (gfpowmul_64 9 (le_word [1; 2; 3; 250; 251; 252; 0; 128])) =
  le_word [1; 2; 3; 250; 251; 252; 0; 128].
Proof.
  apply (word_ops_bytewise [1; 2; 3; 250; 251; 252; 0; 128] (replicate 8 9) 7 9); [done| |done| | |lia].
  - repeat constructor; done.
  - repeat constructor; done.
  - done.
Defined.
