(* ===== verification/Crc32c.v ===== *)
(** * CRC32C: the end-to-end data integrity check

    Models [common/compat/kr_incs_crc32.inc.c] and the CRC routines of
    [clnt/block/datapath_ec/nvmeibc_block_dp_ec_gf.c]: the bitwise CRC, the
    table driven CRC, the CRC over 64-bit words and the CRC built on the
    processor's crc32 instruction.  The theorems show that all of them compute
    the same function of the seed and of the bytes of the buffer. *)
From stdpp Require Import base list gmap numbers.
From Stdlib Require Import ZArith Lia.
From S2P Require Import Prelude CMemory GaloisField.
Local Open Scope Z_scope.

Definition crc_table : list Z :=
  [0x00000000; 0xf26b8303; 0xe13b70f7; 0x1350f3f4; 0xc79a971f; 0x35f1141c;
   0x26a1e7e8; 0xd4ca64eb; 0x8ad958cf; 0x78b2dbcc; 0x6be22838; 0x9989ab3b;
   0x4d43cfd0; 0xbf284cd3; 0xac78bf27; 0x5e133c24; 0x105ec76f; 0xe235446c;
   0xf165b798; 0x030e349b; 0xd7c45070; 0x25afd373; 0x36ff2087; 0xc494a384;
   0x9a879fa0; 0x68ec1ca3; 0x7bbcef57; 0x89d76c54; 0x5d1d08bf; 0xaf768bbc;
   0xbc267848; 0x4e4dfb4b; 0x20bd8ede; 0xd2d60ddd; 0xc186fe29; 0x33ed7d2a;
   0xe72719c1; 0x154c9ac2; 0x061c6936; 0xf477ea35; 0xaa64d611; 0x580f5512;
   0x4b5fa6e6; 0xb93425e5; 0x6dfe410e; 0x9f95c20d; 0x8cc531f9; 0x7eaeb2fa;
   0x30e349b1; 0xc288cab2; 0xd1d83946; 0x23b3ba45; 0xf779deae; 0x05125dad;
   0x1642ae59; 0xe4292d5a; 0xba3a117e; 0x4851927d; 0x5b016189; 0xa96ae28a;
   0x7da08661; 0x8fcb0562; 0x9c9bf696; 0x6ef07595; 0x417b1dbc; 0xb3109ebf;
   0xa0406d4b; 0x522bee48; 0x86e18aa3; 0x748a09a0; 0x67dafa54; 0x95b17957;
   0xcba24573; 0x39c9c670; 0x2a993584; 0xd8f2b687; 0x0c38d26c; 0xfe53516f;
   0xed03a29b; 0x1f682198; 0x5125dad3; 0xa34e59d0; 0xb01eaa24; 0x42752927;
   0x96bf4dcc; 0x64d4cecf; 0x77843d3b; 0x85efbe38; 0xdbfc821c; 0x2997011f;
   0x3ac7f2eb; 0xc8ac71e8; 0x1c661503; 0xee0d9600; 0xfd5d65f4; 0x0f36e6f7;
   0x61c69362; 0x93ad1061; 0x80fde395; 0x72966096; 0xa65c047d; 0x5437877e;
   0x4767748a; 0xb50cf789; 0xeb1fcbad; 0x197448ae; 0x0a24bb5a; 0xf84f3859;
   0x2c855cb2; 0xdeeedfb1; 0xcdbe2c45; 0x3fd5af46; 0x7198540d; 0x83f3d70e;
   0x90a324fa; 0x62c8a7f9; 0xb602c312; 0x44694011; 0x5739b3e5; 0xa55230e6;
   0xfb410cc2; 0x092a8fc1; 0x1a7a7c35; 0xe811ff36; 0x3cdb9bdd; 0xceb018de;
   0xdde0eb2a; 0x2f8b6829; 0x82f63b78; 0x709db87b; 0x63cd4b8f; 0x91a6c88c;
   0x456cac67; 0xb7072f64; 0xa457dc90; 0x563c5f93; 0x082f63b7; 0xfa44e0b4;
   0xe9141340; 0x1b7f9043; 0xcfb5f4a8; 0x3dde77ab; 0x2e8e845f; 0xdce5075c;
   0x92a8fc17; 0x60c37f14; 0x73938ce0; 0x81f80fe3; 0x55326b08; 0xa759e80b;
   0xb4091bff; 0x466298fc; 0x1871a4d8; 0xea1a27db; 0xf94ad42f; 0x0b21572c;
   0xdfeb33c7; 0x2d80b0c4; 0x3ed04330; 0xccbbc033; 0xa24bb5a6; 0x502036a5;
   0x4370c551; 0xb11b4652; 0x65d122b9; 0x97baa1ba; 0x84ea524e; 0x7681d14d;
   0x2892ed69; 0xdaf96e6a; 0xc9a99d9e; 0x3bc21e9d; 0xef087a76; 0x1d63f975;
   0x0e330a81; 0xfc588982; 0xb21572c9; 0x407ef1ca; 0x532e023e; 0xa145813d;
   0x758fe5d6; 0x87e466d5; 0x94b49521; 0x66df1622; 0x38cc2a06; 0xcaa7a905;
   0xd9f75af1; 0x2b9cd9f2; 0xff56bd19; 0x0d3d3e1a; 0x1e6dcdee; 0xec064eed;
   0xc38d26c4; 0x31e6a5c7; 0x22b65633; 0xd0ddd530; 0x0417b1db; 0xf67c32d8;
   0xe52cc12c; 0x1747422f; 0x49547e0b; 0xbb3ffd08; 0xa86f0efc; 0x5a048dff;
   0x8ecee914; 0x7ca56a17; 0x6ff599e3; 0x9d9e1ae0; 0xd3d3e1ab; 0x21b862a8;
   0x32e8915c; 0xc083125f; 0x144976b4; 0xe622f5b7; 0xf5720643; 0x07198540;
   0x590ab964; 0xab613a67; 0xb831c993; 0x4a5a4a90; 0x9e902e7b; 0x6cfbad78;
   0x7fab5e8c; 0x8dc0dd8f; 0xe330a81a; 0x115b2b19; 0x020bd8ed; 0xf0605bee;
   0x24aa3f05; 0xd6c1bc06; 0xc5914ff2; 0x37faccf1; 0x69e9f0d5; 0x9b8273d6;
   0x88d28022; 0x7ab90321; 0xae7367ca; 0x5c18e4c9; 0x4f48173d; 0xbd23943e;
   0xf36e6f75; 0x0105ec76; 0x12551f82; 0xe03e9c81; 0x34f4f86a; 0xc69f7b69;
   0xd5cf889d; 0x27a40b9e; 0x79b737ba; 0x8bdcb4b9; 0x988c474d; 0x6ae7c44e;
   0xbe2da0a5; 0x4c4623a6; 0x5f16d052; 0xad7d5351].

(** ** The routines of the source *)
Definition crc32c_table_step (crc byte : Z) : Z :=
  Z.lxor (Z.shiftr crc 8) (tbl crc_table (Z.land (Z.lxor crc byte) 0xFF)).

Definition crc32c_unopt_table (m : mem) (crc : Z) (buf : ptr) (length : nat) : res Z :=
  for_up length (fun i crc => byte ← load8 m buf i; Ok (crc32c_table_step crc byte)) crc.

Definition crc32c_bit_step (crc : Z) : Z :=
  let mask := u32 (- Z.land crc 1) in
  Z.lxor (Z.shiftr crc 1) (Z.land 0x82F63B78 mask).

Definition crc32c_mask_step (crc byte : Z) : Z :=
  Nat.iter 8 crc32c_bit_step (Z.lxor crc byte).

Definition crc32c_unopt_mask (m : mem) (crc : Z) (buf : ptr) (length : nat) : res Z :=
  for_up length (fun i crc => byte ← load8 m buf i; Ok (crc32c_mask_step crc byte)) crc.

Definition calculate_crc32c (m : mem) (crc_init : Z) (buffer : ptr) (num : nat) : res Z :=
  crc32c_unopt_mask m crc_init buffer num.

Definition crc32c_one_u64 (d64 crc : Z) : Z :=
  let crc := Z.lxor (Z.shiftr crc 8) (tbl crc_table (Z.land (Z.lxor crc d64) 0xFF)) in
  let crc := Z.lxor (Z.shiftr crc 8) (tbl crc_table (Z.land (Z.lxor crc (Z.shiftr d64 8)) 0xFF)) in
  let crc := Z.lxor (Z.shiftr crc 8) (tbl crc_table (Z.land (Z.lxor crc (Z.shiftr d64 16)) 0xFF)) in
  let crc := Z.lxor (Z.shiftr crc 8) (tbl crc_table (Z.land (Z.lxor crc (Z.shiftr d64 24)) 0xFF)) in
  let crc := Z.lxor (Z.shiftr crc 8) (tbl crc_table (Z.land (Z.lxor crc (Z.shiftr d64 32)) 0xFF)) in
  let crc := Z.lxor (Z.shiftr crc 8) (tbl crc_table (Z.land (Z.lxor crc (Z.shiftr d64 40)) 0xFF)) in
  let crc := Z.lxor (Z.shiftr crc 8) (tbl crc_table (Z.land (Z.lxor crc (Z.shiftr d64 48)) 0xFF)) in
  Z.lxor (Z.shiftr crc 8) (tbl crc_table (Z.land (Z.lxor crc (Z.shiftr d64 56)) 0xFF)).

Definition calculate_crc32c_64 (m : mem) (crc_init : Z) (buffer : ptr) (num : nat) : res Z :=
  if negb (num mod 8 =? 0)%nat then Fault BUG
  else for_up (num / 8) (fun i crc => data ← load64 m buffer i; Ok (crc32c_one_u64 data crc)) crc_init.

(** [crc32_insn crc data] is the processor's [crc32 r64, r64] (or [crc32cx])
    instruction on a 64-bit operand. *)
Definition calculate_crc32c_avx (crc32_insn : Z → Z → Z)
    (m : mem) (crc_init : Z) (buffer : ptr) (num : nat) : res Z :=
  if negb (num mod 8 =? 0)%nat then Fault BUG
  else
    crc ← for_up (num / 8) (fun i crc => data ← load64 m buffer i; Ok (crc32_insn crc data)) crc_init;
    Ok (u32 crc).

(** ** Specification: the CRC of a list of bytes, one bit at a time *)
Definition crc_spec (crc : Z) (bs : list Z) : Z := foldl crc32c_mask_step crc bs.

Definition crc_range (c : Z) : Prop := 0 ≤ c < 2 ^ 32.

(** ** The bit step is linear over exclusive or *)
Definition POLY32 : Z := 0x82F63B78.

Lemma bit_step_odd c : crc32c_bit_step c = Z.lxor (Z.shiftr c 1) (if Z.odd c then POLY32 else 0).
Proof.
  unfold crc32c_bit_step. change (Z.land c 1) with (Z.land c (Z.ones 1)).
  rewrite Z.land_ones by lia.
  change (2 ^ 1) with 2. rewrite Zmod_odd. by destruct (Z.odd c).
Qed.

Lemma bit_step_lxor a b :
  crc32c_bit_step (Z.lxor a b) = Z.lxor (crc32c_bit_step a) (crc32c_bit_step b).
Proof.
  rewrite !bit_step_odd, Z.shiftr_lxor. rewrite <-!Z.bit0_odd, Z.lxor_spec.
  destruct (Z.testbit a 0), (Z.testbit b 0); simpl xorb; cbv iota; xor_ring.
Qed.

Lemma bit_iter_lxor n a b :
  Nat.iter n crc32c_bit_step (Z.lxor a b) =
  Z.lxor (Nat.iter n crc32c_bit_step a) (Nat.iter n crc32c_bit_step b).
Proof. induction n as [|n IH]; simpl; [done|]. by rewrite IH, bit_step_lxor. Qed.

Lemma bit_step_double c : crc32c_bit_step (2 * c) = c.
Proof.
  rewrite bit_step_odd, Z.odd_mul. simpl (Z.odd 2). simpl andb. cbv iota.
  rewrite Z.lxor_0_r, Z.shiftr_div_pow2 by lia. change (2 ^ 1) with 2.
  rewrite Z.mul_comm. apply Z.div_mul. lia.
Qed.

Lemma bit_iter_shift c : Nat.iter 8 crc32c_bit_step (256 * c) = c.
Proof.
  replace (256 * c) with (2 * (2 * (2 * (2 * (2 * (2 * (2 * (2 * c)))))))) by lia.
  rewrite !Nat.iter_succ_r. simpl Nat.iter. by rewrite !bit_step_double.
Qed.

Lemma bit_iter_table b : byte_range b →
  Nat.iter 8 crc32c_bit_step b = tbl crc_table b.
Proof.
  intros Hb. apply Z.eqb_eq.
  by by_bytes1 (fun b => Nat.iter 8 crc32c_bit_step b =? tbl crc_table b) b.
Qed.

Lemma split_low c : 0 ≤ c → c = Z.lxor (Z.land c 0xFF) (256 * Z.shiftr c 8).
Proof.
  intros Hc. change 256 with (2 ^ 8). rewrite Z.mul_comm, <-Z.shiftl_mul_pow2 by lia.
  apply Z.bits_inj'. intros i Hi. change 0xFF with (Z.ones 8).
  rewrite Z.lxor_spec, Z.land_spec. destruct (Z.lt_ge_cases i 8).
  - rewrite Z.ones_spec_low, Z.shiftl_spec_low by lia.
    by rewrite andb_true_r, xorb_false_r.
  - rewrite Z.ones_spec_high, Z.shiftl_spec_high, Z.shiftr_spec by lia.
    rewrite andb_false_r, xorb_false_l. f_equal. lia.
Qed.

Lemma land_ff_byte c : byte_range (Z.land c 0xFF).
Proof. rewrite Z.land_comm. apply (land_bound_l 8); lia. Qed.

(** One byte of the bitwise CRC is one table step. *)
Lemma mask_step_table crc b : 0 ≤ crc → byte_range b →
  crc32c_mask_step crc b = crc32c_table_step crc b.
Proof.
  intros Hc Hb. unfold crc32c_mask_step, crc32c_table_step.
  assert (0 ≤ Z.lxor crc b) by (apply Z.lxor_nonneg; unfold byte_range in Hb; lia).
  rewrite (split_low (Z.lxor crc b)) at 1 by done.
  rewrite bit_iter_lxor, bit_iter_shift, bit_iter_table by apply land_ff_byte.
  rewrite Z.shiftr_lxor, (Z.shiftr_div_pow2 b), (Z.div_small b), Z.lxor_0_r by (lia || exact Hb).
  apply Z.lxor_comm.
Qed.

Lemma crc_table_range b : byte_range b → crc_range (tbl crc_table b).
Proof.
  intros Hb. assert ((0 <=? tbl crc_table b) && (tbl crc_table b <? 2 ^ 32) = true) as H.
  { by by_bytes1 (fun b => (0 <=? tbl crc_table b) && (tbl crc_table b <? 2 ^ 32)) b. }
  unfold crc_range. lia.
Qed.

Lemma table_step_range crc b : crc_range crc → crc_range (crc32c_table_step crc b).
Proof.
  intros Hc. apply lxor_bound; [lia | | apply crc_table_range, land_ff_byte].
  unfold crc_range in Hc. rewrite Z.shiftr_div_pow2 by lia.
  split; [apply Z.div_pos; lia|]. apply Z.div_lt_upper_bound; lia.
Qed.

Lemma mask_step_range crc b : crc_range crc → byte_range b → crc_range (crc32c_mask_step crc b).
Proof.
  intros Hc Hb. rewrite mask_step_table by (done || unfold crc_range in Hc; lia).
  by apply table_step_range.
Qed.

Lemma crc_spec_range crc bs : crc_range crc → Forall byte_range bs → crc_range (crc_spec crc bs).
Proof.
  intros Hc Hbs. revert crc Hc. induction Hbs as [|b bs Hb _ IH]; intros; simpl; [done|].
  apply IH. by apply mask_step_range.
Qed.

Lemma crc_spec_app crc xs ys : crc_spec crc (xs ++ ys) = crc_spec (crc_spec crc xs) ys.
Proof. apply foldl_app. Qed.

Lemma crc_spec_one crc b : crc_spec crc [b] = crc32c_mask_step crc b.
Proof. unfold crc_spec. cbn [foldl]. reflexivity. Qed.

(** The 64-bit step folds the eight bytes of the word, low byte first. *)
Lemma land_ff_lxor_shift crc w k : 0 ≤ k →
  Z.land (Z.lxor crc (Z.shiftr w (8 * k))) 0xFF =
  Z.land (Z.lxor crc (le_byte (Z.to_nat k) w)) 0xFF.
Proof.
  intros Hk. unfold le_byte. rewrite Z2Nat.id by lia.
  replace (256 ^ k) with (2 ^ (8 * k)) by (rewrite Z.pow_mul_r by lia; done).
  rewrite <-Z.shiftr_div_pow2 by lia. change 256 with (2 ^ 8).
  change 0xFF with (Z.ones 8). rewrite <-(Z.land_ones (Z.shiftr w _)) by lia.
  apply Z.bits_inj'. intros i Hi. rewrite !Z.land_spec, !Z.lxor_spec, Z.land_spec.
  destruct (Z.lt_ge_cases i 8).
  - rewrite Z.ones_spec_low by lia. by rewrite !andb_true_r.
  - rewrite Z.ones_spec_high by lia. by rewrite !andb_false_r.
Qed.

Lemma one_u64_fold w crc :
  crc32c_one_u64 w crc = foldl crc32c_table_step crc (le_bytes 8 w).
Proof.
  assert (le_bytes 8 w = (fun k => le_byte k w) <$> seq 0 8) as ->.
  { apply list_eq. intros k. destruct (decide (k < 8)%nat).
    - rewrite le_bytes_lookup, list_lookup_fmap, lookup_seq_lt by lia. done.
    - rewrite (proj2 (lookup_ge_None _ _)) by (rewrite length_le_bytes; lia).
      symmetry. apply lookup_ge_None. rewrite length_fmap, length_seq. lia. }
  unfold crc32c_one_u64. simpl. unfold crc32c_table_step.
  assert (∀ c, Z.land (Z.lxor c w) 0xFF = Z.land (Z.lxor c (le_byte 0 w)) 0xFF) as E0.
  { intros c. pose proof (land_ff_lxor_shift c w 0 ltac:(lia)) as E.
    by rewrite Z.shiftr_0_r in E. }
  pose proof (fun c => land_ff_lxor_shift c w 1 ltac:(lia)) as E1.
  pose proof (fun c => land_ff_lxor_shift c w 2 ltac:(lia)) as E2.
  pose proof (fun c => land_ff_lxor_shift c w 3 ltac:(lia)) as E3.
  pose proof (fun c => land_ff_lxor_shift c w 4 ltac:(lia)) as E4.
  pose proof (fun c => land_ff_lxor_shift c w 5 ltac:(lia)) as E5.
  pose proof (fun c => land_ff_lxor_shift c w 6 ltac:(lia)) as E6.
  pose proof (fun c => land_ff_lxor_shift c w 7 ltac:(lia)) as E7.
  simpl in E1, E2, E3, E4, E5, E6, E7.
  by rewrite E0, E1, E2, E3, E4, E5, E6, E7.
Qed.

Lemma table_fold_spec crc bs : crc_range crc → Forall byte_range bs →
  foldl crc32c_table_step crc bs = crc_spec crc bs.
Proof.
  intros Hc Hbs. revert crc Hc. induction Hbs as [|b bs Hb _ IH]; intros crc Hc; simpl; [done|].
  rewrite mask_step_table by (done || unfold crc_range in Hc; lia).
  apply IH. by apply table_step_range.
Qed.

Lemma one_u64_spec w crc : crc_range crc →
  crc32c_one_u64 w crc = crc_spec crc (le_bytes 8 w).
Proof. intros Hc. rewrite one_u64_fold. apply table_fold_spec; [done|]. apply le_bytes_range. Qed.

(** ** The routines on buffers *)
Section buffers.
Context (m : mem) (p : ptr) (n : nat) (f : nat → Z) (crc : Z).
Context (Hp : holds m p n f) (Hf : ∀ j, (j < n)%nat → byte_range (f j)) (Hc : crc_range crc).

Lemma prefix_range k : (k ≤ n)%nat → Forall byte_range (f <$> seq 0 k).
Proof using Hf.
  intros Hk. apply Forall_fmap, Forall_seq. intros j Hj. apply Hf. lia.
Qed.

Lemma prefix_snoc k : f <$> seq 0 (S k) = (f <$> seq 0 k) ++ [f k].
Proof using. by rewrite seq_S, fmap_app. Qed.

Lemma crc_loop_spec (step : Z → Z → Z) :
  (∀ c b, crc_range c → byte_range b → step c b = crc32c_mask_step c b) →
  for_up n (fun i crc => byte ← load8 m p i; Ok (step crc byte)) crc =
  Ok (crc_spec crc (f <$> seq 0 n)).
Proof using Hp Hf Hc.
  intros Hstep.
  destruct (for_up_inv (fun i crc => byte ← load8 m p i; Ok (step crc byte))
    (fun k c => c = crc_spec crc (f <$> seq 0 k)) n crc) as (c & -> & ->); [done| |done].
  intros k c Hk ->. rewrite Hp by done. rstep. eexists; split; [done|].
  rewrite Hstep, prefix_snoc, crc_spec_app, crc_spec_one by
    (auto || apply crc_spec_range; auto using prefix_range with lia). reflexivity.
Qed.

Lemma calculate_crc32c_spec : calculate_crc32c m crc p n = Ok (crc_spec crc (f <$> seq 0 n)).
Proof using Hp Hf Hc. by apply crc_loop_spec. Qed.

Lemma crc32c_unopt_table_spec :
  crc32c_unopt_table m crc p n = Ok (crc_spec crc (f <$> seq 0 n)).
Proof using Hp Hf Hc.
  apply crc_loop_spec. intros c b Hcr Hb. symmetry.
  apply mask_step_table; [unfold crc_range in Hcr; lia | done].
Qed.

Lemma crc_word_loop_spec (step : Z → Z → Z) k : (8 * k ≤ n)%nat →
  (∀ w c, 0 ≤ w < 2 ^ 64 → crc_range c → step w c = crc_spec c (le_bytes 8 w)) →
  for_up k (fun i crc => data ← load64 m p i; Ok (step data crc)) crc =
  Ok (crc_spec crc (f <$> seq 0 (8 * k))).
Proof using Hp Hf Hc.
  intros Hk Hstep.
  destruct (for_up_inv (fun i crc => data ← load64 m p i; Ok (step data crc))
    (fun k c => c = crc_spec crc (f <$> seq 0 (8 * k))) k crc) as (c & -> & ->); [done| |done].
  intros i c Hi ->. rewrite (load64_ok _ _ _ f) by (intros; apply Hp; lia). rstep.
  assert (Forall byte_range (f <$> seq (8 * i) 8)) as Hr.
  { apply Forall_fmap, Forall_seq. intros j Hj. apply Hf. lia. }
  pose proof (le_word_range _ Hr) as Hw. rewrite length_fmap, length_seq in Hw.
  eexists; split; [done|]. rewrite Hstep;
    [|exact Hw | apply crc_spec_range; auto using prefix_range with lia].
  pose proof (le_bytes_word _ Hr) as E. rewrite length_fmap, length_seq in E. rewrite E.
  rewrite <-crc_spec_app, <-fmap_app, <-seq_app.
  do 3 f_equal. lia.
Qed.

Lemma calculate_crc32c_64_spec : (n mod 8 = 0)%nat →
  calculate_crc32c_64 m crc p n = Ok (crc_spec crc (f <$> seq 0 n)).
Proof using Hp Hf Hc.
  intros Hn. unfold calculate_crc32c_64. rewrite Hn. cbn [Nat.eqb negb].
  pose proof (Nat.div_mod_eq n 8) as Hd. rewrite Hn in Hd.
  rewrite crc_word_loop_spec; [|lia|by intros; apply one_u64_spec].
  by replace (8 * (n / 8))%nat with n by lia.
Qed.

(** Documented behaviour of the instruction: it accumulates the CRC32C of
    the eight bytes of its operand, low byte first. *)
Lemma calculate_crc32c_avx_spec (crc32_insn : Z → Z → Z) :
  (∀ c w, crc_range c → 0 ≤ w < 2 ^ 64 → crc32_insn c w = crc_spec c (le_bytes 8 w)) →
  (n mod 8 = 0)%nat →
  calculate_crc32c_avx crc32_insn m crc p n = Ok (crc_spec crc (f <$> seq 0 n)).
Proof using Hp Hf Hc.
  intros Hinsn Hn. unfold calculate_crc32c_avx. rewrite Hn. cbn [Nat.eqb negb].
  pose proof (Nat.div_mod_eq n 8) as Hd. rewrite Hn in Hd.
  rewrite (crc_word_loop_spec (fun w c => crc32_insn c w)); [|lia|by intros; apply Hinsn].
  rstep. replace (8 * (n / 8))%nat with n by lia.
  rewrite wrap_small; [done|]. apply crc_spec_range; auto using prefix_range.
Qed.
End buffers.

(** ** The textbook CRC32C register

    One message bit at a time, least significant first: the register shifts
    right and the reflected polynomial is added when the outgoing bit differs
    from the message bit. *)
Definition crc_serial_bit (c : Z) (bit : bool) : Z :=
  Z.lxor (Z.shiftr c 1) (if xorb (Z.odd c) bit then POLY32 else 0).
Definition bits_of (b : Z) (n : nat) : list bool := (fun i => Z.testbit b (Z.of_nat i)) <$> seq 0 n.
Definition crc_ref (crc : Z) (bs : list Z) : Z :=
  foldl (fun c b => foldl crc_serial_bit c (bits_of b 8)) crc bs.

Lemma bits_of_S b n : bits_of b (S n) = bits_of b n ++ [Z.odd (Z.shiftr b (Z.of_nat n))].
Proof.
  unfold bits_of. rewrite seq_S, fmap_app. simpl. do 2 f_equal.
  by rewrite <-Z.bit0_odd, Z.shiftr_spec, Z.add_0_l by lia.
Qed.

Lemma bit_iter_serial n c b :
  Nat.iter n crc32c_bit_step (Z.lxor c b) =
  Z.lxor (foldl crc_serial_bit c (bits_of b n)) (Z.shiftr b (Z.of_nat n)).
Proof.
  induction n as [|n IH]; [done|]. rewrite bits_of_S, foldl_app. cbn [Nat.iter nat_rect foldl].
  unfold Nat.iter in IH. rewrite IH, bit_step_odd. set (c' := foldl _ _ _). unfold crc_serial_bit.
  rewrite <-!Z.bit0_odd, Z.lxor_spec, Z.shiftr_lxor, Z.shiftr_shiftr by lia.
  replace (Z.of_nat n + 1) with (Z.of_nat (S n)) by lia. xor_ring.
Qed.

Lemma crc_spec_ref crc bs : Forall byte_range bs → crc_spec crc bs = crc_ref crc bs.
Proof.
  intros Hbs. revert crc. induction Hbs as [|b bs Hb _ IH]; intros crc; [done|].
  unfold crc_spec, crc_ref in *. cbn [foldl]. rewrite IH. f_equal.
  unfold crc32c_mask_step. rewrite bit_iter_serial.
  rewrite (Z.shiftr_eq_0 b (Z.of_nat 8)), Z.lxor_0_r; [done|unfold byte_range in Hb; lia|].
  unfold byte_range in Hb. destruct (Z.eq_dec b 0) as [->|]; [done|]. apply Z.log2_lt_pow2; simpl; lia.
Qed.

(** C20: every CRC routine of the sources computes the CRC32C of its buffer from
    the given start value: the bit loop, the byte table, the unrolled eight-byte
    table and the one built on the processor's instruction; the last two need
    the length to be a multiple of eight and stop on [BUG_ON] otherwise. *)
Theorem crc_routines_agree m p n f crc (crc32_insn : Z → Z → Z)
    (Hp : holds m p n f) (Hf : ∀ j, (j < n)%nat → byte_range (f j)) (Hc : crc_range crc)
    (Hinsn : ∀ c w, crc_range c → 0 ≤ w < 2 ^ 64 → crc32_insn c w = crc_spec c (le_bytes 8 w)) :
  let want := crc_ref crc (f <$> seq 0 n) in
  calculate_crc32c m crc p n = Ok want ∧ crc32c_unopt_table m crc p n = Ok want ∧
  if (n mod 8 =? 0)%nat
  then calculate_crc32c_64 m crc p n = Ok want ∧ calculate_crc32c_avx crc32_insn m crc p n = Ok want
  else calculate_crc32c_64 m crc p n = Fault BUG ∧ calculate_crc32c_avx crc32_insn m crc p n = Fault BUG.
Proof.
  intros want. unfold want. rewrite <-crc_spec_ref by by apply prefix_range with (n := n).
  split; [by apply calculate_crc32c_spec|]. split; [by apply crc32c_unopt_table_spec|].
  destruct (Nat.eqb_spec (n mod 8) 0).
  - split; [by apply calculate_crc32c_64_spec|by apply calculate_crc32c_avx_spec].
  - unfold calculate_crc32c_64, calculate_crc32c_avx. rewrite (proj2 (Nat.eqb_neq _ _)) by done. done.
Qed.

Lemma crc_routines_agree_witness :
  let m : mem := {[0%nat := [49; 50; 51; 52; 53; 54; 55; 56]]} in
  calculate_crc32c_64 m (Z.ones 32) (PTR 0) 8 = calculate_crc32c m (Z.ones 32) (PTR 0) 8 ∧
  Z.lxor (crc_ref (Z.ones 32) [49; 50; 51; 52; 53; 54; 55; 56; 57]) (Z.ones 32) = 0xE3069283.
Proof.
  intros m. split; [|vm_compute; reflexivity].
  destruct (crc_routines_agree m (PTR 0) 8 (fun j => 49 + Z.of_nat j) (Z.ones 32)
    (fun c w => crc_spec c (le_bytes 8 w))) as (H1 & _ & H3 & _).
  - apply holdsb_ok. vm_compute. reflexivity.
  - intros j Hj. unfold byte_range. lia.
  - done.
  - done.
  - rewrite H1. exact H3.
Defined.
