(* ===== verification/ErasureCode.v ===== *)
(** * The erasure-code kernels

    Models the encode, update and decode kernels of
    [clnt/block/datapath_ec/nvmeibc_block_dp_ec_gf.c] in their byte version
    ([gf_functions_unoptimized]) and in their 64-bit version
    ([gf_functions_u64]), the table of function pointers [gf_functions_t] that
    selects one of them, and the contract [GfKernels] that every table has to
    satisfy.  The contract is stated on the contents of buffers; the clients
    in [RaidSlice] are proved against it and [KernelBytes] and [KernelWords]
    discharge it for the two tables. *)
From stdpp Require Import base list gmap numbers.
From Stdlib Require Import ZArith Lia.
From S2P Require Import Prelude CMemory GaloisField Crc32c.
Local Open Scope Z_scope.

Definition GF_MAX_P : nat := 2.
Definition GF_MAX_D : nat := 14.

(** [u32 *crc]: [None] is the [NULL] pointer, CRCs not wanted. *)
Abbreviation crcs := (option (list Z)).

(** [if (crc) crc[i] = __crc32c_one_u64(w, crc[i])] *)
Definition crc_word (crc : crcs) (i : nat) (w : Z) : res crcs :=
  match crc with
  | None => Ok None
  | Some l => c ← aget l i; l' ← aset l i (crc32c_one_u64 w c); Ok (Some l')
  end.

(** [crc[i] = __calculate_crc32c(crc[i], buf, len)] *)
Definition crc_buf (m : mem) (l : list Z) (i : nat) (buf : ptr) (len : nat) : res (list Z) :=
  c ← aget l i; c' ← calculate_crc32c m c buf len; aset l i c'.

(** The prologue of every encoder: use [data_copy[i]] instead of [data[i]]
    where it is given, after copying the block there. *)
Definition copy_rows (len rows : nat) (data : list ptr) (data_copy : option (list ptr))
    (m : mem) : res (mem * list ptr) :=
  for_up rows (fun i '(m, data_p) =>
    if decide (i < GF_MAX_D)%nat then
      d ← aget data i;
      c ← match data_copy with None => Ok NULL | Some dc => aget dc i end;
      if is_null c then Ok (m, data_p ++ [d])
      else m' ← memcpy m c d len; Ok (m', data_p ++ [c])
    else Fault OOB) (m, []).

Definition encode_fn : Type :=
  nat → nat → list ptr → list ptr → crcs → option (list ptr) → mem → res (mem * crcs).
Definition update_fn : Type :=
  nat → nat → nat → list ptr → list ptr → crcs → ptr → mem → res (mem * crcs).
Definition decode1_fn : Type :=
  nat → nat → nat → list ptr → list ptr → crcs → mem → res (mem * crcs).
Definition decode2_fn : Type :=
  nat → nat → nat → nat → list ptr → list ptr → crcs → mem → res (mem * crcs).

(** ** Byte kernels

    Each encoder is its prologue followed by the loop on the selected rows. *)
Definition encode_p_8_rows (len rows : nat) (data_p coding : list ptr) (crc : crcs) (m : mem)
    : res (mem * crcs) :=
  c0 ← aget coding 0;
  m ← (if is_null c0 then Ok m else
    for_up len (fun j m =>
      p ← for_up rows (fun i p => d ← aget data_p i; v ← load8 m d j; Ok (Z.lxor p v)) 0;
      store8 m c0 j p) m);
  match crc with
  | None => Ok (m, None)
  | Some l =>
      l ← for_up rows (fun j l => d ← aget data_p j; crc_buf m l j d len) l;
      l ← crc_buf m l rows c0 len;
      Ok (m, Some l)
  end.
Definition ec_encode_data_p_8 : encode_fn := fun len rows data coding crc data_copy m =>
  '(m, data_p) ← copy_rows len rows data data_copy m;
  encode_p_8_rows len rows data_p coding crc m.

Definition encode_q_8_rows (len rows : nat) (data_p coding : list ptr) (crc : crcs) (m : mem)
    : res (mem * crcs) :=
  c1 ← aget coding 1;
  m ← (if is_null c1 then Ok m else
    for_up len (fun j m =>
      q ← for_down rows (fun i q => d ← aget data_p i; v ← load8 m d j; Ok (gfmul_q q v)) 0;
      store8 m c1 j q) m);
  match crc with
  | None => Ok (m, None)
  | Some l =>
      l ← for_up rows (fun j l => d ← aget data_p j; crc_buf m l j d len) l;
      l ← crc_buf m l (rows + 1) c1 len;
      Ok (m, Some l)
  end.
Definition ec_encode_data_q_8 : encode_fn := fun len rows data coding crc data_copy m =>
  '(m, data_p) ← copy_rows len rows data data_copy m;
  encode_q_8_rows len rows data_p coding crc m.

(** [ec_encode_data_pq_8] calls the P and the Q encoder of the current table. *)
Definition encode_pq_8_rows (ec_encode_p ec_encode_q : encode_fn) (len rows : nat)
    (data_p coding : list ptr) (crc : crcs) (m : mem) : res (mem * crcs) :=
  '(m, _) ← ec_encode_p len rows data_p coding None None m;
  '(m, crc) ← ec_encode_q len rows data_p coding crc None m;
  match crc with
  | None => Ok (m, None)
  | Some l => c0 ← aget coding 0; l ← crc_buf m l rows c0 len; Ok (m, Some l)
  end.
Definition ec_encode_data_pq_8 (ec_encode_p ec_encode_q : encode_fn) : encode_fn :=
  fun len rows data coding crc data_copy m =>
  '(m, data_p) ← copy_rows len rows data data_copy m;
  encode_pq_8_rows ec_encode_p ec_encode_q len rows data_p coding crc m.

Definition ec_encode_data_update_8 : update_fn := fun len k vec_i data coding crc data_copy m =>
  d1 ← aget data 1;
  '(m, copy) ← (if is_null data_copy then Ok (m, d1)
                else m' ← memcpy m data_copy d1 len; Ok (m', data_copy));
  m ← for_up len (fun i m =>
    d0 ← aget data 0;
    old_d ← load8 m d0 i;
    new_d ← load8 m copy i;
    m ← (if (k =? 2)%nat then
           d3 ← aget data 3;
           q ← load8 m d3 i;
           c1 ← aget coding 1;
           store8 m c1 i (Z.lxor q (gfpowmul (Z.of_nat vec_i) (Z.lxor old_d new_d)))
         else Ok m);
    if (k =? 2)%nat || (k =? 1)%nat then
      d2 ← aget data 2;
      p ← load8 m d2 i;
      c0 ← aget coding 0;
      store8 m c0 i (Z.lxor p (Z.lxor old_d new_d))
    else Ok m) m;
  match crc with
  | None => Ok (m, None)
  | Some l =>
      l ← crc_buf m l 0 d1 len;
      c0 ← aget coding 0;
      l ← crc_buf m l 1 c0 len;
      l ← (if (k =? 2)%nat then c1 ← aget coding 1; crc_buf m l 2 c1 len else Ok l);
      Ok (m, Some l)
  end.

Definition ec_decode_data_p_8 : decode1_fn := fun len rows d0 data new_data crc m =>
  m ← for_up len (fun j m =>
    temp_p ← for_up rows (fun i temp_p =>
      if (d0 =? i)%nat then Ok temp_p
      else d ← aget data i; v ← load8 m d j; Ok (Z.lxor temp_p v)) 0;
    p ← aget data rows; v ← load8 m p j;
    n0 ← aget new_data 0;
    store8 m n0 j (Z.lxor v temp_p)) m;
  match crc with
  | None => Ok (m, None)
  | Some l => n0 ← aget new_data 0; l ← crc_buf m l 0 n0 len; Ok (m, Some l)
  end.

Definition ec_decode_data_q_8 : decode1_fn := fun len rows d0 data new_data crc m =>
  m ← for_up len (fun j m =>
    temp_q ← for_down rows (fun i temp_q =>
      temp_d ← (if (d0 =? i)%nat then Ok 0 else d ← aget data i; load8 m d j);
      Ok (gfmul_q temp_q temp_d)) 0;
    q ← aget data (rows + 1); v ← load8 m q j;
    n0 ← aget new_data 0;
    store8 m n0 j (gfpowmul (255 - Z.of_nat d0) (Z.lxor v temp_q))) m;
  match crc with
  | None => Ok (m, None)
  | Some l => n0 ← aget new_data 0; l ← crc_buf m l 0 n0 len; Ok (m, Some l)
  end.

Definition ec_decode_data_pq_8 : decode2_fn := fun len rows d0 d1 data new_data crc m =>
  m ← for_up len (fun j m =>
    '(temp_p, temp_q) ← for_down rows (fun i '(temp_p, temp_q) =>
      temp_d ← (if ((d0 =? i) || (d1 =? i))%nat then Ok 0 else d ← aget data i; load8 m d j);
      Ok (Z.lxor temp_p temp_d, gfmul_q temp_q temp_d)) (0, 0);
    p ← aget data rows; vp ← load8 m p j;
    q ← aget data (rows + 1); vq ← load8 m q j;
    let temp_p := Z.lxor temp_p vp in
    let temp_q := Z.lxor temp_q vq in
    let numerator := Z.lxor temp_q (gfpowmul (Z.of_nat d1) temp_p) in
    let denominator := Z.lxor (tbl gff_base (Z.of_nat d0)) (tbl gff_base (Z.of_nat d1)) in
    dx ← gfdiv numerator denominator;
    n0 ← aget new_data 0;
    m ← store8 m n0 j dx;
    pd1 ← aget data d1;
    if is_minus1 pd1 then Ok m
    else n1 ← aget new_data 1; store8 m n1 j (Z.lxor dx temp_p)) m;
  match crc with
  | None => Ok (m, None)
  | Some l =>
      pd0 ← aget data d0;
      l ← (if is_minus1 pd0 then Ok l else n0 ← aget new_data 0; crc_buf m l 0 n0 len);
      pd1 ← aget data d1;
      l ← (if is_minus1 pd1 then Ok l else n1 ← aget new_data 1; crc_buf m l 1 n1 len);
      Ok (m, Some l)
  end.

(** ** Word kernels: [ll = len/sizeof(u64)] words per buffer *)
Definition encode_p_64_rows (len rows : nat) (data_p coding : list ptr) (crc : crcs) (m : mem)
    : res (mem * crcs) :=
  let ll := (len / 8)%nat in
  for_up ll (fun j '(m, crc) =>
    '(p, crc) ← for_up rows (fun i '(p, crc) =>
      d ← aget data_p i;
      dat ← load64 m d j;
      crc ← crc_word crc i dat;
      Ok (Z.lxor p dat, crc)) (0, crc);
    c0 ← aget coding 0;
    m ← store64 m c0 j p;
    crc ← crc_word crc rows p;
    Ok (m, crc)) (m, crc).
Definition ec_encode_data_p_64 : encode_fn := fun len rows data coding crc data_copy m =>
  '(m, data_p) ← copy_rows len rows data data_copy m;
  encode_p_64_rows len rows data_p coding crc m.

Definition encode_q_64_rows (len rows : nat) (data_p coding : list ptr) (crc : crcs) (m : mem)
    : res (mem * crcs) :=
  let ll := (len / 8)%nat in
  for_up ll (fun j '(m, crc) =>
    '(q, crc) ← for_down rows (fun i '(q, crc) =>
      d ← aget data_p i;
      dat ← load64 m d j;
      crc ← crc_word crc i dat;
      Ok (gfmul_q_64 q dat, crc)) (0, crc);
    c1 ← aget coding 1;
    m ← store64 m c1 j q;
    crc ← crc_word crc (rows + 1) q;
    Ok (m, crc)) (m, crc).
Definition ec_encode_data_q_64 : encode_fn := fun len rows data coding crc data_copy m =>
  '(m, data_p) ← copy_rows len rows data data_copy m;
  encode_q_64_rows len rows data_p coding crc m.

(** [data_p[rows-1]] with [rows = 0] is an access before the array. *)
Definition encode_pq_64_word (rows : nat) (data_p coding : list ptr) (j : nat)
    (s : mem * crcs) : res (mem * crcs) :=
  let '(m, crc) := s in
  match rows with
  | O => Fault OOB
  | S last =>
      d ← aget data_p last;
      p ← load64 m d j;
      let q := p in
      crc ← crc_word crc last q;
      '(p, q, crc) ← for_down last (fun i '(p, q, crc) =>
        d ← aget data_p i;
        temp ← load64 m d j;
        crc ← crc_word crc i temp;
        Ok (Z.lxor p temp, gfmul_q_64 q temp, crc)) (p, q, crc);
      c0 ← aget coding 0;
      m ← store64 m c0 j p;
      c1 ← aget coding 1;
      m ← store64 m c1 j q;
      crc ← crc_word crc rows p;
      crc ← crc_word crc (rows + 1) q;
      Ok (m, crc)
  end.
Definition encode_pq_64_rows (len rows : nat) (data_p coding : list ptr) (crc : crcs) (m : mem)
    : res (mem * crcs) :=
  let ll := (len / 8)%nat in
  for_up ll (encode_pq_64_word rows data_p coding) (m, crc).
Definition ec_encode_data_pq_64 : encode_fn := fun len rows data coding crc data_copy m =>
  '(m, data_p) ← copy_rows len rows data data_copy m;
  encode_pq_64_rows len rows data_p coding crc m.

(** The word update and decode kernels accumulate the CRCs in local variables
    ([dcrc], [pcrc], [qcrc], [crc0], [crc1]); [load_crc] reads one at entry
    (0 when CRCs are not wanted), [step_crc] is
    [if (crc) c = __crc32c_one_u64(w, c)], [store_crc] writes it back. *)
Definition load_crc (crc : crcs) (i : nat) : res Z :=
  match crc with None => Ok 0 | Some l => aget l i end.
Definition step_crc (crc : crcs) (w c : Z) : Z :=
  match crc with None => c | Some _ => crc32c_one_u64 w c end.
Definition store_crc (crc : crcs) (i : nat) (c : Z) : res crcs :=
  match crc with None => Ok None | Some l => l' ← aset l i c; Ok (Some l') end.

Definition update_64_word (k vec_i : nat) (data coding : list ptr) (crc : crcs) (copy : ptr)
    (i : nat) (s : mem * Z * Z * Z) : res (mem * Z * Z * Z) :=
  let '(m, dcrc, pcrc, qcrc) := s in
  d0 ← aget data 0;
  old_d ← load64 m d0 i;
  new_d ← load64 m copy i;
  d2 ← aget data 2;
  p ← load64 m d2 i;
  let p := Z.lxor p (Z.lxor old_d new_d) in
  c0 ← aget coding 0;
  m ← store64 m c0 i p;
  let dcrc := step_crc crc new_d dcrc in
  let pcrc := step_crc crc p pcrc in
  if (1 <? k)%nat then
    let q := gfpowmul_64 vec_i (Z.lxor old_d new_d) in
    d3 ← aget data 3;
    v ← load64 m d3 i;
    let q := Z.lxor q v in
    c1 ← aget coding 1;
    m ← store64 m c1 i q;
    Ok (m, dcrc, pcrc, step_crc crc q qcrc)
  else Ok (m, dcrc, pcrc, qcrc).

Definition ec_encode_data_update_64 : update_fn := fun len k vec_i data coding crc data_copy m =>
  let ll := (len / 8)%nat in
  d1 ← aget data 1;
  '(m, copy) ← (if is_null data_copy then Ok (m, d1)
                else m' ← memcpy m data_copy d1 len; Ok (m', data_copy));
  dcrc ← load_crc crc 0;
  pcrc ← load_crc crc 1;
  qcrc ← (if (1 <? k)%nat then load_crc crc 2 else Ok 0);
  '(m, dcrc, pcrc, qcrc) ←
    for_up ll (update_64_word k vec_i data coding crc copy) (m, dcrc, pcrc, qcrc);
  crc ← store_crc crc 0 dcrc;
  crc ← store_crc crc 1 pcrc;
  crc ← (if (1 <? k)%nat then store_crc crc 2 qcrc else Ok crc);
  Ok (m, crc).

Definition ec_decode_data_p_64 : decode1_fn := fun len rows d0 data new_data crc m =>
  let ll := (len / 8)%nat in
  dcrc ← load_crc crc 0;
  '(m, dcrc) ← for_up ll (fun j '(m, dcrc) =>
    temp_p ← for_up rows (fun i temp_p =>
      if (d0 =? i)%nat then Ok temp_p
      else d ← aget data i; v ← load64 m d j; Ok (Z.lxor temp_p v)) 0;
    p ← aget data rows; v ← load64 m p j;
    let temp_p := Z.lxor temp_p v in
    n0 ← aget new_data 0;
    m ← store64 m n0 j temp_p;
    Ok (m, step_crc crc temp_p dcrc)) (m, dcrc);
  crc ← store_crc crc 0 dcrc;
  Ok (m, crc).

Definition ec_decode_data_q_64 : decode1_fn := fun len rows d0 data new_data crc m =>
  let ll := (len / 8)%nat in
  dcrc ← load_crc crc 0;
  '(m, dcrc) ← for_up ll (fun j '(m, dcrc) =>
    temp_q ← for_down rows (fun i temp_q =>
      temp_d ← (if (d0 =? i)%nat then Ok 0 else d ← aget data i; load64 m d j);
      Ok (gfmul_q_64 temp_q temp_d)) 0;
    q ← aget data (rows + 1); v ← load64 m q j;
    let temp_q := gfpowdiv_64 d0 (Z.lxor v temp_q) in
    n0 ← aget new_data 0;
    m ← store64 m n0 j temp_q;
    Ok (m, step_crc crc temp_q dcrc)) (m, dcrc);
  crc ← store_crc crc 0 dcrc;
  Ok (m, crc).

Definition decode_pq_64_word (rows d0 d1 : nat) (data new_data : list ptr) (crc : crcs)
    (factor : Z) (j : nat) (s : mem * Z * Z) : res (mem * Z * Z) :=
  let '(m, crc0, crc1) := s in
  '(temp_p, temp_q) ← for_down rows (fun i '(temp_p, temp_q) =>
    temp_d ← (if ((d0 =? i) || (d1 =? i))%nat then Ok 0 else d ← aget data i; load64 m d j);
    Ok (Z.lxor temp_p temp_d, gfmul_q_64 temp_q temp_d)) (0, 0);
  p ← aget data rows; vp ← load64 m p j;
  q ← aget data (rows + 1); vq ← load64 m q j;
  let temp_p := Z.lxor temp_p vp in
  let temp_q := Z.lxor temp_q vq in
  let numerator := Z.lxor (gfpowmul_64 d1 temp_p) temp_q in
  let temp_d := gf_mul_64 factor numerator in
  n0 ← aget new_data 0;
  m ← store64 m n0 j temp_d;
  let crc0 := step_crc crc temp_d crc0 in
  pd1 ← aget data d1;
  if is_minus1 pd1 then Ok (m, crc0, crc1)
  else
    let temp_d := Z.lxor temp_d temp_p in
    n1 ← aget new_data 1;
    m ← store64 m n1 j temp_d;
    Ok (m, crc0, step_crc crc temp_d crc1).

Definition ec_decode_data_pq_64 : decode2_fn := fun len rows d0 d1 data new_data crc m =>
  crc0 ← load_crc crc 0;
  crc1 ← load_crc crc 1;
  let ll := (len / 8)%nat in
  let denominator := Z.lxor (tbl gff_base (Z.of_nat d0)) (tbl gff_base (Z.of_nat d1)) in
  let factor := tbl gff_base (255 - tbl gflog_base denominator) in
  '(m, crc0, crc1) ←
    for_up ll (decode_pq_64_word rows d0 d1 data new_data crc factor) (m, crc0, crc1);
  crc ← store_crc crc 0 crc0;
  pd1 ← aget data d1;
  crc ← (if is_minus1 pd1 then Ok crc else store_crc crc 1 crc1);
  Ok (m, crc).

(** * Specification

    [codeword rows d] is the stripe the data column [d] encodes to: the data
    itself, then P, then Q. *)
Definition P_of (rows : nat) (d : nat → Z) : Z := foldr (fun i p => Z.lxor p (d i)) 0 (seq 0 rows).
Definition Q_of (rows : nat) (d : nat → Z) : Z := foldr (fun i q => gfmul_q q (d i)) 0 (seq 0 rows).

Definition codeword (rows : nat) (D : nat → nat → Z) (i j : nat) : Z :=
  if decide (i < rows)%nat then D i j
  else if decide (i = rows) then P_of rows (fun r => D r j)
  else Q_of rows (fun r => D r j).

(** [crc_at c0 c1 l f]: CRC [i] of [c1] is CRC [i] of [c0] extended by the
    first [l i] bytes of the stream [f i]. *)
Definition crc_at (c0 c1 : crcs) (l : nat → nat) (f : nat → nat → Z) : Prop :=
  match c0, c1 with
  | None, None => True
  | Some l0, Some l1 => length l1 = length l0 ∧ ∀ i c, l0 !! i = Some c →
      l1 !! i = Some (crc_spec c (f i <$> seq 0 (l i)))
  | _, _ => False
  end.

Definition crc_ready (c : crcs) (n : nat) : Prop :=
  match c with None => True | Some l => (n ≤ length l)%nat ∧ Forall crc_range l end.

Definition bytes (D : nat → nat → Z) : Prop := ∀ i j, byte_range (D i j).

Definition row_holds (m : mem) (a : list ptr) (len i : nat) (f : nat → Z) : Prop :=
  ∃ p, a !! i = Some p ∧ holds m p len f.

(** [data_copy[i]], and the buffer an encoder really reads row [i] from. *)
Definition copy_at (dc : option (list ptr)) (i : nat) : option ptr :=
  match dc with
  | None => None
  | Some l => c ← l !! i; if is_null c then None else Some c
  end.
Definition sel (data : list ptr) (dc : option (list ptr)) (i : nat) : option ptr :=
  match copy_at dc i with Some c => Some c | None => (data !! i) end.

Record encode_pre (m : mem) (len rows : nat) (data : list ptr) (dc : option (list ptr))
    (outs : list ptr) (D : nat → nat → Z) : Prop := {
  ep_len : (len mod 8 = 0)%nat;
  ep_rows : (0 < rows ≤ GF_MAX_D)%nat;
  ep_bytes : bytes D;
  ep_data : ∀ i, (i < rows)%nat → row_holds m data len i (D i);
  ep_outs : ∀ o, o ∈ outs → o ≠ NULL ∧ valid m o len ∧ ∀ i, (i < rows)%nat → data !! i ≠ Some o;
  ep_dc : ∀ l, dc = Some l → (rows ≤ length l)%nat;
  ep_copy : ∀ i c, (i < rows)%nat → copy_at dc i = Some c → valid m c len ∧ ¬ (c ∈ outs) ∧
    (∀ k, (k < rows)%nat → data !! k ≠ Some c) ∧
    (∀ k, (k < rows)%nat → k ≠ i → copy_at dc k ≠ Some c)
}.

Definition encode_writes (rows : nat) (dc : option (list ptr)) (outs : list ptr) (q : ptr) : Prop :=
  q ∈ outs ∨ ∃ i, (i < rows)%nat ∧ copy_at dc i = Some q.

(** [ks] lists the parities a kernel computes: [[0]] P, [[1]] Q, [[0; 1]] both. *)
Definition encode_spec (f : encode_fn) (ks : list nat) : Prop :=
  ∀ m len rows data coding crc dc D outs,
    encode_pre m len rows data dc outs D →
    Forall2 (fun k o => coding !! k = Some o) ks outs → NoDup outs →
    (∀ k, k ∈ ks → crc_ready crc (rows + k + 1)) →
    ∃ m' crc', f len rows data coding crc dc m = Ok (m', crc') ∧
      touched m m' len (encode_writes rows dc outs) ∧
      (∀ i, (i < rows)%nat → ∃ p, sel data dc i = Some p ∧ holds m' p len (D i)) ∧
      Forall2 (fun k o => holds m' o len (codeword rows D (rows + k))) ks outs ∧
      crc_at crc crc' (fun i => if decide (i < rows ∨ i - rows ∈ ks)%nat then len else 0%nat)
             (codeword rows D).

(** [k] is the parity the kernel repairs from. *)
Definition decode1_spec (f : decode1_fn) (k : nat) : Prop :=
  ∀ m len rows d0 data new_data crc D n0,
    (len mod 8 = 0)%nat → (d0 < rows ≤ GF_MAX_D)%nat → bytes D →
    (∀ i, (i < rows)%nat → i ≠ d0 → row_holds m data len i (D i)) →
    row_holds m data len (rows + k) (codeword rows D (rows + k)) →
    new_data !! 0%nat = Some n0 → valid m n0 len → crc_ready crc 1 →
    ∃ m' crc', f len rows d0 data new_data crc m = Ok (m', crc') ∧
      mem_at m m' (upd (fun _ => 0%nat) n0 len) (fun _ => D d0) ∧
      crc_at crc crc' (fun i => if decide (i = 0)%nat then len else 0%nat) (fun _ => D d0).

Definition decode2_spec (f : decode2_fn) : Prop :=
  ∀ m len rows d0 d1 data new_data crc D n0 n1 p0 p1,
    (len mod 8 = 0)%nat → (d0 < rows)%nat → (d1 < rows)%nat → d0 ≠ d1 →
    (rows ≤ GF_MAX_D)%nat → bytes D →
    (∀ i, (i < rows)%nat → i ≠ d0 → i ≠ d1 → row_holds m data len i (D i)) →
    row_holds m data len rows (codeword rows D rows) →
    row_holds m data len (rows + 1) (codeword rows D (rows + 1)) →
    data !! d0 = Some p0 → p0 ≠ MINUS1 → data !! d1 = Some p1 →
    new_data !! 0%nat = Some n0 → valid m n0 len →
    (p1 ≠ MINUS1 → new_data !! 1%nat = Some n1 ∧ valid m n1 len ∧ n1 ≠ n0) →
    crc_ready crc 2 →
    ∃ m' crc', f len rows d0 d1 data new_data crc m = Ok (m', crc') ∧
      holds m' n0 len (D d0) ∧ (p1 ≠ MINUS1 → holds m' n1 len (D d1)) ∧
      touched m m' len (fun q => q = n0 ∨ (p1 ≠ MINUS1 ∧ q = n1)) ∧
      crc_at crc crc'
        (fun i => if decide (i = 0 ∨ (i = 1 ∧ p1 ≠ MINUS1))%nat then len else 0%nat)
        (fun i => if decide (i = 0)%nat then D d0 else D d1).

Definition update_P (P old new : nat → Z) (j : nat) : Z := Z.lxor (P j) (Z.lxor (old j) (new j)).
Definition update_Q (v : nat) (Q old new : nat → Z) (j : nat) : Z :=
  Z.lxor (Q j) (Nat.iter v xtime (Z.lxor (old j) (new j))).

(** New parities may be written over the old ones; [c1] and [d3] are used only
    when [k = 2]. *)
Record update_pre (m : mem) (len k v : nat) (data coding : list ptr) (crc : crcs) (copy : ptr)
    (old new P Q : nat → Z) (d0 d1 d2 d3 c0 c1 : ptr) : Prop := {
  up_len : (len mod 8 = 0)%nat;
  up_k : (k = 1 ∨ k = 2)%nat;
  up_v : (v ≤ 255)%nat;
  up_bytes : ∀ j, byte_range (old j) ∧ byte_range (new j) ∧ byte_range (P j) ∧ byte_range (Q j);
  up_d0 : data !! 0%nat = Some d0 ∧ holds m d0 len old;
  up_d1 : data !! 1%nat = Some d1 ∧ holds m d1 len new;
  up_d2 : data !! 2%nat = Some d2 ∧ holds m d2 len P;
  up_d3 : k = 2%nat → data !! 3%nat = Some d3 ∧ holds m d3 len Q;
  up_c0 : coding !! 0%nat = Some c0 ∧ valid m c0 len ∧ c0 ≠ d0 ∧ c0 ≠ d1 ∧ c0 ≠ copy;
  up_c1 : k = 2%nat → coding !! 1%nat = Some c1 ∧ valid m c1 len ∧
          c1 ≠ d0 ∧ c1 ≠ d1 ∧ c1 ≠ copy ∧ c1 ≠ c0 ∧ c1 ≠ d2 ∧ c0 ≠ d3;
  up_copy : copy ≠ NULL → valid m copy len ∧ copy ≠ d0 ∧ copy ≠ d1 ∧ copy ≠ d2 ∧
            (k = 2%nat → copy ≠ d3);
  up_crc : crc_ready crc (k + 1)
}.

Definition update_spec (f : update_fn) : Prop :=
  ∀ m len k v data coding crc copy old new P Q d0 d1 d2 d3 c0 c1,
    update_pre m len k v data coding crc copy old new P Q d0 d1 d2 d3 c0 c1 →
    ∃ m' crc', f len k v data coding crc copy m = Ok (m', crc') ∧
      touched m m' len (fun q => q = c0 ∨ (k = 2%nat ∧ q = c1) ∨ (copy ≠ NULL ∧ q = copy)) ∧
      (copy ≠ NULL → holds m' copy len new) ∧
      holds m' c0 len (update_P P old new) ∧
      (k = 2%nat → holds m' c1 len (update_Q v Q old new)) ∧
      crc_at crc crc' (fun i => if decide (i ≤ k)%nat then len else 0%nat)
        (fun i => match i with
                  | 0%nat => new | 1%nat => update_P P old new | _ => update_Q v Q old new
                  end).
