(* ===== verification/EcAlgebra.v ===== *)
(** * The algebra of P and Q

    The facts about one column of a stripe that make erasure decoding and
    read-modify-write updates correct: erasing a data row from P and from Q,
    solving for one missing row from either parity and for two missing rows
    from both, and the effect of changing one row. *)
From stdpp Require Import base list numbers.
From Stdlib Require Import ZArith Lia.
From S2P Require Import Prelude CMemory GaloisField Crc32c ErasureCode.
Local Open Scope Z_scope.

Definition erase (d : nat → Z) (x : nat) : nat → Z := upd d x 0.

Section column.
Context (d : nat → Z) (Hd : ∀ i, byte_range (d i)).

Lemma erase_byte x i : byte_range (erase d x i).
Proof using Hd. unfold erase, upd. case_decide; auto with cint. Qed.

Lemma P_byte n : byte_range (P_of n d).
Proof using Hd.
  unfold P_of. induction (seq 0 n) as [|i l IH]; simpl; auto with cint.
Qed.

Lemma Q_byte n : byte_range (Q_of n d).
Proof using Hd.
  unfold Q_of. induction (seq 0 n) as [|i l IH]; simpl; auto with cint.
Qed.

(** P does not depend on the direction of the loop. *)
Lemma P_up n : foldl (fun p i => Z.lxor p (d i)) 0 (seq 0 n) = P_of n d.
Proof using.
  clear Hd. unfold P_of. generalize (seq 0 n) as l.
  assert (∀ l a, foldl (fun p i => Z.lxor p (d i)) a l =
    Z.lxor a (foldr (fun i p => Z.lxor p (d i)) 0 l)) as H.
  { induction l as [|i l IH]; intros a; simpl; [by rewrite Z.lxor_0_r|].
    rewrite IH. xor_ring. }
  intros l. by rewrite H, Z.lxor_0_l.
Qed.
End column.
#[export] Hint Resolve erase_byte P_byte Q_byte : cint.

Lemma P_of_S n d : P_of (S n) d = Z.lxor (P_of n (fun i => d (S i))) (d 0%nat).
Proof.
  unfold P_of. cbn [seq foldr]. f_equal. rewrite <-fmap_S_seq. by rewrite foldr_fmap.
Qed.

Lemma Q_of_S n d : Q_of (S n) d = gfmul_q (Q_of n (fun i => d (S i))) (d 0%nat).
Proof.
  unfold Q_of. cbn [seq foldr]. f_equal. rewrite <-fmap_S_seq. by rewrite foldr_fmap.
Qed.

Lemma P_ext n d e : (∀ i, (i < n)%nat → d i = e i) → P_of n d = P_of n e.
Proof.
  revert d e. induction n as [|n IH]; intros d e H; [done|].
  rewrite !P_of_S. f_equal; [|apply H; lia]. apply IH. intros. apply H. lia.
Qed.

Lemma Q_ext n d e : (∀ i, (i < n)%nat → d i = e i) → Q_of n d = Q_of n e.
Proof.
  revert d e. induction n as [|n IH]; intros d e H; [done|].
  rewrite !Q_of_S. f_equal; [|apply H; lia]. apply IH. intros. apply H. lia.
Qed.

(** Changing row [x] from [d x] to [v] changes P by the difference and Q by
    the difference times the [x]-th power of the generator. *)
Lemma P_upd n d x v : (x < n)%nat →
  P_of n (upd d x v) = Z.lxor (P_of n d) (Z.lxor (d x) v).
Proof.
  revert d x. induction n as [|n IH]; intros d x Hx; [lia|]. rewrite !P_of_S.
  destruct x as [|x].
  - rewrite upd_eq. rewrite (P_ext n (fun i => upd d 0%nat v (S i)) (fun i => d (S i))) by done.
    xor_ring.
  - rewrite (upd_ne d) by done.
    rewrite (P_ext n _ (upd (fun i => d (S i)) x v)), IH by lia || (intros; unfold upd; repeat case_decide; congruence || lia).
    xor_ring.
Qed.

Lemma Q_upd n d x v : (∀ i, byte_range (d i)) → byte_range v → (x < n)%nat →
  Q_of n (upd d x v) = Z.lxor (Q_of n d) (Nat.iter x xtime (Z.lxor (d x) v)).
Proof.
  revert d x. induction n as [|n IH]; intros d x Hd Hv Hx; [lia|]. rewrite !Q_of_S.
  destruct x as [|x].
  - rewrite upd_eq. rewrite (Q_ext n (fun i => upd d 0%nat v (S i)) (fun i => d (S i))) by done.
    rewrite !gfmul_q_xtime by auto with cint. simpl Nat.iter. xor_ring.
  - rewrite (upd_ne d) by done.
    rewrite (Q_ext n _ (upd (fun i => d (S i)) x v)) by
      (intros; unfold upd; repeat case_decide; congruence || lia).
    rewrite IH by (auto || lia). rewrite !gfmul_q_xtime by auto 6 with cint.
    rewrite xtime_lxor by auto with cint. simpl Nat.iter. xor_ring.
Qed.

(** ** Repair of one row *)
Lemma repair_P n d x : (x < n)%nat → Z.lxor (P_of n (erase d x)) (P_of n d) = d x.
Proof.
  intros Hx. unfold erase. rewrite P_upd by done. xor_ring.
Qed.

Lemma residual_Q n d x : (∀ i, byte_range (d i)) → (x < n)%nat →
  Z.lxor (Q_of n d) (Q_of n (erase d x)) = Nat.iter x xtime (d x).
Proof.
  intros Hd Hx. unfold erase. rewrite Q_upd by auto with cint. rewrite Z.lxor_0_r. xor_ring.
Qed.

Lemma repair_Q_powmul n d x : (∀ i, byte_range (d i)) → (x < n)%nat → (x ≤ 255)%nat →
  gfpowmul (255 - Z.of_nat x) (Z.lxor (Q_of n d) (Q_of n (erase d x))) = d x.
Proof.
  intros Hd Hx H255. rewrite residual_Q by done.
  replace (255 - Z.of_nat x) with (Z.of_nat (255 - x)) by lia.
  rewrite gfpowmul_iter by (lia || auto with cint).
  rewrite <-Nat.iter_add. replace (255 - x + x)%nat with 255%nat by lia.
  by apply xtime_iter_255.
Qed.

Lemma repair_Q_div n d x : (∀ i, byte_range (d i)) → (x < n)%nat →
  Nat.iter x xdiv (Z.lxor (Q_of n d) (Q_of n (erase d x))) = d x.
Proof. intros Hd Hx. rewrite residual_Q by done. by apply xdiv_iter_xtime. Qed.

(** ** Repair of two rows *)
Section two.
Context (n : nat) (d : nat → Z) (x y : nat).
Context (Hd : ∀ i, byte_range (d i)) (Hx : (x < n)%nat) (Hy : (y < n)%nat).
Context (Hxy : x ≠ y) (H255 : (n ≤ 255)%nat).

Definition residual2_P : Z := Z.lxor (P_of n (erase (erase d x) y)) (P_of n d).
Definition residual2_Q : Z := Z.lxor (Q_of n (erase (erase d x) y)) (Q_of n d).
Definition denominator : Z := Z.lxor (tbl gff_base (Z.of_nat x)) (tbl gff_base (Z.of_nat y)).

Lemma residual2_P_eq : residual2_P = Z.lxor (d x) (d y).
Proof using Hx Hy Hxy.
  unfold residual2_P, erase. rewrite !P_upd by done. rewrite upd_ne by done. xor_ring.
Qed.

Lemma residual2_Q_eq : residual2_Q = Z.lxor (Nat.iter x xtime (d x)) (Nat.iter y xtime (d y)).
Proof using Hx Hy Hxy Hd.
  unfold residual2_Q, erase. rewrite Q_upd by (auto with cint; intros; by apply erase_byte).
  rewrite Q_upd by auto with cint. rewrite upd_ne by done. rewrite !Z.lxor_0_r. xor_ring.
Qed.

(** The two residuals determine [d x]: the numerator is the denominator times [d x]. *)
Lemma numerator_eq :
  Z.lxor residual2_Q (Nat.iter y xtime residual2_P) = gfmul (d x) denominator.
Proof using Hx Hy Hxy Hd H255.
  rewrite residual2_P_eq, residual2_Q_eq, xtime_iter_lxor by done.
  unfold denominator. pose proof (gff_byte (Z.of_nat x)). pose proof (gff_byte (Z.of_nat y)).
  rewrite gfmul_lxor_r by (auto || (unfold byte_range; lia)).
  rewrite !xtime_iter_mul, !(gfmul_comm (d x)) by (auto || lia). xor_ring.
Qed.
End two.

Lemma denominator_byte x y : (x ≤ 255)%nat → (y ≤ 255)%nat → byte_range (denominator x y).
Proof.
  intros Hx Hy. unfold denominator.
  pose proof (gff_byte (Z.of_nat x)). pose proof (gff_byte (Z.of_nat y)).
  apply byte_lxor; unfold byte_range; lia.
Qed.

Lemma gff_inj x y : 0 ≤ x < 255 → 0 ≤ y < 255 → tbl gff_base x = tbl gff_base y → x = y.
Proof.
  assert (∀ x, 0 ≤ x < 255 → x ≠ 0 → tbl gff_base x ≠ tbl gff_base 0) as H0.
  { intros z Hz Hne Heq. assert (tbl gflog_base (tbl gff_base z) = z) by (apply gflog_ff; lia).
    rewrite Heq in *. change (tbl gflog_base (tbl gff_base 0)) with 255 in *. lia. }
  intros Hx Hy Heq. destruct (Z.eq_dec x 0) as [->|]; destruct (Z.eq_dec y 0) as [->|]; try done.
  - by destruct (H0 y).
  - by destruct (H0 x).
  - rewrite <-(gflog_ff x), <-(gflog_ff y), Heq by lia. done.
Qed.

Lemma denominator_nz n x y : (x < n)%nat → (y < n)%nat → x ≠ y → (n ≤ 255)%nat → denominator x y ≠ 0.
Proof.
  intros Hx Hy Hxy Hn H. apply Z.lxor_eq in H. apply gff_inj in H; lia.
Qed.

Lemma gf_inverse b : byte_range b → b ≠ 0 → gfmul (tbl gff_base (255 - tbl gflog_base b)) b = 1.
Proof.
  intros Hb Hne. assert ((b =? 0) || (gfmul (tbl gff_base (255 - tbl gflog_base b)) b =? 1) = true).
  { by by_bytes1 (fun b => (b =? 0) || (gfmul (tbl gff_base (255 - tbl gflog_base b)) b =? 1)) b. }
  lia.
Qed.

Section repair2.
Context (n : nat) (d : nat → Z) (x y : nat).
Context (Hd : ∀ i, byte_range (d i)) (Hx : (x < n)%nat) (Hy : (y < n)%nat).
Context (Hxy : x ≠ y) (H255 : (n ≤ 255)%nat).

Lemma residual2_P_byte : byte_range (residual2_P n d x y).
Proof using Hd Hx Hy Hxy. rewrite residual2_P_eq by done. auto with cint. Qed.

Lemma repair2_div :
  gfdiv (Z.lxor (residual2_Q n d x y) (gfpowmul (Z.of_nat y) (residual2_P n d x y)))
        (denominator x y) = Ok (d x).
Proof using Hd Hx Hy Hxy H255.
  rewrite gfpowmul_iter by (lia || apply residual2_P_byte). rewrite numerator_eq by done.
  apply gfdiv_mul; [done | apply denominator_byte; lia | by eapply denominator_nz].
Qed.

Lemma repair2_mul :
  gfmul (tbl gff_base (255 - tbl gflog_base (denominator x y)))
        (Z.lxor (residual2_Q n d x y) (Nat.iter y xtime (residual2_P n d x y))) = d x.
Proof using Hd Hx Hy Hxy H255.
  rewrite numerator_eq by done.
  assert (byte_range (denominator x y)) as Hb by (apply denominator_byte; lia).
  assert (denominator x y ≠ 0) as Hnz by (by eapply denominator_nz).
  pose proof (gflog_range _ Hb Hnz).
  pose proof (gff_byte (255 - tbl gflog_base (denominator x y))).
  rewrite (gfmul_comm (d x)), gfmul_assoc by (auto || (unfold byte_range; lia)).
  rewrite gf_inverse by done. by rewrite gfmul_comm, gfmul_1_r.
Qed.

Lemma repair2_other : Z.lxor (d x) (residual2_P n d x y) = d y.
Proof using Hd Hx Hy Hxy. rewrite residual2_P_eq by done. xor_ring. Qed.
End repair2.

(** ** Words: eight columns at once *)
Lemma wordof_ext f g j : (∀ k, f k = g k) → wordof f j = wordof g j.
Proof. intros H. unfold wordof. f_equal. apply list_fmap_ext. intros _ x _. apply H. Qed.

Lemma wordof_0 j : wordof (fun _ => 0) j = 0.
Proof. done. Qed.

Section words.
Context (f g : nat → Z) (Hf : ∀ k, byte_range (f k)) (Hg : ∀ k, byte_range (g k)) (j : nat).

Lemma wordof_bytes : Forall byte_range (f <$> seq (8 * j) 8).
Proof using Hf. apply Forall_fmap, Forall_seq. intros. apply Hf. Qed.

Lemma wordof_map (wop : Z → Z) (bop : Z → Z) :
  (∀ bs, length bs = 8%nat → Forall byte_range bs → wop (le_word bs) = le_word (bop <$> bs)) →
  wop (wordof f j) = wordof (fun k => bop (f k)) j.
Proof using Hf.
  intros H. unfold wordof. rewrite H by apply wordof_bytes || done.
  by rewrite <-list_fmap_compose.
Qed.
End words.

Lemma wordof_zip (wop bop : Z → Z → Z) f g j :
  (∀ k, byte_range (f k)) → (∀ k, byte_range (g k)) →
  (∀ xs ys, length xs = 8%nat → length ys = 8%nat → Forall byte_range xs → Forall byte_range ys →
     wop (le_word xs) (le_word ys) = le_word (zip_with bop xs ys)) →
  wop (wordof f j) (wordof g j) = wordof (fun k => bop (f k) (g k)) j.
Proof.
  intros Hf Hg H. unfold wordof. by rewrite H by (done || by apply wordof_bytes).
Qed.

Lemma wordof_lxor f g j : (∀ k, byte_range (f k)) → (∀ k, byte_range (g k)) →
  Z.lxor (wordof f j) (wordof g j) = wordof (fun k => Z.lxor (f k) (g k)) j.
Proof.
  intros Hf Hg. apply wordof_zip; [done..|]. intros. symmetry. apply le_word_lxor; congruence.
Qed.

Lemma wordof_gfmul_q f g j : (∀ k, byte_range (f k)) → (∀ k, byte_range (g k)) →
  gfmul_q_64 (wordof f j) (wordof g j) = wordof (fun k => gfmul_q (f k) (g k)) j.
Proof. intros Hf Hg. apply wordof_zip; [done..|]. intros. by apply gfmul_q_64_bytes. Qed.

Lemma wordof_powmul n f j : (∀ k, byte_range (f k)) →
  gfpowmul_64 n (wordof f j) = wordof (fun k => Nat.iter n xtime (f k)) j.
Proof. intros Hf. apply wordof_map; [done|]. intros. by apply gfpowmul_64_bytes. Qed.

Lemma wordof_powdiv n f j : (∀ k, byte_range (f k)) →
  gfpowdiv_64 n (wordof f j) = wordof (fun k => Nat.iter n xdiv (f k)) j.
Proof. intros Hf. apply wordof_map; [done|]. intros. by apply gfpowdiv_64_bytes. Qed.

Lemma wordof_gf_mul a f j : byte_range a → (∀ k, byte_range (f k)) →
  gf_mul_64 a (wordof f j) = wordof (fun k => gfmul a (f k)) j.
Proof. intros Ha Hf. apply wordof_map; [done|]. intros. by apply gf_mul_64_bytes. Qed.

Lemma wordof_P n (D : nat → nat → Z) j : bytes D →
  foldr (fun i p => Z.lxor p (wordof (D i) j)) 0 (seq 0 n) =
  wordof (fun k => P_of n (fun r => D r k)) j.
Proof.
  intros HD. unfold P_of. induction (seq 0 n) as [|i l IH]; [done|]. cbn [foldr].
  rewrite IH. apply wordof_lxor; [|apply HD]. intros k.
  clear IH. induction l; simpl; auto with cint.
Qed.

Lemma wordof_Q n (D : nat → nat → Z) j : bytes D →
  foldr (fun i q => gfmul_q_64 q (wordof (D i) j)) 0 (seq 0 n) =
  wordof (fun k => Q_of n (fun r => D r k)) j.
Proof.
  intros HD. unfold Q_of. induction (seq 0 n) as [|i l IH]; [done|]. cbn [foldr].
  rewrite IH. apply wordof_gfmul_q; [|apply HD]. intros k.
  clear IH. induction l; simpl; auto with cint.
Qed.
