(* ===== verification/KernelLemmas.v ===== *)
(** * Shared lemmas about the kernels

    How the CRC array advances, what the copying prologue establishes, and the
    reduction of an encoder to the loop that follows its prologue. *)
From stdpp Require Import base list gmap numbers.
From Stdlib Require Import ZArith Lia.
From S2P Require Import Prelude CMemory GaloisField Crc32c ErasureCode EcAlgebra.
Local Open Scope Z_scope.
Local Open Scope nat_scope.

(** ** CRC arrays *)
Lemma crc_at_refl c f : crc_at c c (fun _ => 0) f.
Proof. destruct c as [l|]; simpl; [|done]. split; [done|]. intros i x Hx. by rewrite Hx. Qed.

Lemma crc_at_ext c0 c1 l l' f f' : (∀ i, l i = l' i) → (∀ i j, j < l i → f i j = f' i j) →
  crc_at c0 c1 l f → crc_at c0 c1 l' f'.
Proof.
  intros Hl Hf. destruct c0, c1; simpl; try done. intros [Hlen H]. split; [done|].
  intros i c Hc. rewrite (H i c Hc). do 2 f_equal. rewrite <-Hl. apply list_fmap_ext.
  intros k x Hx%lookup_seq. apply Hf. lia.
Qed.

(** Extending entry [i] of a CRC array in progress. *)
Lemma crc_set_at l0 l1 l f i k c :
  crc_at (Some l0) (Some l1) l f → l0 !! i = Some c →
  crc_at (Some l0)
    (Some (<[i := crc_spec (crc_spec c (f i <$> seq 0 (l i))) (f i <$> seq (l i) k)]> l1))
    (upd l i (l i + k)) f.
Proof.
  intros [Hlen Hat] Hc. split; [by rewrite length_insert|].
  intros i' c' Hc'. unfold upd. destruct (decide (i' = i)) as [->|Hne].
  - simplify_eq. rewrite list_lookup_insert_eq.
    2:{ rewrite Hlen. eauto using lookup_lt_Some. }
    by rewrite seq_app, fmap_app, crc_spec_app.
  - rewrite list_lookup_insert_ne by done. auto.
Qed.

Lemma crc_word_at c0 c1 n f l i j : bytes f → crc_ready c0 n → i < n →
  crc_at c0 c1 l f → l i = 8 * j →
  ∃ c2, crc_word c1 i (wordof (f i) j) = Ok c2 ∧ crc_at c0 c2 (upd l i (8 * S j)) f.
Proof.
  intros Hf Hrdy Hi Hat Hl. destruct c0 as [l0|], c1 as [l1|]; try done.
  2:{ by exists None. }
  destruct Hrdy as [Hn Hr]. destruct (lookup_lt_is_Some_2 l0 i) as [c Hc]; [lia|].
  pose proof Hat as [Hlen Hin]. pose proof (Hin i c Hc) as Hc1.
  unfold crc_word, aget. rewrite Hc1. rstep.
  rewrite aset_ok by (rewrite Hlen; eauto using lookup_lt_Some). rstep.
  eexists. split; [done|]. rewrite one_u64_spec.
  2:{ apply crc_spec_range; [by eapply Forall_lookup_1|].
      apply Forall_fmap, Forall_seq. intros. apply Hf. }
  rewrite le_bytes_wordof by apply Hf. replace (8 * S j) with (l i + 8) by lia.
  rewrite <-Hl. by apply crc_set_at.
Qed.

Lemma crc_buf_at l0 l1 n f l m i p len : bytes f → crc_ready (Some l0) n → i < n →
  crc_at (Some l0) (Some l1) l f → l i = 0 → holds m p len (f i) →
  ∃ l2, crc_buf m l1 i p len = Ok l2 ∧ crc_at (Some l0) (Some l2) (upd l i len) f.
Proof.
  intros Hf [Hn Hr] Hi Hat Hl Hp. destruct (lookup_lt_is_Some_2 l0 i) as [c Hc]; [lia|].
  pose proof Hat as [Hlen Hin]. pose proof (Hin i c Hc) as Hc1. rewrite Hl in Hc1.
  unfold crc_buf, aget. rewrite Hc1. rstep.
  rewrite (calculate_crc32c_spec m p len (f i)).
  2-4: done || (intros; apply Hf) || by eapply Forall_lookup_1.
  rstep. rewrite aset_ok by (rewrite Hlen; eauto using lookup_lt_Some).
  eexists. split; [done|]. pose proof (crc_set_at l0 l1 l f i len c Hat Hc) as H.
  by rewrite Hl in H.
Qed.

(** ** The copying prologue *)
Lemma copy_rows_ok m len rows data dc outs D : encode_pre m len rows data dc outs D →
  ∃ m' dp, copy_rows len rows data dc m = Ok (m', dp) ∧
    touched m m' len (fun q => ∃ i, i < rows ∧ copy_at dc i = Some q) ∧
    length dp = rows ∧
    ∀ i, i < rows → ∃ p, dp !! i = Some p ∧ sel data dc i = Some p ∧ holds m' p len (D i).
Proof.
  intros Hpre. unfold copy_rows.
  destruct (for_up_inv (fun i '(m, data_p) =>
    if decide (i < GF_MAX_D)%nat then
      d ← aget data i;
      c ← match dc with None => Ok NULL | Some dc => aget dc i end;
      if is_null c then Ok (m, data_p ++ [d])
      else m' ← memcpy m c d len; Ok (m', data_p ++ [c])
    else Fault OOB)
    (fun n '(m', dp) => touched m m' len (fun q => ∃ i, i < n ∧ copy_at dc i = Some q) ∧
       length dp = n ∧
       ∀ i, i < n → ∃ p, dp !! i = Some p ∧ sel data dc i = Some p ∧ holds m' p len (D i))
    rows (m, [])) as ([m' dp] & Hrun & H).
  - split_and!; [apply touched_refl | done | lia].
  - intros n [m1 dp] Hn (Ht & Hlen & Hrows).
    pose proof (ep_rows _ _ _ _ _ _ _ Hpre). rewrite decide_True by lia.
    destruct (ep_data _ _ _ _ _ _ _ Hpre n Hn) as (d & Hd & Hh).
    unfold aget. rewrite Hd. rstep.
    assert (match dc with None => Ok NULL | Some dc => match dc !! n with Some x => Ok x | None => Fault OOB end end
            = Ok (match copy_at dc n with Some c => c | None => NULL end)) as ->.
    { unfold copy_at. destruct dc as [l|]; [|done]. pose proof (ep_dc _ _ _ _ _ _ _ Hpre l eq_refl).
      destruct (lookup_lt_is_Some_2 l n) as [c ->]; [lia|]. simpl. unfold is_null.
      case_bool_decide; by subst. }
    rstep.
    assert (holds m1 d len (D n)) as Hh1.
    { eapply touched_holds; [done| |done]. intros (i & Hi & Hc).
      destruct (ep_copy _ _ _ _ _ _ _ Hpre i d) as (_ & _ & Hne & _); [lia|done|]. by apply (Hne n). }
    destruct (copy_at dc n) as [c|] eqn:Hcn.
    + destruct (ep_copy _ _ _ _ _ _ _ Hpre n c Hn Hcn) as (Hv & Hno & Hnd & Hnc).
      assert (is_null c = false) as ->.
      { unfold copy_at in Hcn. destruct dc as [l|]; [|done]. simpl in Hcn.
        destruct (l !! n) as [c'|]; simpl in Hcn; [|done].
        destruct (is_null c') eqn:Enull; congruence. }
      destruct (memcpy_written m1 c d len (D n)) as (m2 & -> & Hw); [done|by eapply touched_valid|].
      rstep. eexists. split; [done|]. split_and!.
      * eapply touched_trans; eapply touched_mono; [|exact Ht| |exact (written_touched _ _ _ _ _ Hw)]; simpl.
        -- intros q (i & Hi & Hc). exists i. split; [lia|done].
        -- intros q ->. exists n. split; [lia|done].
      * rewrite length_app. simpl. lia.
      * intros i Hi. destruct (decide (i = n)) as [->|Hin].
        -- exists c. rewrite lookup_app_r by lia. rewrite Hlen, Nat.sub_diag. split_and!; [done| |apply Hw].
           unfold sel. by rewrite Hcn.
        -- destruct (Hrows i) as (p & Hp & Hs & Hhp); [lia|]. exists p.
           rewrite lookup_app_l by lia. split_and!; [done..|].
           eapply written_frame; [done| |done]. intros ->.
           unfold sel in Hs. destruct (copy_at dc i) as [c'|] eqn:Hci.
           ++ simplify_eq. by apply (Hnc i); [lia|..].
           ++ by apply (Hnd i); [lia|].
    + unfold is_null. rewrite bool_decide_true by done.
      eexists. split; [done|]. split_and!.
      * eapply touched_mono; [|exact Ht]. intros q (i & Hi & Hc). exists i. split; [lia|done].
      * rewrite length_app. simpl. lia.
      * intros i Hi. destruct (decide (i = n)) as [->|Hin].
        -- exists d. rewrite lookup_app_r by lia. rewrite Hlen, Nat.sub_diag. split_and!; [done| |done].
           unfold sel. by rewrite Hcn.
        -- destruct (Hrows i) as (p & Hp & Hs & Hhp); [lia|]. exists p.
           rewrite lookup_app_l by lia. done.
  - exists m', dp. by rewrite Hrun.
Qed.

Lemma encode_pre_copied m len rows data dc outs D m' dp : encode_pre m len rows data dc outs D →
  touched m m' len (fun q => ∃ i, i < rows ∧ copy_at dc i = Some q) → length dp = rows →
  (∀ i, i < rows → ∃ p, dp !! i = Some p ∧ sel data dc i = Some p ∧ holds m' p len (D i)) →
  encode_pre m' len rows dp None outs D.
Proof.
  intros [Hlen Hrows HD Hdata Houts Hdc Hcopy] Ht Hdp Hall. split; try done.
  - intros i Hi. destruct (Hall i Hi) as (p & ? & _ & ?). by exists p.
  - intros o Ho. destruct (Houts o Ho) as (Hn & Hv & Hne). split_and!; [done|by eapply touched_valid|].
    intros i Hi Hdpi. destruct (Hall i Hi) as (p & Hp & Hs & _). simplify_eq.
    unfold sel in Hs. destruct (copy_at dc i) as [c|] eqn:Hc.
    + simplify_eq. by destruct (Hcopy i o Hi Hc) as (_ & Hno & _).
    + by apply (Hne i).
Qed.

(** An encoder is its prologue followed by a loop on the selected buffers. *)
Definition encode_core_spec (core : nat → nat → list ptr → list ptr → crcs → mem → res (mem * crcs))
    (ks : list nat) : Prop :=
  ∀ m len rows dp coding crc D outs,
    encode_pre m len rows dp None outs D →
    Forall2 (fun k o => coding !! k = Some o) ks outs → NoDup outs →
    (∀ k, k ∈ ks → crc_ready crc (rows + k + 1)) →
    ∃ m' crc', core len rows dp coding crc m = Ok (m', crc') ∧
      touched m m' len (fun q => q ∈ outs) ∧
      Forall2 (fun k o => holds m' o len (codeword rows D (rows + k))) ks outs ∧
      crc_at crc crc' (fun i => if decide (i < rows ∨ i - rows ∈ ks) then len else 0)
             (codeword rows D).

Lemma encode_from_core f core ks :
  (∀ len rows data coding crc dc m, f len rows data coding crc dc m =
     '(m, dp) ← copy_rows len rows data dc m; core len rows dp coding crc m) →
  encode_core_spec core ks → encode_spec f ks.
Proof.
  intros Hf Hcore m len rows data coding crc dc D outs Hpre Hks Hnd Hcrc.
  destruct (copy_rows_ok _ _ _ _ _ _ _ Hpre) as (m1 & dp & Hrun & Ht1 & Hdp & Hall).
  pose proof (encode_pre_copied _ _ _ _ _ _ _ _ _ Hpre Ht1 Hdp Hall) as Hpre1.
  destruct (Hcore m1 len rows dp coding crc D outs) as (m2 & crc2 & Hrun2 & Ht2 & Hh & Hc); [done..|].
  exists m2, crc2. rewrite Hf, Hrun. rstep. split_and!; [done| |  |done|done].
  - eapply touched_trans; eapply touched_mono; [|exact Ht1| |exact Ht2]; unfold encode_writes; auto.
  - intros i Hi. destruct (Hall i Hi) as (p & Hp & Hs & Hhp). exists p. split; [done|].
    eapply touched_holds; [done| |done]. intros Ho.
    destruct (ep_outs _ _ _ _ _ _ _ Hpre1 p Ho) as (_ & _ & Hne). by apply (Hne i).
Qed.

(** ** Codewords *)
Lemma codeword_bytes rows D : bytes D → bytes (codeword rows D).
Proof.
  intros HD i j. unfold codeword. repeat case_decide; [apply HD|apply P_byte|apply Q_byte];
    intros; apply HD.
Qed.
Lemma codeword_data rows D i j : i < rows → codeword rows D i j = D i j.
Proof. intros. unfold codeword. by rewrite decide_True. Qed.
Lemma codeword_P rows D k j : k = 0 → codeword rows D (rows + k) j = P_of rows (fun r => D r j).
Proof. intros ->. unfold codeword. rewrite decide_False, decide_True by lia. done. Qed.
Lemma codeword_P0 rows D j : codeword rows D rows j = P_of rows (fun r => D r j).
Proof. by rewrite <-(codeword_P rows D 0), Nat.add_0_r. Qed.
Lemma codeword_Q rows D j : codeword rows D (rows + 1) j = Q_of rows (fun r => D r j).
Proof. unfold codeword. by rewrite !decide_False by lia. Qed.

(** ** Filling one buffer *)
Lemma upd0_le (p q : ptr) j : upd (fun _ => 0) p j q ≤ j.
Proof. unfold upd. case_decide; lia. Qed.

Lemma fill1_loop8 m p len F (body : nat → mem → res mem) : valid m p len →
  (∀ j m1, j < len → mem_at m m1 (upd (fun _ => 0) p j) F → body j m1 = store8 m1 p j (F p j)) →
  ∃ m', for_up len body m = Ok m' ∧ mem_at m m' (upd (fun _ => 0) p len) F.
Proof.
  intros Hv Hb. apply for_up_inv with (I := fun k m' => mem_at m m' (upd (fun _ => 0) p k) F).
  - eapply mem_at_ext; [| |apply (mem_at_refl m F)]; [|done].
    intros q. unfold upd. by case_decide.
  - intros k m1 Hk Hat. rewrite Hb by done.
    destruct (store8_at _ _ _ _ Hat p len k) as (m2 & -> & Hat2); [done|done|apply upd_eq|].
    exists m2. split; [done|]. eapply mem_at_ext; [|done|exact Hat2].
    intros q. unfold upd. by case_decide.
Qed.

Lemma fill1_at m p len F m' : mem_at m m' (upd (fun _ => 0) p len) F →
  holds m' p len (F p) ∧ touched m m' len (fun q => q = p) ∧
  ∀ q n D, q ≠ p → holds m q n D → holds m' q n D.
Proof.
  intros Hat. split_and!.
  - eapply mem_at_holds; [exact Hat|]. by rewrite upd_eq.
  - eapply mem_at_touched; [exact Hat|]. intros q. unfold upd. case_decide; auto.
  - intros q n D Hq. eapply mem_at_frame; [exact Hat|]. by rewrite upd_ne.
Qed.

(** ** The prologue of the update kernels *)
Record update_ready (m m1 : mem) (len k v : nat) (copy cp : ptr) (old new P Q : nat → Z)
    (d0 d1 d2 d3 c0 c1 : ptr) : Prop := {
  ur_touched : touched m m1 len (fun q => copy ≠ NULL ∧ q = copy);
  ur_cp : holds m1 cp len new ∧ (copy ≠ NULL → cp = copy) ∧ cp ≠ c0 ∧ (k = 2 → cp ≠ c1);
  ur_d0 : holds m1 d0 len old;
  ur_d1 : holds m1 d1 len new;
  ur_d2 : holds m1 d2 len P;
  ur_d3 : k = 2 → holds m1 d3 len Q;
  ur_c0 : valid m1 c0 len;
  ur_c1 : k = 2 → valid m1 c1 len
}.

Lemma update_prologue m len k v data coding crc copy old new P Q d0 d1 d2 d3 c0 c1 :
  update_pre m len k v data coding crc copy old new P Q d0 d1 d2 d3 c0 c1 →
  ∃ m1 cp, (if is_null copy then Ok (m, d1)
            else m' ← memcpy m copy d1 len; Ok (m', copy)) = Ok (m1, cp) ∧
    update_ready m m1 len k v copy cp old new P Q d0 d1 d2 d3 c0 c1.
Proof.
  intros [_ _ _ _ [_ H0] [_ H1] [_ H2] H3 (_ & Hc0 & Hc00 & Hc01 & Hc0c) Hc1 Hcp _].
  unfold is_null. case_bool_decide as Hn.
  - exists m, d1. split; [done|]. split; try done.
    + apply touched_refl.
    + split_and!; [done|done|auto|]. intros Hk ->. destruct (Hc1 Hk) as (_&_&_&?&_). done.
    + intros Hk. by destruct (H3 Hk).
    + intros Hk. by destruct (Hc1 Hk) as (_&?&_).
  - destruct (Hcp Hn) as (Hv & Hne0 & Hne1 & Hne2 & Hne3).
    destruct (memcpy_written m copy d1 len new) as (m1 & -> & Hw); [done..|]. rstep.
    exists m1, copy. split; [done|]. split; try (by eapply written_frame).
    + eapply touched_mono; [|exact (written_touched _ _ _ _ _ Hw)]. intros q ->. done.
    + split_and!; [apply Hw|done|auto|]. intros Hk ->. destruct (Hc1 Hk) as (_&_&_&_&?&_). done.
    + intros Hk. destruct (H3 Hk). eapply written_frame; [done| |done].
      intros ->. by apply Hne3.
    + by eapply written_valid.
    + intros Hk. eapply written_valid; [done|]. by destruct (Hc1 Hk) as (_&?&_).
Qed.

(** Contents of the new parities, per target buffer. *)
Definition update_F (v : nat) (old new P Q : nat → Z) (c0 q : ptr) : nat → Z :=
  if decide (q = c0) then update_P P old new else update_Q v Q old new.

Lemma update_F_0 v old new P Q c0 : update_F v old new P Q c0 c0 = update_P P old new.
Proof. unfold update_F. by rewrite decide_True. Qed.
Lemma update_F_1 v old new P Q c0 c1 : c1 ≠ c0 → update_F v old new P Q c0 c1 = update_Q v Q old new.
Proof. intros. unfold update_F. by rewrite decide_False. Qed.

Lemma update_P_byte P old new j : byte_range (P j) → byte_range (old j) → byte_range (new j) →
  byte_range (update_P P old new j).
Proof. unfold update_P. auto with cint. Qed.
Lemma update_Q_byte v Q old new j : byte_range (Q j) → byte_range (old j) → byte_range (new j) →
  byte_range (update_Q v Q old new j).
Proof. unfold update_Q. auto with cint. Qed.
#[export] Hint Resolve update_P_byte update_Q_byte : cint.

(** ** Filling two buffers; [b] says whether the second is wanted *)
Definition fill2 (n0 n1 : ptr) (b : bool) (k : nat) (q : ptr) : nat :=
  if decide (q = n0 ∨ (b = true ∧ q = n1)) then k else 0.

Lemma fill2_le n0 n1 b k q : fill2 n0 n1 b k q ≤ k.
Proof. unfold fill2. case_decide; lia. Qed.

Lemma fill2_mem m m' n0 n1 b len F : mem_at m m' (fill2 n0 n1 b len) F →
  holds m' n0 len (F n0) ∧ (b = true → holds m' n1 len (F n1)) ∧
  touched m m' len (fun q => q = n0 ∨ (b = true ∧ q = n1)).
Proof.
  intros Hat. split_and!.
  - eapply mem_at_holds; [exact Hat|]. unfold fill2. rewrite decide_True; auto.
  - intros Hb. eapply mem_at_holds; [exact Hat|]. unfold fill2. rewrite decide_True; auto.
  - eapply mem_at_touched; [exact Hat|]. intros q. unfold fill2. case_decide; auto.
Qed.

Lemma fill2_start m n0 n1 b F : mem_at m m (fill2 n0 n1 b 0) F.
Proof.
  eapply mem_at_ext; [| |apply (mem_at_refl m F)]; [|done].
  intros q. unfold fill2. by case_decide.
Qed.

(** What is left after the loop: the buffers, whatever the kernel. *)
Lemma update_finish m m1 m2 len k v data coding crc copy cp old new P Q d0 d1 d2 d3 c0 c1 :
  update_pre m len k v data coding crc copy old new P Q d0 d1 d2 d3 c0 c1 →
  update_ready m m1 len k v copy cp old new P Q d0 d1 d2 d3 c0 c1 →
  mem_at m1 m2 (fill2 c0 c1 (k =? 2) len) (update_F v old new P Q c0) →
  touched m m2 len (fun q => q = c0 ∨ (k = 2 ∧ q = c1) ∨ (copy ≠ NULL ∧ q = copy)) ∧
  (copy ≠ NULL → holds m2 copy len new) ∧ holds m2 c0 len (update_P P old new) ∧
  (k = 2 → holds m2 c1 len (update_Q v Q old new)) ∧ holds m2 d1 len new.
Proof.
  intros Hpre Hur Hat. apply fill2_mem in Hat as (Hh0 & Hh1 & Ht).
  rewrite update_F_0 in Hh0. setoid_rewrite Nat.eqb_eq in Ht. rewrite Nat.eqb_eq in Hh1.
  destruct Hpre as [_ _ _ _ _ _ _ _ (_ & _ & _ & Hc01 & Hc0c) Hc1 _ _].
  destruct Hur as [Ht1 (Hcp & Hcpy & Hcpc0 & Hcpc1) _ Hd1 _ _ _ _]. split_and!; [| |done| |].
  - eapply touched_trans; eapply touched_mono; [|exact Ht1| |exact Ht]; intros q; cbv beta; tauto.
  - intros Hn. rewrite <-(Hcpy Hn). eapply touched_holds; [exact Ht| |done]. intros [?|[??]]; [done|by apply Hcpc1].
  - intros Hk. destruct (Hc1 Hk) as (_&_&_&_&_&Hne&_). rewrite update_F_1 in Hh1 by done. auto.
  - eapply touched_holds; [exact Ht| |done]. intros [?|[Hk ?]]; [by auto|].
    by destruct (Hc1 Hk) as (_&_&_&?&_).
Qed.

Definition update_streams (v : nat) (old new P Q : nat → Z) (i : nat) : nat → Z :=
  match i with 0 => new | 1 => update_P P old new | _ => update_Q v Q old new end.

Lemma update_streams_bytes v old new P Q :
  (∀ j, byte_range (old j) ∧ byte_range (new j) ∧ byte_range (P j) ∧ byte_range (Q j)) →
  bytes (update_streams v old new P Q).
Proof.
  intros H i j. destruct (H j) as (?&?&?&?). destruct i as [|[|i]]; simpl; auto with cint.
Qed.
