(* ===== verification/KernelBytes.v ===== *)
(** * The byte kernels meet the contract *)
From stdpp Require Import base list gmap numbers.
From Stdlib Require Import ZArith Lia.
From S2P Require Import Prelude CMemory GaloisField Crc32c ErasureCode EcAlgebra KernelLemmas.
Local Open Scope Z_scope.
Local Open Scope nat_scope.

(** A row that no store of the loop has reached yet reads as before. *)
Lemma row_load8 m m1 l F a len i f j : mem_at m m1 l F → row_holds m a len i f →
  (∀ p, a !! i = Some p → l p ≤ j) → j < len →
  (d ← aget a i; load8 m1 d j) = Ok (f j).
Proof.
  intros Hat (p & Hp & Hh) Hl Hj. unfold aget. rewrite Hp. rstep.
  eapply load8_at; eauto.
Qed.

Lemma row_load8_k {A} m m1 l F a len i f j (k : Z → res A) : mem_at m m1 l F →
  row_holds m a len i f → (∀ p, a !! i = Some p → l p ≤ j) → j < len →
  (d ← aget a i; v ← load8 m1 d j; k v) = k (f j).
Proof.
  intros Hat (p & Hp & Hh) Hl Hj. unfold aget. rewrite Hp. rstep.
  by rewrite (load8_at _ _ _ _ Hat p len f j) by eauto.
Qed.

(** Running the CRC of every data row and of one parity. *)
Lemma crc_rows_at m dp rows len l0 n f crc1 l : bytes f → crc_ready (Some l0) n → rows ≤ n →
  (∀ i, i < rows → row_holds m dp len i (f i)) →
  crc_at (Some l0) (Some crc1) l f → (∀ i, i < rows → l i = 0) →
  ∃ crc2, for_up rows (fun j c => d ← aget dp j; crc_buf m c j d len) crc1 = Ok crc2 ∧
    crc_at (Some l0) (Some crc2) (fun i => if decide (i < rows) then len else l i) f.
Proof.
  intros Hf Hrdy Hn Hdp Hat Hl.
  destruct (for_up_inv (fun j c => d ← aget dp j; crc_buf m c j d len)
    (fun k c => crc_at (Some l0) (Some c) (fun i => if decide (i < k) then len else l i) f)
    rows crc1) as (c2 & -> & H2); [| |by eauto].
  - eapply crc_at_ext; [| |exact Hat]; [|done]. intros i. by rewrite decide_False by lia.
  - intros k c Hk Hc. destruct (Hdp k Hk) as (p & Hp & Hh). unfold aget. rewrite Hp. rstep.
    destruct (crc_buf_at l0 c n f _ m k p len Hf Hrdy ltac:(lia) Hc) as (c2 & -> & Hc2).
    + rewrite decide_False by lia. auto.
    + done.
    + exists c2. split; [done|]. eapply crc_at_ext; [| |exact Hc2]; [|done].
      intros i. unfold upd. repeat case_decide; lia || done.
Qed.

(** What P and Q have in common: fill [o] with parity [k], then the CRCs. *)
Lemma encode1_finish m m1 len rows dp D o k crc :
  encode_pre m len rows dp None [o] D → k ≤ 1 → crc_ready crc (rows + k + 1) →
  mem_at m m1 (upd (fun _ => 0) o len) (fun _ => codeword rows D (rows + k)) →
  ∃ m' crc', match crc with
  | None => Ok (m1, None)
  | Some l =>
      l ← for_up rows (fun j l => d ← aget dp j; crc_buf m1 l j d len) l;
      l ← crc_buf m1 l (rows + k) o len;
      Ok (m1, Some l)
  end = Ok (m', crc') ∧ touched m m' len (fun q => q ∈ [o]) ∧
  Forall2 (fun k o => holds m' o len (codeword rows D (rows + k))) [k] [o] ∧
  crc_at crc crc' (fun i => if decide (i < rows ∨ i - rows ∈ [k]) then len else 0)
    (codeword rows D).
Proof.
  intros Hpre Hk Hrdy Hat. apply fill1_at in Hat as (Hh & Ht & Hfr).
  assert (∀ i, i < rows → row_holds m1 dp len i (codeword rows D i)) as Hdp.
  { intros i Hi. destruct (ep_data _ _ _ _ _ _ _ Hpre i Hi) as (p & Hp & Hhp).
    exists p. split; [done|]. apply Hfr.
    - intros ->. destruct (ep_outs _ _ _ _ _ _ _ Hpre o) as (_ & _ & Hne); [set_solver|].
      by apply (Hne i).
    - eapply holds_ext; [|done]. intros. symmetry. by apply codeword_data. }
  pose proof (codeword_bytes rows D (ep_bytes _ _ _ _ _ _ _ Hpre)) as Hcw.
  assert (touched m m1 len (fun q => q ∈ [o])) as Ht1.
  { eapply touched_mono; [|exact Ht]. set_solver. }
  destruct crc as [l0|].
  - destruct (crc_rows_at m1 dp rows len l0 _ _ l0 _ Hcw Hrdy ltac:(lia) Hdp
      (crc_at_refl (Some l0) _)) as (c1 & -> & Hc1); [done|]. rstep.
    destruct (crc_buf_at l0 c1 _ _ _ m1 (rows + k) o len Hcw Hrdy ltac:(lia) Hc1) as (c2 & -> & Hc2).
    + by rewrite decide_False by lia.
    + done.
    + rstep. do 2 eexists. split_and!; [done|done|by repeat constructor|].
      eapply crc_at_ext; [| |exact Hc2]; [|done].
      intros i. unfold upd. repeat case_decide; set_solver by lia.
  - do 2 eexists. split_and!; [done|done|by repeat constructor|done].
Qed.

Lemma out_not_read m len rows dp o D q i : encode_pre m len rows dp None [o] D → i < rows →
  dp !! i = Some q → q ≠ o.
Proof.
  intros Hpre Hi Hq ->. destruct (ep_outs _ _ _ _ _ _ _ Hpre o) as (_ & _ & Hne); [set_solver|].
  by apply (Hne i).
Qed.

Lemma coding_out m len rows dp coding k o D :
  encode_pre m len rows dp None [o] D → Forall2 (fun k o => coding !! k = Some o) [k] [o] →
  aget coding k = Ok o ∧ is_null o = false ∧ valid m o len.
Proof.
  intros Hpre Hk. destruct (ep_outs _ _ _ _ _ _ _ Hpre o) as (Hn & Hv & _); [set_solver|].
  apply Forall2_cons_1 in Hk as [Hk _]. unfold aget, is_null. rewrite Hk.
  by rewrite bool_decide_false.
Qed.

Lemma encode_p_8_rows_ok : encode_core_spec encode_p_8_rows [0].
Proof.
  intros m len rows dp coding crc D outs Hpre Hks _ Hcrc.
  destruct outs as [|o [|? ?]]; [by inversion Hks| |by inversion Hks as [|???? _ Hb]; inversion Hb].
  destruct (coding_out _ _ _ _ _ _ _ _ Hpre Hks) as (Hc & Hnull & Hv).
  unfold encode_p_8_rows. rewrite Hc. rstep. rewrite Hnull.
  destruct (fill1_loop8 m o len (fun _ => codeword rows D (rows + 0)) (fun j m =>
      p ← for_up rows (fun i p => d ← aget dp i; v ← load8 m d j; Ok (Z.lxor p v)) 0%Z;
      store8 m o j p)) as (m1 & -> & Hat); [done| |].
  - intros j m1 Hj Hat. erewrite for_up_pure with (step := fun i p => Z.lxor p (D i j)).
    2:{ intros i p Hi. eapply row_load8_k with (k := fun v => Ok (Z.lxor p v)); [done|by apply Hpre| |done].
        intros q Hq. rewrite upd_ne by (by eapply out_not_read). lia. }
    rstep. rewrite (P_up (fun i => D i j)). by rewrite codeword_P.
  - rstep. pose proof (encode1_finish m m1 len rows dp D o 0 crc Hpre ltac:(lia)
      (Hcrc 0 ltac:(set_solver)) Hat) as H. by rewrite Nat.add_0_r in H.
Qed.

Lemma encode_q_8_rows_ok : encode_core_spec encode_q_8_rows [1].
Proof.
  intros m len rows dp coding crc D outs Hpre Hks _ Hcrc.
  destruct outs as [|o [|? ?]]; [by inversion Hks| |by inversion Hks as [|???? _ Hb]; inversion Hb].
  destruct (coding_out _ _ _ _ _ _ _ _ Hpre Hks) as (Hc & Hnull & Hv).
  unfold encode_q_8_rows. rewrite Hc. rstep. rewrite Hnull.
  destruct (fill1_loop8 m o len (fun _ => codeword rows D (rows + 1)) (fun j m =>
      q ← for_down rows (fun i q => d ← aget dp i; v ← load8 m d j; Ok (gfmul_q q v)) 0%Z;
      store8 m o j q)) as (m1 & -> & Hat); [done| |].
  - intros j m1 Hj Hat. erewrite for_down_pure with (step := fun i q => gfmul_q q (D i j)).
    2:{ intros i q Hi. eapply row_load8_k with (k := fun v => Ok (gfmul_q q v)); [done|by apply Hpre| |done].
        intros p Hp. rewrite upd_ne by (by eapply out_not_read). lia. }
    rstep. by rewrite codeword_Q.
  - rstep. apply encode1_finish; [done|lia|apply Hcrc; set_solver|done].
Qed.

Lemma encode_pre_outs m len rows dp outs (outs' : list ptr) D : encode_pre m len rows dp None outs D →
  (∀ o, o ∈ outs' → o ∈ outs) → encode_pre m len rows dp None outs' D.
Proof. intros [] Hsub. split; eauto. done. Qed.

Lemma encode_pre_touched m m' len rows dp outs (outs' : list ptr) D : encode_pre m len rows dp None outs D →
  (∀ o, o ∈ outs' → o ∈ outs) → touched m m' len (fun q => q ∈ outs') →
  encode_pre m' len rows dp None outs D.
Proof.
  intros [Hlen Hrows HD Hdata Houts Hdc Hcopy] Hsub Ht. split; try done.
  - intros i Hi. destruct (Hdata i Hi) as (p & Hp & Hh). exists p. split; [done|].
    eapply touched_holds; [done| |done]. intros Ho. destruct (Houts p) as (_&_&Hne); [auto|].
    by apply (Hne i).
  - intros o Ho. destruct (Houts o Ho) as (?&?&?). split_and!; [done|by eapply touched_valid|done].
Qed.

Lemma touched_none m m' len rows outs : touched m m' len (encode_writes rows None outs) →
  touched m m' len (fun q => q ∈ outs).
Proof. apply touched_mono. intros q [?|(i & _ & ?)]; done. Qed.

(** The combined byte encoder relies only on the contracts of the P and of the
    Q encoder it calls. *)
Lemma encode_pq_8_rows_ok fp fq : encode_spec fp [0] → encode_spec fq [1] →
  encode_core_spec (encode_pq_8_rows fp fq) [0; 1].
Proof.
  intros Hp Hq m len rows dp coding crc D outs Hpre Hks Hnd Hcrc.
  destruct outs as [|c0 [|c1 [|? ?]]].
  1,2,4: exfalso; apply Forall2_length in Hks; simpl in Hks; lia.
  apply Forall2_cons_1 in Hks as [Hc0 Hks]. apply Forall2_cons_1 in Hks as [Hc1 _].
  assert (c0 ≠ c1) as Hne by (apply NoDup_cons_1_1 in Hnd; set_solver).
  destruct (Hp m len rows dp coding None None D [c0]) as (m1 & cr1 & Hrun1 & Ht1 & _ & Hh1 & _).
  { eapply encode_pre_outs; [done|set_solver]. } { by repeat constructor. }
  { apply NoDup_singleton. } { done. }
  apply touched_none in Ht1.
  assert (encode_pre m1 len rows dp None [c0; c1] D) as Hpre1.
  { eapply encode_pre_touched; [done| |exact Ht1]. set_solver. }
  destruct (Hq m1 len rows dp coding crc None D [c1]) as (m2 & cr2 & Hrun2 & Ht2 & _ & Hh2 & Hcr2).
  { eapply encode_pre_outs; [done|set_solver]. } { by repeat constructor. }
  { apply NoDup_singleton. } { intros k Hk. apply Hcrc. set_solver. }
  apply touched_none in Ht2. apply Forall2_cons_1 in Hh1 as [Hh1 _].
  assert (holds m2 c0 len (codeword rows D (rows + 0))) as Hh1'.
  { eapply touched_holds; [exact Ht2| |done]. set_solver. }
  apply Forall2_cons_1 in Hh2 as [Hh2 _].
  unfold encode_pq_8_rows. rewrite Hrun1. rstep. rewrite Hrun2. rstep.
  assert (touched m m2 len (fun q => q ∈ [c0; c1])) as Ht.
  { eapply touched_trans; eapply touched_mono; [|exact Ht1| |exact Ht2]; set_solver. }
  destruct crc as [l0|], cr2 as [l2|]; try done.
  2:{ do 2 eexists. split_and!; [done|done|by repeat constructor|done]. }
  unfold aget. rewrite Hc0. rstep.
  destruct (crc_buf_at l0 l2 (rows + 1 + 1) (codeword rows D) _ m2 rows c0 len
    (codeword_bytes rows D (ep_bytes _ _ _ _ _ _ _ Hpre)) (Hcrc 1 ltac:(set_solver)) ltac:(lia) Hcr2)
    as (l3 & -> & Hl3).
  - rewrite decide_False; [done|]. rewrite Nat.sub_diag. set_solver by lia.
  - by rewrite Nat.add_0_r in Hh1'.
  - rstep. do 2 eexists. split_and!; [done|done|by repeat constructor|].
    eapply crc_at_ext; [| |exact Hl3]; [|done].
    intros i. unfold upd. repeat case_decide; set_solver by lia.
Qed.

(** ** Decoders *)
(** The CRC of the repaired block. *)
Lemma decode1_finish m m1 len crc n0 (f : nat → Z) new_data : (∀ j, byte_range (f j)) →
  new_data !! 0 = Some n0 → crc_ready crc 1 →
  mem_at m m1 (upd (fun _ => 0) n0 len) (fun _ => f) →
  ∃ m' crc', match crc with
  | None => Ok (m1, None)
  | Some l => n0 ← aget new_data 0; l ← crc_buf m1 l 0 n0 len; Ok (m1, Some l)
  end = Ok (m', crc') ∧ mem_at m m' (upd (fun _ => 0) n0 len) (fun _ => f) ∧
  crc_at crc crc' (fun i => if decide (i = 0) then len else 0) (fun _ => f).
Proof.
  intros Hf Hn Hrdy Hat. destruct crc as [l0|]; [|eauto].
  unfold aget. rewrite Hn. rstep. apply fill1_at in Hat as H. destruct H as (Hh & _).
  destruct (crc_buf_at l0 l0 1 (fun _ => f) _ m1 0 n0 len (fun _ => Hf) Hrdy ltac:(lia)
    (crc_at_refl (Some l0) _)) as (c & -> & Hc); [done|done|].
  rstep. do 2 eexists. split_and!; [done..|].
  eapply crc_at_ext; [| |exact Hc]; [|done]. intros i. unfold upd. by case_decide.
Qed.

Lemma ec_decode_data_p_8_ok : decode1_spec ec_decode_data_p_8 0.
Proof.
  intros m len rows d0 data new_data crc D n0 _ Hrows HD Hdata Hpar Hn0 Hv Hcrc.
  unfold ec_decode_data_p_8.
  destruct (fill1_loop8 m n0 len (fun _ => D d0) (fun j m =>
    temp_p ← for_up rows (fun i temp_p =>
      if d0 =? i then Ok temp_p
      else d ← aget data i; v ← load8 m d j; Ok (Z.lxor temp_p v)) 0%Z;
    p ← aget data rows; v ← load8 m p j;
    n0 ← aget new_data 0;
    store8 m n0 j (Z.lxor v temp_p))) as (m1 & -> & Hat); [done| |].
  2:{ rstep. by apply decode1_finish; auto. }
  intros j m1 Hj Hat.
  erewrite for_up_pure with (step := fun i p => Z.lxor p (erase (fun r => D r j) d0 i)).
  2:{ intros i p Hi. destruct (Nat.eqb_spec d0 i) as [->|Hne].
      - unfold erase. rewrite upd_eq. by rewrite Z.lxor_0_r.
      - unfold erase. rewrite upd_ne by done.
        eapply row_load8_k with (k := fun v => Ok (Z.lxor p v)); [done|by apply Hdata| |done].
        intros. apply upd0_le. }
  rstep. rewrite P_up. rewrite <-(Nat.add_0_r rows) at 1.
  erewrite row_load8_k; [|exact Hat|exact Hpar|intros; apply upd0_le|done].
  unfold aget. rewrite Hn0. rstep. rewrite codeword_P by done.
  by rewrite Z.lxor_comm, repair_P by lia.
Qed.

Lemma ec_decode_data_q_8_ok : decode1_spec ec_decode_data_q_8 1.
Proof.
  intros m len rows d0 data new_data crc D n0 _ Hrows HD Hdata Hpar Hn0 Hv Hcrc.
  unfold ec_decode_data_q_8.
  destruct (fill1_loop8 m n0 len (fun _ => D d0) (fun j m =>
    temp_q ← for_down rows (fun i temp_q =>
      temp_d ← (if d0 =? i then Ok 0%Z else d ← aget data i; load8 m d j);
      Ok (gfmul_q temp_q temp_d)) 0%Z;
    q ← aget data (rows + 1); v ← load8 m q j;
    n0 ← aget new_data 0;
    store8 m n0 j (gfpowmul (255 - Z.of_nat d0) (Z.lxor v temp_q)))) as (m1 & -> & Hat); [done| |].
  2:{ rstep. by apply decode1_finish; auto. }
  intros j m1 Hj Hat.
  erewrite for_down_pure with (step := fun i q => gfmul_q q (erase (fun r => D r j) d0 i)).
  2:{ intros i q Hi. unfold erase. destruct (Nat.eqb_spec d0 i) as [->|Hne].
      - by rewrite upd_eq.
      - rewrite upd_ne by done.
        erewrite row_load8; [done|exact Hat|by apply Hdata| |done]. intros. apply upd0_le. }
  rstep. erewrite row_load8_k; [|exact Hat|exact Hpar|intros; apply upd0_le|done].
  unfold aget. rewrite Hn0. rstep. rewrite codeword_Q. unfold GF_MAX_D in *.
  pose proof (repair_Q_powmul rows (fun r => D r j) d0 (fun r => HD r j)) as H.
  unfold Q_of in H at 2. by rewrite H by lia.
Qed.

(** The byte step of a double decode: the same column read twice over, solved
    for both unknowns. *)
Lemma decode2_column (D : nat → nat → Z) rows d0 d1 data len m m1 l F j :
  bytes D → d0 < rows → d1 < rows → d0 ≠ d1 → rows ≤ GF_MAX_D →
  (∀ i, i < rows → i ≠ d0 → i ≠ d1 → row_holds m data len i (D i)) →
  mem_at m m1 l F → (∀ q, l q ≤ j) → j < len →
  for_down rows (fun i '(temp_p, temp_q) =>
    temp_d ← (if (d0 =? i) || (d1 =? i) then Ok 0%Z else d ← aget data i; load8 m1 d j);
    Ok (Z.lxor temp_p temp_d, gfmul_q temp_q temp_d)) (0%Z, 0%Z) =
  Ok (P_of rows (erase (erase (fun r => D r j) d0) d1),
      Q_of rows (erase (erase (fun r => D r j) d0) d1)).
Proof.
  intros HD H0 H1 Hne Hrows Hdata Hat Hl Hj.
  erewrite for_down_pure with (step := fun i '(p, q) =>
    (Z.lxor p (erase (erase (fun r => D r j) d0) d1 i),
     gfmul_q q (erase (erase (fun r => D r j) d0) d1 i))).
  - f_equal. unfold P_of, Q_of. generalize (seq 0 rows) as s.
    induction s as [|i s IH]; [done|]. cbn [foldr]. by rewrite IH.
  - intros i [p q] Hi. unfold erase, upd.
    destruct (Nat.eqb_spec d0 i) as [->|Hn0]; destruct (Nat.eqb_spec d1 i) as [->|Hn1]; cbn [orb].
    + by rewrite decide_True.
    + by rewrite decide_False, decide_True.
    + by rewrite decide_True.
    + rewrite !decide_False by auto.
      erewrite row_load8; [done|exact Hat|by apply Hdata; auto|auto|done].
Qed.

(** Storing byte [k] of the first and, when wanted, of the second block. *)
Lemma fill2_step8 m m1 n0 n1 b len F k : valid m n0 len → (b = true → valid m n1 len ∧ n1 ≠ n0) →
  k < len → mem_at m m1 (fill2 n0 n1 b k) F →
  ∃ m2, store8 m1 n0 k (F n0 k) = Ok m2 ∧
    if b then ∃ m3, store8 m2 n1 k (F n1 k) = Ok m3 ∧ mem_at m m3 (fill2 n0 n1 b (S k)) F
    else mem_at m m2 (fill2 n0 n1 b (S k)) F.
Proof.
  intros Hv0 Hv1 Hk Hat.
  destruct (store8_at _ _ _ _ Hat n0 len k) as (m2 & Hm2 & Hat2); [done|done| |].
  { unfold fill2. rewrite decide_True; auto. }
  exists m2. split; [done|]. destruct b.
  - destruct Hv1 as [Hv1 Hne]; [done|].
    destruct (store8_at _ _ _ _ Hat2 n1 len k) as (m3 & Hm3 & Hat3); [done|done| |].
    { rewrite upd_ne by done. unfold fill2. rewrite decide_True; auto. }
    exists m3. split; [done|]. eapply mem_at_ext; [|done|exact Hat3].
    intros q. unfold upd, fill2. repeat case_decide; naive_solver.
  - eapply mem_at_ext; [|done|exact Hat2].
    intros q. unfold upd, fill2. repeat case_decide; naive_solver.
Qed.

Lemma ec_decode_data_pq_8_ok : decode2_spec ec_decode_data_pq_8.
Proof.
  intros m len rows d0 d1 data new_data crc D n0 n1 p0 p1 _ H0 H1 Hne Hrows HD Hdata HP HQ
    Hd0 Hp0 Hd1 Hn0 Hv0 Hn1 Hcrc. unfold ec_decode_data_pq_8.
  set (b := negb (is_minus1 p1)).
  assert (b = true ↔ p1 ≠ MINUS1) as Hb by (unfold b; by rewrite negb_true_iff, is_minus1_spec).
  set (F := fun q => if decide (q = n0) then D d0 else D d1).
  assert (F n0 = D d0) as HF0 by (unfold F; by rewrite decide_True).
  assert (b = true → valid m n1 len ∧ n1 ≠ n0 ∧ F n1 = D d1 ∧ new_data !! 1 = Some n1) as Hb1.
  { intros Hbt%Hb. destruct (Hn1 Hbt) as (?&?&?). unfold F. by rewrite decide_False. }
  match goal with |- context [for_up len ?body m] =>
    destruct (for_up_inv body (fun k m' => mem_at m m' (fill2 n0 n1 b k) F) len m)
      as (m1 & -> & Hat) end.
  { apply fill2_start. }
  { intros k m1 Hk Hat.
    erewrite (decode2_column D); [|done..|exact Hat|apply fill2_le|done]. rstep.
    erewrite row_load8_k; [|exact Hat|exact HP|intros; apply fill2_le|done].
    erewrite row_load8_k; [|exact Hat|exact HQ|intros; apply fill2_le|done].
    rewrite codeword_P0, codeword_Q. unfold GF_MAX_D in *.
    pose proof (repair2_div rows (fun r => D r k) d0 d1 (fun r => HD r k)) as Hdiv.
    unfold residual2_P, residual2_Q, denominator in Hdiv. rewrite Hdiv by lia. rstep.
    unfold aget. rewrite Hn0, Hd1. rstep.
    pose proof (fill2_step8 m m1 n0 n1 b len F k Hv0 ltac:(naive_solver) Hk Hat) as (m2 & Hs & Hm2).
    rewrite HF0 in Hs. rewrite Hs. rstep. unfold b in *.
    destruct (is_minus1 p1); simpl in Hm2, Hb1; [by eauto|].
    destruct Hb1 as (_ & _ & HF1 & ->); [done|]. rewrite HF1 in Hm2. rstep.
    pose proof (repair2_other rows (fun r => D r k) d0 d1 (fun r => HD r k)) as Ho.
    unfold residual2_P in Ho. by rewrite Ho by lia. }
  rstep. apply fill2_mem in Hat as (Hh0 & Hh1 & Ht). rewrite HF0 in Hh0.
  assert (p1 ≠ MINUS1 → holds m1 n1 len (D d1)) as Hh1'.
  { intros Hp1%Hb. destruct (Hb1 Hp1) as (_ & _ & <- & _). auto. }
  assert (touched m m1 len (λ q, q = n0 ∨ p1 ≠ MINUS1 ∧ q = n1)) as Ht'.
  { eapply touched_mono; [|exact Ht]. naive_solver. }
  destruct crc as [l0|]; [|by do 2 eexists].
  set (f := fun i => if decide (i = 0) then D d0 else D d1).
  assert (bytes f) as Hf by (intros i; unfold f; case_decide; intros ?; apply HD).
  unfold aget. rewrite Hd0, Hd1, Hn0. rstep. apply is_minus1_spec in Hp0 as ->.
  destruct (crc_buf_at l0 l0 2 f _ m1 0 n0 len Hf Hcrc ltac:(lia) (crc_at_refl (Some l0) _))
    as (l1 & -> & Hl1); [done|done|]. rstep.
  destruct (is_minus1 p1) eqn:E1.
  - rstep. do 2 eexists. split_and!; [done..|]. eapply crc_at_ext; [| |exact Hl1]; [|done].
    intros i. unfold upd, b in *. repeat case_decide; simpl in *; naive_solver.
  - apply is_minus1_spec in E1. destruct (Hn1 E1) as (-> & _). rstep.
    destruct (crc_buf_at l0 l1 2 f _ m1 1 n1 len Hf Hcrc ltac:(lia) Hl1) as (l2 & -> & Hl2).
    { by rewrite upd_ne. } { by apply Hh1'. }
    rstep. do 2 eexists. split_and!; [done..|]. eapply crc_at_ext; [| |exact Hl2]; [|done].
    intros i. unfold upd. repeat case_decide; naive_solver.
Qed.

(** ** Update *)
Section update.
Context (m m1 : mem) (len k v : nat) (data coding : list ptr) (crc : crcs) (copy cp : ptr).
Context (old new P Q : nat → Z) (d0 d1 d2 d3 c0 c1 : ptr).
Context (Hpre : update_pre m len k v data coding crc copy old new P Q d0 d1 d2 d3 c0 c1).
Context (Hur : update_ready m m1 len k v copy cp old new P Q d0 d1 d2 d3 c0 c1).
Let F := update_F v old new P Q c0.
Let b := k =? 2.

Lemma update_8_step j m2 : j < len → mem_at m1 m2 (fill2 c0 c1 b j) F →
  ∃ m3, (d0 ← aget data 0;
    old_d ← load8 m2 d0 j;
    new_d ← load8 m2 cp j;
    m2 ← (if k =? 2 then
           d3 ← aget data 3;
           q ← load8 m2 d3 j;
           c1 ← aget coding 1;
           store8 m2 c1 j (Z.lxor q (gfpowmul (Z.of_nat v) (Z.lxor old_d new_d)))
         else Ok m2);
    if (k =? 2) || (k =? 1) then
      d2 ← aget data 2;
      p ← load8 m2 d2 j;
      c0 ← aget coding 0;
      store8 m2 c0 j (Z.lxor p (Z.lxor old_d new_d))
    else Ok m2) = Ok m3 ∧ mem_at m1 m3 (fill2 c0 c1 b (S j)) F.
Proof using Hpre Hur.
  intros Hj Hat. destruct Hpre as [_ Hk Hv Hby [Ed0 _] [Ed1 _] [Ed2 _] H3 (Ec0 & _) Hc1 _ _].
  destruct Hur as [_ (Hcp & _) Hd0 _ Hd2 Hd3 Hvc0 Hvc1]. destruct (Hby j) as (Bo & Bn & BP & BQ).
  unfold aget. rewrite Ed0. rstep.
  rewrite (load8_at _ _ _ _ Hat d0 len old j) by (done || apply fill2_le). rstep.
  rewrite (load8_at _ _ _ _ Hat cp len new j) by (done || apply fill2_le). rstep.
  rewrite gfpowmul_iter by auto with cint.
  destruct Hk as [Hk|Hk]; subst b; rewrite Hk in *; cbn [Nat.eqb orb] in *.
  - rstep. rewrite Ed2, Ec0. rstep.
    rewrite (load8_at _ _ _ _ Hat d2 len P j) by (done || apply fill2_le). rstep.
    destruct (store8_at _ _ _ _ Hat c0 len j) as (m3 & Hm3 & Hat3); [done|done| |].
    { unfold fill2. rewrite decide_True; auto. }
    unfold F in Hm3. rewrite update_F_0 in Hm3. exists m3. split; [exact Hm3|].
    eapply mem_at_ext; [|done|exact Hat3]. intros q. unfold upd, fill2. repeat case_decide; naive_solver.
  - destruct (H3 eq_refl) as [Ed3 _]. destruct (Hc1 eq_refl) as (Ec1 & _ & _ & _ & _ & Hc10 & Hc12 & _).
    rewrite Ed3, Ec1, Ed2, Ec0. rstep.
    rewrite (load8_at _ _ _ _ Hat d3 len Q j) by (auto || apply fill2_le). rstep.
    destruct (store8_at _ _ _ _ Hat c1 len j) as (m3 & Hm3 & Hat3); [auto|done| |].
    { unfold fill2. rewrite decide_True; auto. }
    unfold F in Hm3. rewrite update_F_1 in Hm3 by done. unfold update_Q in Hm3. rewrite Hm3. rstep.
    assert (upd (fill2 c0 c1 true j) c1 (S j) d2 ≤ j).
    { rewrite upd_ne by done. apply fill2_le. }
    rewrite (load8_at _ _ _ _ Hat3 d2 len P j) by done. rstep.
    destruct (store8_at _ _ _ _ Hat3 c0 len j) as (m4 & Hm4 & Hat4); [done|done| |].
    { rewrite upd_ne by done. unfold fill2. rewrite decide_True; auto. }
    unfold F in Hm4. rewrite update_F_0 in Hm4. exists m4. split; [exact Hm4|].
    eapply mem_at_ext; [|done|exact Hat4]. intros q. unfold upd, fill2. repeat case_decide; naive_solver.
Qed.
End update.

Lemma ec_encode_data_update_8_ok : update_spec ec_encode_data_update_8.
Proof.
  intros m len k v data coding crc copy old new P Q d0 d1 d2 d3 c0 c1 Hpre.
  destruct (update_prologue _ _ _ _ _ _ _ _ _ _ _ _ _ _ _ _ _ _ Hpre) as (m1 & cp & Hpro & Hur).
  unfold ec_encode_data_update_8. destruct (up_d1 _ _ _ _ _ _ _ _ _ _ _ _ _ _ _ _ _ _ Hpre) as [Ed1 _].
  rewrite (proj2 (aget_ok _ _ _) Ed1). rstep. rewrite Hpro. rstep.
  match goal with |- context [for_up len ?body m1] =>
    destruct (for_up_inv body (fun j m2 => mem_at m1 m2 (fill2 c0 c1 (k =? 2) j)
      (update_F v old new P Q c0)) len m1) as (m2 & -> & Hat) end.
  { apply fill2_start. }
  { intros j m2 Hj Hat. by eapply update_8_step. }
  rstep. pose proof (update_finish _ _ _ _ _ _ _ _ _ _ _ _ _ _ _ _ _ _ _ _ _ Hpre Hur Hat)
    as (Ht & Hcp & Hh0 & Hh1 & Hhd).
  destruct Hpre as [_ Hk _ Hby _ _ _ _ (Ec0 & _) Hc1 _ Hcrc].
  destruct crc as [l0|]; [|by do 2 eexists].
  pose proof (update_streams_bytes v old new P Q Hby) as Hf.
  destruct (crc_buf_at l0 l0 (k + 1) _ _ m2 0 d1 len Hf Hcrc ltac:(lia) (crc_at_refl (Some l0) _))
    as (l1 & -> & Hl1); [done|done|]. rstep. unfold aget. rewrite Ec0. rstep.
  destruct (crc_buf_at l0 l1 (k + 1) _ _ m2 1 c0 len Hf Hcrc ltac:(lia) Hl1)
    as (l2 & -> & Hl2); [by rewrite upd_ne|done|]. rstep.
  destruct Hk as [Hk|Hk]; rewrite Hk in *; cbn [Nat.eqb].
  - rstep. do 2 eexists. split_and!; try done. eapply crc_at_ext; [| |exact Hl2]; [|done].
    intros i. unfold upd. repeat case_decide; lia.
  - destruct (Hc1 eq_refl) as (Ec1 & _). rewrite Ec1. rstep.
    destruct (crc_buf_at l0 l2 (2 + 1) _ _ m2 2 c1 len Hf Hcrc ltac:(lia) Hl2)
      as (l3 & -> & Hl3); [by rewrite !upd_ne by done|by apply Hh1|].
    rstep. do 2 eexists. split_and!; try done. eapply crc_at_ext; [| |exact Hl3]; [|done].
    intros i. unfold upd. repeat case_decide; lia.
Qed.
