(* ===== verification/KernelWords.v ===== *)
(** * The 64-bit kernels meet the contract *)
From stdpp Require Import base list gmap numbers.
From Stdlib Require Import ZArith Lia.
From S2P Require Import Prelude CMemory GaloisField Crc32c ErasureCode EcAlgebra KernelLemmas.
Local Open Scope Z_scope.
Local Open Scope nat_scope.

Lemma row_load64_k {A} m m1 l F a len i f j (k : Z → res A) : mem_at m m1 l F →
  row_holds m a len i f → (∀ p, a !! i = Some p → l p ≤ 8 * j) → 8 * S j ≤ len →
  (d ← aget a i; v ← load64 m1 d j; k v) = k (wordof f j).
Proof.
  intros Hat (p & Hp & Hh) Hl Hj. unfold aget. rewrite Hp. rstep.
  by rewrite (load64_at _ _ _ _ Hat p len f j) by eauto.
Qed.

Lemma row_load64 m m1 l F a len i f j : mem_at m m1 l F → row_holds m a len i f →
  (∀ p, a !! i = Some p → l p ≤ 8 * j) → 8 * S j ≤ len →
  (d ← aget a i; load64 m1 d j) = Ok (wordof f j).
Proof.
  intros Hat (p & Hp & Hh) Hl Hj. unfold aget. rewrite Hp. rstep. eapply load64_at; eauto.
Qed.

Lemma words len j : len mod 8 = 0 → j < len / 8 → 8 * S j ≤ len.
Proof. intros Hm Hj. pose proof (Nat.div_mod_eq len 8). lia. Qed.
Lemma words_all len : len mod 8 = 0 → 8 * (len / 8) = len.
Proof. intros Hm. pose proof (Nat.div_mod_eq len 8). lia. Qed.

(** ** Reading a column of words, advancing the CRC of every row *)
Section column.
Context {St : Type} (step : St → Z → St) (m : mem) (dp : list ptr) (j : nat).
Context (crc : crcs) (n : nat) (f : nat → nat → Z) (Hf : bytes f) (Hrdy : crc_ready crc n).

Definition column_body (i : nat) (s : St * crcs) : res (St * crcs) :=
  let '(s, c) := s in
  d ← aget dp i; w ← load64 m d j; c ← crc_word c i w; Ok (step s w, c).

Lemma column_step i s c l : i < n →
  (∃ p, dp !! i = Some p ∧ load64 m p j = Ok (wordof (f i) j)) →
  crc_at crc c l f → l i = 8 * j →
  ∃ c', column_body i (s, c) = Ok (step s (wordof (f i) j), c') ∧
        crc_at crc c' (upd l i (8 * S j)) f.
Proof using Hf Hrdy.
  intros Hi (p & Hp & Hl) Hat Hli. unfold column_body, aget. rewrite Hp. rstep. rewrite Hl. rstep.
  destruct (crc_word_at crc c n f l i j) as (c' & -> & Hc'); [done..|]. rstep. eauto.
Qed.

Lemma column_up rows s0 c0 l : rows ≤ n →
  (∀ i, i < rows → ∃ p, dp !! i = Some p ∧ load64 m p j = Ok (wordof (f i) j)) →
  crc_at crc c0 l f → (∀ i, i < rows → l i = 8 * j) →
  ∃ c', for_up rows column_body (s0, c0) =
          Ok (foldl (fun s i => step s (wordof (f i) j)) s0 (seq 0 rows), c') ∧
        crc_at crc c' (fun i => if decide (i < rows) then 8 * S j else l i) f.
Proof using Hf Hrdy.
  intros Hn Hrows Hat Hl.
  destruct (for_up_inv column_body (fun k s =>
    s.1 = foldl (fun s i => step s (wordof (f i) j)) s0 (seq 0 k) ∧
    crc_at crc s.2 (fun i => if decide (i < k) then 8 * S j else l i) f) rows (s0, c0))
    as ([s' c'] & -> & Hs' & Hc').
  - split; [done|]. eapply crc_at_ext; [| |exact Hat]; [|done]. intros i. by rewrite decide_False by lia.
  - intros k [s c] Hk [Hs Hc]. cbn [fst snd] in Hs, Hc. subst s.
    destruct (column_step k (foldl (fun s i => step s (wordof (f i) j)) s0 (seq 0 k)) c _
      ltac:(lia) (Hrows k Hk) Hc) as (c' & -> & Hc'); [rewrite decide_False by lia; auto|].
    eexists. split; [done|]. split; cbn [fst snd].
    + by rewrite seq_S, foldl_app.
    + eapply crc_at_ext; [| |exact Hc']; [|done]. intros i. unfold upd. repeat case_decide; lia.
  - simpl in *. subst. eauto.
Qed.

Lemma column_down rows s0 c0 l : rows ≤ n →
  (∀ i, i < rows → ∃ p, dp !! i = Some p ∧ load64 m p j = Ok (wordof (f i) j)) →
  crc_at crc c0 l f → (∀ i, i < rows → l i = 8 * j) →
  ∃ c', for_down rows column_body (s0, c0) =
          Ok (foldr (fun i s => step s (wordof (f i) j)) s0 (seq 0 rows), c') ∧
        crc_at crc c' (fun i => if decide (i < rows) then 8 * S j else l i) f.
Proof using Hf Hrdy.
  revert s0 c0 l. induction rows as [|rows IH]; intros s0 c0 l Hn Hrows Hat Hl.
  - exists c0. split; [done|]. eapply crc_at_ext; [| |exact Hat]; [|done].
    intros i. by rewrite decide_False by lia.
  - cbn [for_down].
    destruct (column_step rows s0 c0 l ltac:(lia) (Hrows rows ltac:(lia)) Hat) as (c1 & -> & Hc1);
      [auto|]. rstep.
    destruct (IH (step s0 (wordof (f rows) j)) c1 _ ltac:(lia)
      (fun i Hi => Hrows i ltac:(lia)) Hc1) as (c2 & -> & Hc2).
    { intros i Hi. rewrite upd_ne by lia. apply Hl. lia. }
    exists c2. rewrite seq_S, foldr_app. split; [done|].
    eapply crc_at_ext; [| |exact Hc2]; [|done]. intros i. unfold upd. repeat case_decide; lia.
Qed.
End column.

(** ** Encoders *)
Definition enc_progress (rows : nat) (ks : list nat) (n i : nat) : nat :=
  if decide (i < rows ∨ i - rows ∈ ks) then n else 0.

Lemma rows_load64 m m1 len rows dp outs D l F j : encode_pre m len rows dp None outs D →
  mem_at m m1 l F → (∀ q, ¬ q ∈ outs → l q = 0) → 8 * S j ≤ len →
  ∀ i, i < rows → ∃ p, dp !! i = Some p ∧ load64 m1 p j = Ok (wordof (codeword rows D i) j).
Proof.
  intros Hpre Hat Hl Hj i Hi. destruct (ep_data _ _ _ _ _ _ _ Hpre i Hi) as (p & Hp & Hh).
  exists p. split; [done|]. apply (load64_at _ _ _ _ Hat p len).
  - eapply holds_ext; [|done]. intros. symmetry. by apply codeword_data.
  - rewrite Hl; [lia|]. intros Ho. destruct (ep_outs _ _ _ _ _ _ _ Hpre p Ho) as (_ & _ & Hne).
    by apply (Hne i).
  - done.
Qed.

(** One parity: [step] computes the word of parity [k] from a column. *)
Lemma encode1_loop64 m len rows dp coding crc D o k (loop : _ → Z * crcs → res (Z * crcs)) :
  encode_pre m len rows dp None [o] D → coding !! k = Some o → k ≤ 1 →
  crc_ready crc (rows + k + 1) →
  (∀ m1 c j, 8 * S j ≤ len → mem_at m m1 (upd (fun _ => 0) o (8 * j)) (fun _ => codeword rows D (rows + k)) →
     crc_at crc c (enc_progress rows [k] (8 * j)) (codeword rows D) →
     ∃ c', loop (m1, j) (0%Z, c) = Ok (wordof (codeword rows D (rows + k)) j, c') ∧
       crc_at crc c' (fun i => if decide (i < rows) then 8 * S j
                               else enc_progress rows [k] (8 * j) i) (codeword rows D)) →
  ∃ m' crc', for_up (len / 8) (fun j '(m, crc) =>
      '(p, crc) ← loop (m, j) (0%Z, crc);
      c0 ← aget coding k;
      m ← store64 m c0 j p;
      crc ← crc_word crc (rows + k) p;
      Ok (m, crc)) (m, crc) = Ok (m', crc') ∧
    touched m m' len (fun q => q ∈ [o]) ∧
    Forall2 (fun k o => holds m' o len (codeword rows D (rows + k))) [k] [o] ∧
    crc_at crc crc' (enc_progress rows [k] len) (codeword rows D).
Proof.
  intros Hpre Ho Hk Hrdy Hloop. pose proof (ep_len _ _ _ _ _ _ _ Hpre) as Hlen.
  destruct (ep_outs _ _ _ _ _ _ _ Hpre o) as (_ & Hv & _); [set_solver|].
  pose proof (codeword_bytes rows D (ep_bytes _ _ _ _ _ _ _ Hpre)) as Hcw.
  match goal with |- context [for_up _ ?body _] =>
    destruct (for_up_inv body (fun j s =>
      mem_at m s.1 (upd (fun _ => 0) o (8 * j)) (fun _ => codeword rows D (rows + k)) ∧
      crc_at crc s.2 (enc_progress rows [k] (8 * j)) (codeword rows D)) (len / 8) (m, crc))
      as ([m1 c1] & Hrun & Hat & Hc) end.
  - split; simpl.
    + eapply mem_at_ext; [| |apply mem_at_refl]; [|done]. intros q. unfold upd. by case_decide.
    + eapply crc_at_ext; [| |apply crc_at_refl]; [|done]. intros i. unfold enc_progress. by case_decide.
  - intros j [m1 c1] Hj [Hat Hc]. cbn [fst snd] in Hat, Hc. pose proof (words len j Hlen Hj) as Hj8.
    destruct (Hloop m1 c1 j Hj8 Hat Hc) as (c2 & -> & Hc2). rstep. unfold aget. rewrite Ho. rstep.
    destruct (store64_at _ _ _ _ o len j Hat Hv Hj8 (upd_eq _ _ _)) as (m2 & -> & Hat2); [intros; apply Hcw|].
    rstep. destruct (crc_word_at crc c2 _ _ _ (rows + k) j Hcw Hrdy ltac:(lia) Hc2) as (c3 & -> & Hc3).
    { rewrite decide_False by lia. unfold enc_progress. rewrite decide_True; [done|]. right. set_solver by lia. }
    rstep. eexists. split; [done|]. split; cbn [fst snd].
    + eapply mem_at_ext; [|done|exact Hat2]. intros q. unfold upd. by case_decide.
    + eapply crc_at_ext; [| |exact Hc3]; [|done]. intros i. unfold upd, enc_progress.
      repeat case_decide; set_solver by lia.
  - cbn [fst snd] in Hat, Hc. rewrite words_all in Hat, Hc by done. exists m1, c1.
    apply fill1_at in Hat as (Hh & Ht & _). split_and!; [done| |by repeat constructor|done].
    eapply touched_mono; [|exact Ht]. set_solver.
Qed.

Lemma upd0_out (o q : ptr) n : ¬ q ∈ [o] → upd (fun _ => 0) o n q = 0.
Proof. intros Hq. apply upd_ne. set_solver. Qed.

Lemma wordof_codeword_P rows D j : bytes D →
  foldl (fun p i => Z.lxor p (wordof (codeword rows D i) j)) 0%Z (seq 0 rows) =
  wordof (codeword rows D (rows + 0)) j.
Proof.
  intros HD. rewrite (P_up (fun i => wordof (codeword rows D i) j)).
  transitivity (P_of rows (fun i => wordof (D i) j)).
  - apply P_ext. intros i Hi. apply wordof_ext. intros. by apply codeword_data.
  - unfold P_of. rewrite wordof_P by done. apply wordof_ext. intros. by rewrite codeword_P.
Qed.

Lemma wordof_codeword_Q rows D j : bytes D →
  foldr (fun i q => gfmul_q_64 q (wordof (codeword rows D i) j)) 0%Z (seq 0 rows) =
  wordof (codeword rows D (rows + 1)) j.
Proof.
  intros HD. transitivity (foldr (fun i q => gfmul_q_64 q (wordof (D i) j)) 0%Z (seq 0 rows)).
  - apply foldr_seq_ext. intros i q Hi. f_equal. apply wordof_ext.
    intros. by apply codeword_data.
  - rewrite wordof_Q by done. apply wordof_ext. intros. by rewrite codeword_Q.
Qed.

Lemma single {A} (P : nat → A → Prop) k outs : Forall2 P [k] outs → ∃ o, outs = [o] ∧ P k o.
Proof.
  intros H. destruct outs as [|o [|? ?]]; apply Forall2_length in H as Hl; try done.
  apply Forall2_cons_1 in H as [? _]. eauto.
Qed.

Lemma encode_p_64_rows_ok : encode_core_spec encode_p_64_rows [0].
Proof.
  intros m len rows dp coding crc D outs Hpre Hks _ Hcrc.
  apply single in Hks as (o & -> & Ho). pose proof (ep_bytes _ _ _ _ _ _ _ Hpre) as HD.
  pose proof (encode1_loop64 m len rows dp coding crc D o 0
    (fun '(m, j) => for_up rows (column_body Z.lxor m dp j)) Hpre Ho ltac:(lia)
    (Hcrc 0 ltac:(set_solver))) as H.
  rewrite Nat.add_0_r in H. apply H. intros m1 c j Hj Hat Hc.
  destruct (column_up Z.lxor m1 dp j crc _ _ (codeword_bytes rows D HD) (Hcrc 0 ltac:(set_solver))
    rows 0%Z c _ ltac:(lia) (rows_load64 _ _ _ _ _ _ _ _ _ _ Hpre Hat (fun q => upd0_out o q _) Hj) Hc)
    as (c' & -> & Hc').
  - intros i Hi. unfold enc_progress. rewrite decide_True; auto.
  - exists c'. split; [|done]. by rewrite wordof_codeword_P, Nat.add_0_r.
Qed.

Lemma encode_q_64_rows_ok : encode_core_spec encode_q_64_rows [1].
Proof.
  intros m len rows dp coding crc D outs Hpre Hks _ Hcrc.
  apply single in Hks as (o & -> & Ho). pose proof (ep_bytes _ _ _ _ _ _ _ Hpre) as HD.
  apply (encode1_loop64 m len rows dp coding crc D o 1
    (fun '(m, j) => for_down rows (column_body gfmul_q_64 m dp j)) Hpre Ho ltac:(lia)
    (Hcrc 1 ltac:(set_solver))). intros m1 c j Hj Hat Hc.
  destruct (column_down gfmul_q_64 m1 dp j crc _ _ (codeword_bytes rows D HD) (Hcrc 1 ltac:(set_solver))
    rows 0%Z c _ ltac:(lia) (rows_load64 _ _ _ _ _ _ _ _ _ _ Hpre Hat (fun q => upd0_out o q _) Hj) Hc)
    as (c' & -> & Hc').
  - intros i Hi. unfold enc_progress. rewrite decide_True; auto.
  - exists c'. split; [|done]. by rewrite wordof_codeword_Q.
Qed.

(** Storing word [k] of the first and, when wanted, of the second block. *)
Lemma fill2_step64 m m1 n0 n1 b len F k : valid m n0 len → (b = true → valid m n1 len ∧ n1 ≠ n0) →
  bytes (fun i => if decide (i = 0) then F n0 else F n1) →
  8 * S k ≤ len → mem_at m m1 (fill2 n0 n1 b (8 * k)) F →
  ∃ m2, store64 m1 n0 k (wordof (F n0) k) = Ok m2 ∧
    if b then ∃ m3, store64 m2 n1 k (wordof (F n1) k) = Ok m3 ∧
                    mem_at m m3 (fill2 n0 n1 b (8 * S k)) F
    else mem_at m m2 (fill2 n0 n1 b (8 * S k)) F.
Proof.
  intros Hv0 Hv1 HF Hk Hat.
  destruct (store64_at _ _ _ _ n0 len k Hat Hv0 Hk) as (m2 & Hm2 & Hat2).
  { unfold fill2. rewrite decide_True; auto. } { intros j. apply (HF 0). }
  exists m2. split; [done|]. destruct b.
  - destruct Hv1 as [Hv1 Hne]; [done|].
    destruct (store64_at _ _ _ _ n1 len k Hat2 Hv1 Hk) as (m3 & Hm3 & Hat3).
    { rewrite upd_ne by done. unfold fill2. rewrite decide_True; auto. } { intros j. apply (HF 1). }
    exists m3. split; [done|]. eapply mem_at_ext; [|done|exact Hat3].
    intros q. unfold upd, fill2. repeat case_decide; naive_solver.
  - eapply mem_at_ext; [|done|exact Hat2].
    intros q. unfold upd, fill2. repeat case_decide; naive_solver.
Qed.

Definition step_pq (s : Z * Z) (w : Z) : Z * Z := (Z.lxor s.1 w, gfmul_q_64 s.2 w).

Lemma gfmul_q_64_0 w : gfmul_q_64 0 w = w.
Proof. unfold gfmul_q_64. simpl. by rewrite !Z.lxor_0_r. Qed.

(** Starting P and Q from the last row is one more step of the column loop. *)
Lemma pq_column m dp j last c :
  (d ← aget dp last;
   p ← load64 m d j;
   c ← crc_word c last p;
   for_down last (fun i '(p, q, crc) =>
     d ← aget dp i;
     temp ← load64 m d j;
     crc ← crc_word crc i temp;
     Ok (Z.lxor p temp, gfmul_q_64 q temp, crc)) (p, p, c)) =
  for_down (S last) (column_body step_pq m dp j) ((0%Z, 0%Z), c).
Proof.
  cbn [for_down]. remember (for_down last (column_body step_pq m dp j)) as K eqn:HK.
  unfold column_body. destruct (aget dp last) as [d|]; rstep; [|done].
  destruct (load64 m d j) as [w|]; rstep; [|done].
  destruct (crc_word c last w) as [c'|]; rstep; [|done].
  unfold step_pq. simpl fst; simpl snd. rewrite gfmul_q_64_0, Z.lxor_0_l. subst K.
  apply for_down_ext. by intros i [[p q] c''] _.
Qed.

Lemma wordof_codeword_PQ rows D j : bytes D →
  foldr (fun i s => step_pq s (wordof (codeword rows D i) j)) (0%Z, 0%Z) (seq 0 rows) =
  (wordof (codeword rows D rows) j, wordof (codeword rows D (rows + 1)) j).
Proof.
  intros HD. transitivity
    (P_of rows (fun i => wordof (codeword rows D i) j),
     foldr (fun i q => gfmul_q_64 q (wordof (codeword rows D i) j)) 0%Z (seq 0 rows)).
  - unfold P_of. generalize (seq 0 rows) as l. induction l as [|i l IH]; [done|].
    cbn [foldr]. by rewrite IH.
  - rewrite <-P_up, wordof_codeword_P, wordof_codeword_Q by done. by rewrite Nat.add_0_r.
Qed.

Section pq.
Context (m : mem) (len rows : nat) (dp coding : list ptr) (crc : crcs) (D : nat → nat → Z).
Context (c0 c1 : ptr) (Hpre : encode_pre m len rows dp None [c0; c1] D).
Context (Hc0 : coding !! 0 = Some c0) (Hc1 : coding !! 1 = Some c1) (Hne : c1 ≠ c0).
Context (Hcrc : crc_ready crc (rows + 1 + 1)).

Definition pq_F (q : ptr) : nat → Z :=
  if decide (q = c0) then codeword rows D rows else codeword rows D (rows + 1).

Lemma encode_pq_64_step j m1 cr1 : 8 * S j ≤ len →
  mem_at m m1 (fill2 c0 c1 true (8 * j)) pq_F →
  crc_at crc cr1 (enc_progress rows [0; 1] (8 * j)) (codeword rows D) →
  ∃ m2 cr2, encode_pq_64_word rows dp coding j (m1, cr1) = Ok (m2, cr2) ∧
    mem_at m m2 (fill2 c0 c1 true (8 * S j)) pq_F ∧
    crc_at crc cr2 (enc_progress rows [0; 1] (8 * S j)) (codeword rows D).
Proof using Hpre Hc0 Hc1 Hne Hcrc.
  intros Hj Hat Hc. pose proof Hpre as [_ Hrows HD _ Houts _ _].
  pose proof (codeword_bytes rows D HD) as Hcw.
  destruct (Houts c0) as (_ & Hv0 & _); [set_solver|].
  destruct (Houts c1) as (_ & Hv1 & _); [set_solver|].
  assert (∀ q, ¬ q ∈ [c0; c1] → fill2 c0 c1 true (8 * j) q = 0) as Hfill.
  { intros q Hq. unfold fill2. rewrite decide_False; [done|]. set_solver. }
  destruct (column_down step_pq m1 dp j crc _ _ Hcw Hcrc rows (0%Z, 0%Z) cr1 _ ltac:(lia)
    (rows_load64 _ _ _ _ _ _ _ _ _ _ Hpre Hat Hfill Hj) Hc) as (cr2 & Hcol & Hc2).
  { intros i Hi. unfold enc_progress. rewrite decide_True; auto. }
  rewrite wordof_codeword_PQ in Hcol by done.
  unfold encode_pq_64_word. destruct rows as [|last] eqn:Erows; [lia|]. rewrite <-Erows in *.
  rewrite Erows in Hcol at 1. rewrite <-pq_column in Hcol.
  destruct (aget dp last) as [d|]; [|done]. cbn [mbind res_bind] in Hcol |- *.
  destruct (load64 m1 d j) as [w|]; [|done]. cbn [mbind res_bind] in Hcol |- *.
  destruct (crc_word cr1 last w) as [cr|]; [|done]. cbn [mbind res_bind] in Hcol |- *.
  rewrite Hcol. rstep. unfold aget. rewrite Hc0, Hc1. rstep.
  destruct (fill2_step64 m m1 c0 c1 true len pq_F j) as (m2 & Hm2 & m3 & Hm3 & Hat3); [done..| |done|done|].
  { intros i. unfold pq_F. repeat case_decide; apply Hcw. }
  unfold pq_F in Hm2, Hm3. rewrite decide_True in Hm2 by done. rewrite decide_False in Hm3 by done.
  rewrite Hm2. rstep. rewrite Hm3. rstep.
  destruct (crc_word_at crc cr2 _ _ _ rows j Hcw Hcrc ltac:(lia) Hc2) as (cr3 & -> & Hc3).
  { rewrite decide_False by lia. unfold enc_progress. rewrite decide_True; [done|]. right.
    rewrite Nat.sub_diag. set_solver. }
  rstep. destruct (crc_word_at crc cr3 _ _ _ (rows + 1) j Hcw Hcrc ltac:(lia) Hc3) as (cr4 & -> & Hc4).
  { rewrite upd_ne by lia. rewrite decide_False by lia. unfold enc_progress.
    rewrite decide_True; [done|]. right. set_solver by lia. }
  rstep. do 2 eexists. split_and!; [done..|].
  eapply crc_at_ext; [| |exact Hc4]; [|done]. intros i. unfold upd, enc_progress.
  repeat case_decide; set_solver by lia.
Qed.
End pq.

Lemma encode_pq_64_rows_ok : encode_core_spec encode_pq_64_rows [0; 1].
Proof.
  intros m len rows dp coding crc D outs Hpre Hks Hnd Hcrc.
  destruct outs as [|c0 [|c1 [|? ?]]].
  1,2,4: exfalso; apply Forall2_length in Hks; simpl in Hks; lia.
  apply Forall2_cons_1 in Hks as [Hc0 Hks]. apply Forall2_cons_1 in Hks as [Hc1 _].
  assert (c1 ≠ c0) as Hne by (apply NoDup_cons_1_1 in Hnd; set_solver).
  pose proof (ep_len _ _ _ _ _ _ _ Hpre) as Hlen. unfold encode_pq_64_rows.
  destruct (for_up_inv (encode_pq_64_word rows dp coding) (fun j s =>
      mem_at m s.1 (fill2 c0 c1 true (8 * j)) (pq_F rows D c0) ∧
      crc_at crc s.2 (enc_progress rows [0; 1] (8 * j)) (codeword rows D)) (len / 8) (m, crc))
      as ([m1 cr1] & Hrun & Hat & Hc).
  - split; [apply fill2_start|]. eapply crc_at_ext; [| |apply crc_at_refl]; [|done].
    intros i. unfold enc_progress. by case_decide.
  - intros j [m1 cr1] Hj [Hat Hc]. cbn [fst snd] in Hat, Hc.
    destruct (encode_pq_64_step m len rows dp coding crc D c0 c1 Hpre Hc0 Hc1 Hne
      (Hcrc 1 ltac:(set_solver)) j m1 cr1 (words len j Hlen Hj) Hat Hc) as (m2 & cr2 & -> & ?); eauto.
  - cbn [fst snd] in Hat, Hc. rewrite words_all in Hat, Hc by done.
    apply fill2_mem in Hat as (Hh0 & Hh1 & Ht). exists m1, cr1. split_and!; [done| | |done].
    + eapply touched_mono; [|exact Ht]. set_solver.
    + unfold pq_F in Hh0, Hh1. rewrite decide_True in Hh0 by done. rewrite decide_False in Hh1 by done.
      constructor; [by rewrite Nat.add_0_r|]. by repeat constructor; apply Hh1.
Qed.

(** ** CRCs accumulated in local variables *)
Definition local_at (crc : crcs) (i : nat) (c : Z) (n : nat) (f : nat → Z) : Prop :=
  match crc with
  | None => True
  | Some l => ∃ c0, l !! i = Some c0 ∧ c = crc_spec c0 (f <$> seq 0 n)
  end.

Lemma load_crc_at crc n i f : crc_ready crc n → i < n →
  ∃ c, load_crc crc i = Ok c ∧ local_at crc i c 0 f.
Proof.
  intros Hr Hi. destruct crc as [l|]; simpl; [|eauto]. destruct Hr as [Hn _].
  destruct (lookup_lt_is_Some_2 l i) as [c Hc]; [lia|]. exists c. unfold aget. rewrite Hc. eauto.
Qed.

Lemma step_crc_at crc n i f c j : crc_ready crc n → (∀ k, byte_range (f k)) →
  local_at crc i c (8 * j) f → local_at crc i (step_crc crc (wordof f j) c) (8 * S j) f.
Proof.
  intros Hr Hf. destruct crc as [l|]; cbn [local_at]; [|done]. intros (c0 & Hc0 & ->).
  exists c0. split; [done|]. destruct Hr as [_ Hr]. cbn [step_crc]. rewrite one_u64_spec.
  - rewrite le_bytes_wordof by done. replace (8 * S j) with (8 * j + 8) by lia.
    by rewrite seq_app, fmap_app, crc_spec_app.
  - apply crc_spec_range; [by eapply Forall_lookup_1|]. apply Forall_fmap, Forall_seq. auto.
Qed.

Lemma store_crc_at crc0 crc1 l f i c n : crc_at crc0 crc1 l f → l i = 0 →
  local_at crc0 i c n (f i) →
  ∃ crc2, store_crc crc1 i c = Ok crc2 ∧ crc_at crc0 crc2 (upd l i n) f.
Proof.
  intros Hat Hl Hc. destruct crc0 as [l0|], crc1 as [l1|]; try done; simpl; [|eauto].
  destruct Hat as [Hlen Hat]. destruct Hc as (c0 & Hc0 & ->).
  assert (i < length l1) by (rewrite Hlen; eauto using lookup_lt_Some).
  rewrite aset_ok by done. rstep. eexists. split; [done|]. split; [by rewrite length_insert|].
  intros k c' Hc'. unfold upd. destruct (decide (k = i)) as [->|].
  - simplify_eq. by rewrite list_lookup_insert_eq.
  - rewrite list_lookup_insert_ne by done. auto.
Qed.

(** ** Single repair *)
Lemma decode1_loop64 m len crc n0 (f : nat → Z) new_data (word : mem → nat → res Z) :
  len mod 8 = 0 → (∀ j, byte_range (f j)) → new_data !! 0 = Some n0 → valid m n0 len →
  crc_ready crc 1 →
  (∀ m1 j, 8 * S j ≤ len → mem_at m m1 (upd (fun _ => 0) n0 (8 * j)) (fun _ => f) →
     word m1 j = Ok (wordof f j)) →
  ∃ m' crc', (dcrc ← load_crc crc 0;
    '(m, dcrc) ← for_up (len / 8) (fun j '(m, dcrc) =>
      w ← word m j;
      n0 ← aget new_data 0;
      m ← store64 m n0 j w;
      Ok (m, step_crc crc w dcrc)) (m, dcrc);
    crc ← store_crc crc 0 dcrc;
    Ok (m, crc)) = Ok (m', crc') ∧
    mem_at m m' (upd (fun _ => 0) n0 len) (fun _ => f) ∧
    crc_at crc crc' (fun i => if decide (i = 0) then len else 0) (fun _ => f).
Proof.
  intros Hlen Hf Hn0 Hv Hcrc Hword.
  destruct (load_crc_at crc 1 0 f Hcrc ltac:(lia)) as (d0 & -> & Hd0). rstep.
  match goal with |- context [for_up _ ?body _] =>
    destruct (for_up_inv body (fun j s => mem_at m s.1 (upd (fun _ => 0) n0 (8 * j)) (fun _ => f) ∧
      local_at crc 0 s.2 (8 * j) f) (len / 8) (m, d0)) as ([m1 c1] & -> & Hat & Hc) end.
  - split; [|done]. eapply mem_at_ext; [| |apply mem_at_refl]; [|done]. intros q. unfold upd. by case_decide.
  - intros j [m1 c1] Hj [Hat Hc]. cbn [fst snd] in Hat, Hc. pose proof (words len j Hlen Hj) as Hj8.
    rewrite Hword by done. rstep. unfold aget. rewrite Hn0. rstep.
    destruct (store64_at _ _ _ _ n0 len j Hat Hv Hj8 (upd_eq _ _ _)) as (m2 & -> & Hat2); [done|].
    rstep. eexists. split; [done|]. split; cbn [fst snd]; [|by eapply step_crc_at].
    eapply mem_at_ext; [|done|exact Hat2]. intros q. unfold upd. by case_decide.
  - cbn [fst snd] in Hat, Hc. rewrite words_all in Hat, Hc by done. rstep.
    destruct (store_crc_at crc crc _ (fun _ => f) 0 c1 len (crc_at_refl _ _)) as (c2 & -> & Hc2); [done..|].
    rstep. do 2 eexists. split_and!; [done..|]. eapply crc_at_ext; [| |exact Hc2]; [|done].
    intros i. unfold upd. by case_decide.
Qed.

(** [res_eq] compares two sequences of statements that differ in grouping only. *)
Ltac res_eq :=
  rstep; repeat (match goal with |- context [@mbind _ _ _ _ _ ?r] => destruct r end; rstep; try done).

Definition erase_row (D : nat → nat → Z) (x i : nat) : nat → Z :=
  if decide (i = x) then fun _ => 0%Z else D i.

Lemma erase_row_bytes D x : bytes D → bytes (erase_row D x).
Proof. intros HD i j. unfold erase_row. case_decide; [apply byte_0|apply HD]. Qed.

Lemma erase_row_column D x j i : erase_row D x i j = erase (fun r => D r j) x i.
Proof. unfold erase_row, erase, upd. by case_decide. Qed.

Section decode.
Context (m : mem) (len rows : nat) (data : list ptr) (D : nat → nat → Z) (HD : bytes D).
Context (m1 : mem) (l : ptr → nat) (F : ptr → nat → Z) (Hat : mem_at m m1 l F).
Context (j : nat) (Hj : 8 * S j ≤ len) (Hl : ∀ q, l q ≤ 8 * j).

Lemma erased_P_up d0 :
  (∀ i, i < rows → i ≠ d0 → row_holds m data len i (D i)) →
  for_up rows (fun i temp_p =>
    if d0 =? i then Ok temp_p
    else d ← aget data i; v ← load64 m1 d j; Ok (Z.lxor temp_p v)) 0%Z =
  Ok (wordof (fun k => P_of rows (erase (fun r => D r k) d0)) j).
Proof using HD Hat Hj Hl.
  intros Hdata. erewrite for_up_pure with (step := fun i p => Z.lxor p (wordof (erase_row D d0 i) j)).
  - f_equal. rewrite (P_up (fun i => wordof (erase_row D d0 i) j)). unfold P_of at 1.
    rewrite wordof_P by (by apply erase_row_bytes). apply wordof_ext. intros k.
    apply P_ext. intros. apply erase_row_column.
  - intros i p Hi. unfold erase_row. destruct (Nat.eqb_spec d0 i) as [->|Hne].
    + rewrite decide_True by done. by rewrite wordof_0, Z.lxor_0_r.
    + rewrite decide_False by auto.
      eapply row_load64_k with (k := fun v => Ok (Z.lxor p v)); eauto.
Qed.

Lemma erased_Q_down d0 :
  (∀ i, i < rows → i ≠ d0 → row_holds m data len i (D i)) →
  for_down rows (fun i temp_q =>
    temp_d ← (if d0 =? i then Ok 0%Z else d ← aget data i; load64 m1 d j);
    Ok (gfmul_q_64 temp_q temp_d)) 0%Z =
  Ok (wordof (fun k => Q_of rows (erase (fun r => D r k) d0)) j).
Proof using HD Hat Hj Hl.
  intros Hdata.
  erewrite for_down_pure with (step := fun i q => gfmul_q_64 q (wordof (erase_row D d0 i) j)).
  - f_equal. rewrite wordof_Q by (by apply erase_row_bytes). apply wordof_ext. intros k.
    apply Q_ext. intros. apply erase_row_column.
  - intros i q Hi. unfold erase_row. destruct (Nat.eqb_spec d0 i) as [->|Hne].
    + by rewrite decide_True by done.
    + rewrite decide_False by auto. erewrite row_load64; eauto.
Qed.

Lemma erased_PQ_down d0 d1 :
  (∀ i, i < rows → i ≠ d0 → i ≠ d1 → row_holds m data len i (D i)) →
  for_down rows (fun i '(temp_p, temp_q) =>
    temp_d ← (if (d0 =? i) || (d1 =? i) then Ok 0%Z else d ← aget data i; load64 m1 d j);
    Ok (Z.lxor temp_p temp_d, gfmul_q_64 temp_q temp_d)) (0%Z, 0%Z) =
  Ok (wordof (fun k => P_of rows (erase (erase (fun r => D r k) d0) d1)) j,
      wordof (fun k => Q_of rows (erase (erase (fun r => D r k) d0) d1)) j).
Proof using HD Hat Hj Hl.
  intros Hdata. set (E := erase_row (erase_row D d0) d1).
  assert (bytes E) as HE by (by do 2 apply erase_row_bytes).
  erewrite for_down_pure with (step := fun i s => step_pq s (wordof (E i) j)).
  - f_equal. transitivity (P_of rows (fun i => wordof (E i) j),
      foldr (fun i q => gfmul_q_64 q (wordof (E i) j)) 0%Z (seq 0 rows)).
    { unfold P_of. generalize (seq 0 rows) as s. induction s as [|i s IH]; [done|].
      cbn [foldr]. by rewrite IH. }
    unfold P_of at 1. rewrite wordof_P, wordof_Q by done.
    f_equal; apply wordof_ext; intros k; [apply P_ext|apply Q_ext]; intros i _;
      unfold E, erase_row, erase, upd; repeat case_decide; done.
  - intros i [p q] Hi. unfold E, erase_row.
    destruct (Nat.eqb_spec d0 i) as [->|Hn0]; destruct (Nat.eqb_spec d1 i) as [->|Hn1]; cbn [orb].
    1,3: by rewrite decide_True.
    + by rewrite decide_False, decide_True.
    + rewrite !decide_False by auto. erewrite row_load64; eauto.
Qed.
End decode.

Lemma ec_decode_data_p_64_ok : decode1_spec ec_decode_data_p_64 0.
Proof.
  intros m len rows d0 data new_data crc D n0 Hlen Hrows HD Hdata Hpar Hn0 Hv Hcrc.
  rewrite Nat.add_0_r in Hpar. unfold ec_decode_data_p_64.
  destruct (decode1_loop64 m len crc n0 (D d0) new_data (fun m j =>
    temp_p ← for_up rows (fun i temp_p =>
      if d0 =? i then Ok temp_p
      else d ← aget data i; v ← load64 m d j; Ok (Z.lxor temp_p v)) 0%Z;
    p ← aget data rows; v ← load64 m p j; Ok (Z.lxor temp_p v))) as (m' & crc' & Hrun & H); try done.
  { intros m1 j Hj Hat. erewrite erased_P_up; eauto using upd0_le. rstep.
    erewrite row_load64_k; eauto using upd0_le.
    rewrite wordof_lxor by (intros; apply P_byte || apply codeword_bytes; auto using erase_byte).
    f_equal. apply wordof_ext. intros k. rewrite codeword_P0.
    apply (repair_P rows (fun r => D r k) d0). lia. }
  exists m', crc'. split; [|done]. rewrite <-Hrun. destruct (load_crc crc 0); rstep; [|done].
  f_equal. apply for_up_ext. intros j [m1 c] Hj. res_eq.
Qed.

Lemma ec_decode_data_q_64_ok : decode1_spec ec_decode_data_q_64 1.
Proof.
  intros m len rows d0 data new_data crc D n0 Hlen Hrows HD Hdata Hpar Hn0 Hv Hcrc.
  unfold ec_decode_data_q_64.
  destruct (decode1_loop64 m len crc n0 (D d0) new_data (fun m j =>
    temp_q ← for_down rows (fun i temp_q =>
      temp_d ← (if d0 =? i then Ok 0%Z else d ← aget data i; load64 m d j);
      Ok (gfmul_q_64 temp_q temp_d)) 0%Z;
    q ← aget data (rows + 1); v ← load64 m q j;
    Ok (gfpowdiv_64 d0 (Z.lxor v temp_q)))) as (m' & crc' & Hrun & H); try done.
  { intros m1 j Hj Hat. erewrite erased_Q_down; eauto using upd0_le. rstep.
    erewrite row_load64_k; eauto using upd0_le.
    rewrite wordof_lxor by (intros; apply Q_byte || apply codeword_bytes; auto using erase_byte).
    f_equal. rewrite wordof_powdiv.
    - apply wordof_ext. intros k. rewrite codeword_Q.
      apply (repair_Q_div rows (fun r => D r k) d0); [intros; apply HD|lia].
    - intros k. apply byte_lxor; [by apply codeword_bytes|]. apply Q_byte. auto using erase_byte. }
  exists m', crc'. split; [|done]. rewrite <-Hrun. destruct (load_crc crc 0); rstep; [|done].
  f_equal. apply for_up_ext. intros j [m1 c] Hj. res_eq.
Qed.

(** ** Double repair *)
Section decode2.
Context (m : mem) (len rows d0 d1 : nat) (data new_data : list ptr) (crc : crcs).
Context (D : nat → nat → Z) (n0 n1 p1 : ptr) (HD : bytes D).
Context (H0 : d0 < rows) (H1 : d1 < rows) (Hne : d0 ≠ d1) (Hrows : rows ≤ GF_MAX_D).
Context (Hdata : ∀ i, i < rows → i ≠ d0 → i ≠ d1 → row_holds m data len i (D i)).
Context (HP : row_holds m data len rows (codeword rows D rows)).
Context (HQ : row_holds m data len (rows + 1) (codeword rows D (rows + 1))).
Context (Hd1 : data !! d1 = Some p1) (Hn0 : new_data !! 0 = Some n0) (Hv0 : valid m n0 len).
Context (Hn1 : p1 ≠ MINUS1 → new_data !! 1 = Some n1 ∧ valid m n1 len ∧ n1 ≠ n0).
Context (Hcrc : crc_ready crc 2).
Let b := negb (is_minus1 p1).
Let F (q : ptr) : nat → Z := if decide (q = n0) then D d0 else D d1.
Let factor := tbl gff_base (255 - tbl gflog_base (denominator d0 d1)).

(** The two solved words. *)
Lemma decode2_words j :
  let rp := wordof (fun k => residual2_P rows (fun r => D r k) d0 d1) j in
  let rq := wordof (fun k => residual2_Q rows (fun r => D r k) d0 d1) j in
  gf_mul_64 factor (Z.lxor (gfpowmul_64 d1 rp) rq) = wordof (D d0) j ∧
  Z.lxor (wordof (D d0) j) rp = wordof (D d1) j.
Proof using HD H0 H1 Hne Hrows.
  intros rp rq. subst rp rq. unfold GF_MAX_D in Hrows.
  assert (∀ k, byte_range (residual2_P rows (fun r => D r k) d0 d1)) as Bp.
  { intros k. apply residual2_P_byte; auto. }
  assert (∀ k, byte_range (residual2_Q rows (fun r => D r k) d0 d1)) as Bq.
  { intros k. rewrite residual2_Q_eq by auto. auto with cint. }
  assert (byte_range factor) as Bf.
  { pose proof (denominator_byte d0 d1 ltac:(lia) ltac:(lia)) as Hb.
    pose proof (denominator_nz rows d0 d1 H0 H1 Hne ltac:(lia)) as Hnz.
    pose proof (gflog_range _ Hb Hnz). unfold factor.
    pose proof (gff_byte (255 - tbl gflog_base (denominator d0 d1))). unfold byte_range. lia. }
  rewrite wordof_powmul, (wordof_lxor (fun k => Nat.iter d1 xtime _)), wordof_gf_mul
    by (intros; auto with cint).
  rewrite wordof_lxor by (intros; done || apply HD). split; apply wordof_ext; intros k.
  - rewrite Z.lxor_comm. apply (repair2_mul rows (fun r => D r k) d0 d1); auto. lia.
  - apply (repair2_other rows (fun r => D r k) d0 d1); auto.
Qed.

Context (Hlen : len mod 8 = 0).

Lemma decode_pq_64_step j m1 e0 e1 : 8 * S j ≤ len →
  mem_at m m1 (fill2 n0 n1 b (8 * j)) F →
  local_at crc 0 e0 (8 * j) (D d0) → (b = true → local_at crc 1 e1 (8 * j) (D d1)) →
  ∃ m2 e0' e1',
    decode_pq_64_word rows d0 d1 data new_data crc factor j (m1, e0, e1) = Ok (m2, e0', e1') ∧
    mem_at m m2 (fill2 n0 n1 b (8 * S j)) F ∧
    local_at crc 0 e0' (8 * S j) (D d0) ∧ (b = true → local_at crc 1 e1' (8 * S j) (D d1)).
Proof using All.
  intros Hj Hat He0 He1. unfold decode_pq_64_word.
  erewrite erased_PQ_down; eauto using fill2_le. rstep.
  erewrite row_load64_k; [|exact Hat|exact HP|intros; apply fill2_le|done].
  erewrite row_load64_k; [|exact Hat|exact HQ|intros; apply fill2_le|done].
  assert (∀ k, codeword rows D rows k = P_of rows (fun r => D r k)) as EP by apply codeword_P0.
  assert (∀ k, codeword rows D (rows + 1) k = Q_of rows (fun r => D r k)) as EQ by apply codeword_Q.
  rewrite (wordof_ext _ _ j EP), (wordof_ext _ _ j EQ).
  rewrite !wordof_lxor by (intros; apply P_byte || apply Q_byte; intros; repeat apply erase_byte; intros; apply HD).
  destruct (decode2_words j) as [Hw Hother]. unfold residual2_P, residual2_Q in Hw, Hother.
  rewrite Hw. unfold aget. rewrite Hn0, Hd1. rstep.
  assert (b = true → valid m n1 len ∧ n1 ≠ n0) as Hb1.
  { intros Hb. apply Hn1, is_minus1_spec. unfold b in Hb. by apply negb_true_iff in Hb. }
  destruct (fill2_step64 m m1 n0 n1 b len F j Hv0 Hb1) as (m2 & Hs & Hm2); [|done|done|].
  { intros i. unfold F. repeat case_decide; apply HD. }
  unfold F in Hs at 1. rewrite decide_True in Hs by done. rewrite Hs. rstep. unfold b in *.
  destruct (is_minus1 p1) eqn:E1; simpl in Hm2, Hb1.
  - do 3 eexists. split_and!; [done|done| |done]. by eapply step_crc_at; eauto.
  - destruct (Hn1 (proj1 (is_minus1_spec p1) E1)) as (-> & _ & Hnn). rstep.
    rewrite Hother. unfold F in Hm2 at 1. rewrite decide_False in Hm2 by done.
    destruct Hm2 as (m3 & -> & Hat3). rstep.
    do 3 eexists. split_and!; [done|done| |]; [|intros _]; by eapply step_crc_at; eauto.
Qed.

Lemma ec_decode_data_pq_64_run :
  ∃ m' crc', ec_decode_data_pq_64 len rows d0 d1 data new_data crc m = Ok (m', crc') ∧
    mem_at m m' (fill2 n0 n1 b len) F ∧
    crc_at crc crc' (fun i => if decide (i = 0 ∨ (i = 1 ∧ b = true)) then len else 0)
      (fun i => if decide (i = 0) then D d0 else D d1).
Proof using All.
  unfold ec_decode_data_pq_64.
  destruct (load_crc_at crc 2 0 (D d0) Hcrc ltac:(lia)) as (e0 & -> & He0). rstep.
  destruct (load_crc_at crc 2 1 (D d1) Hcrc ltac:(lia)) as (e1 & -> & He1). rstep.
  destruct (for_up_inv (decode_pq_64_word rows d0 d1 data new_data crc factor) (fun j s =>
    mem_at m s.1.1 (fill2 n0 n1 b (8 * j)) F ∧ local_at crc 0 s.1.2 (8 * j) (D d0) ∧
    (b = true → local_at crc 1 s.2 (8 * j) (D d1))) (len / 8) (m, e0, e1))
    as ([[m1 g0] g1] & Hrun & Hat & Hg0 & Hg1).
  - split_and!; [apply fill2_start|done|done].
  - intros j [[m1 g0] g1] Hj (Hat & Hg0 & Hg1). cbn [fst snd] in *.
    destruct (decode_pq_64_step j m1 g0 g1) as (m2 & g0' & g1' & -> & ?); eauto using words.
  - cbn [fst snd] in *. rewrite words_all in Hat, Hg0, Hg1 by done.
    unfold factor, denominator in Hrun. rewrite Hrun. rstep.
    set (f := fun i => if decide (i = 0) then D d0 else D d1).
    destruct (store_crc_at crc crc _ f 0 g0 len (crc_at_refl _ _)) as (c2 & -> & Hc2); [done..|].
    rstep. unfold aget. rewrite Hd1. rstep. destruct (is_minus1 p1) eqn:E1.
    + rstep. do 2 eexists. split_and!; [done|done|]. eapply crc_at_ext; [| |exact Hc2]; [|done].
      intros i. unfold upd, b. repeat case_decide; naive_solver.
    + destruct (store_crc_at crc c2 _ f 1 g1 len Hc2) as (c3 & -> & Hc3); [by rewrite upd_ne|by apply Hg1|].
      rstep. do 2 eexists. split_and!; [done|done|]. eapply crc_at_ext; [| |exact Hc3]; [|done].
      intros i. unfold upd, b. repeat case_decide; naive_solver.
Qed.
End decode2.

Lemma ec_decode_data_pq_64_ok : decode2_spec ec_decode_data_pq_64.
Proof.
  intros m len rows d0 d1 data new_data crc D n0 n1 p0 p1 Hlen H0 H1 Hne Hrows HD Hdata HP HQ
    Hd0 Hp0 Hd1 Hn0 Hv0 Hn1 Hcrc.
  destruct (ec_decode_data_pq_64_run m len rows d0 d1 data new_data crc D n0 n1 p1)
    as (m' & crc' & -> & Hat & Hc); try done.
  assert (negb (is_minus1 p1) = true ↔ p1 ≠ MINUS1) as Hb by (by rewrite negb_true_iff, is_minus1_spec).
  exists m', crc'. split; [done|]. apply fill2_mem in Hat as (Hh0 & Hh1 & Ht). split_and!.
  - by rewrite decide_True in Hh0.
  - intros Hp1. destruct (Hn1 Hp1) as (_ & _ & Hnn). rewrite decide_False in Hh1 by done. by apply Hh1, Hb.
  - eapply touched_mono; [|exact Ht]. intros q [?|[?%Hb ?]]; auto.
  - eapply crc_at_ext; [| |exact Hc]; [|done]. intros i. repeat case_decide; tauto.
Qed.

(** ** Update *)
Section update.
Context (m m1 : mem) (len k v : nat) (data coding : list ptr) (crc : crcs) (copy cp : ptr).
Context (old new P Q : nat → Z) (d0 d1 d2 d3 c0 c1 : ptr).
Context (Hpre : update_pre m len k v data coding crc copy old new P Q d0 d1 d2 d3 c0 c1).
Context (Hur : update_ready m m1 len k v copy cp old new P Q d0 d1 d2 d3 c0 c1).
Let F := update_F v old new P Q c0.
Let b := k =? 2.
Let f := update_streams v old new P Q.

Lemma update_words j :
  Z.lxor (wordof P j) (Z.lxor (wordof old j) (wordof new j)) = wordof (update_P P old new) j ∧
  Z.lxor (gfpowmul_64 v (Z.lxor (wordof old j) (wordof new j))) (wordof Q j) =
    wordof (update_Q v Q old new) j.
Proof using Hpre.
  destruct Hpre as [_ _ _ Hby _ _ _ _ _ _ _ _].
  assert (∀ j, byte_range (old j)) as Ho by apply Hby. assert (∀ j, byte_range (new j)) as Hn by apply Hby.
  assert (∀ j, byte_range (P j)) as HP by apply Hby. assert (∀ j, byte_range (Q j)) as HQ by apply Hby.
  rewrite !wordof_lxor by auto with cint. rewrite wordof_powmul by auto with cint.
  rewrite !wordof_lxor by auto with cint. split; [done|]. apply wordof_ext. intros i.
  unfold update_Q. by rewrite Z.lxor_comm.
Qed.

Lemma update_64_step j m2 e0 e1 e2 : 8 * S j ≤ len → mem_at m1 m2 (fill2 c0 c1 b (8 * j)) F →
  local_at crc 0 e0 (8 * j) (f 0) → local_at crc 1 e1 (8 * j) (f 1) →
  (b = true → local_at crc 2 e2 (8 * j) (f 2)) →
  ∃ m3 e0' e1' e2',
    update_64_word k v data coding crc cp j (m2, e0, e1, e2) = Ok (m3, e0', e1', e2') ∧
    mem_at m1 m3 (fill2 c0 c1 b (8 * S j)) F ∧
    local_at crc 0 e0' (8 * S j) (f 0) ∧ local_at crc 1 e1' (8 * S j) (f 1) ∧
    (b = true → local_at crc 2 e2' (8 * S j) (f 2)).
Proof using Hpre Hur.
  intros Hj Hat He0 He1 He2. destruct (update_words j) as [EP EQ].
  destruct Hpre as [_ Hk Hv Hby [Ed0 _] _ [Ed2 _] H3 (Ec0 & _) Hc1 _ Hcrc].
  destruct Hur as [_ (Hcp & _) Hd0 _ Hd2 Hd3 Hvc0 Hvc1].
  pose proof (update_streams_bytes v old new P Q Hby) as Hf.
  unfold update_64_word, aget. rewrite Ed0, Ed2, Ec0. rstep.
  rewrite (load64_at _ _ _ _ Hat d0 len old j) by (done || apply fill2_le). rstep.
  rewrite (load64_at _ _ _ _ Hat cp len new j) by (done || apply fill2_le). rstep.
  rewrite (load64_at _ _ _ _ Hat d2 len P j) by (done || apply fill2_le). rstep. rewrite EP.
  destruct (store64_at _ _ _ _ c0 len j Hat Hvc0 Hj) as (m3 & Hm3 & Hat3).
  { unfold fill2. rewrite decide_True; auto. } { intros i. unfold F. rewrite update_F_0. apply (Hf 1). }
  unfold F in Hm3. rewrite update_F_0 in Hm3. rewrite Hm3. rstep.
  pose proof (step_crc_at crc _ 0 (f 0) e0 j Hcrc (Hf 0) He0) as He0'.
  pose proof (step_crc_at crc _ 1 (f 1) e1 j Hcrc (Hf 1) He1) as He1'.
  destruct Hk as [Hk|Hk]; subst b; rewrite Hk in *; cbn [Nat.eqb Nat.ltb Nat.leb] in *.
  - do 4 eexists. split_and!; [done| |done|done|done].
    eapply mem_at_ext; [|done|exact Hat3]. intros q. unfold upd, fill2. repeat case_decide; naive_solver.
  - destruct (H3 eq_refl) as [Ed3 _]. destruct (Hc1 eq_refl) as (Ec1 & _ & _ & _ & _ & Hc10 & _ & Hc03).
    rewrite Ed3, Ec1. rstep.
    assert (upd (fill2 c0 c1 true (8 * j)) c0 (8 * S j) d3 ≤ 8 * j).
    { rewrite upd_ne by done. apply fill2_le. }
    rewrite (load64_at _ _ _ _ Hat3 d3 len Q j) by auto. rstep. rewrite EQ.
    destruct (store64_at _ _ _ _ c1 len j Hat3 (Hvc1 eq_refl) Hj) as (m4 & Hm4 & Hat4).
    { rewrite upd_ne by done. unfold fill2. rewrite decide_True; auto. }
    { intros i. unfold F. rewrite update_F_1 by done. apply (Hf 2). }
    unfold F in Hm4. rewrite update_F_1 in Hm4 by done. rewrite Hm4. rstep.
    pose proof (step_crc_at crc _ 2 (f 2) e2 j Hcrc (Hf 2) (He2 eq_refl)) as He2'.
    do 4 eexists. split_and!; [done| |done|done|done].
    eapply mem_at_ext; [|done|exact Hat4]. intros q. unfold upd, fill2. repeat case_decide; naive_solver.
Qed.
End update.

Lemma ec_encode_data_update_64_ok : update_spec ec_encode_data_update_64.
Proof.
  intros m len k v data coding crc copy old new P Q d0 d1 d2 d3 c0 c1 Hpre.
  destruct (update_prologue _ _ _ _ _ _ _ _ _ _ _ _ _ _ _ _ _ _ Hpre) as (m1 & cp & Hpro & Hur).
  pose proof Hpre as [Hlen Hk _ _ _ [Ed1 _] _ _ _ _ _ Hcrc]. set (f := update_streams v old new P Q).
  unfold ec_encode_data_update_64. rewrite (proj2 (aget_ok _ _ _) Ed1). rstep. rewrite Hpro. rstep.
  destruct (load_crc_at crc _ 0 (f 0) Hcrc ltac:(lia)) as (e0 & -> & He0). rstep.
  destruct (load_crc_at crc _ 1 (f 1) Hcrc ltac:(lia)) as (e1 & -> & He1). rstep.
  assert ((1 <? k) = (k =? 2)) as Ek by (destruct Hk as [-> | ->]; done). rewrite Ek.
  assert (∃ e2, (if k =? 2 then load_crc crc 2 else Ok 0%Z) = Ok e2 ∧
    ((k =? 2) = true → local_at crc 2 e2 0 (f 2))) as (e2 & -> & He2).
  { destruct (Nat.eqb_spec k 2) as [->|]; [|by exists 0%Z].
    destruct (load_crc_at crc _ 2 (f 2) Hcrc ltac:(lia)) as (e2 & ? & ?). eauto. }
  rstep. destruct (for_up_inv (update_64_word k v data coding crc cp) (fun j s =>
    mem_at m1 s.1.1.1 (fill2 c0 c1 (k =? 2) (8 * j)) (update_F v old new P Q c0) ∧
    local_at crc 0 s.1.1.2 (8 * j) (f 0) ∧ local_at crc 1 s.1.2 (8 * j) (f 1) ∧
    ((k =? 2) = true → local_at crc 2 s.2 (8 * j) (f 2))) (len / 8) (m1, e0, e1, e2))
    as ([[[m2 g0] g1] g2] & -> & Hat & Hg0 & Hg1 & Hg2).
  { split_and!; [apply fill2_start|done..]. }
  { intros j [[[m2 g0] g1] g2] Hj (Hat & Hg0 & Hg1 & Hg2). cbn [fst snd] in *.
    destruct (update_64_step _ _ _ _ _ _ _ _ _ _ _ _ _ _ _ _ _ _ _ _ Hpre Hur j m2 g0 g1 g2
      (words len j Hlen Hj) Hat Hg0 Hg1 Hg2) as (m3 & h0 & h1 & h2 & -> & ?); eauto. }
  cbn [fst snd] in *. rewrite words_all in Hat, Hg0, Hg1, Hg2 by done. rstep.
  pose proof (update_finish _ _ _ _ _ _ _ _ _ _ _ _ _ _ _ _ _ _ _ _ _ Hpre Hur Hat)
    as (Ht & Hcp & Hh0 & Hh1 & _).
  destruct (store_crc_at crc crc _ f 0 g0 len (crc_at_refl _ _)) as (cr1 & -> & Hc1); [done..|]. rstep.
  destruct (store_crc_at crc cr1 _ f 1 g1 len Hc1) as (cr2 & -> & Hc2); [by rewrite upd_ne|done|]. rstep.
  destruct Hk as [Hk|Hk]; rewrite Hk in *; cbn [Nat.eqb] in *.
  - rstep. do 2 eexists. split_and!; try done. eapply crc_at_ext; [| |exact Hc2]; [|done].
    intros i. unfold upd. repeat case_decide; lia.
  - destruct (store_crc_at crc cr2 _ f 2 g2 len Hc2) as (cr3 & -> & Hc3); [by rewrite !upd_ne by done|auto|].
    rstep. do 2 eexists. split_and!; try done. eapply crc_at_ext; [| |exact Hc3]; [|done].
    intros i. unfold upd. repeat case_decide; lia.
Qed.
