(* ===== verification/GfTable.v ===== *)
(** * The table of kernels and the entry points of the erasure code

    Models [gf_functions_t], the tables [gf_functions_unoptimized] and
    [gf_functions_u64], [__gf_choose_functions], the dispatchers
    [ec_encode_data_1] and [ec_decode_data_1] and the entry points
    [ec_encode_data], [ec_encode_data_update], [ec_decode_data] and [ec_crc] of
    [nvmeibc_block_dp_ec_gf.c].  Tables that are written in assembly or come
    from the kernel's RAID library are parameters of the platform. *)
From Stdlib Require Import ZArith Lia.
From stdpp Require Import base list gmap numbers.
From S2P Require Import Prelude CMemory GaloisField Crc32c ErasureCode KernelLemmas KernelBytes KernelWords.
Local Open Scope nat_scope.

(** ** [enum nvmeibc_gf_optimization_type], [enum gf_return_val] *)
Inductive gf_optimization_type : Set :=
| NVMEIBC_GF_DISPLAY_CURRENT
| NVMEIBC_GF_AUTO_INIT
| NVMEIBC_GF_UNOPTIMIZED
| NVMEIBC_GF_64_BIT
| NVMEIBC_GF_SSE2
| NVMEIBC_GF_AVX2
| NVMEIBC_GF_EC_CALC
| NVMEIBC_GF_ARM_INTRINSICS.

#[export] Instance gf_optimization_type_eq_dec : EqDecision gf_optimization_type.
Proof. solve_decision. Defined.

Inductive gf_return_val : Set := GF_ERROR | GF_SUCCESS | GF_DEFERRED.

(** The [ec_encode] and [ec_decode] fields hold the lazy initialiser, the
    dispatcher of this file, or a function from elsewhere. *)
Inductive entry (F : Type) : Type :=
| ENTRY_INIT
| ENTRY_1
| ENTRY_FN (f : F).
Arguments ENTRY_INIT {F}.
Arguments ENTRY_1 {F}.
Arguments ENTRY_FN {F} _.

(** [ec_decode_data] may change the pointer arrays it is given. *)
Definition decode_result : Type := mem * crcs * list ptr * list ptr.
Definition decode_all_fn : Type :=
  nat → nat → nat → list ptr → list ptr → crcs → mem → res decode_result.

Record gf_functions : Type := GfFunctions {
  gf_id : gf_optimization_type;
  ec_encode : entry (nat → encode_fn);
  ec_encode_p : option encode_fn;
  ec_encode_q : option encode_fn;
  ec_encode_pq : option encode_fn;
  ec_update : entry update_fn;
  ec_decode : entry decode_all_fn;
  ec_decode_p : option decode1_fn;
  ec_decode_q : option decode1_fn;
  ec_decode_pq : option decode2_fn;
  ec_crc_fn : option (mem → Z → ptr → nat → res Z)
}.

(** The contents of [gf_funcs] before the first choice. *)
Definition gf_funcs_initial : gf_functions :=
  GfFunctions NVMEIBC_GF_AUTO_INIT ENTRY_INIT None None None ENTRY_INIT ENTRY_INIT None None None None.

Definition gf_functions_unoptimized : gf_functions :=
  GfFunctions NVMEIBC_GF_UNOPTIMIZED ENTRY_1 (Some ec_encode_data_p_8) (Some ec_encode_data_q_8)
    (Some (ec_encode_data_pq_8 ec_encode_data_p_8 ec_encode_data_q_8))
    (ENTRY_FN ec_encode_data_update_8) ENTRY_1
    (Some ec_decode_data_p_8) (Some ec_decode_data_q_8) (Some ec_decode_data_pq_8)
    (Some calculate_crc32c).

(** [crc32_insn] is the processor's CRC32 instruction on one word. *)
Definition gf_functions_u64 (crc32_insn : Z → Z → Z) : gf_functions :=
  GfFunctions NVMEIBC_GF_64_BIT ENTRY_1 (Some ec_encode_data_p_64) (Some ec_encode_data_q_64)
    (Some ec_encode_data_pq_64) (ENTRY_FN ec_encode_data_update_64) ENTRY_1
    (Some ec_decode_data_p_64) (Some ec_decode_data_q_64) (Some ec_decode_data_pq_64)
    (Some (calculate_crc32c_avx crc32_insn)).

(** Calling through a function pointer of the table. *)
Definition fptr {F} (f : option F) : res F :=
  match f with Some g => Ok g | None => Fault NULL_DEREF end.

(** ** Dispatch of encoding *)
Definition ec_encode_data_1 (gf_funcs : gf_functions) (len k rows : nat) (data coding : list ptr)
    (crc : crcs) (data_copy : option (list ptr)) (m : mem) : res (mem * crcs) :=
  c0 ← aget coding 0;
  c1 ← (if k =? 2 then aget coding 1 else Ok NULL);
  if ((k =? 1) && is_null c0) || ((k =? 2) && is_null c0 && is_null c1) then Ok (m, crc)
  else if (k =? 1) || ((k =? 2) && is_null c1) then
    f ← fptr (ec_encode_p gf_funcs); f len rows data coding crc data_copy m
  else if negb (is_null c0) then
    f ← fptr (ec_encode_pq gf_funcs); f len rows data coding crc data_copy m
  else
    f ← fptr (ec_encode_q gf_funcs); f len rows data coding crc data_copy m.

(** ** Dispatch of decoding

    [d] is the uninitialised local [int d[2]]; [d_notme] is [None] for -1. *)
Definition scan_row (k : nat) (data : list ptr) (i : nat) (st : list nat * nat * option nat)
    : res (list nat * nat * option nat) :=
  let '(d, d_index, d_notme) := st in
  di ← aget data i;
  '(d, d_index) ← (if is_null di || is_minus1 di then
      if k <? d_index then Fault BUG
      else d' ← aset d d_index i; Ok (d', S d_index)
    else Ok (d, d_index));
  d_notme ← (if is_minus1 di then
      match d_notme with None => Ok (Some i) | Some _ => Fault BUG end
    else Ok d_notme);
  Ok (d, d_index, d_notme).
Definition decode_scan (k rows : nat) (data : list ptr) (d : list nat)
    : res (list nat * nat * option nat) := for_up rows (scan_row k data) (d, 0, None).

Definition parity_scan (k rows d_index : nat) (data : list ptr) : res (list ptr * nat) :=
  for_up k (fun i '(data, p_index) =>
    p ← aget data (rows + i);
    data ← (if is_minus1 p then aset data (rows + i) NULL else Ok data);
    p ← aget data (rows + i);
    if is_null p then
      if k <? d_index + p_index then Fault BUG else Ok (data, S p_index)
    else Ok (data, p_index)) (data, 0).

Definition ec_decode_data_1 (gf_funcs : gf_functions) (d_init : list nat) (len k rows : nat)
    (data new_data : list ptr) (crc : crcs) (m : mem) : res decode_result :=
  if 2 <? k then Fault BUG else
  '(d, d_index, d_notme) ← decode_scan k rows data d_init;
  if d_index =? 0 then Fault BUG else
  n0 ← aget new_data 0;
  if is_null n0 then Fault BUG else
  '(data, p_index) ← parity_scan k rows d_index data;
  P ← (if k =? 0 then Ok NULL else aget data rows);
  d0 ← aget d 0;
  if (d_index =? 1) && (d_index + p_index <=? k) && negb (is_null P) then
    f ← fptr (ec_decode_p gf_funcs);
    '(m, crc) ← f len rows d0 data new_data crc m; Ok (m, crc, data, new_data)
  else if k <? 2 then Fault BUG
  else if (d_index =? 1) && (p_index =? 1) && is_null P then
    f ← fptr (ec_decode_q gf_funcs);
    '(m, crc) ← f len rows d0 data new_data crc m; Ok (m, crc, data, new_data)
  else if (d_index =? 2) && (p_index =? 0) then
    d1 ← aget d 1;
    let '(d0, d1) := if bool_decide (Some d0 = d_notme) then (d1, d0) else (d0, d1) in
    new_data ← (if bool_decide (Some d1 = d_notme) then aset new_data 1 NULL else Ok new_data);
    f ← fptr (ec_decode_pq gf_funcs);
    '(m, crc) ← f len rows d0 d1 data new_data crc m; Ok (m, crc, data, new_data)
  else Fault BUG.

(** ** Contracts of a table *)
Definition crc_fn_spec (f : mem → Z → ptr → nat → res Z) : Prop :=
  ∀ m crc p n g, n mod 8 = 0 → holds m p n g → (∀ j, byte_range (g j)) → crc_range crc →
    f m crc p n = Ok (crc_spec crc (g <$> seq 0 n)).

(** What the dispatchers need of a table. *)
Class GfKernels (t : gf_functions) : Prop := {
  gk_p : ∃ f, ec_encode_p t = Some f ∧ encode_spec f [0];
  gk_q : ∃ f, ec_encode_q t = Some f ∧ encode_spec f [1];
  gk_pq : ∃ f, ec_encode_pq t = Some f ∧ encode_spec f [0; 1];
  gk_update : ∃ f, ec_update t = ENTRY_FN f ∧ update_spec f;
  gk_dp : ∃ f, ec_decode_p t = Some f ∧ decode1_spec f 0;
  gk_dq : ∃ f, ec_decode_q t = Some f ∧ decode1_spec f 1;
  gk_dpq : ∃ f, ec_decode_pq t = Some f ∧ decode2_spec f;
  gk_crc : ∃ f, ec_crc_fn t = Some f ∧ crc_fn_spec f
}.

Definition insn_ok (crc32_insn : Z → Z → Z) : Prop := ∀ c w, crc_range c → (0 ≤ w < 2 ^ 64)%Z →
  crc32_insn c w = crc_spec c (le_bytes 8 w).

#[export] Instance unoptimized_kernels : GfKernels gf_functions_unoptimized.
Proof.
  split; eexists; (split; [reflexivity|]).
  - by eapply encode_from_core; [|apply encode_p_8_rows_ok].
  - by eapply encode_from_core; [|apply encode_q_8_rows_ok].
  - eapply encode_from_core; [done|]. apply encode_pq_8_rows_ok.
    + by eapply encode_from_core; [|apply encode_p_8_rows_ok].
    + by eapply encode_from_core; [|apply encode_q_8_rows_ok].
  - apply ec_encode_data_update_8_ok.
  - apply ec_decode_data_p_8_ok.
  - apply ec_decode_data_q_8_ok.
  - apply ec_decode_data_pq_8_ok.
  - intros m crc p n g Hn Hh Hg Hc. apply calculate_crc32c_spec; auto.
Qed.

Lemma u64_kernels insn : insn_ok insn → GfKernels (gf_functions_u64 insn).
Proof.
  intros Hinsn. split; eexists; (split; [reflexivity|]).
  - by eapply encode_from_core; [|apply encode_p_64_rows_ok].
  - by eapply encode_from_core; [|apply encode_q_64_rows_ok].
  - by eapply encode_from_core; [|apply encode_pq_64_rows_ok].
  - apply ec_encode_data_update_64_ok.
  - apply ec_decode_data_p_64_ok.
  - apply ec_decode_data_q_64_ok.
  - apply ec_decode_data_pq_64_ok.
  - intros m crc p n g Hn Hh Hg Hc. apply calculate_crc32c_avx_spec; auto.
Qed.

(** The parities an encode call is asked for: the entries of [coding] that are
    not [NULL]. *)
Definition wanted_parities (k : nat) (coding : list ptr) : list nat :=
  filter (fun i => coding !! i ≠ Some NULL) (seq 0 k).

Definition encode_all_spec (f : nat → encode_fn) : Prop :=
  ∀ m len k rows data coding crc dc D outs,
    k = 1 ∨ k = 2 →
    encode_pre m len rows data dc outs D →
    let ks := wanted_parities k coding in
    ks ≠ [] → length coding ≥ k →
    Forall2 (fun i o => coding !! i = Some o) ks outs → NoDup outs →
    (∀ i, i ∈ ks → crc_ready crc (rows + i + 1)) →
    ∃ m' crc', f k len rows data coding crc dc m = Ok (m', crc') ∧
      touched m m' len (encode_writes rows dc outs) ∧
      (∀ i, i < rows → ∃ p, sel data dc i = Some p ∧ holds m' p len (D i)) ∧
      Forall2 (fun i o => holds m' o len (codeword rows D (rows + i))) ks outs ∧
      crc_at crc crc' (fun i => if decide (i < rows ∨ i - rows ∈ ks) then len else 0)
             (codeword rows D).

Lemma encode_1_ok t : GfKernels t →
  encode_all_spec (fun k len rows data coding crc dc m => ec_encode_data_1 t len k rows data coding crc dc m).
Proof.
  intros [(fp & Ep & Hp) (fq & Eq & Hq) (fpq & Epq & Hpq) _ _ _ _ _].
  intros m len k rows data coding crc dc D outs Hk Hpre ks Hne Hlen Houts Hnd Hcrc.
  unfold ec_encode_data_1. rewrite Ep, Eq, Epq. unfold fptr. rstep.
  destruct (lookup_lt_is_Some_2 coding 0) as [c0 Hc0]; [destruct Hk; lia|].
  assert (k = 2 → ∃ c1, coding !! 1 = Some c1) as Hc1.
  { intros ->. apply lookup_lt_is_Some_2. lia. }
  subst ks. unfold wanted_parities in *. unfold aget. rewrite Hc0. rstep.
  unfold is_null. destruct Hk as [-> | ->]; cbn [Nat.eqb andb orb seq] in *; rstep.
  - rewrite !filter_cons, !filter_nil in *. rewrite Hc0 in *. repeat case_decide; simplify_eq.
    rewrite bool_decide_false by congruence. cbn [orb]. by apply Hp.
  - destruct (Hc1 eq_refl) as [c1 Hc1']. rewrite Hc1'. rstep.
    rewrite !filter_cons, !filter_nil in *. rewrite Hc0, Hc1' in *.
    repeat case_decide; simplify_eq; repeat case_bool_decide; simplify_eq; cbn [andb orb negb];
      try done; solve [by apply Hpq | by apply Hp | by apply Hq].
Qed.

(** ** The contract of decoding *)
Definition lost (data : list ptr) (i : nat) : Prop :=
  data !! i = Some NULL ∨ data !! i = Some MINUS1.
#[export] Instance lost_dec data i : Decision (lost data i).
Proof. unfold lost. apply _. Defined.

Definition lost_rows (data : list ptr) (rows : nat) : list nat := filter (lost data) (seq 0 rows).
(** The rows the caller wants rebuilt; a row marked -1 is missing but not wanted. *)
Definition wanted_rows (data : list ptr) (rows : nat) : list nat :=
  filter (fun i => data !! i = Some NULL) (seq 0 rows).
Definition lost_parities (data : list ptr) (rows k : nat) : list nat :=
  filter (fun i => lost data (rows + i)) (seq 0 k).

Record decode_pre (m : mem) (len k rows : nat) (data new_data : list ptr) (crc : crcs)
    (D : nat → nat → Z) : Prop := {
  de_len : len mod 8 = 0;
  de_k : k ≤ 2;
  de_rows : rows ≤ GF_MAX_D;
  de_bytes : bytes D;
  de_size : rows + k ≤ length data;
  de_data : ∀ i, i < rows → ¬ lost data i → row_holds m data len i (D i);
  de_parity : ∀ i, i < k → ¬ lost data (rows + i) →
    row_holds m data len (rows + i) (codeword rows D (rows + i));
  de_repairable : length (lost_rows data rows) + length (lost_parities data rows k) ≤ k;
  de_wanted : wanted_rows data rows ≠ [];
  de_new : ∀ n, n < length (wanted_rows data rows) →
    ∃ o, new_data !! n = Some o ∧ o ≠ NULL ∧ valid m o len;
  de_new_size : length (lost_rows data rows) ≤ length new_data;
  de_new_inj : ∀ n n' o, n < length (wanted_rows data rows) → n' < length (wanted_rows data rows) →
    new_data !! n = Some o → new_data !! n' = Some o → n = n';
  de_crc : crc_ready crc (length (lost_rows data rows))
}.

Definition decode_all_spec (f : decode_all_fn) : Prop :=
  ∀ m len k rows data new_data crc D,
    decode_pre m len k rows data new_data crc D →
    let want := wanted_rows data rows in
    ∃ m' crc' data' new_data',
      f len k rows data new_data crc m = Ok (m', crc', data', new_data') ∧
      (∀ n i o, want !! n = Some i → new_data !! n = Some o → holds m' o len (D i)) ∧
      touched m m' len (fun q => ∃ n, n < length want ∧ new_data !! n = Some q) ∧
      crc_at crc crc' (fun n => if decide (n < length want) then len else 0)
        (fun n => D (want !!! n)).

Lemma lost_spec data i p : data !! i = Some p → lost data i ↔ (is_null p || is_minus1 p) = true.
Proof.
  intros Hp. unfold lost. rewrite Hp, orb_true_iff. unfold is_null, is_minus1.
  rewrite !bool_decide_eq_true. naive_solver.
Qed.

Lemma lost_rows_S data n : lost_rows data (S n) =
  lost_rows data n ++ (if decide (lost data n) then [n] else []).
Proof. unfold lost_rows. rewrite seq_S, list.filter_app. cbn [Nat.add]. by rewrite filter_cons, filter_nil. Qed.

Lemma lost_rows_le data n n' : n ≤ n' → length (lost_rows data n) ≤ length (lost_rows data n').
Proof. induction 1; [done|]. rewrite lost_rows_S, length_app. lia. Qed.

(** The scan collects the missing rows in order and the unwanted one, if any. *)
Lemma decode_scan_ok k rows data d : length d = 2 → rows ≤ length data →
  length (lost_rows data rows) ≤ k → k ≤ 2 →
  (∀ x y, x < rows → y < rows → data !! x = Some MINUS1 → data !! y = Some MINUS1 → x = y) →
  ∃ d' nm, decode_scan k rows data d = Ok (d', length (lost_rows data rows), nm) ∧
    length d' = 2 ∧ (∀ n x, lost_rows data rows !! n = Some x → d' !! n = Some x) ∧
    (∀ x, nm = Some x ↔ x < rows ∧ data !! x = Some MINUS1).
Proof.
  intros Hd Hlen Hmiss Hk Huniq. unfold decode_scan, scan_row.
  match goal with |- context [for_up _ ?body _] =>
    destruct (for_up_inv body (fun n s => length s.1.1 = 2 ∧ s.1.2 = length (lost_rows data n) ∧
      (∀ i x, lost_rows data n !! i = Some x → s.1.1 !! i = Some x) ∧
      (∀ x, s.2 = Some x ↔ x < n ∧ data !! x = Some MINUS1)) rows (d, 0, None))
      as ([[d' di] nm] & -> & Hd' & Hdi & Hin & Hnm) end.
  - split_and!; [done|done|by intros ? ?|]. intros x. split; [done|lia].
  - intros n [[d' di] nm] Hn (Hd' & Hdi & Hin & Hnm). cbn [fst snd] in *. subst di.
    destruct (lookup_lt_is_Some_2 data n) as [p Hp]; [lia|]. unfold aget. rewrite Hp. rstep.
    pose proof (lost_spec data n p Hp) as Hlost. rewrite lost_rows_S.
    assert (∃ nm', (if is_minus1 p then match nm with None => Ok (Some n) | Some _ => Fault BUG end
              else Ok nm) = Ok nm' ∧ ∀ x, nm' = Some x ↔ x < S n ∧ data !! x = Some MINUS1)
      as (nm' & Hrun & Hnm').
    { unfold is_minus1. case_bool_decide as Hm1.
      - destruct nm as [y|].
        + destruct (proj1 (Hnm y) eq_refl) as [? ?]. specialize (Huniq y n). naive_solver lia.
        + exists (Some n). split; [done|]. intros x. split; [naive_solver|].
          intros [Hx Hxm]. f_equal. symmetry. apply Huniq; [lia|done|done|congruence].
      - exists nm. split; [done|]. intros x. rewrite Hnm. split; intros [? ?]; (split; [lia|done]) || idtac.
        split; [|done]. assert (x ≠ n) by (intros ->; congruence). lia. }
    destruct (is_null p || is_minus1 p) eqn:Eb.
    + rewrite decide_True by (by apply Hlost).
      assert (length (lost_rows data n) < 2 ∧ length (lost_rows data n) < k) as [? ?].
      { pose proof (lost_rows_le data (S n) rows Hn) as H. rewrite lost_rows_S, decide_True, length_app in H
          by (by apply Hlost). simpl in H. lia. }
      rewrite (proj2 (Nat.ltb_ge _ _)) by lia. rewrite aset_ok by lia. rstep. rewrite Hrun. rstep.
      eexists. split; [done|]. cbn [fst snd]. rewrite length_app, length_insert. cbn [length].
      split_and!; [done|lia| |done]. intros i x [Hi|[Hi Hx]]%lookup_app_Some.
      * rewrite list_lookup_insert_ne; [auto|]. apply lookup_lt_Some in Hi. lia.
      * apply list_lookup_singleton_Some in Hx as [Hx <-].
        replace i with (length (lost_rows data n)) by lia. apply list_lookup_insert_eq. lia.
    + rewrite decide_False by (rewrite Hlost; done). rewrite app_nil_r. rstep. rewrite Hrun. rstep.
      eexists. split; [done|]. done.
  - cbn [fst snd] in *. subst. eauto 10.
Qed.

Lemma lost_parities_S data rows n : lost_parities data rows (S n) =
  lost_parities data rows n ++ (if decide (lost data (rows + n)) then [n] else []).
Proof.
  unfold lost_parities. rewrite seq_S, list.filter_app. cbn [Nat.add].
  by rewrite filter_cons, filter_nil.
Qed.

Lemma lost_parities_le data rows n n' : n ≤ n' →
  length (lost_parities data rows n) ≤ length (lost_parities data rows n').
Proof. induction 1; [done|]. rewrite lost_parities_S, length_app. lia. Qed.

(** The parity scan counts the missing parities and turns -1 into [NULL]. *)
Lemma parity_scan_ok k rows di data : rows + k ≤ length data →
  di + length (lost_parities data rows k) ≤ k →
  ∃ data', parity_scan k rows di data = Ok (data', length (lost_parities data rows k)) ∧
    ∀ i, data' !! i = if decide (rows ≤ i < rows + k ∧ lost data i) then Some NULL else data !! i.
Proof.
  intros Hlen Hrep. unfold parity_scan.
  match goal with |- context [for_up _ ?body _] =>
    destruct (for_up_inv body (fun n s => length s.1 = length data ∧
      s.2 = length (lost_parities data rows n) ∧
      ∀ i, s.1 !! i = if decide (rows ≤ i < rows + n ∧ lost data i) then Some NULL else data !! i)
      k (data, 0)) as ([data' pi] & -> & Hlen' & Hpi & Hdata') end.
  - split_and!; [done|done|]. intros i. by rewrite decide_False by lia.
  - intros n [dat pi] Hn (Hl & Hpi & Hdat). cbn [fst snd] in *. subst pi.
    destruct (lookup_lt_is_Some_2 data (rows + n)) as [p Hp]; [lia|].
    pose proof (lost_spec data (rows + n) p Hp) as Hlost. rewrite lost_parities_S.
    assert (dat !! (rows + n) = Some p) as Hdp by (by rewrite Hdat, decide_False by lia).
    rewrite (proj2 (aget_ok _ _ _) Hdp). rstep.
    assert (∃ dat', (if is_minus1 p then aset dat (rows + n) NULL else Ok dat) = Ok dat' ∧
      length dat' = length data ∧
      ∀ i, dat' !! i = if decide (rows ≤ i < rows + S n ∧ lost data i) then Some NULL else data !! i)
      as (dat' & -> & Hl' & Hdat').
    { unfold is_minus1. case_bool_decide as Hm.
      - rewrite aset_ok by lia. eexists. split; [done|]. rewrite length_insert. split; [done|].
        intros i. destruct (decide (i = rows + n)) as [->|Hne].
        + rewrite list_lookup_insert_eq by lia. rewrite decide_True; [done|].
          split; [lia|]. right. congruence.
        + rewrite list_lookup_insert_ne, Hdat by done.
          apply decide_ext. split; intros [? ?]; (split; [lia|done]).
      - eexists. split; [done|]. split; [done|]. intros i. rewrite Hdat.
        destruct (decide (i = rows + n)) as [->|Hne].
        + rewrite decide_False by lia. case_decide as Hc; [|done].
          destruct Hc as [_ [Hc|Hc]]; congruence.
        + apply decide_ext. split; intros [? ?]; (split; [lia|done]). }
    rstep. unfold aget. rewrite Hdat'.
    assert (length (lost_parities data rows (S n)) ≤ length (lost_parities data rows k)) as Hle
      by (apply lost_parities_le; lia). rewrite lost_parities_S, length_app in Hle.
    destruct (decide (lost data (rows + n))) as [HL|HL].
    + rewrite decide_True by (split; [lia|done]). rstep. cbn [length] in Hle.
      change (is_null NULL) with true. cbv iota. rewrite (proj2 (Nat.ltb_ge _ _)) by lia.
      eexists. split; [done|]. cbn [fst snd]. rewrite length_app. cbn [length]. split_and!; [done|lia|done].
    + rewrite decide_False by naive_solver. rewrite Hp. rstep. rewrite app_nil_r.
      assert (is_null p = false) as ->.
      { rewrite Hlost, orb_true_iff in HL. destruct (is_null p); naive_solver. }
      eexists. split; [done|]. done.
  - cbn [fst snd] in *. subst. eauto.
Qed.

Lemma wanted_of_lost data rows :
  wanted_rows data rows = filter (fun i => data !! i = Some NULL) (lost_rows data rows).
Proof.
  unfold wanted_rows, lost_rows. rewrite list_filter_filter. apply list_filter_iff.
  intros i. unfold lost. naive_solver.
Qed.

Lemma elem_of_lost data rows i : i ∈ lost_rows data rows ↔ lost data i ∧ i < rows.
Proof. unfold lost_rows. rewrite list_elem_of_filter, elem_of_seq. naive_solver lia. Qed.

Lemma lost_rows_NoDup data rows : NoDup (lost_rows data rows).
Proof. apply list.NoDup_filter, NoDup_seq. Qed.

(** When P is missing and one row can still be repaired, Q is there. *)
Lemma lost_P_leaves_Q data rows k : lost data rows → 1 + length (lost_parities data rows k) ≤ k →
  k ≤ 2 → 2 ≤ k ∧ length (lost_parities data rows k) = 1 ∧ ¬ lost data (rows + 1).
Proof.
  intros HL Hrep Hk. assert (lost data (rows + 0)) as HL0 by (by rewrite Nat.add_0_r).
  destruct k as [|[|[|k]]]; [lia| | |lia]; rewrite !lost_parities_S, (decide_True _ _ HL0) in Hrep |- *.
  - cbn in Hrep. lia.
  - destruct (decide (lost data (rows + 1))); cbn in Hrep |- *; [lia|done].
Qed.

(** With at most two rows missing, one of them wanted, at most one is unwanted. *)
Lemma unwanted_unique data rows : length (lost_rows data rows) ≤ 2 →
  wanted_rows data rows ≠ [] → ∀ x y, x < rows → y < rows →
  data !! x = Some MINUS1 → data !! y = Some MINUS1 → x = y.
Proof.
  intros Hlen Hw x y Hx Hy Hxm Hym. destruct (decide (x = y)) as [|Hne]; [done|]. exfalso.
  destruct (wanted_rows data rows) as [|w ws] eqn:Ew; [done|].
  assert (w ∈ wanted_rows data rows) as Hin by (rewrite Ew; set_solver).
  unfold wanted_rows in Hin. rewrite list_elem_of_filter, elem_of_seq in Hin. destruct Hin as [Hwn Hwr].
  assert ([x; y; w] ⊆+ lost_rows data rows) as Hsub%submseteq_length; [|simpl in Hsub; lia].
  apply NoDup_submseteq.
  - repeat constructor; set_solver.
  - intros z Hz. apply elem_of_lost. unfold lost. set_solver by lia.
Qed.

Section decode_1.
Context (m : mem) (len k rows : nat) (data new_data : list ptr) (crc : crcs) (D : nat → nat → Z).
Context (Hpre : decode_pre m len k rows data new_data crc D).

(** What the kernels are called with, once the scans have run. *)
Lemma scanned_rows data' (a : list nat) : (∀ i, data' !! i =
    if decide (rows ≤ i < rows + k ∧ lost data i) then Some NULL else data !! i) →
  (∀ i, i < rows → lost data i → i ∈ a) →
  ∀ i, i < rows → ¬ i ∈ a → row_holds m data' len i (D i).
Proof using Hpre.
  intros Hdata' Ha i Hi Hia. destruct (de_data _ _ _ _ _ _ _ _ Hpre i Hi) as (p & Hp & Hh).
  { intros Hl. auto. }
  exists p. split; [|done]. by rewrite Hdata', decide_False by lia.
Qed.

Lemma scanned_parity data' i : (∀ i, data' !! i =
    if decide (rows ≤ i < rows + k ∧ lost data i) then Some NULL else data !! i) →
  i < k → ¬ lost data (rows + i) → row_holds m data' len (rows + i) (codeword rows D (rows + i)).
Proof using Hpre.
  intros Hdata' Hi Hl. destruct (de_parity _ _ _ _ _ _ _ _ Hpre i Hi Hl) as (p & Hp & Hh).
  exists p. split; [|done]. by rewrite Hdata', decide_False by naive_solver.
Qed.

Context (t : gf_functions) (Ht : GfKernels t).

(** The double repair, once the row to rebuild first is known. *)
Lemma decode_2_kernel data' d0 d1 p1 nd n0 : (∀ i, data' !! i =
    if decide (rows ≤ i < rows + k ∧ lost data i) then Some NULL else data !! i) →
  k = 2 → lost_parities data rows k = [] →
  (∀ i, i < rows → lost data i → i ∈ [d0; d1]) →
  d0 < rows → d1 < rows → d0 ≠ d1 → data !! d0 = Some NULL → data !! d1 = Some p1 →
  crc_ready crc 2 → nd !! 0 = Some n0 → valid m n0 len →
  (p1 ≠ MINUS1 → ∃ n1, nd !! 1 = Some n1 ∧ valid m n1 len ∧ n1 ≠ n0) →
  ∃ f m' crc', ec_decode_pq t = Some f ∧ f len rows d0 d1 data' nd crc m = Ok (m', crc') ∧
    holds m' n0 len (D d0) ∧
    (∀ n1, p1 ≠ MINUS1 → nd !! 1 = Some n1 → holds m' n1 len (D d1)) ∧
    touched m m' len (fun q => q = n0 ∨ (p1 ≠ MINUS1 ∧ nd !! 1 = Some q)) ∧
    crc_at crc crc' (fun i => if decide (i = 0 ∨ (i = 1 ∧ p1 ≠ MINUS1)) then len else 0)
      (fun i => if decide (i = 0) then D d0 else D d1).
Proof using Ht Hpre.
  intros Hdata' Hk2 Hlp Hall H0 H1 Hne Hd0 Hd1 Hcrc Hn0 Hv0 Hn1.
  pose proof Hpre as [Hlen _ Hrows HD _ _ _ _ _ _ _ _ _].
  assert (∀ i, i < k → ¬ lost data (rows + i)) as Hnl.
  { intros i Hi Hl. assert (i ∈ lost_parities data rows k) as Hin; [|rewrite Hlp in Hin; set_solver].
    unfold lost_parities. apply list_elem_of_filter. split; [done|]. apply elem_of_seq. lia. }
  assert (∀ i, i < rows → data' !! i = data !! i) as Hsame.
  { intros i Hi. by rewrite Hdata', decide_False by lia. }
  destruct (gk_dpq (t := t)) as (f & Ef & Hf).
  destruct (Hf m len rows d0 d1 data' nd crc D n0 (match nd !! 1 with Some n => n | None => NULL end)
    NULL p1) as (m' & crc' & Hrun & Hh0 & Hh1 & Htch & Hc); try done.
  - intros i Hi ? ?. apply (scanned_rows data' [d0; d1]); [done|done|done|set_solver].
  - pose proof (scanned_parity data' 0 Hdata' ltac:(lia)) as H. rewrite Nat.add_0_r in H.
    apply H. specialize (Hnl 0 ltac:(lia)). by rewrite Nat.add_0_r in Hnl.
  - apply scanned_parity; [done|lia|]. apply Hnl. lia.
  - by rewrite Hsame.
  - by rewrite Hsame.
  - intros Hp1. destruct (Hn1 Hp1) as (n1 & -> & ?). done.
  - exists f, m', crc'. split_and!; [done|done|done| | |done].
    + intros n1 Hp1 E. rewrite E in Hh1. auto.
    + eapply touched_mono; [|exact Htch]. intros q [?|[Hp1 ->]]; [by left|right].
      split; [done|]. by destruct (Hn1 Hp1) as (n1 & -> & _).
Qed.

Lemma wanted_second a b : lost_rows data rows = [a; b] → wanted_rows data rows =
  (if decide (data !! a = Some NULL) then [a] else []) ++
  (if decide (data !! b = Some NULL) then [b] else []).
Proof using.
  intros Hl. rewrite wanted_of_lost, Hl, !filter_cons, filter_nil. by repeat case_decide.
Qed.

Context (d_init : list nat) (Hd : length d_init = 2).

Lemma decode_1_single a : lost_rows data rows = [a] → wanted_rows data rows = [a] →
  ∃ m' crc' data' new_data',
    ec_decode_data_1 t d_init len k rows data new_data crc m = Ok (m', crc', data', new_data') ∧
    (∀ n i o, [a] !! n = Some i → new_data !! n = Some o → holds m' o len (D i)) ∧
    touched m m' len (fun q => ∃ n, n < 1 ∧ new_data !! n = Some q) ∧
    crc_at crc crc' (fun n => if decide (n < 1) then len else 0) (fun n => D ([a] !!! n)).
Proof using Ht Hd Hpre.
  intros Hlost Hwant. pose proof Hpre as [Hlen Hk Hrows HD Hsize Hdata Hpar Hrep Hw Hnew Hns Hinj Hcrc].
  rewrite Hlost in Hrep, Hns, Hcrc. rewrite Hwant in Hnew. cbn [length] in *.
  destruct (decode_scan_ok k rows data d_init) as (d & nm & Hscan & Hdl & Hdin & _);
    [done|lia|rewrite Hlost; cbn; lia|done| |].
  { apply unwanted_unique; [rewrite Hlost; cbn; lia|done]. }
  destruct (parity_scan_ok k rows 1 data) as (data' & Hps & Hdata'); [done|lia|].
  destruct (Hnew 0 ltac:(lia)) as (o & Ho & Hon & Hov).
  unfold ec_decode_data_1. rewrite (proj2 (Nat.ltb_ge _ _)) by lia. rewrite Hscan, Hlost. rstep.
  cbn [length Nat.eqb]. rewrite (proj2 (aget_ok _ _ _) Ho). rstep.
  unfold is_null at 1. rewrite bool_decide_false by done. rewrite Hps. rstep.
  assert ((k =? 0) = false) as -> by (apply Nat.eqb_neq; lia).
  rewrite (proj2 (aget_ok d 0 a)) by (apply Hdin; by rewrite Hlost).
  destruct (lookup_lt_is_Some_2 data rows) as [p Hp]; [lia|].
  pose proof (scanned_rows data' [a] Hdata') as Hdat.
  assert (∀ i, i < rows → lost data i → i ∈ [a]) as Ha.
  { intros i Hi Hl. rewrite <-Hlost. by apply elem_of_lost. }
  assert (a < rows) by (apply (elem_of_lost data rows a); rewrite Hlost; set_solver).
  assert (∀ m1, mem_at m m1 (upd (fun _ => 0) o len) (fun _ => D a) →
    (∀ n i q, [a] !! n = Some i → new_data !! n = Some q → holds m1 q len (D i)) ∧
    touched m m1 len (fun q => ∃ n, n < 1 ∧ new_data !! n = Some q)) as Hfin.
  { intros m1 Hat. apply fill1_at in Hat as (Hh & Htch & _). split.
    - intros [|n] i q Hi Hq; simplify_eq/=. done.
    - eapply touched_mono; [|exact Htch]. intros q ->. eauto. }
  assert (∀ crc', crc_at crc crc' (fun i => if decide (i = 0) then len else 0) (fun _ => D a) →
    crc_at crc crc' (fun n => if decide (n < 1) then len else 0) (fun n => D ([a] !!! n))) as Hcfin.
  { intros crc'. apply crc_at_ext; [intros i; apply decide_ext; lia|].
    intros [|i] j; [done|]. rewrite decide_False by lia. lia. }
  destruct (decide (lost data rows)) as [HL|HL].
  - assert (2 ≤ k ∧ length (lost_parities data rows k) = 1 ∧ ¬ lost data (rows + 1)) as (H2 & Hl1 & HQ).
    { by apply lost_P_leaves_Q. }
    rewrite (proj2 (aget_ok data' rows NULL)) by (by rewrite Hdata', decide_True by (split; [lia|done])).
    rstep. rewrite Hl1. change (is_null NULL) with true. cbn [Nat.eqb Nat.add andb negb].
    rewrite andb_false_r. rewrite (proj2 (Nat.ltb_ge _ _)) by lia.
    destruct (gk_dq (t := t)) as (f & -> & Hf). cbn [fptr]. rstep.
    destruct (Hf m len rows a data' new_data crc D o) as (m' & crc' & -> & Hm' & Hc'); try done.
    + intros i Hi Hia. apply Hdat; [done|done|set_solver].
    + by apply scanned_parity.
    + rstep. do 4 eexists. split; [done|]. destruct (Hfin m' Hm'). eauto.
  - assert (is_null p = false) as Hpn.
    { destruct (is_null p) eqn:E; [|done]. destruct HL. apply (lost_spec data rows p Hp). by rewrite E. }
    rewrite (proj2 (aget_ok data' rows p)) by (by rewrite Hdata', decide_False by naive_solver).
    rstep. rewrite Hpn. cbn [Nat.eqb andb negb].
    rewrite (proj2 (Nat.leb_le _ _)) by lia. cbn [andb].
    destruct (gk_dp (t := t)) as (f & -> & Hf). cbn [fptr]. rstep.
    destruct (Hf m len rows a data' new_data crc D o) as (m' & crc' & -> & Hm' & Hc'); try done.
    + intros i Hi Hia. apply Hdat; [done|done|set_solver].
    + apply scanned_parity; [done|lia|by rewrite Nat.add_0_r].
    + rstep. do 4 eexists. split; [done|]. destruct (Hfin m' Hm'). eauto.
Qed.

Lemma decode_1_double a b : lost_rows data rows = [a; b] →
  ∃ m' crc' data' new_data',
    ec_decode_data_1 t d_init len k rows data new_data crc m = Ok (m', crc', data', new_data') ∧
    (∀ n i o, wanted_rows data rows !! n = Some i → new_data !! n = Some o → holds m' o len (D i)) ∧
    touched m m' len (fun q => ∃ n, n < length (wanted_rows data rows) ∧ new_data !! n = Some q) ∧
    crc_at crc crc' (fun n => if decide (n < length (wanted_rows data rows)) then len else 0)
      (fun n => D (wanted_rows data rows !!! n)).
Proof using Ht Hd Hpre.
  intros Hlost. pose proof Hpre as [Hlen Hk Hrows HD Hsize Hdata Hpar Hrep Hw Hnew Hns Hinj Hcrc].
  assert (a ≠ b) as Hab by (pose proof (lost_rows_NoDup data rows) as Hnd; rewrite Hlost in Hnd;
    apply NoDup_cons_1_1 in Hnd; set_solver).
  assert (lost data a ∧ a < rows) as [La Ha] by (apply elem_of_lost; rewrite Hlost; set_solver).
  assert (lost data b ∧ b < rows) as [Lb Hb] by (apply elem_of_lost; rewrite Hlost; set_solver).
  assert (∀ i, i < rows → lost data i → i ∈ [a; b]) as Hall.
  { intros i Hi Hl. rewrite <-Hlost. by apply elem_of_lost. }
  destruct (decode_scan_ok k rows data d_init) as (d & nm & Hscan & Hdl & Hdin & Hnm); [done|lia|lia|done| |].
  { apply unwanted_unique; [lia|done]. }
  destruct (parity_scan_ok k rows 2 data) as (data' & Hps & Hdata'); [done|by rewrite Hlost in Hrep|].
  rewrite Hlost in Hrep, Hcrc, Hscan, Hdin, Hns. cbn [length] in *.
  assert (k = 2) as Hk2 by lia. assert (lost_parities data rows k = []) as Hlp.
  { destruct (lost_parities data rows k); [done|cbn in Hrep; lia]. }
  destruct (Hnew 0) as (o & Ho & Hon & Hov). { destruct (wanted_rows data rows); [done|cbn; lia]. }
  unfold ec_decode_data_1. rewrite (proj2 (Nat.ltb_ge _ _)) by lia. rewrite Hscan. rstep. cbn [Nat.eqb].
  rewrite (proj2 (aget_ok _ _ _) Ho). rstep. unfold is_null at 1. rewrite bool_decide_false by done.
  rewrite Hps, Hlp. rstep.
  assert ((k =? 0) = false) as -> by (apply Nat.eqb_neq; lia).
  assert (∃ P, data' !! rows = Some P) as [P HP].
  { destruct (lookup_lt_is_Some_2 data rows) as [P HP]; [lia|]. rewrite Hdata'. case_decide; eauto. }
  rewrite (proj2 (aget_ok _ _ _) HP). rstep.
  rewrite (proj2 (aget_ok d 0 a)) by (by apply Hdin). rstep.
  cbn [length Nat.eqb andb]. rewrite (proj2 (Nat.ltb_ge _ _)) by lia. cbn [andb].
  rewrite (proj2 (aget_ok d 1 b)) by (by apply Hdin). rstep.
  rewrite (wanted_second a b Hlost) in Hnew, Hinj |- *.
  destruct La as [Na|Ma], Lb as [Nb|Mb].
  - rewrite !decide_True in * by done. cbn [app length] in *.
    assert (nm = None) as ->.
    { destruct nm as [x|]; [|done]. destruct (proj1 (Hnm x) eq_refl) as [Hx Hxm].
      specialize (Hall x Hx (or_intror Hxm)). set_solver. }
    rewrite !bool_decide_false by done. rstep.
    destruct (Hnew 1) as (o1 & Ho1 & _ & Hov1); [lia|].
    destruct (decode_2_kernel data' a b NULL new_data o) as (f & m' & crc' & -> & Hrun & Hh0 & Hh1 & Htc & Hc);
      try done.
    { intros _. exists o1. split_and!; [done|done|]. intros ->. by specialize (Hinj 0 1 o ltac:(lia) ltac:(lia) Ho Ho1). }
    cbn [fptr]. rstep. rewrite Hrun. rstep. do 4 eexists. split_and!; [done| | |].
    + intros [|[|n]] i q Hi Hq; simplify_eq/=; [done|by apply Hh1].
    + eapply touched_mono; [|exact Htc]. intros q [->|[_ ?]]; eauto.
    + eapply crc_at_ext; [| |exact Hc].
      * intros i. apply decide_ext. split; [intros [|[? ?]]; lia|]. intros. destruct i as [|[|i]]; [auto| |lia]. by right.
      * intros [|[|i]] j; [done|done|]. rewrite decide_False by (intros [?|[? ?]]; lia). lia.
  - rewrite decide_True, decide_False in * by congruence. rewrite app_nil_r in *. cbn [length] in *.
    assert (nm = Some b) as -> by (by apply Hnm).
    rewrite bool_decide_false, bool_decide_true by congruence. rewrite aset_ok by lia. rstep.
    destruct (decode_2_kernel data' a b MINUS1 (<[1:=NULL]> new_data) o)
      as (f & m' & crc' & -> & Hrun & Hh0 & Hh1 & Htc & Hc); try done.
    { by rewrite list_lookup_insert_ne. }
    cbn [fptr]. rstep. rewrite Hrun. rstep. do 4 eexists. split_and!; [done| | |].
    + intros [|n] i q Hi Hq; simplify_eq/=. done.
    + eapply touched_mono; [|exact Htc]. intros q [->|[? _]]; [eauto|done].
    + eapply crc_at_ext; [| |exact Hc].
      * intros i. apply decide_ext. split; [intros [|[? ?]]; [lia|done]|]. intros. left. lia.
      * intros [|i] j; [done|]. rewrite decide_False by (intros [?|[? ?]]; done). lia.
  - rewrite decide_False, decide_True in * by congruence. cbn [app length] in *.
    assert (nm = Some a) as -> by (by apply Hnm).
    rewrite !bool_decide_true by done. rewrite aset_ok by lia. rstep.
    destruct (decode_2_kernel data' b a MINUS1 (<[1:=NULL]> new_data) o)
      as (f & m' & crc' & -> & Hrun & Hh0 & Hh1 & Htc & Hc); try done.
    { intros i Hi Hl. specialize (Hall i Hi Hl). set_solver. }
    { by rewrite list_lookup_insert_ne. }
    cbn [fptr]. rstep. rewrite Hrun. rstep. do 4 eexists. split_and!; [done| | |].
    + intros [|n] i q Hi Hq; simplify_eq/=. done.
    + eapply touched_mono; [|exact Htc]. intros q [->|[? _]]; [eauto|done].
    + eapply crc_at_ext; [| |exact Hc].
      * intros i. apply decide_ext. split; [intros [|[? ?]]; [lia|done]|]. intros. left. lia.
      * intros [|i] j; [done|]. rewrite decide_False by (intros [?|[? ?]]; done). lia.
  - exfalso. apply Hab. eapply (unwanted_unique data rows); eauto. rewrite Hlost. done.
Qed.
End decode_1.

Lemma decode_1_ok t d_init : GfKernels t → length d_init = 2 →
  decode_all_spec (ec_decode_data_1 t d_init).
Proof.
  intros Ht Hd m len k rows data new_data crc D Hpre want. subst want.
  pose proof Hpre as [_ Hk _ _ _ _ _ Hrep Hw _ _ _ _].
  destruct (lost_rows data rows) as [|a [|b [|c l]]] eqn:Hl.
  - destruct Hw. by rewrite wanted_of_lost, Hl.
  - assert (wanted_rows data rows = [a]) as Ew.
    { rewrite wanted_of_lost, Hl in *. rewrite filter_cons, filter_nil in *. by case_decide. }
    rewrite Ew. by apply (decode_1_single m len k rows data new_data crc D Hpre t Ht d_init Hd a).
  - by apply (decode_1_double m len k rows data new_data crc D Hpre t Ht d_init Hd a b).
  - cbn in Hrep. lia.
Qed.

(** ** The current table and its selection *)
Record gf_state : Type := GfState {
  gf_funcs : gf_functions;
  gf_funcs_in_irq_ctx : bool
}.

(** The build and the machine: the tables compiled in besides the two of this
    file ([USE_GF_AVX2], [USE_GF_SSE2], [NVMEIBC_GF_ARM_USER_SPACE_IMPLEMENTATION],
    [__KERNEL__]), and what the processor and the kernel support. *)
Record platform : Type := Platform {
  crc32_insn : Z → Z → Z;
  table_avx2 : option gf_functions;
  table_sse2 : option gf_functions;
  table_arm_user : option gf_functions;
  table_kernel : option gf_functions;
  is_aarch64 : bool;
  get_avx2 : bool;
  get_sse2 : bool;
  nvmeib_raid_kernel_builtin_supported : bool
}.

Definition set_funcs (s : gf_state) (t : gf_functions) : gf_state :=
  GfState t (gf_funcs_in_irq_ctx s).

(** [None] as the returned index is the -1 of the error paths. *)
Definition gf_choose_functions (pf : platform) (index : gf_optimization_type) (s : gf_state)
    : option gf_optimization_type * gf_state :=
  let u64 := (Some NVMEIBC_GF_64_BIT, set_funcs s (gf_functions_u64 (crc32_insn pf))) in
  match index with
  | NVMEIBC_GF_DISPLAY_CURRENT => (Some (gf_id (gf_funcs s)), s)
  | NVMEIBC_GF_AUTO_INIT =>
      match table_arm_user pf, table_kernel pf, is_aarch64 pf with
      | Some t, _, _ => (Some (gf_id t), set_funcs s t)
      | None, Some t, true =>
          if nvmeib_raid_kernel_builtin_supported pf then (Some (gf_id t), GfState t false) else u64
      | _, _, _ =>
          match table_avx2 pf, table_sse2 pf with
          | Some t, _ => if get_avx2 pf then (Some NVMEIBC_GF_AVX2, set_funcs s t) else u64
          | None, Some t => if get_sse2 pf then (Some NVMEIBC_GF_SSE2, set_funcs s t) else u64
          | None, None => u64
          end
      end
  | NVMEIBC_GF_UNOPTIMIZED => (Some index, set_funcs s gf_functions_unoptimized)
  | NVMEIBC_GF_64_BIT => (Some index, set_funcs s (gf_functions_u64 (crc32_insn pf)))
  | NVMEIBC_GF_SSE2 =>
      match table_sse2 pf with Some t => (Some index, set_funcs s t) | None => (None, s) end
  | NVMEIBC_GF_AVX2 =>
      match table_avx2 pf with Some t => (Some index, set_funcs s t) | None => (None, s) end
  | NVMEIBC_GF_ARM_INTRINSICS =>
      match table_arm_user pf with Some t => (Some index, set_funcs s t) | None => (None, s) end
  | NVMEIBC_GF_EC_CALC =>
      match table_kernel pf with
      | Some t =>
          if negb (nvmeib_raid_kernel_builtin_supported pf) then (None, s)
          else if is_aarch64 pf && gf_funcs_in_irq_ctx s then (None, s)
          else (Some index, set_funcs s t)
      | None => (None, s)
      end
  end.

(** ** Entry points

    [callback] says whether a completion callback was passed; it is called
    with [GF_SUCCESS] and the caller is told the operation was deferred. *)
Definition gf_rv (callback : bool) : gf_return_val := if callback then GF_DEFERRED else GF_SUCCESS.

Definition run_encode (t : gf_functions) (k : nat) : encode_fn :=
  fun len rows data coding crc dc m =>
  match ec_encode t with
  | ENTRY_1 => ec_encode_data_1 t len k rows data coding crc dc m
  | ENTRY_FN f => f k len rows data coding crc dc m
  | ENTRY_INIT => Fault BUG
  end.

Definition run_update (t : gf_functions) : update_fn := fun len k vec_i data coding crc copy m =>
  match ec_update t with
  | ENTRY_FN f => f len k vec_i data coding crc copy m
  | _ => Fault BUG
  end.

Definition run_decode (t : gf_functions) (d_init : list nat) : decode_all_fn :=
  fun len k rows data new_data crc m =>
  match ec_decode t with
  | ENTRY_1 => ec_decode_data_1 t d_init len k rows data new_data crc m
  | ENTRY_FN f => f len k rows data new_data crc m
  | ENTRY_INIT => Fault BUG
  end.

(** The lazy initialiser chooses a table and calls again through it. *)
Definition is_init {F} (e : entry F) : bool := match e with ENTRY_INIT => true | _ => false end.
Definition init_if (b : bool) (pf : platform) (s : gf_state) : gf_state :=
  if b then (gf_choose_functions pf NVMEIBC_GF_AUTO_INIT s).2 else s.

Definition ec_encode_data (pf : platform) (s : gf_state) (callback : bool) (len k rows : nat)
    (data coding : list ptr) (crc : crcs) (dc : option (list ptr)) (m : mem)
    : res (gf_return_val * gf_state * mem * crcs) :=
  let s := init_if (is_init (ec_encode (gf_funcs s))) pf s in
  '(m, crc) ← run_encode (gf_funcs s) k len rows data coding crc dc m;
  Ok (gf_rv callback, s, m, crc).

Definition ec_encode_data_update (pf : platform) (s : gf_state) (callback : bool)
    (len k vec_i : nat) (data coding : list ptr) (crc : crcs) (copy : ptr) (m : mem)
    : res (gf_return_val * gf_state * mem * crcs) :=
  let s := init_if (is_init (ec_update (gf_funcs s))) pf s in
  '(m, crc) ← run_update (gf_funcs s) len k vec_i data coding crc copy m;
  Ok (gf_rv callback, s, m, crc).

Definition ec_decode_data (pf : platform) (s : gf_state) (d_init : list nat) (callback : bool)
    (len k rows : nat) (data new_data : list ptr) (crc : crcs) (m : mem)
    : res (gf_return_val * gf_state * decode_result) :=
  let s := init_if (is_init (ec_decode (gf_funcs s))) pf s in
  r ← run_decode (gf_funcs s) d_init len k rows data new_data crc m;
  Ok (gf_rv callback, s, r).

Definition ec_crc (s : gf_state) (m : mem) (seed : Z) (buf : ptr) (num : nat) : res Z :=
  f ← fptr (ec_crc_fn (gf_funcs s)); f m seed buf num.

(** ** What a client may rely on *)
Class EcTable (t : gf_functions) : Prop := {
  et_entries : is_init (ec_encode t) = false ∧ is_init (ec_update t) = false ∧
               is_init (ec_decode t) = false;
  et_encode : encode_all_spec (run_encode t);
  et_update : update_spec (run_update t);
  et_decode : ∀ d_init, length d_init = 2 → decode_all_spec (run_decode t d_init);
  et_crc : ∃ f, ec_crc_fn t = Some f ∧ crc_fn_spec f
}.

Lemma kernels_table t : GfKernels t → ec_encode t = ENTRY_1 → ec_decode t = ENTRY_1 → EcTable t.
Proof.
  intros Ht He Hd. destruct (gk_update (t := t)) as (fu & Eu & Hu). split.
  - by rewrite He, Hd, Eu.
  - intros m len k rows. unfold run_encode. rewrite He. by apply encode_1_ok.
  - intros m len k v. unfold run_update. rewrite Eu. apply Hu.
  - intros d_init Hl m len k rows. unfold run_decode. rewrite Hd. by apply decode_1_ok.
  - apply gk_crc.
Qed.

#[export] Instance unoptimized_table : EcTable gf_functions_unoptimized.
Proof. by apply kernels_table; [apply _|..]. Qed.

Lemma u64_table insn : insn_ok insn → EcTable (gf_functions_u64 insn).
Proof. intros H. by apply kernels_table; [apply u64_kernels|..]. Qed.

(** Every table the build adds keeps the contract. *)
Record platform_ok (pf : platform) : Prop := {
  pf_insn : insn_ok (crc32_insn pf);
  pf_avx2 : ∀ t, table_avx2 pf = Some t → EcTable t;
  pf_sse2 : ∀ t, table_sse2 pf = Some t → EcTable t;
  pf_arm : ∀ t, table_arm_user pf = Some t → EcTable t;
  pf_kernel : ∀ t, table_kernel pf = Some t → EcTable t
}.

Section choice.
Context (pf : platform) (Hpf : platform_ok pf).

Lemma choose_auto_ok s : EcTable (gf_funcs (gf_choose_functions pf NVMEIBC_GF_AUTO_INIT s).2).
Proof using Hpf.
  destruct Hpf as [Hi Ha Hs Harm Hk]. pose proof (u64_table _ Hi) as Hu.
  simpl. repeat case_match; simpl; auto.
Qed.

Lemma choose_ok index s rv s' : gf_choose_functions pf index s = (rv, s') →
  (rv = None ∧ s' = s) ∨ (index = NVMEIBC_GF_DISPLAY_CURRENT ∧ s' = s) ∨
  (is_Some rv ∧ EcTable (gf_funcs s')).
Proof using Hpf.
  destruct (decide (index = NVMEIBC_GF_AUTO_INIT)) as [->|Hne].
  { intros E. right. right. pose proof (choose_auto_ok s) as H. rewrite E in H. split; [|done].
    simpl in E. repeat case_match; simplify_eq; eauto. }
  destruct Hpf as [Hi Ha Hs Harm Hk]. pose proof (u64_table _ Hi) as Hu.
  intros E. destruct index; simpl in E; try done; repeat case_match; simplify_eq;
    (by auto) || (right; right; split; [by eauto|simpl; auto; apply _]).
Qed.

(** The state is fresh, or its table keeps the contract. *)
Definition gf_ok (s : gf_state) : Prop := gf_funcs s = gf_funcs_initial ∨ EcTable (gf_funcs s).

Lemma choose_gf_ok index s : gf_ok s → gf_ok (gf_choose_functions pf index s).2.
Proof using Hpf.
  intros Hs. destruct (gf_choose_functions pf index s) as [rv s'] eqn:E. simpl.
  apply choose_ok in E as [[_ ->]|[[_ ->]|[_ ?]]]; [done..|by right].
Qed.

Lemma init_ok s (sel : gf_functions → bool) : gf_ok s →
  (sel gf_funcs_initial = true) → (∀ t, EcTable t → sel t = false) →
  EcTable (gf_funcs (init_if (sel (gf_funcs s)) pf s)).
Proof using Hpf.
  intros [Hs|Hs] H1 H2.
  - rewrite Hs, H1. apply choose_auto_ok.
  - by rewrite (H2 _ Hs).
Qed.
End choice.

