(* ===== verification/EcTheorems.v ===== *)
(** * Theorems about the erasure code

    What a stripe owner gets from the entry points: data encoded by
    [ec_encode_data] and then partly lost is rebuilt by [ec_decode_data]; a
    read-modify-write by [ec_encode_data_update] leaves the parities of the new
    data; every table of kernels computes the same bytes and CRCs. *)
From Stdlib Require Import ZArith Lia.
From stdpp Require Import base list gmap numbers.
From S2P Require Import Prelude CMemory GaloisField Crc32c ErasureCode EcAlgebra KernelLemmas KernelBytes KernelWords GfTable.
Local Open Scope nat_scope.

(** ** Encode, lose, decode *)
Lemma parities_seq k coding : k = 1 ∨ k = 2 → length coding = k → ¬ NULL ∈ coding →
  wanted_parities k coding = seq 0 k ∧ Forall2 (fun i o => coding !! i = Some o) (seq 0 k) coding.
Proof.
  intros Hk Hlen Hn. split.
  - unfold wanted_parities. destruct Hk as [-> | ->], coding as [|c0 [|c1 [|? ?]]]; try done;
      cbn [seq]; rewrite !filter_cons, filter_nil, !decide_True by (cbn; intros [= ->]; set_solver); done.
  - apply Forall2_same_length_lookup. rewrite length_seq. split; [done|].
    intros i x o Hx Ho. apply lookup_seq in Hx as [-> _]. done.
Qed.

(** The blocks found when the stripe is read back: those that were written,
    some of them replaced by [NULL] or by -1. *)
Definition survivors (written found : list ptr) : Prop :=
  length found = length written ∧ ∀ i, found !! i = written !! i ∨ lost found i.

Record rebuild_buffers (m : mem) (len k rows : nat) (found new_data : list ptr) : Prop := {
  rb_repairable : length (lost_rows found rows) + length (lost_parities found rows k) ≤ k;
  rb_wanted : wanted_rows found rows ≠ [];
  rb_new : ∀ n, n < length (wanted_rows found rows) →
    ∃ o, new_data !! n = Some o ∧ o ≠ NULL ∧ valid m o len;
  rb_size : length (lost_rows found rows) ≤ length new_data;
  rb_inj : ∀ n n' o, n < length (wanted_rows found rows) → n' < length (wanted_rows found rows) →
    new_data !! n = Some o → new_data !! n' = Some o → n = n'
}.

Lemma stripe_decode_pre m m1 len k rows data coding found new_data D :
  k = 1 ∨ k = 2 → length data = rows → length coding = k →
  encode_pre m len rows data None coding D →
  touched m m1 len (encode_writes rows None coding) →
  (∀ i, i < rows → row_holds m1 data len i (D i)) →
  Forall2 (fun i o => holds m1 o len (codeword rows D (rows + i))) (seq 0 k) coding →
  survivors (data ++ coding) found → rebuild_buffers m len k rows found new_data →
  decode_pre m1 len k rows found new_data None D.
Proof.
  intros Hk Hrows Hlen Hpre Ht Hdata Hpar [Hfl Hf] [Hrep Hw Hnew Hsz Hinj].
  rewrite length_app in Hfl. destruct Hpre as [H8 Hr HD _ _ _ _]. split; try done; try lia.
  - intros i Hi Hl. destruct (Hf i) as [E|]; [|done]. destruct (Hdata i Hi) as (p & Hp & Hh).
    exists p. split; [|done]. rewrite E. by rewrite lookup_app_l by lia.
  - intros i Hi Hl. destruct (Hf (rows + i)) as [E|]; [|done].
    destruct (lookup_lt_is_Some_2 coding i) as [o Ho]; [lia|]. exists o. split.
    + rewrite E, lookup_app_r by lia. by replace (rows + i - length data) with i by lia.
    + eapply Forall2_lookup_lr in Hpar; [exact Hpar| |done]. by rewrite lookup_seq_lt by lia.
  - intros n Hn. destruct (Hnew n Hn) as (o & ? & ? & ?). exists o. split_and!; [done..|].
    by eapply touched_valid.
Qed.


(** ** Read-modify-write *)
Lemma codeword_upd_P rows D v new j : v < rows → rows ≤ GF_MAX_D →
  codeword rows (upd D v new) rows j = update_P (codeword rows D rows) (D v) new j.
Proof.
  intros Hv Hr. unfold update_P. rewrite !codeword_P0.
  rewrite (P_ext rows _ (upd (fun r => D r j) v (new j))), P_upd by (done || intros; unfold upd; by case_decide).
  done.
Qed.

Lemma codeword_upd_Q rows D v new j : bytes D → byte_range (new j) → v < rows →
  codeword rows (upd D v new) (rows + 1) j = update_Q v (codeword rows D (rows + 1)) (D v) new j.
Proof.
  intros HD Hn Hv. unfold update_Q. rewrite !codeword_Q.
  rewrite (Q_ext rows _ (upd (fun r => D r j) v (new j))) by (intros; unfold upd; by case_decide).
  rewrite Q_upd; [done|intros; apply HD|done|done].
Qed.

(** C3: updating the parities of a stripe for one rewritten row, from the old
    and the new row and the old parities only, gives exactly the parities of
    the stripe with that row replaced; the CRCs of the row and of the parities
    are extended by the new contents.  The new parities may overwrite the old. *)
Theorem update_reencodes pf s m len k v rows data coding crc copy D new d0 d1 d2 d3 c0 c1
    (Hpf : platform_ok pf) (Hs : gf_ok s) (HD : bytes D) (Hv : v < rows) (Hr : rows ≤ GF_MAX_D)
    (Hpre : update_pre m len k v data coding crc copy (D v) new
      (codeword rows D rows) (codeword rows D (rows + 1)) d0 d1 d2 d3 c0 c1) :
  let D' := upd D v new in
  ∃ s1 m1 crc1,
    ec_encode_data_update pf s false len k v data coding crc copy m = Ok (GF_SUCCESS, s1, m1, crc1) ∧
    holds m1 c0 len (codeword rows D' rows) ∧
    (k = 2 → holds m1 c1 len (codeword rows D' (rows + 1))) ∧
    crc_at crc crc1 (fun i => if decide (i ≤ k) then len else 0)
      (fun i => match i with
                | 0 => new | 1 => codeword rows D' rows | _ => codeword rows D' (rows + 1)
                end).
Proof.
  intros D'. pose proof (init_ok pf Hpf s (fun t => is_init (ec_update t)) Hs eq_refl
    (fun t Ht => proj1 (proj2 (et_entries (EcTable := Ht))))) as Ht1.
  set (s1 := init_if _ pf s) in *.
  destruct (et_update _ _ _ _ _ _ _ _ _ _ _ _ _ _ _ _ _ _ Hpre)
    as (m1 & crc1 & Hrun & _ & _ & Hh0 & Hh1 & Hc).
  assert (∀ j, byte_range (new j)) as Hnew by apply (up_bytes _ _ _ _ _ _ _ _ _ _ _ _ _ _ _ _ _ _ Hpre).
  exists s1, m1, crc1. split_and!.
  - unfold ec_encode_data_update. fold s1. rewrite Hrun. done.
  - eapply holds_ext; [|exact Hh0]. intros. symmetry. by apply codeword_upd_P.
  - intros Hk. eapply holds_ext; [|exact (Hh1 Hk)]. intros. symmetry. by apply codeword_upd_Q.
  - eapply crc_at_ext; [done| |exact Hc]. intros [|[|i]] j _; [done| |]; symmetry.
    + by apply codeword_upd_P.
    + by apply codeword_upd_Q.
Qed.

(** ** Too much lost *)
Lemma scan_overrun data i n d c : i + n ≤ length data → (∀ j, data !! j ≠ Some MINUS1) →
  length d = 2 → c ≤ 2 → 3 ≤ c + length (filter (lost data) (seq i n)) →
  for_from i n (scan_row 2 data) (d, c, None) = Fault OOB.
Proof.
  revert i d c. induction n as [|n IH]; intros i d c Hlen Hno Hd Hc Hcount; [simpl in Hcount; lia|].
  destruct (lookup_lt_is_Some_2 data i) as [p Hp]; [lia|]. pose proof (Hno i) as Hi. rewrite Hp in Hi.
  assert (scan_row 2 data i (d, c, None) =
    if is_null p then d' ← aset d c i; Ok (d', S c, None) else Ok (d, c, None)) as E.
  { unfold scan_row. rewrite (proj2 (aget_ok _ _ _) Hp). rstep.
    destruct p; [|done|done]. simpl. rewrite (proj2 (Nat.ltb_ge 2 c)) by lia. by destruct (aset d c i). }
  cbn [for_from]. rewrite E. cbn [seq] in Hcount. rewrite filter_cons in Hcount. destruct p as [| |b]; [|done|].
  - rewrite decide_True in Hcount by (by left). simpl in Hcount. simpl. destruct (decide (c < 2)).
    + rewrite aset_ok by lia. rstep. apply IH; [lia|done|by rewrite length_insert|lia|lia].
    + unfold aset. rewrite decide_False by lia. done.
  - rewrite decide_False in Hcount by (unfold lost; rewrite Hp; naive_solver). simpl. apply IH; (done || lia).
Qed.

(** C38: with two parities, a call that asks for three or more lost rows is not
    stopped by the [BUG_ON(d_index > k)] guard of the scan: the third index is
    stored behind the end of the two-element array [d]. *)
Theorem decode_three_lost_overruns t d len rows data new_data crc m
    (Hd : length d = 2) (Hrows : rows ≤ length data) (Hno : ∀ j, data !! j ≠ Some MINUS1)
    (Hlost : 3 ≤ length (lost_rows data rows)) :
  ec_decode_data_1 t d len 2 rows data new_data crc m = Fault OOB.
Proof.
  unfold ec_decode_data_1, decode_scan, for_up. simpl.
  by rewrite (scan_overrun data 0 rows d 0) by (done || lia).
Qed.

Lemma decode_three_lost_overruns_witness :
  ec_decode_data_1 gf_functions_unoptimized [0; 0] 8 2 3
    [NULL; NULL; NULL; PTR 3; PTR 4] [PTR 5; PTR 6; PTR 7] None ∅ = Fault OOB.
Proof.
  apply (decode_three_lost_overruns gf_functions_unoptimized [0; 0] 8 3); [done|simpl; lia| |vm_compute; lia].
  intros [|[|[|[|[|j]]]]]; done.
Defined.

(** ** All tables compute the same *)
Lemma crc_at_unique c0 c1 c2 l f : crc_at c0 c1 l f → crc_at c0 c2 l f → c1 = c2.
Proof.
  destruct c0 as [l0|], c1 as [l1|], c2 as [l2|]; try done. intros [Hl1 H1] [Hl2 H2]. f_equal.
  apply list_eq. intros i. destruct (decide (i < length l0)).
  - destruct (lookup_lt_is_Some_2 l0 i) as [c Hc]; [done|]. by rewrite (H1 i c Hc), (H2 i c Hc).
  - by rewrite !lookup_ge_None_2 by lia.
Qed.

(** Contents of every buffer after an encode, whatever the table. *)
Lemma encode_unique m m1 m2 len rows data dc ks outs D :
  touched m m1 len (encode_writes rows dc outs) → touched m m2 len (encode_writes rows dc outs) →
  (∀ i, i < rows → ∃ p, sel data dc i = Some p ∧ holds m1 p len (D i)) →
  (∀ i, i < rows → ∃ p, sel data dc i = Some p ∧ holds m2 p len (D i)) →
  Forall2 (fun i o => holds m1 o len (codeword rows D (rows + i))) ks outs →
  Forall2 (fun i o => holds m2 o len (codeword rows D (rows + i))) ks outs →
  ∀ q j, load8 m1 q j = load8 m2 q j.
Proof.
  intros T1 T2 S1 S2 F1 F2 q j.
  assert (encode_writes rows dc outs q → j < len → load8 m1 q j = load8 m2 q j) as Hw.
  { intros [Ho|(i & Hi & Hc)] Hj.
    - apply list_elem_of_lookup in Ho as [n Hn].
      destruct (Forall2_lookup_r _ _ _ _ _ F1 Hn) as (k & Hk & Hh1).
      pose proof (Forall2_lookup_lr _ _ _ _ _ _ F2 Hk Hn) as Hh2. by rewrite Hh1, Hh2.
    - destruct (S1 i Hi) as (p1 & Hp1 & Hh1), (S2 i Hi) as (p2 & Hp2 & Hh2).
      unfold sel in *. rewrite Hc in *. simplify_eq. by rewrite Hh1, Hh2. }
  destruct (T1 q j) as [E1|(? & ? & _)]; [|auto]. destruct (T2 q j) as [E2|(? & ? & _)]; [congruence|auto].
Qed.

(** Two tables that keep the contract cannot be told apart by encoding:
    every byte of memory and every CRC is the same afterwards.  With the
    instances for [gf_functions_unoptimized] and [gf_functions_u64] this makes
    the byte kernels a reference for the 64-bit kernels. *)
Theorem tables_agree t1 t2 m len k rows data coding crc dc D outs (Ht1 : EcTable t1) (Ht2 : EcTable t2)
    (Hk : k = 1 ∨ k = 2) (Hpre : encode_pre m len rows data dc outs D)
    (Hks : wanted_parities k coding ≠ []) (Hlen : length coding ≥ k)
    (Houts : Forall2 (fun i o => coding !! i = Some o) (wanted_parities k coding) outs)
    (Hnd : NoDup outs) (Hcrc : ∀ i, i ∈ wanted_parities k coding → crc_ready crc (rows + i + 1)) :
  ∃ m1 m2 crc', run_encode t1 k len rows data coding crc dc m = Ok (m1, crc') ∧
    run_encode t2 k len rows data coding crc dc m = Ok (m2, crc') ∧
    ∀ q j, load8 m1 q j = load8 m2 q j.
Proof.
  destruct (et_encode (t := t1) m len k rows data coding crc dc D outs Hk Hpre Hks Hlen Houts Hnd Hcrc)
    as (m1 & crc1 & R1 & T1 & S1 & F1 & C1).
  destruct (et_encode (t := t2) m len k rows data coding crc dc D outs Hk Hpre Hks Hlen Houts Hnd Hcrc)
    as (m2 & crc2 & R2 & T2 & S2 & F2 & C2).
  rewrite (crc_at_unique _ _ _ _ _ C2 C1) in R2. exists m1, m2, crc1. split_and!; [done..|].
  by eapply encode_unique.
Qed.

(** ** Concrete stripes *)
Module Stripe.
Definition D (i j : nat) : Z := (Z.of_nat (37 * i + 11 * j + 5) mod 256)%Z.
Definition row (f : nat → Z) : list Z := f <$> seq 0 8.
Definition zeros : list Z := replicate 8 0%Z.
Definition m : mem :=
{[0 := row (D 0); 1 := row (D 1); 2 := row (D 2); 3 := zeros; 4 := zeros; 5 := zeros; 6 := zeros]}.
Definition data : list ptr := [PTR 0; PTR 1; PTR 2].
Definition coding : list ptr := [PTR 3; PTR 4].
Definition found : list ptr := [NULL; PTR 1; NULL; PTR 3; PTR 4].
Definition new_data : list ptr := [PTR 5; PTR 6].
(** A machine with nothing but the two tables of the source. *)
Definition pf : platform :=
Platform (fun c w => crc_spec c (le_bytes 8 w)) None None None None false false false false.
Definition s : gf_state := GfState gf_funcs_initial true.

Lemma D_bytes : bytes D.
Proof. intros i j. apply Z.mod_pos_bound. lia. Qed.
Lemma pf_ok : platform_ok pf.
Proof. by split. Qed.
Lemma s_ok : gf_ok s.
Proof. by left. Qed.

Lemma below3 (P : nat → Prop) : P 0 → P 1 → P 2 → ∀ i, i < 3 → P i.
Proof. intros ? ? ? [|[|[|i]]] Hi; done || lia. Qed.

Lemma pre : encode_pre m 8 3 data None coding D.
Proof.
split; [done|unfold GF_MAX_D; lia|apply D_bytes| | |done|done].
- apply below3; eexists; (split; [reflexivity|]); apply holdsb_ok; vm_compute; reflexivity.
- intros o Ho. unfold coding in Ho. rewrite !elem_of_cons in Ho.
  destruct Ho as [->|[->|Ho]]; [| |by apply not_elem_of_nil in Ho];
    (split_and!; [done|apply validb_ok; vm_compute; reflexivity|apply below3; done]).
Qed.
End Stripe.



Lemma tables_agree_witness : ∃ m1 m2 crc',
  run_encode gf_functions_unoptimized 2 8 3 Stripe.data Stripe.coding (Some (replicate 5 0%Z)) None Stripe.m =
    Ok (m1, crc') ∧
  run_encode (gf_functions_u64 (crc32_insn Stripe.pf)) 2 8 3 Stripe.data Stripe.coding
    (Some (replicate 5 0%Z)) None Stripe.m = Ok (m2, crc') ∧
  ∀ q j, load8 m1 q j = load8 m2 q j.
Proof.
  apply (tables_agree _ _ Stripe.m 8 2 3 Stripe.data Stripe.coding (Some (replicate 5 0%Z)) None
    Stripe.D Stripe.coding unoptimized_table (u64_table _ (pf_insn _ Stripe.pf_ok))).
  - by right.
  - apply Stripe.pre.
  - done.
  - vm_compute. lia.
  - by repeat constructor.
  - apply (bool_decide_unpack _). vm_compute. exact I.
  - intros i Hi. assert (i < 2) by (unfold wanted_parities in Hi;
      apply list_elem_of_filter in Hi as [_ Hi]; apply elem_of_seq in Hi; lia).
    split; [rewrite length_replicate; lia|]. repeat constructor; done.
Defined.

(** Row 1 of three rewritten, the parities updated in place. *)
Module Rewrite.
Definition new (j : nat) : Z := (Z.of_nat (91 * j + 17) mod 256)%Z.
Definition m : mem :=
{[1 := Stripe.row (Stripe.D 1); 3 := Stripe.row (codeword 3 Stripe.D 3);
  4 := Stripe.row (codeword 3 Stripe.D 4); 7 := Stripe.row new]}.
Definition data : list ptr := [PTR 1; PTR 7; PTR 3; PTR 4].
End Rewrite.

Lemma update_reencodes_witness :
  let D' := upd Stripe.D 1 Rewrite.new in
  ∃ s1 m1 crc1,
    ec_encode_data_update Stripe.pf Stripe.s false 8 2 1 Rewrite.data Stripe.coding
      (Some (replicate 3 0%Z)) NULL Rewrite.m = Ok (GF_SUCCESS, s1, m1, crc1) ∧
    holds m1 (PTR 3) 8 (codeword 3 D' 3) ∧ (2 = 2 → holds m1 (PTR 4) 8 (codeword 3 D' (3 + 1))).
Proof.
  destruct (update_reencodes Stripe.pf Stripe.s Rewrite.m 8 2 1 3 Rewrite.data Stripe.coding
    (Some (replicate 3 0%Z)) NULL Stripe.D Rewrite.new (PTR 1) (PTR 7) (PTR 3) (PTR 4) (PTR 3) (PTR 4)
    Stripe.pf_ok Stripe.s_ok Stripe.D_bytes) as (s1 & m1 & crc1 & H0 & H1 & H2 & _).
  - lia.
  - vm_compute. lia.
  - split; [reflexivity|by right|lia| | | | | | | |done|].
    + intros j. split_and!; [apply Stripe.D_bytes|apply Z.mod_pos_bound; lia|..];
        apply codeword_bytes, Stripe.D_bytes.
    + split; [reflexivity|]. apply holdsb_ok. vm_compute. reflexivity.
    + split; [reflexivity|]. apply holdsb_ok. vm_compute. reflexivity.
    + split; [reflexivity|]. apply holdsb_ok. vm_compute. reflexivity.
    + intros _. split; [reflexivity|]. apply holdsb_ok. vm_compute. reflexivity.
    + split_and!; try done. apply validb_ok. vm_compute. reflexivity.
    + intros _. split_and!; try done. apply validb_ok. vm_compute. reflexivity.
    + split; [vm_compute; lia|]. repeat constructor; done.
  - exists s1, m1, crc1. split; [exact H0|]. split; [exact H1|exact H2].
Defined.
