(* ===== verification/RaidSlice.v ===== *)
(** * One slice of an erasure-coded volume

    Models [clnt/block/datapath_ec/nvmeibc_block_dp_ec_gf_praid.c]: the CRC of
    a block with its address as salt, and [nvmeibc_reed_solomon_fill_missing],
    which rebuilds lost blocks and computes parities.  Proved against the
    contract [EcTable]. *)
From Stdlib Require Import ZArith Lia.
From stdpp Require Import base list gmap numbers.
From S2P Require Import Prelude CMemory GaloisField Crc32c ErasureCode EcAlgebra KernelLemmas GfTable.
Local Open Scope nat_scope.

Definition N_MAX_RAID_SLICE_LEN : nat := 12.
Definition NVMEIBC_SECTOR_SIZE : nat := 4096.
Definition DEBUG_DI_SIZE : nat := 512.
Definition DEBUG_DI_SIZE_CALC (is_di_debug : bool) : nat :=
  if is_di_debug then DEBUG_DI_SIZE else NVMEIBC_SECTOR_SIZE.

(** [(1 << i) & bm] *)
Definition bit (bm : Z) (i : nat) : bool := Z.testbit bm (Z.of_nat i).
Definition GENMASK0 (n : nat) : Z := Z.ones (Z.of_nat n).
Definition not32 (x : Z) : Z := Z.lxor x (Z.ones 32).

(** The address, as the eight bytes of a local variable, is the salt. *)
Definition nvmeibc_rlba_to_salt (s : gf_state) (rlba : Z) : res Z :=
  ec_crc s {[0 := le_bytes 8 rlba]} (Z.ones 32) (PTR 0) 8.

Definition nvmeibc_calculate_edic_from_data_and_rlba (s : gf_state) (m : mem) (rlba : Z)
    (data : ptr) (debug_di_enabled : bool) : res Z :=
  salt ← nvmeibc_rlba_to_salt s rlba;
  c ← ec_crc s m salt data (DEBUG_DI_SIZE_CALC debug_di_enabled);
  Ok (not32 c).

(** [*crc[i] = v] on an array of pointers to CRC fields ([None] is [NULL]). *)
Definition crc_out (crc : list (option Z)) (i : nat) (v : Z) : res (list (option Z)) :=
  o ← aget crc i;
  match o with None => Fault NULL_DEREF | Some _ => aset crc i (Some v) end.

(** The uninitialised contents of the local arrays. *)
Record locals : Type := Locals {
  u_d : list nat;
  u_data : list ptr; u_new_data : list ptr; u_crc : list Z;
  u_data2 : list ptr; u_coding : list ptr; u_crc2 : list Z
}.

Definition rv_eio (rv : gf_return_val) (old : Z) : Z :=
  match rv with GF_SUCCESS => old | _ => (-5)%Z end.

Section calls.
Context (replicas slice_size snake_size : nat) (first_rlba : Z) (u : locals) (s : gf_state).

(** The address of block [i] of the slice; parities use the first address. *)
Definition srlba (i : nat) : Z := u64 (first_rlba + Z.of_nat (i * snake_size)).
Definition block_rlba (i : nat) : Z := if i <? slice_size then srlba i else first_rlba.

Definition decode_arrays (vec : list ptr) (in_bm tmp_out_bm crc_bm : Z) (parity_calculation : bool)
    : res (list ptr * list ptr * list Z * nat) :=
  for_up replicas (fun i '(data, new_data, crc, idx) =>
    v ← aget vec i;
    if bit in_bm i then
      data ← aset data i v;
      if is_null v then Fault BUG else Ok (data, new_data, crc, idx)
    else if bit tmp_out_bm i then
      data ← aset data i NULL;
      new_data ← aset new_data idx v;
      salt ← (if negb parity_calculation && bit crc_bm i
              then nvmeibc_rlba_to_salt s (block_rlba i) else Ok 0%Z);
      crc ← aset crc idx salt;
      Ok (data, new_data, crc, S idx)
    else
      data ← aset data i MINUS1;
      if negb parity_calculation && bit crc_bm i then Fault BUG
      else Ok (data, new_data, crc, idx)) (u_data u, u_new_data u, u_crc u, 0).

(** The CRCs of the rebuilt blocks, complemented, to their owners. *)
Definition decode_crcs (out_bm crc_bm : Z) (_crc : list Z) (crc : list (option Z))
    : res (list (option Z)) :=
  '(crc, _) ← for_up replicas (fun i '(crc, idx) =>
    if bit crc_bm i then
      c ← aget _crc idx; crc ← crc_out crc i (not32 c); Ok (crc, S idx)
    else if bit out_bm i then Ok (crc, S idx)
    else Ok (crc, idx)) (crc, 0);
  Ok crc.

Definition encode_arrays (vec : list ptr) (out_bm crc_bm : Z)
    : res (list ptr * list ptr * list Z * nat) :=
  for_up replicas (fun i '(data, coding, crc, idx) =>
    v ← aget vec i;
    if i <? slice_size then
      data ← aset data i v;
      if is_null v then Fault BUG else
      salt ← (if bit crc_bm i then nvmeibc_rlba_to_salt s (srlba i) else Ok 0%Z);
      crc ← aset crc i salt;
      Ok (data, coding, crc, idx)
    else if bit out_bm i then
      coding ← aset coding idx v;
      salt ← (if bit crc_bm i then nvmeibc_rlba_to_salt s first_rlba else Ok 0%Z);
      crc ← aset crc i salt;
      Ok (data, coding, crc, S idx)
    else
      coding ← aset coding idx NULL;
      crc ← aset crc i 0%Z;
      if bit crc_bm i then Fault BUG else Ok (data, coding, crc, S idx))
    (u_data2 u, u_coding u, u_crc2 u, 0).

Definition encode_crcs (crc_bm : Z) (_crc : list Z) (crc : list (option Z)) : res (list (option Z)) :=
  for_up replicas (fun i crc =>
    if bit crc_bm i then c ← aget _crc i; crc_out crc i (not32 c) else Ok crc) crc.

(** First half: restore data. *)
Definition fill_decode (pf : platform) (len : nat) (vec : list ptr) (in_bm tmp_out_bm out_bm crc_bm : Z)
    (parity_calculation : bool) (crc : list (option Z)) (m : mem)
    : res (Z * gf_state * mem * list (option Z)) :=
  '(data, new_data, _crc, _) ← decode_arrays vec in_bm tmp_out_bm crc_bm parity_calculation;
  '(rv, s, (m, _crc, _, _)) ←
    ec_decode_data pf s (u_d u) false len (replicas - slice_size) slice_size data new_data (Some _crc) m;
  crc ← (if parity_calculation then Ok crc
         else match _crc with None => Fault NULL_DEREF | Some l => decode_crcs out_bm crc_bm l crc end);
  Ok (rv_eio rv 0%Z, s, m, crc).

(** Second half: compute parities. *)
Definition fill_encode (pf : platform) (len : nat) (vec : list ptr) (cpy_vec : option (list ptr))
    (out_bm crc_bm rv0 : Z) (crc : list (option Z)) (m : mem)
    : res (Z * gf_state * mem * list (option Z)) :=
  '(data, coding, _crc, _) ← encode_arrays vec out_bm crc_bm;
  '(rv, s, m, _crc) ←
    ec_encode_data pf s false len (replicas - slice_size) slice_size data coding (Some _crc) cpy_vec m;
  crc ← match _crc with None => Fault NULL_DEREF | Some l => encode_crcs crc_bm l crc end;
  Ok (rv_eio rv rv0, s, m, crc).
End calls.

(** What the bitmaps ask for. *)
Definition data_restoration (slice_size : nat) (out_bm : Z) : bool :=
  negb (Z.land out_bm (GENMASK0 slice_size) =? 0)%Z.
Definition parity_calculation (slice_size : nat) (out_bm : Z) : bool :=
  negb (Z.shiftr out_bm (Z.of_nat slice_size) =? 0)%Z.
Definition missing_input (slice_size : nat) (in_bm : Z) : Z :=
  Z.land (Z.lxor in_bm (GENMASK0 slice_size)) (GENMASK0 slice_size).
(** Missing input that is not in the output. *)
Definition extra_restoration (slice_size : nat) (in_bm out_bm : Z) : bool :=
  negb (data_restoration slice_size out_bm) && negb (missing_input slice_size in_bm =? 0)%Z.
Definition tmp_out_bm (slice_size : nat) (in_bm out_bm : Z) : Z :=
  if extra_restoration slice_size in_bm out_bm then Z.lor out_bm (missing_input slice_size in_bm)
  else out_bm.

Definition nvmeibc_reed_solomon_fill_missing (pf : platform) (s : gf_state) (u : locals)
    (replicas slice_size snake_size : nat) (vec : list ptr) (cpy_vec : option (list ptr))
    (crc : list (option Z)) (in_bm out_bm crc_bm first_rlba : Z) (is_di_debug : bool) (m : mem)
    : res (Z * gf_state * mem * list (option Z)) :=
  let len := DEBUG_DI_SIZE_CALC is_di_debug in
  '(rv, s, m, crc) ←
    (if data_restoration slice_size out_bm || extra_restoration slice_size in_bm out_bm
     then fill_decode replicas slice_size snake_size first_rlba u s pf len vec
            in_bm (tmp_out_bm slice_size in_bm out_bm) out_bm crc_bm
            (parity_calculation slice_size out_bm) crc m
     else Ok (0%Z, s, m, crc));
  if parity_calculation slice_size out_bm
  then fill_encode replicas slice_size snake_size first_rlba u s pf len vec cpy_vec
         out_bm crc_bm rv crc m
  else Ok (rv, s, m, crc).

(** ** Salts *)
Definition salt (rlba : Z) : Z := crc_spec (Z.ones 32) (le_bytes 8 rlba).

Lemma ones32_range : crc_range (Z.ones 32).
Proof. done. Qed.

Lemma salt_range rlba : crc_range (salt rlba).
Proof. apply crc_spec_range; [done|]. apply le_bytes_range. Qed.

Lemma le_bytes_fmap n w : (fun k => le_byte k w) <$> seq 0 n = le_bytes n w.
Proof.
  apply list_eq. intros k. destruct (decide (k < n)).
  - by rewrite list_lookup_fmap, lookup_seq_lt, le_bytes_lookup by lia.
  - rewrite (lookup_ge_None_2 (le_bytes n w)) by (rewrite length_le_bytes; lia).
    apply lookup_ge_None_2. rewrite length_fmap, length_seq. lia.
Qed.

Lemma rlba_to_salt_ok s rlba : EcTable (gf_funcs s) → nvmeibc_rlba_to_salt s rlba = Ok (salt rlba).
Proof.
  intros [_ _ _ _ (f & Hf & Hspec)]. unfold nvmeibc_rlba_to_salt, ec_crc. rewrite Hf. cbn [fptr]. rstep.
  rewrite (Hspec _ _ _ _ (fun k => le_byte k rlba)).
  - rewrite le_bytes_fmap. unfold salt. reflexivity.
  - reflexivity.
  - intros j Hj. unfold load8. rewrite lookup_singleton_eq, le_bytes_lookup by exact Hj. reflexivity.
  - intros j. apply le_byte_range.
  - apply ones32_range.
Qed.

#[local] Opaque crc_spec salt.

Lemma edic_ok s m rlba p f dbg : EcTable (gf_funcs s) →
  holds m p (DEBUG_DI_SIZE_CALC dbg) f → (∀ j, byte_range (f j)) →
  nvmeibc_calculate_edic_from_data_and_rlba s m rlba p dbg =
  Ok (not32 (crc_spec (salt rlba) (f <$> seq 0 (DEBUG_DI_SIZE_CALC dbg)))).
Proof.
  intros Ht Hh Hf. unfold nvmeibc_calculate_edic_from_data_and_rlba.
  rewrite rlba_to_salt_ok by done. rstep. destruct Ht as [_ _ _ _ (g & Hg & Hspec)].
  unfold ec_crc. rewrite Hg. cbn [fptr]. rstep. rewrite (Hspec _ _ _ _ f); [reflexivity| |exact Hh|exact Hf|apply salt_range].
  destruct dbg; vm_compute; reflexivity.
Qed.

(** ** The arrays of a decode call *)

(** The blocks to rebuild, in order. *)
Definition outputs (bm : Z) (n : nat) : list nat := filter (fun i => bit bm i = true) (seq 0 n).

Lemma outputs_S bm n : outputs bm (S n) = outputs bm n ++ (if bit bm n then [n] else []).
Proof.
  unfold outputs. rewrite seq_S, list.filter_app. cbn [Nat.add].
  rewrite filter_cons, filter_nil. by destruct (bit bm n).
Qed.

Lemma outputs_le bm n : length (outputs bm n) ≤ n.
Proof. induction n as [|n IH]; [done|]. rewrite outputs_S, length_app. destruct (bit bm n); simpl; lia. Qed.

Lemma outputs_app bm n k : ∃ l, outputs bm (n + k) = outputs bm n ++ l.
Proof. unfold outputs. rewrite seq_app, list.filter_app. eauto. Qed.

(** Block [i] is at the position of the blocks before it. *)
Lemma outputs_at bm n i : i < n → bit bm i = true → outputs bm n !! length (outputs bm i) = Some i.
Proof.
  intros Hi Hb. replace n with (S i + (n - S i)) by lia. destruct (outputs_app bm (S i) (n - S i)) as [l ->].
  rewrite outputs_S, Hb, lookup_app_l, lookup_app_r by (rewrite ?length_app; simpl; lia).
  by rewrite Nat.sub_diag.
Qed.

Lemma elem_of_outputs bm n i : i ∈ outputs bm n ↔ bit bm i = true ∧ i < n.
Proof. unfold outputs. rewrite list_elem_of_filter, elem_of_seq. naive_solver lia. Qed.

Section decode_side.
Context (replicas slice_size snake_size : nat) (first_rlba : Z) (u : locals) (s : gf_state).
Context (Ht : EcTable (gf_funcs s)).
Context (vec : list ptr) (in_bm tmp crc_bm : Z) (parity : bool).
Context (Hvec : length vec = N_MAX_RAID_SLICE_LEN) (Hrep : replicas ≤ N_MAX_RAID_SLICE_LEN).
Context (Hin : ∀ i, i < replicas → bit in_bm i = true → vec !! i ≠ Some NULL).
Context (Hcrc : parity = false → ∀ i, i < replicas → bit crc_bm i = true → bit tmp i = true).
Context (Hdis : ∀ i, i < replicas → bit tmp i = true → bit in_bm i = false).
Context (Hu1 : length (u_data u) = N_MAX_RAID_SLICE_LEN).
Context (Hu2 : length (u_new_data u) = N_MAX_RAID_SLICE_LEN).
Context (Hu3 : length (u_crc u) = N_MAX_RAID_SLICE_LEN) (Hu3r : Forall crc_range (u_crc u)).

Definition cell (i : nat) : option ptr :=
  if bit in_bm i then vec !! i else if bit tmp i then Some NULL else Some MINUS1.
Definition seed (i : nat) : Z :=
  if negb parity && bit crc_bm i then salt (block_rlba slice_size snake_size first_rlba i) else 0%Z.

Lemma seed_range i : crc_range (seed i).
Proof. unfold seed. destruct (_ && _); [apply salt_range|done]. Qed.

Lemma decode_arrays_ok : ∃ data new_data crc,
  decode_arrays replicas slice_size snake_size first_rlba u s vec in_bm tmp crc_bm parity =
    Ok (data, new_data, crc, length (outputs tmp replicas)) ∧
  length data = N_MAX_RAID_SLICE_LEN ∧ length new_data = N_MAX_RAID_SLICE_LEN ∧
  length crc = N_MAX_RAID_SLICE_LEN ∧ Forall crc_range crc ∧
  (∀ i, i < replicas → data !! i = cell i) ∧
  (∀ n i, outputs tmp replicas !! n = Some i → new_data !! n = vec !! i ∧ crc !! n = Some (seed i)).
Proof using Ht Hvec Hrep Hin Hcrc Hdis Hu1 Hu2 Hu3 Hu3r.
  unfold decode_arrays. match goal with |- context [for_up _ ?body _] =>
    destruct (for_up_inv body (fun n st => let '(data, new_data, crc, idx) := st in
      idx = length (outputs tmp n) ∧ length data = N_MAX_RAID_SLICE_LEN ∧
      length new_data = N_MAX_RAID_SLICE_LEN ∧ length crc = N_MAX_RAID_SLICE_LEN ∧
      Forall crc_range crc ∧ (∀ i, i < n → data !! i = cell i) ∧
      (∀ k i, outputs tmp n !! k = Some i → new_data !! k = vec !! i ∧ crc !! k = Some (seed i)))
      replicas (u_data u, u_new_data u, u_crc u, 0)) as ([[[data nd] crc] idx] & Hrun & H) end.
  - split_and!; try done. lia.
  - intros n [[[data nd] crc] idx] Hn (-> & Hl1 & Hl2 & Hl3 & Hr & Hd & Ho).
    destruct (lookup_lt_is_Some_2 vec n) as [v Hv]; [lia|]. unfold aget. rewrite Hv. rstep.
    pose proof (outputs_le tmp n) as Hle. rewrite outputs_S.
    assert (∀ d, cell n = Some d → ∀ i, i < S n → <[n:=d]> data !! i = cell i) as Hset.
    { intros d Hc i Hi. destruct (decide (i = n)) as [->|].
      - by rewrite list_lookup_insert_eq by lia.
      - rewrite list_lookup_insert_ne by done. apply Hd. lia. }
    unfold cell in Hset at 1. destruct (bit in_bm n) eqn:Ein; [|destruct (bit tmp n) eqn:Etmp].
    + rewrite aset_ok by lia. rstep. unfold is_null. rewrite bool_decide_false.
      2:{ intros ->. by apply (Hin n). }
      assert (bit tmp n = false) as ->.
      { destruct (bit tmp n) eqn:E; [|done]. rewrite Hdis in Ein by done. done. }
      eexists. split; [done|]. rewrite app_nil_r, length_insert. split_and!; auto.
    + rewrite !aset_ok by lia. rstep.
      assert ((if negb parity && bit crc_bm n
        then nvmeibc_rlba_to_salt s (block_rlba slice_size snake_size first_rlba n) else Ok 0%Z)
        = Ok (seed n)) as ->.
      { unfold seed. destruct (_ && _); [by apply rlba_to_salt_ok|done]. }
      rstep. rewrite aset_ok by lia. rstep. eexists. split; [done|].
      rewrite length_app, !length_insert. cbn [length]. split_and!; try done; try lia.
      * apply Forall_insert; [done|apply seed_range].
      * by apply Hset.
      * intros k i [Hk|[Hk Hi]]%lookup_app_Some.
        -- rewrite !list_lookup_insert_ne by (apply lookup_lt_Some in Hk; lia). auto.
        -- apply list_lookup_singleton_Some in Hi as [Hk0 <-].
           replace k with (length (outputs tmp n)) by lia. rewrite !list_lookup_insert_eq by lia. done.
    + rewrite aset_ok by lia. rstep.
      assert (negb parity && bit crc_bm n = false) as ->.
      { destruct parity; [done|]. destruct (bit crc_bm n) eqn:E; [|done]. by rewrite Hcrc in Etmp. }
      eexists. split; [done|]. rewrite app_nil_r, length_insert. split_and!; auto.
  - destruct H as (-> & ?). rewrite Hrun. eauto 10.
Qed.
End decode_side.

(** ** Handing the CRCs out *)
Definition crcs_set (n : nat) (crc_bm : Z) (val : nat → Z) (crc crc' : list (option Z)) : Prop :=
  length crc' = length crc ∧
  ∀ i, crc' !! i = if decide (i < n ∧ bit crc_bm i = true) then Some (Some (not32 (val i))) else crc !! i.

Lemma crcs_set_step n crc_bm val crc crc1 x :
  crcs_set n crc_bm val crc crc1 → crc !! n = Some (Some x) → bit crc_bm n = true →
  ∃ crc2, crc_out crc1 n (not32 (val n)) = Ok crc2 ∧ crcs_set (S n) crc_bm val crc crc2.
Proof.
  intros [Hl Hat] Hx Hb. unfold crc_out, aget.
  assert (crc1 !! n = Some (Some x)) as -> by (by rewrite Hat, decide_False by lia). rstep.
  assert (n < length crc1) by (rewrite Hl; eauto using lookup_lt_Some).
  rewrite aset_ok by done. eexists. split; [done|]. split; [by rewrite length_insert|].
  intros i. destruct (decide (i = n)) as [->|].
  - rewrite list_lookup_insert_eq by done. by rewrite decide_True by (split; [lia|done]).
  - rewrite list_lookup_insert_ne, Hat by done. apply decide_ext. split; intros [? ?]; (split; [lia|done]).
Qed.

Lemma crcs_set_skip n crc_bm val crc crc1 : crcs_set n crc_bm val crc crc1 → bit crc_bm n = false →
  crcs_set (S n) crc_bm val crc crc1.
Proof.
  intros [Hl Hat] Hb. split; [done|]. intros i. rewrite Hat. apply decide_ext.
  split; intros [? ?]; (split; [|done]); [lia|]. destruct (decide (i = n)) as [->|]; [congruence|lia].
Qed.

Lemma crcs_set_0 crc_bm val crc : crcs_set 0 crc_bm val crc crc.
Proof. split; [done|]. intros i. by rewrite decide_False by lia. Qed.

Lemma crcs_set_ext n crc_bm val val' crc crc' : (∀ i, i < n → bit crc_bm i = true → val i = val' i) →
  crcs_set n crc_bm val crc crc' → crcs_set n crc_bm val' crc crc'.
Proof.
  intros Hv [Hl H]. split; [done|]. intros i. rewrite H. case_decide as Hc; [|done].
  destruct Hc. by rewrite Hv.
Qed.

Section hand_out.
Context (replicas : nat) (crc_bm : Z) (val : nat → Z) (crc : list (option Z)).
Context (Hptr : ∀ i, i < replicas → bit crc_bm i = true → ∃ x, crc !! i = Some (Some x)).

Lemma decode_crcs_ok out_bm _crc : (∀ i, i < replicas → bit crc_bm i = true → bit out_bm i = true) →
  (∀ n i, outputs out_bm replicas !! n = Some i → bit crc_bm i = true → _crc !! n = Some (val i)) →
  ∃ crc', decode_crcs replicas out_bm crc_bm _crc crc = Ok crc' ∧
          crcs_set replicas crc_bm val crc crc'.
Proof using Hptr.
  intros Hsub Hval. unfold decode_crcs. match goal with |- context [for_up _ ?body _] =>
    destruct (for_up_inv body (fun n st => st.2 = length (outputs out_bm n) ∧
      crcs_set n crc_bm val crc st.1) replicas (crc, 0)) as ([crc' idx] & -> & _ & H) end.
  - split; [done|apply crcs_set_0].
  - intros n [crc1 idx] Hn [Hidx Hset]. cbn [fst snd] in *. subst idx. rewrite outputs_S.
    destruct (bit crc_bm n) eqn:Ec.
    + rewrite Hsub by done. destruct (Hptr n Hn Ec) as [x Hx].
      destruct (crcs_set_step n crc_bm val crc crc1 x Hset Hx Ec) as (crc2 & Hrun & Hset2).
      unfold aget. rewrite (Hval _ n); [|apply outputs_at; [done|]; by apply Hsub|done].
      rstep. rewrite Hrun. rstep. eexists. split; [done|]. rewrite length_app. cbn. split; [lia|done].
    + apply (crcs_set_skip n) in Hset; [|done].
      destruct (bit out_bm n); eexists; (split; [done|]); rewrite ?length_app, ?app_nil_r; cbn; (split; [lia|done]).
  - rstep. eauto.
Qed.

Lemma encode_crcs_ok _crc :
  (∀ i, i < replicas → bit crc_bm i = true → _crc !! i = Some (val i)) →
  ∃ crc', encode_crcs replicas crc_bm _crc crc = Ok crc' ∧ crcs_set replicas crc_bm val crc crc'.
Proof using Hptr.
  intros Hval. unfold encode_crcs. apply for_up_inv with (I := fun n c => crcs_set n crc_bm val crc c).
  - apply crcs_set_0.
  - intros n crc1 Hn Hset. destruct (bit crc_bm n) eqn:Ec.
    + destruct (Hptr n Hn Ec) as [x Hx]. unfold aget. rewrite Hval by done. rstep. by eapply crcs_set_step.
    + eexists. split; [done|]. by apply crcs_set_skip.
Qed.
End hand_out.

(** ** Restoring data *)
Record locals_ok (u : locals) : Prop := {
  lo_d : length (u_d u) = 2;
  lo_data : length (u_data u) = N_MAX_RAID_SLICE_LEN;
  lo_new : length (u_new_data u) = N_MAX_RAID_SLICE_LEN;
  lo_crc : length (u_crc u) = N_MAX_RAID_SLICE_LEN ∧ Forall crc_range (u_crc u);
  lo_data2 : length (u_data2 u) = N_MAX_RAID_SLICE_LEN;
  lo_coding : length (u_coding u) = N_MAX_RAID_SLICE_LEN;
  lo_crc2 : length (u_crc2 u) = N_MAX_RAID_SLICE_LEN ∧ Forall crc_range (u_crc2 u)
}.

(** Blocks of the slice that are not available as input. *)
Definition missing_blocks (in_bm : Z) (n : nat) : list nat :=
  filter (fun i => bit in_bm i = false) (seq 0 n).

(** The slice in memory: the available blocks hold the codeword of [D], no two
    blocks share a buffer, at most as many are missing as there are parities. *)
Record slice_in (m : mem) (len replicas slice_size : nat) (vec : list ptr) (in_bm : Z)
    (D : nat → nat → Z) : Prop := {
  si_len : len mod 8 = 0;
  si_shape : 0 < slice_size ∧ (replicas - slice_size = 1 ∨ replicas - slice_size = 2) ∧
             slice_size < replicas ≤ N_MAX_RAID_SLICE_LEN;
  si_vec : length vec = N_MAX_RAID_SLICE_LEN;
  si_bytes : bytes D;
  si_in : ∀ i, i < replicas → bit in_bm i = true →
    ∃ p, vec !! i = Some p ∧ p ≠ NULL ∧ p ≠ MINUS1 ∧ holds m p len (codeword slice_size D i);
  si_inj : ∀ i j o, i < replicas → j < replicas → vec !! i = Some o → vec !! j = Some o →
    o ≠ NULL → i = j;
  si_count : length (missing_blocks in_bm replicas) ≤ replicas - slice_size
}.

Definition out_buffer (m : mem) (len : nat) (vec : list ptr) (i : nat) : Prop :=
  ∃ o, vec !! i = Some o ∧ o ≠ NULL ∧ valid m o len.

Section cells.
Context (replicas slice_size : nat) (vec data : list ptr) (in_bm tmp : Z).
Context (Hdata : ∀ i, i < replicas → data !! i = cell vec in_bm tmp i).
Context (Hslice : slice_size ≤ replicas).
Context (Hin : ∀ i, i < replicas → bit in_bm i = true → ∃ p, vec !! i = Some p ∧ p ≠ NULL ∧ p ≠ MINUS1).

Lemma cell_lost i : i < replicas → lost data i ↔ bit in_bm i = false.
Proof using Hdata Hin.
  intros Hi. unfold lost. rewrite Hdata by done. unfold cell. destruct (bit in_bm i) eqn:E.
  - destruct (Hin i Hi E) as (p & -> & ? & ?). naive_solver.
  - destruct (bit tmp i); naive_solver.
Qed.

Lemma lost_rows_missing : lost_rows data slice_size = missing_blocks in_bm slice_size.
Proof using Hdata Hslice Hin.
  unfold lost_rows, missing_blocks. apply list_filter_iff_seq. intros i Hi. apply cell_lost. lia.
Qed.

Lemma lost_parities_missing : length (missing_blocks in_bm replicas) =
  length (lost_rows data slice_size) + length (lost_parities data slice_size (replicas - slice_size)).
Proof using Hdata Hslice Hin.
  rewrite lost_rows_missing. unfold missing_blocks at 1.
  replace replicas with (slice_size + (replicas - slice_size)) at 1 by lia.
  rewrite seq_app, list.filter_app, length_app. f_equal. rewrite Nat.add_0_l.
  replace (seq slice_size (replicas - slice_size))
    with (Nat.add slice_size <$> seq 0 (replicas - slice_size)) by (rewrite fmap_add_seq; f_equal; lia).
  rewrite length_filter_fmap. unfold lost_parities. f_equal. symmetry. apply list_filter_iff_seq. intros i Hi. apply cell_lost. lia.
Qed.

Lemma wanted_outputs : (∀ i, i < slice_size → bit tmp i = true → bit in_bm i = false) →
  wanted_rows data slice_size = outputs tmp slice_size.
Proof using Hdata Hslice Hin.
  intros Hdis. unfold wanted_rows, outputs. apply list_filter_iff_seq. intros i Hi.
  rewrite Hdata by lia. unfold cell. destruct (bit in_bm i) eqn:E.
  - destruct (Hin i ltac:(lia) E) as (p & -> & ? & ?). split; [naive_solver|].
    intros Ht. by rewrite Hdis in E.
  - destruct (bit tmp i); naive_solver.
Qed.
End cells.

Section restore.
Context (pf : platform) (s : gf_state) (u : locals).
Context (Ht : EcTable (gf_funcs s)) (Hu : locals_ok u).
Context (replicas slice_size snake_size : nat) (first_rlba : Z).
Context (vec : list ptr) (in_bm tmp : Z) (m : mem) (len : nat) (D : nat → nat → Z).
Context (Hin : slice_in m len replicas slice_size vec in_bm D).
Context (Hdis : ∀ i, i < replicas → bit tmp i = true → bit in_bm i = false).
Context (Hout : ∀ i, i < slice_size → bit tmp i = true → out_buffer m len vec i).
Context (Hsome : outputs tmp slice_size ≠ []).

Lemma slice_in_ptr i : i < replicas → bit in_bm i = true →
  ∃ p, vec !! i = Some p ∧ p ≠ NULL ∧ p ≠ MINUS1.
Proof using Hin. intros Hi Hb. destruct (si_in _ _ _ _ _ _ _ Hin i Hi Hb) as (p & ? & ? & ? & _). eauto. Qed.

Lemma outputs_prefix n i : outputs tmp slice_size !! n = Some i → outputs tmp replicas !! n = Some i.
Proof using Hin.
  intros H. destruct (si_shape _ _ _ _ _ _ _ Hin) as (_ & _ & ? & _).
  destruct (outputs_app tmp slice_size (replicas - slice_size)) as [l E].
  replace (slice_size + (replicas - slice_size)) with replicas in E by lia. rewrite E.
  by apply lookup_app_l_Some.
Qed.

(** The arrays built from the bitmaps meet the contract of [ec_decode_data]. *)
Lemma slice_decode_pre data new_data crc :
  length data = N_MAX_RAID_SLICE_LEN → length new_data = N_MAX_RAID_SLICE_LEN →
  length crc = N_MAX_RAID_SLICE_LEN → Forall crc_range crc →
  (∀ i, i < replicas → data !! i = cell vec in_bm tmp i) →
  (∀ n i, outputs tmp replicas !! n = Some i → new_data !! n = vec !! i) →
  decode_pre m len (replicas - slice_size) slice_size data new_data (Some crc) D ∧
  wanted_rows data slice_size = outputs tmp slice_size.
Proof using Hin Hdis Hout Hsome.
  intros Hl1 Hl2 Hl3 Hr Hd Hn. pose proof Hin as [H8 (Hs0 & Hk & Hsl & H12) Hvec HD Hblk Hinj Hcnt].
  assert (∀ i, i < replicas → lost data i ↔ bit in_bm i = false) as Hlost.
  { intros i Hi. by apply (cell_lost replicas vec data in_bm tmp Hd slice_in_ptr). }
  assert (wanted_rows data slice_size = outputs tmp slice_size) as Hw.
  { apply (wanted_outputs replicas slice_size vec data in_bm tmp Hd ltac:(lia) slice_in_ptr).
    intros. apply Hdis; [lia|done]. }
  assert (∀ n, n < length (outputs tmp slice_size) → ∃ i, outputs tmp slice_size !! n = Some i ∧
    i < slice_size ∧ bit tmp i = true ∧ new_data !! n = vec !! i) as Hnth.
  { intros n Hlt. destruct (lookup_lt_is_Some_2 _ _ Hlt) as [i Hi]. exists i.
    pose proof (list_elem_of_lookup_2 _ _ _ Hi) as [? ?]%elem_of_outputs.
    split_and!; [done..|]. apply Hn. by apply outputs_prefix. }
  split; [|done]. rewrite lost_parities_missing with (slice_size := slice_size) (vec := vec) (data := data) (tmp := tmp)
    in Hcnt by (done || lia || apply slice_in_ptr).
  split; rewrite ?Hw; try done; unfold N_MAX_RAID_SLICE_LEN, GF_MAX_D in *; try lia.
  - intros i Hi Hl. rewrite Hlost in Hl by lia. apply not_false_iff_true in Hl.
    destruct (Hblk i ltac:(lia) Hl) as (p & Hp & _ & _ & Hh). exists p.
    rewrite Hd by lia. unfold cell. rewrite Hl. split; [done|].
    eapply holds_ext; [|exact Hh]. intros. by apply codeword_data.
  - intros i Hi Hl. rewrite Hlost in Hl by lia. apply not_false_iff_true in Hl.
    destruct (Hblk (slice_size + i) ltac:(lia) Hl) as (p & Hp & _ & _ & Hh). exists p.
    rewrite Hd by lia. unfold cell. by rewrite Hl.
  - intros n Hlt. destruct (Hnth n Hlt) as (i & _ & Hi & Hb & ->). by apply Hout.
  - intros n n' o Hlt Hlt' Ho Ho'. destruct (Hnth n Hlt) as (i & Hi & Hil & Hb & E).
    destruct (Hnth n' Hlt') as (i' & Hi' & Hil' & Hb' & E'). rewrite E in Ho. rewrite E' in Ho'.
    assert (i = i') as ->.
    { apply (Hinj i i' o); [lia|lia|done|done|]. destruct (Hout i Hil Hb) as (o' & ? & ? & _). congruence. }
    eapply NoDup_lookup; [|exact Hi|exact Hi']. apply list.NoDup_filter, NoDup_seq.
  - split; [|done]. lia.
Qed.

Lemma decode_data_run data new_data crc : 
  decode_pre m len (replicas - slice_size) slice_size data new_data (Some crc) D →
  ∃ m' crc' d' n',
    ec_decode_data pf s (u_d u) false len (replicas - slice_size) slice_size data new_data (Some crc) m =
      Ok (GF_SUCCESS, s, (m', Some crc', d', n')) ∧
    (∀ n i o, wanted_rows data slice_size !! n = Some i → new_data !! n = Some o → holds m' o len (D i)) ∧
    touched m m' len (fun q => ∃ n, n < length (wanted_rows data slice_size) ∧ new_data !! n = Some q) ∧
    crc_at (Some crc) (Some crc') (fun n => if decide (n < length (wanted_rows data slice_size)) then len else 0)
      (fun n => D (wanted_rows data slice_size !!! n)).
Proof using Ht Hu.
  intros Hpre. destruct (et_decode (u_d u) (lo_d u Hu) m len _ _ data new_data (Some crc) D Hpre)
    as (m' & [crc'|] & d' & n' & Hrun & Hh & Htc & Hc); [|done].
  exists m', crc', d', n'. split_and!; try done. unfold ec_decode_data.
  rewrite (proj2 (proj2 (et_entries (t := gf_funcs s)))). unfold init_if. rewrite Hrun. done.
Qed.

Lemma fill_decode_ok out_bm crc_bm parity crc :
  (parity = false → tmp = out_bm ∧ (∀ i, i < replicas → bit crc_bm i = true → bit tmp i = true) ∧
    (∀ i, slice_size ≤ i → i < replicas → bit tmp i = false)) →
  (∀ i, i < replicas → bit crc_bm i = true → ∃ x, crc !! i = Some (Some x)) →
  ∃ m' crc', fill_decode replicas slice_size snake_size first_rlba u s pf len vec
      in_bm tmp out_bm crc_bm parity crc m = Ok (0%Z, s, m', crc') ∧
    (∀ i o, i < slice_size → bit tmp i = true → vec !! i = Some o → holds m' o len (D i)) ∧
    touched m m' len (fun q => ∃ i, i < slice_size ∧ bit tmp i = true ∧ vec !! i = Some q) ∧
    if parity then crc' = crc
    else crcs_set replicas crc_bm (fun i =>
           crc_spec (salt (block_rlba slice_size snake_size first_rlba i)) (D i <$> seq 0 len)) crc crc'.
Proof using Ht Hu Hin Hdis Hout Hsome.
  intros Hnp Hptr. destruct (si_shape _ _ _ _ _ _ _ Hin) as (_ & _ & Hsl & H12).
  destruct (decode_arrays_ok replicas slice_size snake_size first_rlba u s Ht vec in_bm tmp crc_bm parity
    (si_vec _ _ _ _ _ _ _ Hin) H12) as (data & nd & cr & Hrun & Hl1 & Hl2 & Hl3 & Hr & Hd & Ho).
  { intros i Hi Hb. destruct (slice_in_ptr i Hi Hb) as (p & -> & ? & _). congruence. }
  { intros Hp. by apply Hnp. } { done. }
  1-4: apply Hu.
  destruct (slice_decode_pre data nd cr Hl1 Hl2 Hl3 Hr Hd) as [Hpre Hw]; [naive_solver|].
  destruct (decode_data_run data nd cr Hpre) as (m' & cr' & d' & n' & Hrun2 & Hh & Htc & Hc).
  rewrite Hw in Hh, Htc, Hc. unfold fill_decode. rewrite Hrun. rstep. rewrite Hrun2. rstep.
  assert (∀ i, i < slice_size → bit tmp i = true →
    outputs tmp slice_size !! length (outputs tmp i) = Some i ∧ nd !! length (outputs tmp i) = vec !! i) as Hpos.
  { intros i Hi Hb. pose proof (outputs_at tmp slice_size i Hi Hb) as E. split; [done|].
    by apply Ho, outputs_prefix. }
  assert (∀ i o, i < slice_size → bit tmp i = true → vec !! i = Some o → holds m' o len (D i)) as Hres.
  { intros i o Hi Hb Hv. destruct (Hpos i Hi Hb) as [E1 E2]. apply (Hh _ i o E1). congruence. }
  assert (touched m m' len (fun q => ∃ i, i < slice_size ∧ bit tmp i = true ∧ vec !! i = Some q)) as Htc'.
  { eapply touched_mono; [|exact Htc]. intros q (n & Hn & Hq).
    destruct (lookup_lt_is_Some_2 _ _ Hn) as [i Hi].
    pose proof (list_elem_of_lookup_2 _ _ _ Hi) as [? ?]%elem_of_outputs. exists i. split_and!; [done..|].
    destruct (Ho n i) as [<- _]; [by apply outputs_prefix|done]. }
  destruct parity.
  - rstep. do 2 eexists. split; [done|]. done.
  - destruct (Hnp eq_refl) as (<- & Hsub & Hdata).
    destruct (decode_crcs_ok replicas crc_bm (fun i =>
      crc_spec (salt (block_rlba slice_size snake_size first_rlba i)) (D i <$> seq 0 len)) crc Hptr
      tmp cr' Hsub) as (crc' & -> & Hset).
    { intros n i Hn Hb. pose proof (list_elem_of_lookup_2 _ _ _ Hn) as [Hbt Hi]%elem_of_outputs.
      assert (i < slice_size) as Hi'.
      { destruct (decide (i < slice_size)); [done|]. rewrite Hdata in Hbt by lia. done. }
      destruct (Ho n i Hn) as [_ Hcn]. unfold seed in Hcn. rewrite Hb in Hcn. cbn [negb andb] in Hcn.
      destruct Hc as [_ Hc]. rewrite (Hc n _ Hcn).
      destruct (Hpos i Hi' Hbt) as [E _]. pose proof (outputs_prefix _ _ E) as E'.
      assert (n = length (outputs tmp i)) as ->.
      { eapply NoDup_lookup; [|exact Hn|exact E']. apply list.NoDup_filter, NoDup_seq. }
      rewrite decide_True by (eauto using lookup_lt_Some).
      rewrite (list_lookup_total_correct _ _ _ E). reflexivity. }
    rstep. do 2 eexists. split; [reflexivity|]. split; [exact Hres|]. split; [exact Htc'|exact Hset].
Qed.
End restore.

(** ** Computing parities *)
Section encode_side.
Context (replicas slice_size snake_size : nat) (first_rlba : Z) (u : locals) (s : gf_state).
Context (Ht : EcTable (gf_funcs s)) (Hu : locals_ok u).
Context (vec : list ptr) (out_bm crc_bm : Z).
Context (Hvec : length vec = N_MAX_RAID_SLICE_LEN).
Context (Hshape : slice_size < replicas ≤ N_MAX_RAID_SLICE_LEN).
Context (Hptr : ∀ i, i < slice_size → vec !! i ≠ Some NULL).
Context (Hcrc : ∀ i, slice_size ≤ i → i < replicas → bit crc_bm i = true → bit out_bm i = true).

Definition coding_cell (j : nat) : option ptr :=
  if bit out_bm (slice_size + j) then vec !! (slice_size + j) else Some NULL.
Definition encode_seed (i : nat) : Z :=
  if bit crc_bm i then salt (block_rlba slice_size snake_size first_rlba i) else 0%Z.

Lemma encode_seed_range i : crc_range (encode_seed i).
Proof using. unfold encode_seed. destruct (bit crc_bm i); [apply salt_range|done]. Qed.

Lemma encode_arrays_ok : ∃ data coding crc,
  encode_arrays replicas slice_size snake_size first_rlba u s vec out_bm crc_bm =
    Ok (data, coding, crc, replicas - slice_size) ∧
  length data = N_MAX_RAID_SLICE_LEN ∧ length coding = N_MAX_RAID_SLICE_LEN ∧
  length crc = N_MAX_RAID_SLICE_LEN ∧ Forall crc_range crc ∧
  (∀ i, i < slice_size → data !! i = vec !! i) ∧
  (∀ j, j < replicas - slice_size → coding !! j = coding_cell j) ∧
  (∀ i, i < replicas → crc !! i = Some (encode_seed i)).
Proof using Ht Hu Hvec Hshape Hptr Hcrc.
  unfold encode_arrays. match goal with |- context [for_up _ ?body _] =>
    destruct (for_up_inv body (fun n st => let '(data, coding, crc, idx) := st in
      idx = n - slice_size ∧ length data = N_MAX_RAID_SLICE_LEN ∧
      length coding = N_MAX_RAID_SLICE_LEN ∧ length crc = N_MAX_RAID_SLICE_LEN ∧
      Forall crc_range crc ∧ (∀ i, i < n → i < slice_size → data !! i = vec !! i) ∧
      (∀ j, j < n - slice_size → coding !! j = coding_cell j) ∧
      (∀ i, i < n → crc !! i = Some (encode_seed i)))
      replicas (u_data2 u, u_coding u, u_crc2 u, 0)) as ([[[data cod] crc] idx] & Hrun & H) end.
  - destruct Hu as [_ _ _ _ Hl1 Hl2 [Hl3 Hr]]. split_and!; try done; lia.
  - intros n [[[data cod] crc] idx] Hn (-> & Hl1 & Hl2 & Hl3 & Hr & Hd & Hc & Hs).
    destruct (lookup_lt_is_Some_2 vec n) as [v Hv]; [lia|]. unfold aget. rewrite Hv. rstep.
    assert (∀ x, encode_seed n = x → Forall crc_range (<[n:=x]> crc) ∧
      ∀ i, i < S n → <[n:=x]> crc !! i = Some (encode_seed i)) as Hset.
    { intros x <-. split; [apply Forall_insert; [done|apply encode_seed_range]|].
      intros i Hi. destruct (decide (i = n)) as [->|].
      - by rewrite list_lookup_insert_eq by lia.
      - rewrite list_lookup_insert_ne by done. apply Hs. lia. }
    assert (∀ r, r = block_rlba slice_size snake_size first_rlba n →
      (if bit crc_bm n then nvmeibc_rlba_to_salt s r else Ok 0%Z) = Ok (encode_seed n)) as Hsalt.
    { intros r ->. unfold encode_seed. destruct (bit crc_bm n); [by apply rlba_to_salt_ok|done]. }
    unfold block_rlba in Hsalt. destruct (Nat.ltb_spec n slice_size) as [Hlt|Hge].
    + rewrite aset_ok by lia. rstep. unfold is_null. rewrite bool_decide_false.
      2:{ intros ->. by apply (Hptr n). }
      rewrite Hsalt by done. rstep. rewrite aset_ok by lia. rstep. eexists. split; [done|]. cbv beta iota.
      rewrite !length_insert. destruct (Hset _ eq_refl). split_and!; try done; try lia.
      * intros i Hi Hi'. destruct (decide (i = n)) as [->|].
        -- by rewrite list_lookup_insert_eq by lia.
        -- rewrite list_lookup_insert_ne by done. apply Hd; lia.
    + assert (∀ c, coding_cell (n - slice_size) = Some c → ∀ j, j < S n - slice_size →
        <[n - slice_size:=c]> cod !! j = coding_cell j) as Hcod.
      { intros c Hcc j Hj. destruct (decide (j = n - slice_size)) as [->|].
        - by rewrite list_lookup_insert_eq by lia.
        - rewrite list_lookup_insert_ne by done. apply Hc. lia. }
      unfold coding_cell in Hcod at 1. replace (slice_size + (n - slice_size)) with n in Hcod by lia.
      destruct (bit out_bm n) eqn:Eo.
      * rewrite aset_ok by lia. rstep. rewrite Hsalt by done. rstep. rewrite aset_ok by lia. rstep.
        eexists. split; [done|]. cbv beta iota. rewrite !length_insert. destruct (Hset _ eq_refl).
        split_and!; try done; try lia; [intros; apply Hd; lia|]. by apply Hcod.
      * rewrite !aset_ok by lia. rstep. 
        assert (bit crc_bm n = false) as Eb.
        { destruct (bit crc_bm n) eqn:E; [|done]. by rewrite Hcrc in Eo by done. }
        rewrite Eb. eexists. split; [done|]. cbv beta iota. rewrite !length_insert.
        destruct (Hset 0%Z) as [? ?]; [unfold encode_seed; by rewrite Eb|].
        split_and!; try done; try lia; [intros; apply Hd; lia|]. by apply Hcod.
  - destruct H as (-> & ? & ? & ? & ? & Hd & ? & ?). rewrite Hrun. do 3 eexists. split; [done|].
    split_and!; try done. intros. apply Hd; lia.
Qed.
End encode_side.

Section parities.
Context (pf : platform) (s : gf_state) (u : locals).
Context (Ht : EcTable (gf_funcs s)) (Hu : locals_ok u).
Context (replicas slice_size snake_size : nat) (first_rlba : Z).
Context (vec : list ptr) (cpy_vec : option (list ptr)) (out_bm crc_bm : Z).
Context (m : mem) (len : nat) (D : nat → nat → Z).
Context (H8 : len mod 8 = 0) (HD : bytes D) (Hvec : length vec = N_MAX_RAID_SLICE_LEN).
Context (Hs0 : 0 < slice_size) (Hk : replicas - slice_size = 1 ∨ replicas - slice_size = 2).
Context (Hshape : slice_size < replicas ≤ N_MAX_RAID_SLICE_LEN).
Context (Hdata : ∀ i, i < slice_size → ∃ p, vec !! i = Some p ∧ p ≠ NULL ∧ holds m p len (D i)).
Context (Hout : ∀ i, slice_size ≤ i → i < replicas → bit out_bm i = true → out_buffer m len vec i).
Context (Hinj : ∀ i j o, i < replicas → j < replicas → vec !! i = Some o → vec !! j = Some o →
           o ≠ NULL → i = j).
Context (Hsome : ∃ i, slice_size ≤ i ∧ i < replicas ∧ bit out_bm i = true).
Context (Hcpy : ∀ l, cpy_vec = Some l → slice_size ≤ length l).
Context (Hcopy : ∀ i c, i < slice_size → copy_at cpy_vec i = Some c → valid m c len ∧
           (∀ j, j < replicas → vec !! j ≠ Some c) ∧
           (∀ j, j < slice_size → j ≠ i → copy_at cpy_vec j ≠ Some c)).

Definition out_parities : list nat :=
  filter (fun j => bit out_bm (slice_size + j) = true) (seq 0 (replicas - slice_size)).
Definition out_ptr (j : nat) : ptr := default NULL (vec !! (slice_size + j)).

Lemma elem_of_out_parities j : j ∈ out_parities ↔
  j < replicas - slice_size ∧ bit out_bm (slice_size + j) = true.
Proof using All. unfold out_parities. rewrite list_elem_of_filter, elem_of_seq. naive_solver lia. Qed.

Lemma out_ptr_ok j : j ∈ out_parities →
  vec !! (slice_size + j) = Some (out_ptr j) ∧ out_ptr j ≠ NULL ∧ valid m (out_ptr j) len.
Proof using All.
  intros [Hj Hb]%elem_of_out_parities. destruct (Hout (slice_size + j)) as (o & Ho & ? & ?); [lia|lia|done|].
  unfold out_ptr. by rewrite Ho.
Qed.

Lemma slice_encode_pre data : (∀ i, i < slice_size → data !! i = vec !! i) →
  encode_pre m len slice_size data cpy_vec (out_ptr <$> out_parities) D ∧ NoDup (out_ptr <$> out_parities).
Proof using All.
  intros Hd. split.
  - split; try done.
    + unfold GF_MAX_D, N_MAX_RAID_SLICE_LEN in *. lia.
    + intros i Hi. destruct (Hdata i Hi) as (p & Hp & _ & Hh). exists p. by rewrite Hd.
    + intros o (j & -> & Hj)%list_elem_of_fmap. destruct (out_ptr_ok j Hj) as (Hv & Hn & Hval).
      split_and!; [done..|]. intros i Hi. rewrite Hd by done. intros E.
      apply elem_of_out_parities in Hj as [Hj _].
      assert (i = slice_size + j) by (eapply (Hinj i (slice_size + j)); eauto; lia). lia.
    + intros i c Hi Hc. destruct (Hcopy i c Hi Hc) as (Hval & Hno & Hdis). split_and!; [done| | |done].
      * intros (j & -> & Hj)%list_elem_of_fmap. destruct (out_ptr_ok j Hj) as (Hv & _ & _).
        apply elem_of_out_parities in Hj as [Hj _]. apply (Hno (slice_size + j)); [lia|done].
      * intros k Hk'. rewrite Hd by done. apply Hno. lia.
  - apply NoDup_fmap_2_strong.
    + intros j j' Hj Hj' E. destruct (out_ptr_ok j Hj) as (Hv & Hn & _), (out_ptr_ok j' Hj') as (Hv' & _ & _).
      apply elem_of_out_parities in Hj as [Hj _]. apply elem_of_out_parities in Hj' as [Hj' _].
      rewrite <-E in Hv'. enough (slice_size + j = slice_size + j') by lia.
      eapply Hinj; eauto; lia.
    + apply list.NoDup_filter, NoDup_seq.
Qed.

Lemma fill_encode_ok rv0 crc :
  (∀ i, slice_size ≤ i → i < replicas → bit crc_bm i = true → bit out_bm i = true) →
  (∀ i, i < replicas → bit crc_bm i = true → ∃ x, crc !! i = Some (Some x)) →
  ∃ m' crc', fill_encode replicas slice_size snake_size first_rlba u s pf len vec cpy_vec
      out_bm crc_bm rv0 crc m = Ok (rv0, s, m', crc') ∧
    (∀ i o, slice_size ≤ i → i < replicas → bit out_bm i = true → vec !! i = Some o →
       holds m' o len (codeword slice_size D i)) ∧
    touched m m' len (fun q => (∃ i, slice_size ≤ i ∧ i < replicas ∧ bit out_bm i = true ∧ vec !! i = Some q) ∨
                               (∃ i, i < slice_size ∧ copy_at cpy_vec i = Some q)) ∧
    crcs_set replicas crc_bm (fun i => crc_spec (salt (block_rlba slice_size snake_size first_rlba i))
      (codeword slice_size D i <$> seq 0 len)) crc crc'.
Proof using All.
  intros Hsub Hptr.
  destruct (encode_arrays_ok replicas slice_size snake_size first_rlba u s Ht Hu vec out_bm crc_bm Hvec Hshape)
    as (data & coding & cr & Hrun & Hl1 & Hl2 & Hl3 & Hr & Hd & Hc & Hcr); [|done|].
  { intros i Hi. destruct (Hdata i Hi) as (p & -> & ? & _). congruence. }
  destruct (slice_encode_pre data Hd) as [Hpre Hnd].
  assert (wanted_parities (replicas - slice_size) coding = out_parities) as Eks.
  { unfold wanted_parities, out_parities. apply list_filter_iff_seq. intros j Hj. rewrite Hc by done.
    unfold coding_cell. destruct (bit out_bm (slice_size + j)) eqn:Eb; [|naive_solver].
    destruct (out_ptr_ok j) as (-> & ? & _); [by apply elem_of_out_parities|]. naive_solver. }
  assert (out_parities ≠ []) as Hne.
  { destruct Hsome as (i & Hi1 & Hi2 & Hb). intros E. assert (i - slice_size ∈ out_parities) as Hin.
    - apply elem_of_out_parities. split; [lia|]. by replace (slice_size + (i - slice_size)) with i by lia.
    - rewrite E in Hin. set_solver. }
  destruct (et_encode (t := gf_funcs s) m len (replicas - slice_size) slice_size data coding (Some cr) cpy_vec
    D (out_ptr <$> out_parities) Hk Hpre) as (m' & [cr'|] & Hrun2 & Htc & _ & Hh & Hcat); rewrite ?Eks in *; try done.
  { unfold N_MAX_RAID_SLICE_LEN in *. lia. }
  { apply Forall2_fmap_r, Forall_Forall2_diag, Forall_lookup_2. intros n j Hj%list_elem_of_lookup_2.
    destruct (out_ptr_ok j Hj) as (Hv & _). apply elem_of_out_parities in Hj as [Hj Hb].
    rewrite Hc by done. unfold coding_cell. by rewrite Hb. }
  { intros j [Hj _]%elem_of_out_parities. split; [|done]. unfold N_MAX_RAID_SLICE_LEN in *. lia. }
  unfold fill_encode. rewrite Hrun. rstep. unfold ec_encode_data.
  rewrite (proj1 (et_entries (t := gf_funcs s))). unfold init_if. rewrite Hrun2. rstep.
  destruct (encode_crcs_ok replicas crc_bm (fun i =>
    crc_spec (salt (block_rlba slice_size snake_size first_rlba i))
      (codeword slice_size D i <$> seq 0 len)) crc Hptr cr') as (crc' & -> & Hset).
  { intros i Hi Hb. destruct Hcat as [_ Hcat]. rewrite (Hcat i _ (Hcr i Hi)). rewrite decide_True.
    - unfold encode_seed. by rewrite Hb.
    - destruct (decide (i < slice_size)); [by left|right]. apply elem_of_out_parities. split; [lia|].
      replace (slice_size + (i - slice_size)) with i by lia. apply Hsub; [lia|done|done]. }
  rstep. do 2 eexists. split; [done|]. split_and!; [| |done].
  - intros i o Hi1 Hi2 Hb Ho. apply Forall2_fmap_r in Hh. rewrite Forall2_same_length_lookup in Hh.
    destruct Hh as [_ Hh]. assert (i - slice_size ∈ out_parities) as Hin.
    { apply elem_of_out_parities. split; [lia|]. by replace (slice_size + (i - slice_size)) with i by lia. }
    apply list_elem_of_lookup in Hin as [n Hn]. specialize (Hh n _ _ Hn Hn). cbv beta in Hh.
    assert (slice_size + (i - slice_size) = i) as Ei by lia.
    assert (out_ptr (i - slice_size) = o) as Eo by (unfold out_ptr; by rewrite Ei, Ho).
    unfold compose in Hh. by rewrite Eo, Ei in Hh.
  - eapply touched_mono; [|exact Htc]. intros q [(j & -> & Hj)%list_elem_of_fmap|?]; [left|by right].
    destruct (out_ptr_ok j Hj) as (Hv & _). apply elem_of_out_parities in Hj as [Hj Hb].
    exists (slice_size + j). split_and!; [lia|lia|done|done].
Qed.
End parities.

(** ** Bitmaps *)
Lemma bits_exists bm lo n : (∀ i, lo ≤ i → i < n → bit bm i = false) ∨
  ∃ i, lo ≤ i ∧ i < n ∧ bit bm i = true.
Proof.
  induction n as [|n [IH|(i & ? & ? & ?)]]; [left; lia| |right; exists i; split_and!; (lia || done)].
  destruct (decide (lo ≤ n)) as [Hlo|Hlo].
  - destruct (bit bm n) eqn:E; [right; exists n; split_and!; (lia || done)|left].
    intros i ? ?. destruct (decide (i = n)) as [->|]; [done|]. apply IH; lia.
  - left. intros. apply IH; lia.
Qed.

Section bitmaps.
Context (replicas slice_size : nat) (out_bm : Z) (H0 : (0 ≤ out_bm < 2 ^ Z.of_nat replicas)%Z).

Lemma data_bits_zero x : (Z.land x (GENMASK0 slice_size) =? 0)%Z = true ↔
  ∀ i, i < slice_size → bit x i = false.
Proof using.
  clear H0. rewrite Z.eqb_eq. unfold GENMASK0, bit. split.
  - intros H i Hi. assert (Z.testbit (Z.land x (Z.ones (Z.of_nat slice_size))) (Z.of_nat i) = false) as E
      by (rewrite H; apply Z.bits_0).
    rewrite Z.land_spec, Z.ones_spec_low, andb_true_r in E by lia. done.
  - intros H. apply Z.bits_inj'. intros n Hn. rewrite Z.land_spec, Z.bits_0.
    destruct (Z.lt_ge_cases n (Z.of_nat slice_size)).
    + specialize (H (Z.to_nat n) ltac:(lia)). rewrite Z2Nat.id in H by lia. by rewrite H.
    + by rewrite Z.ones_spec_high, andb_false_r by lia.
Qed.

Lemma parity_bits_zero : (Z.shiftr out_bm (Z.of_nat slice_size) =? 0)%Z = true ↔
  ∀ i, slice_size ≤ i → i < replicas → bit out_bm i = false.
Proof using H0.
  rewrite Z.eqb_eq. unfold bit. split.
  - intros H i Hi _. assert (Z.testbit (Z.shiftr out_bm (Z.of_nat slice_size)) (Z.of_nat (i - slice_size)) = false)
      as E by (rewrite H; apply Z.bits_0).
    rewrite Z.shiftr_spec in E by lia. rewrite <-E. f_equal. lia.
  - intros H. apply Z.bits_inj'. intros n Hn. rewrite Z.shiftr_spec, Z.bits_0 by lia.
    destruct (Z.lt_ge_cases (n + Z.of_nat slice_size) (Z.of_nat replicas)).
    + specialize (H (Z.to_nat (n + Z.of_nat slice_size)) ltac:(lia) ltac:(lia)). by rewrite Z2Nat.id in H by lia.
    + by apply (testbit_high (Z.of_nat replicas)).
Qed.

Lemma missing_bit in_bm i :
  bit (Z.land (Z.lxor in_bm (GENMASK0 slice_size)) (GENMASK0 slice_size)) i =
  (i <? slice_size) && negb (bit in_bm i).
Proof using.
  clear H0. unfold bit, GENMASK0. rewrite Z.land_spec, Z.lxor_spec. destruct (Nat.ltb_spec i slice_size).
  - rewrite Z.ones_spec_low by lia. by destruct (Z.testbit in_bm (Z.of_nat i)).
  - by rewrite Z.ones_spec_high, andb_false_r by lia.
Qed.
End bitmaps.

Lemma bit_lor x y i : bit (Z.lor x y) i = bit x i || bit y i.
Proof. unfold bit. by rewrite Z.lor_spec. Qed.

(** Three missing blocks are too many for two parities. *)
Lemma missing_three in_bm n i j p : i < n → j < n → p < n → i ≠ j → i ≠ p → j ≠ p →
  bit in_bm i = false → bit in_bm j = false → bit in_bm p = false →
  3 ≤ length (missing_blocks in_bm n).
Proof.
  intros Hi Hj Hp Hij Hip Hjp Bi Bj Bp.
  apply (submseteq_length [i; j; p]), NoDup_submseteq.
  - repeat constructor; set_solver.
  - intros x Hx. unfold missing_blocks. rewrite list_elem_of_filter, elem_of_seq. set_solver by lia.
Qed.

Lemma out_in_tmp slice_size in_bm out_bm i : bit out_bm i = true →
  bit (tmp_out_bm slice_size in_bm out_bm) i = true.
Proof. intros Hb. unfold tmp_out_bm. destruct (extra_restoration _ _ _); [by rewrite bit_lor, Hb|done]. Qed.

(** ** The request *)
Record fill_request (m : mem) (len replicas slice_size : nat) (vec : list ptr)
    (cpy_vec : option (list ptr)) (crc : list (option Z)) (in_bm out_bm crc_bm : Z) : Prop := {
  fr_range : (0 ≤ out_bm < 2 ^ Z.of_nat replicas)%Z;
  fr_some : ∃ i, i < replicas ∧ bit out_bm i = true;
  fr_dis : ∀ i, i < replicas → bit out_bm i = true → bit in_bm i = false;
  fr_out : ∀ i, i < replicas → bit out_bm i = true → out_buffer m len vec i;
  (** parities need every data block, so a missing one needs a buffer *)
  fr_all : (∃ i, slice_size ≤ i ∧ i < replicas ∧ bit out_bm i = true) →
    ∀ i, i < slice_size → bit in_bm i = false → out_buffer m len vec i;
  fr_crc : ∀ i, i < replicas → bit crc_bm i = true → bit out_bm i = true ∨
    (i < slice_size ∧ ∃ j, slice_size ≤ j ∧ j < replicas ∧ bit out_bm j = true);
  fr_ptr : ∀ i, i < replicas → bit crc_bm i = true → ∃ x, crc !! i = Some (Some x);
  fr_cpy : ∀ l, cpy_vec = Some l → slice_size ≤ length l;
  fr_copy : ∀ i c, i < slice_size → copy_at cpy_vec i = Some c → valid m c len ∧
    (∀ j, j < replicas → vec !! j ≠ Some c) ∧
    (∀ j, j < slice_size → j ≠ i → copy_at cpy_vec j ≠ Some c)
}.

Section fill.
Context (pf : platform) (s : gf_state) (u : locals).
Context (Ht : EcTable (gf_funcs s)) (Hu : locals_ok u).
Context (replicas slice_size snake_size : nat) (first_rlba : Z).
Context (vec : list ptr) (cpy_vec : option (list ptr)) (crc : list (option Z)).
Context (in_bm out_bm crc_bm : Z) (m : mem) (len : nat) (D : nat → nat → Z).
Context (Hin : slice_in m len replicas slice_size vec in_bm D).
Context (Hreq : fill_request m len replicas slice_size vec cpy_vec crc in_bm out_bm crc_bm).

Local Abbreviation restore := (data_restoration slice_size out_bm).
Local Abbreviation missing := (missing_input slice_size in_bm).
Local Abbreviation extra := (extra_restoration slice_size in_bm out_bm).
Local Abbreviation tmp := (tmp_out_bm slice_size in_bm out_bm).
Local Abbreviation parity := (parity_calculation slice_size out_bm).

Lemma parity_iff : parity = true ↔ ∃ i, slice_size ≤ i ∧ i < replicas ∧ bit out_bm i = true.
Proof using All.
  unfold parity_calculation. pose proof (parity_bits_zero replicas slice_size out_bm (fr_range _ _ _ _ _ _ _ _ _ _ Hreq)) as H.
  destruct (Z.shiftr out_bm (Z.of_nat slice_size) =? 0)%Z; simpl.
  - split; [done|]. intros (i & ? & ? & E). by rewrite (proj1 H eq_refl) in E.
  - split; [|done]. intros _. destruct (bits_exists out_bm slice_size replicas) as [HF|?]; [|done].
    enough (false = true) by done. by apply H.
Qed.

Lemma restore_iff : restore = true ↔ ∃ i, i < slice_size ∧ bit out_bm i = true.
Proof using All.
  unfold data_restoration. pose proof (data_bits_zero slice_size out_bm) as H.
  destruct (Z.land out_bm (GENMASK0 slice_size) =? 0)%Z; simpl.
  - split; [done|]. intros (i & ? & E). by rewrite (proj1 H eq_refl) in E.
  - split; [|done]. intros _. destruct (bits_exists out_bm 0 slice_size) as [HF|(i & _ & ? & ?)]; [|eauto].
    enough (false = true) by done. apply H. intros. apply HF; lia.
Qed.

Lemma missing_bits i : bit missing i = (i <? slice_size) && negb (bit in_bm i).
Proof using All. apply missing_bit. Qed.

Lemma tmp_dis i : i < replicas → bit tmp i = true → bit in_bm i = false.
Proof using All.
  intros Hi. unfold tmp_out_bm. destruct extra; [|by apply (fr_dis _ _ _ _ _ _ _ _ _ _ Hreq)].
  rewrite bit_lor, missing_bits, orb_true_iff, andb_true_iff, negb_true_iff.
  intros [?|[_ ?]]; [|done]. by apply (fr_dis _ _ _ _ _ _ _ _ _ _ Hreq).
Qed.

(** When parities are wanted, every missing data block is rebuilt first. *)
Lemma tmp_all : parity = true → ∀ i, i < slice_size → bit in_bm i = false → bit tmp i = true.
Proof using All.
  intros (p & Hp1 & Hp2 & Hpb)%parity_iff i Hi Hb. unfold tmp_out_bm, extra_restoration. destruct restore eqn:Er; simpl.
  - destruct (bit out_bm i) eqn:Eo; [done|]. exfalso. apply restore_iff in Er as (j & Hj & Hjb).
    destruct (si_shape _ _ _ _ _ _ _ Hin) as (_ & Hk & Hsl & _). pose proof (si_count _ _ _ _ _ _ _ Hin).
    assert (3 ≤ length (missing_blocks in_bm replicas)); [|lia].
    apply (missing_three in_bm replicas i j p); try lia; try (intros ->; congruence); [done| |];
      by apply (fr_dis _ _ _ _ _ _ _ _ _ _ Hreq); [lia|].
  - assert (bit missing i = true) as Hm by (rewrite missing_bits, Hb, (proj2 (Nat.ltb_lt _ _)) by done; done).
    destruct (missing =? 0)%Z eqn:E0; simpl; [|by rewrite bit_lor, Hm, orb_true_r].
    apply Z.eqb_eq in E0. rewrite E0 in Hm. unfold bit in Hm. by rewrite Z.bits_0 in Hm.
Qed.

Lemma tmp_out i : i < slice_size → bit tmp i = true → out_buffer m len vec i.
Proof using All.
  intros Hi Hb. destruct (si_shape _ _ _ _ _ _ _ Hin) as (_ & _ & Hsl & _).
  pose proof (tmp_dis i ltac:(lia) Hb) as Hib. unfold tmp_out_bm, extra_restoration in Hb.
  destruct restore eqn:Er; simpl in Hb; [by apply (fr_out _ _ _ _ _ _ _ _ _ _ Hreq); [lia|]|].
  apply (fr_all _ _ _ _ _ _ _ _ _ _ Hreq); [|done..]. apply parity_iff.
  destruct parity eqn:Ep; [done|]. exfalso. destruct (fr_some _ _ _ _ _ _ _ _ _ _ Hreq) as (j & Hj & Hjb).
  destruct (decide (j < slice_size)).
  - enough (restore = true) by congruence. apply restore_iff. eauto.
  - enough (parity = true) by congruence. apply parity_iff. exists j. split_and!; [lia|done|done].
Qed.

Lemma tmp_some : restore || extra = true → outputs tmp slice_size ≠ [].
Proof using All.
  intros H E. assert (∃ i, i < slice_size ∧ bit tmp i = true) as (i & Hi & Hb).
  { unfold tmp_out_bm. apply orb_true_iff in H as [Hr|He].
    - pose proof Hr as (i & Hi & Hb)%restore_iff. exists i. split; [done|].
      unfold extra_restoration. by rewrite Hr.
    - rewrite He. unfold extra_restoration in He. apply andb_true_iff in He as [_ He].
      apply negb_true_iff in He. destruct (bits_exists missing 0 slice_size) as [Hz|(i & _ & Hi & Hb)].
      + exfalso. enough ((missing =? 0)%Z = true) by congruence. apply Z.eqb_eq, Z.bits_inj'.
        intros n Hn. rewrite Z.bits_0. destruct (decide (Z.to_nat n < slice_size)) as [Hlt|Hge].
        * specialize (Hz (Z.to_nat n) ltac:(lia) Hlt). unfold bit in Hz. by rewrite Z2Nat.id in Hz by lia.
        * pose proof (missing_bits (Z.to_nat n)) as Hm. rewrite (proj2 (Nat.ltb_ge _ _)) in Hm by lia.
          unfold bit in Hm at 1. by rewrite Z2Nat.id in Hm by lia.
      + exists i. rewrite bit_lor, Hb. by rewrite orb_true_r. }
  assert (i ∈ outputs tmp slice_size) as Hin' by (by apply elem_of_outputs). rewrite E in Hin'. set_solver.
Qed.

Lemma tmp_no_parity : parity = false → tmp = out_bm ∧
  (∀ i, i < replicas → bit crc_bm i = true → bit tmp i = true) ∧
  (∀ i, slice_size ≤ i → i < replicas → bit tmp i = false).
Proof using All.
  intros Hp. assert (restore = true) as Hr.
  { destruct (fr_some _ _ _ _ _ _ _ _ _ _ Hreq) as (j & Hj & Hjb). apply restore_iff.
    exists j. split; [|done]. destruct (decide (j < slice_size)); [done|]. exfalso.
    enough (parity = true) by congruence. apply parity_iff. exists j. split_and!; [lia|done|done]. }
  assert (tmp = out_bm) as E by (unfold tmp_out_bm, extra_restoration; by rewrite Hr). rewrite E.
  split_and!; [done| |].
  - intros i Hi Hb. destruct (fr_crc _ _ _ _ _ _ _ _ _ _ Hreq i Hi Hb) as [?|[_ Hj]]; [done|].
    apply parity_iff in Hj. congruence.
  - intros i Hi1 Hi2. destruct (bit out_bm i) eqn:Eb; [|done]. exfalso.
    enough (parity = true) by congruence. apply parity_iff. eauto.
Qed.

(** The state between the two halves. *)
Lemma fill_first_half : ∃ m1 crc1,
  (if restore || extra
   then fill_decode replicas slice_size snake_size first_rlba u s pf len vec
          in_bm tmp out_bm crc_bm parity crc m
   else Ok (0%Z, s, m, crc)) = Ok (0%Z, s, m1, crc1) ∧
  (∀ i o, i < slice_size → bit tmp i = true → vec !! i = Some o → holds m1 o len (D i)) ∧
  touched m m1 len (fun q => ∃ i, i < slice_size ∧ bit tmp i = true ∧ vec !! i = Some q) ∧
  if parity then crc1 = crc
  else crcs_set replicas crc_bm (fun i =>
         crc_spec (salt (block_rlba slice_size snake_size first_rlba i)) (D i <$> seq 0 len)) crc crc1.
Proof using All.
  destruct (restore || extra) eqn:E.
  - apply fill_decode_ok; [done..|apply tmp_dis|apply tmp_out|by apply tmp_some|apply tmp_no_parity|apply Hreq].
  - apply orb_false_iff in E as [Er Ee]. assert (tmp = out_bm) as Et by (unfold tmp_out_bm; by rewrite Ee).
    assert (∀ i, i < slice_size → bit tmp i = false) as Hno.
    { intros i Hi. rewrite Et. destruct (bit out_bm i) eqn:Eb; [|done].
      enough (restore = true) by congruence. apply restore_iff. eauto. }
    exists m, crc. split_and!; [done| |apply touched_refl|].
    + intros i o Hi Hb. by rewrite Hno in Hb.
    + destruct parity eqn:Ep; [done|]. destruct (fr_some _ _ _ _ _ _ _ _ _ _ Hreq) as (j & Hj & Hjb).
      destruct (decide (j < slice_size)).
      * rewrite <-Et, Hno in Hjb by done. done.
      * enough (parity = true) by congruence. apply parity_iff. exists j. split_and!; [lia|done|done].
Qed.

(** A block that was available is still there afterwards. *)
Lemma kept_block m1 i p : i < replicas → bit in_bm i = true → vec !! i = Some p →
  touched m m1 len (fun q => ∃ i, i < slice_size ∧ bit tmp i = true ∧ vec !! i = Some q) →
  holds m1 p len (codeword slice_size D i).
Proof using All.
  intros Hi Hb Hp Htc. destruct (si_in _ _ _ _ _ _ _ Hin i Hi Hb) as (p' & Hp' & Hn & _ & Hh). simplify_eq.
  eapply touched_holds; [exact Htc| |done]. intros (j & Hj & Hjb & Hjp).
  destruct (si_shape _ _ _ _ _ _ _ Hin) as (_ & _ & Hsl & _).
  assert (i = j) as -> by (eapply (si_inj _ _ _ _ _ _ _ Hin); eauto; lia).
  rewrite tmp_dis in Hb by (done || lia). done.
Qed.

(** The second half keeps every block it does not compute. *)
Lemma fill_second_half m1 :
  (∀ i o, i < slice_size → bit tmp i = true → vec !! i = Some o → holds m1 o len (D i)) →
  touched m m1 len (fun q => ∃ i, i < slice_size ∧ bit tmp i = true ∧ vec !! i = Some q) →
  parity = true → ∃ m2 crc2,
  fill_encode replicas slice_size snake_size first_rlba u s pf len vec cpy_vec out_bm crc_bm 0%Z crc m1 =
    Ok (0%Z, s, m2, crc2) ∧
  (∀ i o, slice_size ≤ i → i < replicas → bit out_bm i = true → vec !! i = Some o →
     holds m2 o len (codeword slice_size D i)) ∧
  (∀ i o, i < replicas → vec !! i = Some o → ¬ (slice_size ≤ i ∧ bit out_bm i = true) →
     holds m1 o len (codeword slice_size D i) → holds m2 o len (codeword slice_size D i)) ∧
  crcs_set replicas crc_bm (fun i => crc_spec (salt (block_rlba slice_size snake_size first_rlba i))
    (codeword slice_size D i <$> seq 0 len)) crc crc2.
Proof using All.
  intros Hres Htc Hp. pose proof Hin as [H8 (Hs0 & Hk & Hsl & H12) Hvec HD Hblk Hinj _].
  pose proof Hreq as [_ _ _ Hout _ Hcrc Hptr Hcpy Hcopy].
  destruct (fill_encode_ok pf s u Ht Hu replicas slice_size snake_size first_rlba vec cpy_vec out_bm crc_bm
    m1 len D H8 HD Hvec Hs0 Hk (conj Hsl H12)) with (rv0 := 0%Z) (crc := crc)
    as (m2 & crc2 & Hrun & Hh & Htc2 & Hset); try done.
  - intros i Hi. destruct (bit in_bm i) eqn:Eb.
    + destruct (Hblk i ltac:(lia) Eb) as (p & Hpv & Hn & _ & _). exists p. split_and!; [done..|].
      eapply holds_ext; [|by eapply (kept_block m1 i p); [lia|..]]. intros. by apply codeword_data.
    + pose proof (tmp_all Hp i Hi Eb) as Htmp. destruct (tmp_out i Hi Htmp) as (o & Ho & Hn & _).
      exists o. split_and!; [done..|]. by apply (Hres i).
  - intros i Hi1 Hi2 Hb. destruct (Hout i Hi2 Hb) as (o & ? & ? & ?). exists o.
    split_and!; [done..|by eapply touched_valid].
  - by apply parity_iff.
  - intros i c Hi Hc. destruct (Hcopy i c Hi Hc) as (? & ? & ?). split_and!; [by eapply touched_valid|done..].
  - intros i Hi1 Hi2 Hb. destruct (Hcrc i Hi2 Hb) as [?|[? _]]; [done|lia].
  - exists m2, crc2. split_and!; [done|done| |done]. intros i o Hi Ho Hni Hh1.
    eapply touched_holds; [exact Htc2| |done]. intros [(j & Hj1 & Hj2 & Hjb & Hj)|(j & Hj & Hc)].
    + destruct (Hout j Hj2 Hjb) as (o' & Ho' & Hn & _). simplify_eq.
      assert (i = j) as -> by (eapply Hinj; eauto). auto.
    + destruct (Hcopy j o Hj Hc) as (_ & Hno & _). by apply (Hno i).
Qed.
End fill.

(** C5: rebuilding and re-encoding one slice.  For a slice of which at most as
    many blocks are missing as it has parities, the call succeeds; every
    requested block, data or parity, then holds its block of the codeword, every
    available block is unchanged, and every requested CRC is the complemented
    CRC32C of that block salted with its address. *)
Theorem fill_missing_ok pf s u replicas slice_size snake_size first_rlba vec cpy_vec crc
    in_bm out_bm crc_bm dbg m D
    (Ht : EcTable (gf_funcs s)) (Hu : locals_ok u)
    (Hin : slice_in m (DEBUG_DI_SIZE_CALC dbg) replicas slice_size vec in_bm D)
    (Hreq : fill_request m (DEBUG_DI_SIZE_CALC dbg) replicas slice_size vec cpy_vec crc in_bm out_bm crc_bm) :
  let len := DEBUG_DI_SIZE_CALC dbg in
  ∃ m' crc',
    nvmeibc_reed_solomon_fill_missing pf s u replicas slice_size snake_size vec cpy_vec crc
      in_bm out_bm crc_bm first_rlba dbg m = Ok (0%Z, s, m', crc') ∧
    (∀ i o, i < replicas → bit out_bm i = true ∨ bit in_bm i = true → vec !! i = Some o →
       holds m' o len (codeword slice_size D i)) ∧
    crcs_set replicas crc_bm (fun i => crc_spec (salt (block_rlba slice_size snake_size first_rlba i))
      (codeword slice_size D i <$> seq 0 len)) crc crc'.
Proof.
  cbv zeta. pose proof Hin as [H8 (Hs0 & Hk & Hsl & H12) Hvec HD Hblk Hinj _].
  pose proof Hreq as [_ _ _ Hout _ Hcrc Hptr Hcpy Hcopy].
  destruct (fill_first_half pf s u Ht Hu replicas slice_size snake_size first_rlba vec cpy_vec crc
    in_bm out_bm crc_bm m _ D Hin Hreq) as (m1 & crc1 & Hrun & Hres & Htc & Hc1).
  pose proof (out_in_tmp slice_size in_bm out_bm) as Hot.
  unfold nvmeibc_reed_solomon_fill_missing.  rewrite Hrun. rstep.
  assert (∀ i p, i < replicas → bit in_bm i = true → vec !! i = Some p →
    holds m1 p (DEBUG_DI_SIZE_CALC dbg) (codeword slice_size D i)) as Hkept.
  { intros. by eapply (kept_block pf s u Ht Hu replicas slice_size snake_size first_rlba). }
  assert (∀ i o, i < slice_size → bit out_bm i = true → vec !! i = Some o →
    holds m1 o (DEBUG_DI_SIZE_CALC dbg) (codeword slice_size D i)) as Hres'.
  { intros i o Hi Hb Ho. eapply holds_ext; [|by apply (Hres i); auto]. intros. symmetry. by apply codeword_data. }
  destruct (parity_calculation slice_size out_bm) eqn:Ep.
  - subst crc1. destruct (fill_second_half pf s u Ht Hu replicas slice_size snake_size first_rlba vec cpy_vec
      crc in_bm out_bm crc_bm m (DEBUG_DI_SIZE_CALC dbg) D Hin Hreq m1 Hres Htc Ep) as (m2 & crc2 & -> & Hpar2 & Hkeep & Hset).
    exists m2, crc2. split_and!; [done| |done]. intros i o Hi Hb Ho.
    destruct (decide (slice_size ≤ i ∧ bit out_bm i = true)) as [[? ?]|Hne]; [by apply Hpar2|].
    apply (Hkeep i); [done|done|naive_solver|]. destruct Hb as [Hb|Hb]; [|by apply Hkept].
    apply Hres'; [|done|done]. destruct (decide (i < slice_size)); [done|]. destruct Hne. split; [lia|done].
  - destruct (tmp_no_parity pf s u Ht Hu replicas slice_size snake_size first_rlba vec cpy_vec crc
      in_bm out_bm crc_bm m _ D Hin Hreq Ep) as (Et & Hsub & Hno). rewrite Et in *.
    exists m1, crc1. split_and!; [done| |].
    + intros i o Hi [Hb|Hb] Ho; [|by apply Hkept]. apply Hres'; [|done|done].
      destruct (decide (i < slice_size)); [done|]. rewrite Hno in Hb by lia. done.
    + eapply crcs_set_ext; [|exact Hc1]. intros i Hi Hb. cbv beta. f_equal. apply list.list_fmap_ext. intros ? j ?.
      symmetry. apply codeword_data. destruct (decide (i < slice_size)); [done|].
      apply Hsub in Hb; [|done]. rewrite Hno in Hb by lia. done.
Qed.

(** ** A concrete slice: three data blocks and two parities, of which the first
    data block and the first parity are lost and rebuilt with their CRCs. *)
Module LostPair.
Definition D (i j : nat) : Z := ((37 * Z.of_nat i + 11 * Z.of_nat j + 5) mod 256)%Z.
Definition row (f : nat → Z) : list Z := f <$> seq 0 DEBUG_DI_SIZE.
Definition zeros : list Z := replicate DEBUG_DI_SIZE 0%Z.
Definition m : mem :=
  {[0 := zeros; 1 := row (D 1); 2 := row (D 2); 3 := zeros; 4 := row (codeword 3 D 4)]}.
Definition vec : list ptr := (PTR <$> seq 0 5) ++ replicate 7 NULL.
Definition crc : list (option Z) := replicate 12 (Some 0%Z).
Definition in_bm : Z := 22.
Definition out_bm : Z := 9.
Definition u : locals :=
  Locals [0; 0] (replicate 12 NULL) (replicate 12 NULL) (replicate 12 0%Z)
    (replicate 12 NULL) (replicate 12 NULL) (replicate 12 0%Z).
Definition s : gf_state := GfState gf_functions_unoptimized false.
Definition pf : platform :=
  Platform (fun c w => crc_spec c (le_bytes 8 w)) None None None None false false false false.

Lemma u_ok : locals_ok u.
Proof. split; try split; try done; by apply Forall_replicate. Qed.

Lemma below5 (P : nat → Prop) : P 0 → P 1 → P 2 → P 3 → P 4 → ∀ i, i < 5 → P i.
Proof. intros ? ? ? ? ? [|[|[|[|[|i]]]]] Hi; done || lia. Qed.

Lemma vec_inj i j o : i < 5 → j < 5 → vec !! i = Some o → vec !! j = Some o → i = j.
Proof.
  intros Hi Hj. unfold vec. rewrite !lookup_app_l by (rewrite length_fmap, length_seq; lia).
  rewrite !list_lookup_fmap, !lookup_seq_lt by done. simpl. by intros [= <-] [= <-].
Qed.

Lemma available : slice_in m (DEBUG_DI_SIZE_CALC true) 5 3 vec in_bm D.
Proof.
  split; [done|unfold N_MAX_RAID_SLICE_LEN; lia|done| | |by eauto using vec_inj|vm_compute; lia].
  - intros i j. apply Z.mod_pos_bound. lia.
  - refine (below5 _ _ _ _ _ _); intros Hb; try (vm_compute in Hb; discriminate Hb);
      eexists; (split_and!; [reflexivity|done|done|apply holdsb_ok; vm_compute; reflexivity]).
Qed.

Lemma buffer i : i < 5 → out_buffer m (DEBUG_DI_SIZE_CALC true) vec i.
Proof.
  revert i. refine (below5 _ _ _ _ _ _); eexists; (split_and!; [reflexivity|done|apply validb_ok; vm_compute; reflexivity]).
Qed.

Lemma request : fill_request m (DEBUG_DI_SIZE_CALC true) 5 3 vec None crc in_bm out_bm out_bm.
Proof.
  split; [done|by exists 0; split; [lia|]| |auto using buffer| |by left| |done|done].
  - by refine (below5 _ _ _ _ _ _).
  - intros _ i Hi _. apply buffer. lia.
  - intros i Hi _. exists 0%Z. apply lookup_replicate_2. lia.
Qed.
End LostPair.

Lemma fill_missing_ok_witness : ∃ m' crc',
  nvmeibc_reed_solomon_fill_missing LostPair.pf LostPair.s LostPair.u 5 3 8 LostPair.vec None LostPair.crc
    LostPair.in_bm LostPair.out_bm LostPair.out_bm 1000 true LostPair.m = Ok (0%Z, LostPair.s, m', crc') ∧
  holds m' (PTR 0) 512 (LostPair.D 0) ∧ holds m' (PTR 3) 512 (codeword 3 LostPair.D 3).
Proof.
  destruct (fill_missing_ok LostPair.pf LostPair.s LostPair.u 5 3 8 1000 LostPair.vec None LostPair.crc
    LostPair.in_bm LostPair.out_bm LostPair.out_bm true LostPair.m LostPair.D
    unoptimized_table LostPair.u_ok LostPair.available LostPair.request) as (m' & crc' & Hrun & Hh & _).
  exists m', crc'. split; [exact Hrun|]. split.
  - apply (Hh 0); [lia|by left|reflexivity].
  - apply (Hh 3); [lia|by left|reflexivity].
Defined.
