(* ===== verification/RaidUpdate.v ===== *)
(** * Rewriting rows of an erasure-coded slice

    Models [nvmeibc_reed_solomon_update_parities] of
    [clnt/block/datapath_ec/nvmeibc_block_dp_ec_gf_praid.c]: the rewritten rows
    of a slice are folded into the parities one at a time, the first from the
    old parities and the others in place.  Proved against [EcTable]. *)
From Stdlib Require Import ZArith Lia.
From stdpp Require Import base list gmap numbers.
From S2P Require Import Prelude CMemory GaloisField Crc32c ErasureCode EcAlgebra KernelLemmas GfTable EcTheorems RaidSlice.
Local Open Scope nat_scope.

(** Uninitialised contents of the local arrays [_crc], [data] and [coding]. *)
Record up_locals : Type := UpLocals { ul_crc : list Z; ul_data : list ptr; ul_coding : list ptr }.

Record up_state : Type := UpState {
  us_gf : gf_state; us_mem : mem;
  us__crc : list Z; us_crc : list (option Z); us_new_vec : list ptr;
  us_first : bool; us_rv : Z
}.

Section program.
Context (pf : platform) (u : up_locals) (replicas slice_size snake_size : nat) (first_rlba : Z).
Context (old_vec cpy_vec : list ptr) (old_bm crc_bm : Z) (len : nat).

Definition salt_if (s : gf_state) (b : bool) (rlba : Z) : res Z :=
  if b then nvmeibc_rlba_to_salt s rlba else Ok 0%Z.

(** The old and the new buffer of every parity, and the salt of its CRC. *)
Definition parity_arrays (s : gf_state) (first_iteration : bool) (new_vec : list ptr)
    (st : list ptr * list ptr * list Z) : res (list ptr * list ptr * list Z) :=
  for_up (replicas - slice_size) (fun j '(data, coding, _crc) =>
    '(d, c) ← (if bit old_bm (slice_size + j) then
        n ← aget new_vec (slice_size + j);
        if first_iteration then o ← aget old_vec (slice_size + j); Ok (o, n) else Ok (n, n)
      else Ok (NULL, NULL));
    data ← aset data (2 + j) d;
    coding ← aset coding j c;
    c0 ← salt_if s (bit crc_bm (slice_size + j)) first_rlba;
    _crc ← aset _crc (1 + j) c0;
    Ok (data, coding, _crc)) st.

Definition keep_parities (coding new_vec : list ptr) : res (list ptr) :=
  for_up (replicas - slice_size) (fun j new_vec =>
    if bit old_bm (slice_size + j) then c ← aget coding j; aset new_vec (slice_size + j) c
    else Ok new_vec) new_vec.

(** One iteration of [for_each_set_bit]. *)
Definition update_row (i : nat) (st : up_state) : res up_state :=
  let '(UpState s m _crc crc new_vec first_iteration calc_rv) := st in
  o ← aget old_vec i;
  data ← aset (ul_data u) 0 o;
  n ← aget new_vec i;
  data ← aset data 1 n;
  c0 ← salt_if s (bit crc_bm i) (srlba snake_size first_rlba i);
  _crc ← aset _crc 0 c0;
  '(data, coding, _crc) ← parity_arrays s first_iteration new_vec (data, ul_coding u, _crc);
  copy ← aget cpy_vec i;
  '(rv, s, m, _crc) ←
    ec_encode_data_update pf s false len (replicas - slice_size) i data coding (Some _crc) copy m;
  _crc ← match _crc with None => Fault NULL_DEREF | Some l => Ok l end;
  crc ← (if bit crc_bm i then c ← aget _crc 0; crc_out crc i (not32 c) else Ok crc);
  new_vec ← keep_parities coding new_vec;
  Ok (UpState s m _crc crc new_vec false (rv_eio rv calc_rv)).

Definition data_update : Z := Z.land old_bm (GENMASK0 slice_size).

Definition update_rows (st : up_state) : res up_state :=
  for_up slice_size (fun i st => if bit data_update i then update_row i st else Ok st) st.

Definition parity_crcs (_crc : list Z) (crc : list (option Z)) : res (list (option Z)) :=
  for_up (replicas - slice_size) (fun j crc =>
    if bit crc_bm (slice_size + j) then c ← aget _crc (1 + j); crc_out crc (slice_size + j) (not32 c)
    else Ok crc) crc.
End program.

Definition nvmeibc_reed_solomon_update_parities (pf : platform) (s : gf_state) (u : up_locals)
    (replicas slice_size snake_size : nat) (old_vec new_vec cpy_vec : list ptr) (crc : list (option Z))
    (old_bm crc_bm first_rlba : Z) (is_di_debug : bool) (m : mem)
    : res (Z * gf_state * mem * list (option Z) * list ptr) :=
  st ← update_rows pf u replicas slice_size snake_size first_rlba old_vec cpy_vec old_bm crc_bm
         (DEBUG_DI_SIZE_CALC is_di_debug) (UpState s m (ul_crc u) crc new_vec true 0);
  crc ← parity_crcs replicas slice_size crc_bm (us__crc st) (us_crc st);
  Ok (us_rv st, us_gf st, us_mem st, crc, us_new_vec st).

(** ** What the caller provides

    [D] is the slice before and [N] the new rows; rows and parities come with
    their buffers: [od]/[nd] the old and new rows, [cp] the copies, [op]/[np]
    the old and new parities. *)
Record update_request (m : mem) (len replicas slice_size : nat) (old_vec new_vec cpy_vec : list ptr)
    (crc : list (option Z)) (old_bm crc_bm : Z) (D N : nat → nat → Z) (od nd cp op np : nat → ptr) : Prop := {
  ur_len : len mod 8 = 0;
  ur_shape : 0 < slice_size ∧ (replicas - slice_size = 1 ∨ replicas - slice_size = 2) ∧
             slice_size < replicas ≤ N_MAX_RAID_SLICE_LEN;
  ur_bytes : bytes D ∧ bytes N;
  ur_row : ∀ i, i < slice_size → bit old_bm i = true →
    old_vec !! i = Some (od i) ∧ new_vec !! i = Some (nd i) ∧ cpy_vec !! i = Some (cp i) ∧
    holds m (od i) len (D i) ∧ holds m (nd i) len (N i);
  ur_some : ∃ i, i < slice_size ∧ bit old_bm i = true;
  ur_parity : ∀ j, j < replicas - slice_size → bit old_bm (slice_size + j) = true ∧
    old_vec !! (slice_size + j) = Some (op j) ∧ new_vec !! (slice_size + j) = Some (np j) ∧
    holds m (op j) len (codeword slice_size D (slice_size + j)) ∧ valid m (np j) len;
  (** a new parity shares no buffer with a row or with another parity *)
  ur_np_row : ∀ i j, i < slice_size → bit old_bm i = true → j < replicas - slice_size →
    np j ≠ od i ∧ np j ≠ nd i ∧ np j ≠ cp i;
  ur_np_np : ∀ j j', j < replicas - slice_size → j' < replicas - slice_size → j ≠ j' →
    np j ≠ np j' ∧ np j ≠ op j';
  (** a copy, where there is one, shares no buffer with anything else *)
  ur_cp : ∀ i, i < slice_size → bit old_bm i = true → cp i ≠ NULL → valid m (cp i) len ∧
    (∀ i', i' < slice_size → bit old_bm i' = true → cp i ≠ od i' ∧ cp i ≠ nd i' ∧ (i ≠ i' → cp i ≠ cp i')) ∧
    (∀ j, j < replicas - slice_size → cp i ≠ op j);
  ur_crc : ∀ i, i < replicas → bit crc_bm i = true → bit old_bm i = true → ∃ x, crc !! i = Some (Some x)
}.

Arguments ur_len {_ _ _ _ _ _ _ _ _ _ _ _ _ _ _ _ _} _.
Arguments ur_shape {_ _ _ _ _ _ _ _ _ _ _ _ _ _ _ _ _} _.
Arguments ur_bytes {_ _ _ _ _ _ _ _ _ _ _ _ _ _ _ _ _} _.
Arguments ur_row {_ _ _ _ _ _ _ _ _ _ _ _ _ _ _ _ _} _.
Arguments ur_some {_ _ _ _ _ _ _ _ _ _ _ _ _ _ _ _ _} _.
Arguments ur_parity {_ _ _ _ _ _ _ _ _ _ _ _ _ _ _ _ _} _.
Arguments ur_np_row {_ _ _ _ _ _ _ _ _ _ _ _ _ _ _ _ _} _.
Arguments ur_np_np {_ _ _ _ _ _ _ _ _ _ _ _ _ _ _ _ _} _.
Arguments ur_cp {_ _ _ _ _ _ _ _ _ _ _ _ _ _ _ _ _} _.
Arguments ur_crc {_ _ _ _ _ _ _ _ _ _ _ _ _ _ _ _ _} _.

Record up_locals_ok (u : up_locals) : Prop := {
  ulo_crc : length (ul_crc u) = N_MAX_RAID_SLICE_LEN + 1 ∧ Forall crc_range (ul_crc u);
  ulo_data : length (ul_data u) = N_MAX_RAID_SLICE_LEN + 2;
  ulo_coding : length (ul_coding u) = N_MAX_RAID_SLICE_LEN
}.

(** The slice with the rewritten rows below [n] replaced. *)
Definition rewritten (old_bm : Z) (D N : nat → nat → Z) (n i : nat) : nat → Z :=
  if (i <? n) && bit old_bm i then N i else D i.

Lemma codeword_ext rows D D' r j : (∀ i, i < rows → D i j = D' i j) → r < rows + 2 →
  codeword rows D r j = codeword rows D' r j.
Proof.
  intros HD Hr. unfold codeword. repeat case_decide; [auto|by apply P_ext|by apply Q_ext].
Qed.

Section rows.
Context (old_bm : Z) (D N : nat → nat → Z) (HD : bytes D) (HN : bytes N).
Local Abbreviation R n := (rewritten old_bm D N n).

Lemma rewritten_bytes n : bytes (R n).
Proof using HD HN. intros i j. unfold rewritten. destruct (_ && _); [apply HN|apply HD]. Qed.

Lemma rewritten_skip n i : bit old_bm n = false → R (S n) i = R n i.
Proof using.
  intros Hb. unfold rewritten. destruct (decide (i = n)) as [->|]; [by rewrite Hb, !andb_false_r|].
  assert ((i <? S n) = (i <? n)) as -> by (destruct (Nat.ltb_spec i (S n)), (Nat.ltb_spec i n); done || lia). done.
Qed.

Lemma rewritten_step n i : bit old_bm n = true → R (S n) i = upd (R n) n (N n) i.
Proof using.
  intros Hb. unfold rewritten, upd. case_decide as Hi.
  - subst i. by rewrite (proj2 (Nat.ltb_lt n (S n))), Hb by lia.
  - assert ((i <? S n) = (i <? n)) as -> by (destruct (Nat.ltb_spec i (S n)), (Nat.ltb_spec i n); done || lia). done.
Qed.

Lemma rewritten_self n : R n n = D n.
Proof using. unfold rewritten. by rewrite Nat.ltb_irrefl. Qed.

(** The parities follow one row. *)
Lemma rewritten_P rows n k : rows ≤ GF_MAX_D → n < rows → bit old_bm n = true →
  codeword rows (R (S n)) rows k = update_P (codeword rows (R n) rows) (D n) (N n) k.
Proof using HD HN.
  intros Hr Hn Hb. rewrite <-(rewritten_self n), <-codeword_upd_P by done.
  apply codeword_ext; [|lia]. intros i _. by rewrite rewritten_step.
Qed.

Lemma rewritten_Q rows n k : n < rows → bit old_bm n = true →
  codeword rows (R (S n)) (rows + 1) k = update_Q n (codeword rows (R n) (rows + 1)) (D n) (N n) k.
Proof using HD HN.
  intros Hn Hb. rewrite <-(rewritten_self n), <-codeword_upd_Q by (apply rewritten_bytes || apply HN || done).
  apply codeword_ext; [|lia]. intros i _. by rewrite rewritten_step.
Qed.
End rows.

(** ** One row *)
Section program_ok.
Context (pf : platform) (s : gf_state) (u : up_locals) (replicas slice_size snake_size : nat) (first_rlba : Z).
Context (m : mem) (len : nat) (old_vec new_vec cpy_vec : list ptr) (crc : list (option Z)) (old_bm crc_bm : Z).
Context (D N : nat → nat → Z) (od nd cp op np : nat → ptr).
Context (Ht : EcTable (gf_funcs s)) (Hu : up_locals_ok u).
Context (Hreq : update_request m len replicas slice_size old_vec new_vec cpy_vec crc old_bm crc_bm
  D N od nd cp op np).
Local Abbreviation parities := (replicas - slice_size).
Local Abbreviation R n := (rewritten old_bm D N n).

Definition row_seed (i : nat) : Z := if bit crc_bm i then salt (srlba snake_size first_rlba i) else 0%Z.
Definition parity_seed (j : nat) : Z := if bit crc_bm (slice_size + j) then salt first_rlba else 0%Z.
Definition parity_in (first : bool) (j : nat) : ptr := if first then op j else np j.

Lemma salt_if_ok b rlba : salt_if s b rlba = Ok (if b then salt rlba else 0%Z).
Proof using Ht. destruct b; [by apply rlba_to_salt_ok|done]. Qed.

Lemma parities_le : parities ≤ 2.
Proof using Hreq. destruct (ur_shape Hreq) as (_ & [-> | ->] & _); lia. Qed.

Lemma parity_seed_range j : crc_range (parity_seed j).
Proof using. unfold parity_seed. destruct (bit _ _); [apply salt_range|done]. Qed.

Lemma parity_arrays_ok first data coding _crc :
  length data = N_MAX_RAID_SLICE_LEN + 2 → length coding = N_MAX_RAID_SLICE_LEN →
  length _crc = N_MAX_RAID_SLICE_LEN + 1 → Forall crc_range _crc →
  ∃ data' coding' _crc',
    parity_arrays replicas slice_size first_rlba old_vec old_bm crc_bm s first new_vec
      (data, coding, _crc) = Ok (data', coding', _crc') ∧
    length _crc' = N_MAX_RAID_SLICE_LEN + 1 ∧ Forall crc_range _crc' ∧
    (∀ i, i < 2 → data' !! i = data !! i) ∧ _crc' !! 0 = _crc !! 0 ∧
    ∀ j, j < parities → data' !! (2 + j) = Some (parity_in first j) ∧ coding' !! j = Some (np j) ∧
      _crc' !! (1 + j) = Some (parity_seed j).
Proof using Ht Hreq.
  intros Hd Hc Hl Hr. pose proof parities_le as Hk. unfold N_MAX_RAID_SLICE_LEN in *. unfold parity_arrays.
  match goal with |- context [for_up _ ?body _] => destruct (for_up_inv body (fun n st =>
    let '(data', coding', _crc') := st in
    length data' = 12 + 2 ∧ length coding' = 12 ∧ length _crc' = 12 + 1 ∧ Forall crc_range _crc' ∧
    (∀ i, i < 2 → data' !! i = data !! i) ∧ _crc' !! 0 = _crc !! 0 ∧
    ∀ j, j < n → data' !! (2 + j) = Some (parity_in first j) ∧ coding' !! j = Some (np j) ∧
      _crc' !! (1 + j) = Some (parity_seed j)) parities (data, coding, _crc))
    as ([[data' coding'] _crc'] & -> & _ & _ & ? & ? & ? & ? & ?) end.
  - split_and!; try done. lia.
  - intros n [[d c] cr] Hn (Hd1 & Hc1 & Hl1 & Hr1 & Hlow & H0 & Hj).
    destruct (ur_parity Hreq n Hn) as (-> & Ho & Hnv & _).
    rewrite (proj2 (aget_ok _ _ _) Hnv). rstep.
    assert ((if first then o ← aget old_vec (slice_size + n); Ok (o, np n) else Ok (np n, np n)) =
      Ok (parity_in first n, np n)) as -> by (destruct first; [by rewrite (proj2 (aget_ok _ _ _) Ho)|done]).
    rstep. rewrite !aset_ok by lia. rstep. rewrite salt_if_ok. rstep. rewrite aset_ok by lia. rstep.
    eexists. split; [done|]. cbv beta iota. rewrite !length_insert. split_and!; try done.
    + by apply Forall_insert, parity_seed_range.
    + intros i Hi. rewrite list_lookup_insert_ne by lia. auto.
    + by rewrite list_lookup_insert_ne by lia.
    + intros j Hjn. destruct (decide (j = n)) as [->|].
      * rewrite !list_lookup_insert_eq by lia. done.
      * rewrite !list_lookup_insert_ne by lia. apply Hj. lia.
  - eauto 10.
Qed.

Lemma keep_parities_ok coding : (∀ j, j < parities → coding !! j = Some (np j)) →
  keep_parities replicas slice_size old_bm coding new_vec = Ok new_vec.
Proof using Hreq.
  intros Hc. unfold keep_parities. match goal with |- for_up _ ?body _ = _ =>
    destruct (for_up_inv body (fun _ v => v = new_vec) parities new_vec) as (v & -> & ->) end; [done| |done].
  intros n v Hn ->. destruct (ur_parity Hreq n Hn) as (-> & _ & Hnv & _).
  rewrite (proj2 (aget_ok _ _ _) (Hc n Hn)). rstep. rewrite aset_ok by (eauto using lookup_lt_Some).
  eexists. split; [done|]. by apply list_insert_id.
Qed.

(** ** The loop invariant: rows below [n] are folded in *)
Definition writes (n : nat) (q : ptr) : Prop :=
  (∃ j, j < parities ∧ q = np j) ∨ (∃ i, i < n ∧ bit old_bm i = true ∧ cp i ≠ NULL ∧ q = cp i).

Record row_inv (n : nat) (st : up_state) : Prop := {
  ri_gf : us_gf st = s;
  ri_rv : us_rv st = 0%Z;
  ri_nv : us_new_vec st = new_vec;
  ri__crc : length (us__crc st) = N_MAX_RAID_SLICE_LEN + 1 ∧ Forall crc_range (us__crc st);
  ri_first : us_first st = true → ∀ i, i < n → bit old_bm i = false;
  ri_touched : touched m (us_mem st) len (writes n);
  ri_parity : ∀ j, j < parities →
    holds (us_mem st) (parity_in (us_first st) j) len (codeword slice_size (R n) (slice_size + j));
  ri_pcrc : us_first st = false → ∀ j, j < parities → us__crc st !! (1 + j) =
    Some (crc_spec (parity_seed j) (codeword slice_size (R n) (slice_size + j) <$> seq 0 len));
  ri_crc : crcs_set n (Z.land crc_bm old_bm) (fun i =>
    crc_spec (salt (srlba snake_size first_rlba i)) (N i <$> seq 0 len)) crc (us_crc st);
  ri_copy : ∀ i, i < n → bit old_bm i = true → cp i ≠ NULL → holds (us_mem st) (cp i) len (N i)
}.

Lemma rows_kept n m' i : n ≤ slice_size → touched m m' len (writes n) → i < slice_size →
  bit old_bm i = true → holds m' (od i) len (D i) ∧ holds m' (nd i) len (N i).
Proof using Hreq.
  intros Hn Htc Hi Hb.
  destruct (ur_row Hreq i Hi Hb) as (_ & _ & _ & Ho & Hd).
  split; (eapply touched_holds; [exact Htc| |done]); intros [(j & Hj & E)|(i' & Hi' & Hb' & Hc & E)].
  - destruct (ur_np_row Hreq i j Hi Hb Hj) as (? & ? & _). congruence.
  - destruct (ur_cp Hreq i' ltac:(lia) Hb' Hc) as (_ & Hs & _).
    by destruct (Hs i Hi Hb) as (? & _).
  - destruct (ur_np_row Hreq i j Hi Hb Hj) as (? & ? & _). congruence.
  - destruct (ur_cp Hreq i' ltac:(lia) Hb' Hc) as (_ & Hs & _).
    by destruct (Hs i Hi Hb) as (_ & ? & _).
Qed.

Lemma parity_in_sep first j j' : j < parities → j' < parities → j ≠ j' → np j ≠ parity_in first j'.
Proof using Hreq.
  intros Hj Hj' Hne. pose proof (ur_np_np Hreq j j' Hj Hj' Hne).
  destruct first; apply H.
Qed.

Lemma copy_parity_sep first i j : i < slice_size → bit old_bm i = true → cp i ≠ NULL → j < parities →
  cp i ≠ parity_in first j.
Proof using Hreq.
  intros Hi Hb Hc Hj. destruct first.
  - by apply (ur_cp Hreq i Hi Hb Hc).
  - apply not_eq_sym, (ur_np_row Hreq i j Hi Hb Hj).
Qed.

Lemma update_row_pre n st data coding _crc : row_inv n st → n < slice_size → bit old_bm n = true →
  data !! 0 = Some (od n) → data !! 1 = Some (nd n) →
  (∀ j, j < parities → data !! (2 + j) = Some (parity_in (us_first st) j) ∧ coding !! j = Some (np j)) →
  length _crc = N_MAX_RAID_SLICE_LEN + 1 → Forall crc_range _crc →
  update_pre (us_mem st) len parities n data coding (Some _crc) (cp n) (D n) (N n)
    (codeword slice_size (R n) slice_size) (codeword slice_size (R n) (slice_size + 1)) (od n) (nd n)
    (parity_in (us_first st) 0) (parity_in (us_first st) 1) (np 0) (np 1).
Proof using Hreq.
  intros Hinv Hn Hb H0 H1 Hj Hl Hr. pose proof parities_le as Hk.
  destruct (ur_shape Hreq) as (Hs & Hk12 & Hsl & H12).
  destruct (ur_bytes Hreq) as [HD HN].
  pose proof (ri_touched _ _ Hinv) as Htc. pose proof (ri_parity _ _ Hinv) as Hpar.
  destruct (rows_kept n (us_mem st) n ltac:(lia) Htc Hn Hb) as [Ho Hd].
  assert (∀ j, j < parities → valid (us_mem st) (np j) len ∧ np j ≠ od n ∧ np j ≠ nd n ∧ np j ≠ cp n) as Hnp.
  { intros j Hjk. split; [|by apply (ur_np_row Hreq)].
    eapply touched_valid; [exact Htc|]. by apply (ur_parity Hreq j Hjk). }
  unfold N_MAX_RAID_SLICE_LEN in *.
  split; [apply (ur_len Hreq)|lia|lia| |done|done| | | | | |].
  - intros j. split_and!; [apply HD|apply HN|..]; by apply codeword_bytes, rewritten_bytes.
  - split; [by apply (Hj 0); lia|]. pose proof (Hpar 0 ltac:(lia)) as Hp. by rewrite Nat.add_0_r in Hp.
  - intros E. split; [by apply (Hj 1); lia|]. apply Hpar. lia.
  - split; [by apply (Hj 0); lia|]. apply Hnp. lia.
  - intros E. split_and!; try (apply (Hj 1); lia); try (apply Hnp; lia);
      try (apply parity_in_sep; lia). apply (parity_in_sep false); lia.
  - intros Hc. destruct (ur_cp Hreq n Hn Hb Hc) as (Hv & Hsep & _).
    destruct (Hsep n Hn Hb) as (? & ? & _). split; [by eapply touched_valid|]. split_and!; [done|done|..];
      intros; apply copy_parity_sep; done || lia.
  - simpl. split; [lia|done].
Qed.

Lemma update_call m1 v data coding _crc copy old new P Q d0 d1 d2 d3 c0 c1 :
  update_pre m1 len parities v data coding (Some _crc) copy old new P Q d0 d1 d2 d3 c0 c1 →
  ∃ m2 _crc', ec_encode_data_update pf s false len parities v data coding (Some _crc) copy m1 =
      Ok (GF_SUCCESS, s, m2, Some _crc') ∧
    touched m1 m2 len (fun q => q = c0 ∨ (parities = 2 ∧ q = c1) ∨ (copy ≠ NULL ∧ q = copy)) ∧
    (copy ≠ NULL → holds m2 copy len new) ∧ holds m2 c0 len (update_P P old new) ∧
    (parities = 2 → holds m2 c1 len (update_Q v Q old new)) ∧
    length _crc' = length _crc ∧ Forall crc_range _crc' ∧ ∀ i c, i ≤ parities → _crc !! i = Some c → _crc' !! i = Some (crc_spec c
      ((match i with 0 => new | 1 => update_P P old new | _ => update_Q v Q old new end) <$> seq 0 len)).
Proof using Ht.
  intros Hpre. unfold ec_encode_data_update. rewrite (proj1 (proj2 et_entries)). cbn [init_if].
  destruct (et_update _ _ _ _ _ _ _ _ _ _ _ _ _ _ _ _ _ _ Hpre)
    as (m2 & [l|] & -> & Htc & Hcp & HP & HQ & Hc); [|done]. destruct Hc as [Hl Hc].
  rstep. exists m2, l. split_and!; try done; [|intros i c Hi E; rewrite (Hc i c E); by rewrite decide_True].
  destruct Hpre as [_ _ Hv Hb _ _ _ _ _ _ _ [_ Hr]]. apply Forall_lookup_2. intros i x Hx.
  destruct (lookup_lt_is_Some_2 _crc i) as [y Hy]; [rewrite <-Hl; by eapply lookup_lt_Some|].
  rewrite (Hc i y Hy) in Hx. injection Hx as <-. apply crc_spec_range; [by eapply Forall_lookup_1|].
  apply Forall_fmap, Forall_seq. intros j _. unfold compose.
  destruct (Hb j) as (? & ? & ? & ?). destruct i as [|[|i]]; [done|by apply update_P_byte|by apply update_Q_byte].
Qed.

Lemma land_bit i : bit (Z.land crc_bm old_bm) i = bit crc_bm i && bit old_bm i.
Proof using. unfold bit. apply Z.land_spec. Qed.

Lemma row_crc n c _crc : crcs_set n (Z.land crc_bm old_bm) (fun i =>
    crc_spec (salt (srlba snake_size first_rlba i)) (N i <$> seq 0 len)) crc c →
  n < slice_size → bit old_bm n = true → _crc !! 0 = Some (crc_spec (row_seed n) (N n <$> seq 0 len)) →
  ∃ c', (if bit crc_bm n then x ← aget _crc 0; crc_out c n (not32 x) else Ok c) = Ok c' ∧
    crcs_set (S n) (Z.land crc_bm old_bm) (fun i =>
      crc_spec (salt (srlba snake_size first_rlba i)) (N i <$> seq 0 len)) crc c'.
Proof using Hreq.
  intros Hset Hn Hb H0. unfold row_seed in H0. destruct (bit crc_bm n) eqn:Ec.
  - rewrite (proj2 (aget_ok _ _ _) H0). rstep. destruct (ur_crc Hreq n) as [x Hx]; [|done|done|].
    { destruct (ur_shape Hreq). lia. }
    refine (crcs_set_step n _ _ crc c x Hset Hx _). by rewrite land_bit, Ec, Hb.
  - eexists. split; [done|]. apply crcs_set_skip; [done|]. by rewrite land_bit, Ec.
Qed.

(** What an update of the parities for row [n] leaves in memory. *)
Lemma row_memory n st m2 : row_inv n st → n < slice_size → bit old_bm n = true →
  touched (us_mem st) m2 len (fun q => q = np 0 ∨ (parities = 2 ∧ q = np 1) ∨ (cp n ≠ NULL ∧ q = cp n)) →
  (cp n ≠ NULL → holds m2 (cp n) len (N n)) →
  touched m m2 len (writes (S n)) ∧
  ∀ i, i < S n → bit old_bm i = true → cp i ≠ NULL → holds m2 (cp i) len (N i).
Proof using Hreq.
  intros Hinv Hn Hb Htc Hcp. destruct (ur_shape Hreq) as (_ & Hk & _). split.
  - apply (touched_trans _ (us_mem st)); [eapply touched_mono, (ri_touched _ _ Hinv)|eapply touched_mono, Htc].
    + intros q [?|(i & Hi & ?)]; [by left|right; exists i; split; [lia|done]].
    + intros q [->|[[? ->]|[? ->]]]; [left; exists 0; split; [lia|done]|left; exists 1; split; [lia|done]|].
      right. exists n. split; [lia|done].
  - intros i Hi Hbi Hc. destruct (decide (i = n)) as [->|Hne]; [auto|].
    eapply touched_holds; [exact Htc| |apply (ri_copy _ _ Hinv); [lia|done..]].
    pose proof (copy_parity_sep false i) as Hsep. simpl in Hsep.
    intros [E|[[? E]|[? E]]]; [by destruct (Hsep 0 ltac:(lia) Hbi Hc ltac:(lia))|by destruct (Hsep 1 ltac:(lia) Hbi Hc ltac:(lia))|].
    destruct (ur_cp Hreq i ltac:(lia) Hbi Hc) as (_ & Hs & _). destruct (Hs n Hn Hb) as (_ & _ & H'). by apply H'.
Qed.

Lemma row_seed_range i : crc_range (row_seed i).
Proof using. unfold row_seed. destruct (bit crc_bm i); [apply salt_range|done]. Qed.

(** The arrays the call for row [n] gets. *)
Lemma row_arrays n st : row_inv n st →
  ∃ data coding _crc,
    parity_arrays replicas slice_size first_rlba old_vec old_bm crc_bm s (us_first st) new_vec
      (<[1 := nd n]> (<[0 := od n]> (ul_data u)), ul_coding u, <[0 := row_seed n]> (us__crc st)) =
      Ok (data, coding, _crc) ∧
    data !! 0 = Some (od n) ∧ data !! 1 = Some (nd n) ∧ _crc !! 0 = Some (row_seed n) ∧
    length _crc = N_MAX_RAID_SLICE_LEN + 1 ∧ Forall crc_range _crc ∧
    ∀ j, j < parities → data !! (2 + j) = Some (parity_in (us_first st) j) ∧ coding !! j = Some (np j) ∧
      _crc !! (1 + j) = Some (parity_seed j).
Proof using Ht Hu Hreq.
  intros Hinv. destruct (ri__crc _ _ Hinv) as [Hl Hr]. destruct Hu as [_ Hud Huc].
  destruct (parity_arrays_ok (us_first st) (<[1 := nd n]> (<[0 := od n]> (ul_data u)))
    (ul_coding u) (<[0 := row_seed n]> (us__crc st))) as (data & coding & cr & Harr & Hlc & Hrc & Hlow & H0 & Hj);
    [by rewrite !length_insert|done|by rewrite length_insert|apply Forall_insert; [done|apply row_seed_range]|].
  exists data, coding, cr. unfold N_MAX_RAID_SLICE_LEN in *. split_and!; try done.
  - rewrite Hlow, list_lookup_insert_ne, list_lookup_insert_eq by lia. done.
  - rewrite Hlow, list_lookup_insert_eq by (rewrite ?length_insert; lia). done.
  - rewrite H0, list_lookup_insert_eq by lia. done.
Qed.

(** The parities after the call are those of the slice with row [n] replaced. *)
Lemma row_parities n st m2 : n < slice_size → bit old_bm n = true → row_inv n st →
  holds m2 (np 0) len (update_P (codeword slice_size (R n) slice_size) (D n) (N n)) →
  (parities = 2 → holds m2 (np 1) len (update_Q n (codeword slice_size (R n) (slice_size + 1)) (D n) (N n))) →
  ∀ j, j < parities → holds m2 (np j) len (codeword slice_size (R (S n)) (slice_size + j)).
Proof using Hreq.
  intros Hn Hb Hinv HP HQ j Hj. destruct (ur_shape Hreq) as (_ & Hk & Hsl & H12).
  destruct (ur_bytes Hreq) as [HD HN]. unfold N_MAX_RAID_SLICE_LEN in *.
  assert (j = 0 ∨ (j = 1 ∧ parities = 2)) as [->|[-> Hk2]] by lia.
  - rewrite Nat.add_0_r. eapply holds_ext; [|exact HP]. intros. symmetry. apply rewritten_P; (done || unfold GF_MAX_D; lia).
  - eapply holds_ext; [|by apply HQ]. intros. symmetry. by apply rewritten_Q.
Qed.

Lemma row_parity_crc n j k c : n < slice_size → bit old_bm n = true → j < parities →
  crc_spec c ((match 1 + j with 0 => N n | 1 => update_P (codeword slice_size (R n) slice_size) (D n) (N n)
    | _ => update_Q n (codeword slice_size (R n) (slice_size + 1)) (D n) (N n) end) <$> seq 0 k) =
  crc_spec c (codeword slice_size (R (S n)) (slice_size + j) <$> seq 0 k).
Proof using Hreq.
  intros Hn Hb Hj. destruct (ur_shape Hreq) as (_ & Hk & Hsl & H12).
  destruct (ur_bytes Hreq) as [HD HN]. unfold N_MAX_RAID_SLICE_LEN in *. f_equal. apply list.list_fmap_ext. intros ? i ?.
  assert (j = 0 ∨ j = 1) as [-> | ->] by lia; symmetry.
  - rewrite Nat.add_0_r. apply rewritten_P; (done || unfold GF_MAX_D; lia).
  - by apply rewritten_Q.
Qed.

Lemma update_row_ok n st : row_inv n st → n < slice_size → bit old_bm n = true →
  ∃ st', update_row pf u replicas slice_size snake_size first_rlba old_vec cpy_vec old_bm crc_bm len n st = Ok st' ∧
    row_inv (S n) st' ∧ us_first st' = false.
Proof using Ht Hu Hreq.
  intros Hinv Hn Hb. destruct (ur_row Hreq n Hn Hb) as (Ho & Hd & Hc & _).
  destruct (row_arrays n st Hinv) as (data & coding & cr & Harr & Hd0 & Hd1 & Hc0 & Hlc & Hrc & Hj).
  destruct (update_call (us_mem st) n data coding cr (cp n) _ _ _ _ _ _ _ _ _ _
    (update_row_pre n st data coding cr Hinv Hn Hb Hd0 Hd1 (fun j Hjk => conj (proj1 (Hj j Hjk))
      (proj1 (proj2 (Hj j Hjk)))) Hlc Hrc)) as (m2 & cr2 & Hrun & Htc & Hcp & HP & HQ & Hl2 & Hr2 & Hc2).
  destruct (row_memory n st m2 Hinv Hn Hb Htc Hcp) as [Htc2 Hcp2].
  pose proof (row_parities n st m2 Hn Hb Hinv HP HQ) as Hpar.
  destruct (row_crc n (us_crc st) cr2 (ri_crc _ _ Hinv) Hn Hb) as (c' & Hout & Hset);
    [by rewrite (Hc2 0 _ ltac:(lia) Hc0)|].
  pose proof (keep_parities_ok coding (fun j Hjk => proj1 (proj2 (Hj j Hjk)))) as Hkeep.
  pose proof (ri__crc _ _ Hinv) as [Hl _]. destruct Hu as [_ Hud _]. unfold N_MAX_RAID_SLICE_LEN in *.
  pose proof (ri_gf _ _ Hinv) as Eg. pose proof (ri_nv _ _ Hinv) as En. pose proof (ri_rv _ _ Hinv) as Er.
  destruct st as [g m1 _crc cc nv fi rv]. simpl in *. subst g nv rv. rewrite (proj2 (aget_ok _ _ _) Ho). rstep.
  rewrite aset_ok by lia. rstep. rewrite (proj2 (aget_ok _ _ _) Hd). rstep.
  rewrite aset_ok by (rewrite length_insert; lia). rstep. rewrite salt_if_ok. fold (row_seed n). rstep.
  rewrite aset_ok by lia. rstep. rewrite Harr. rstep. rewrite (proj2 (aget_ok _ _ _) Hc). rstep.
  rewrite Hrun. rstep. rewrite Hout. rstep. rewrite Hkeep. rstep. eexists. split; [done|]. split; [|done].
  split; simpl; try done; [by rewrite Hl2|].
  intros _ j Hjk. rewrite (Hc2 (S j) _ ltac:(lia) (proj2 (proj2 (Hj j Hjk)))).
  f_equal. by apply (row_parity_crc n j).
Qed.

Lemma row_skip n st : row_inv n st → bit old_bm n = false → row_inv (S n) st.
Proof using Hreq.
  intros [Hg Hrv Hnv Hc Hf Htc Hp Hpc Hset Hcp] Hb. pose proof parities_le as Hk.
  assert (∀ j k, j < parities → codeword slice_size (R (S n)) (slice_size + j) k =
    codeword slice_size (R n) (slice_size + j) k) as Hcw.
  { intros j k Hj. apply codeword_ext; [|lia]. intros i _. by rewrite rewritten_skip. }
  assert (∀ i, i < S n → bit old_bm i = true → i < n) as Hlt.
  { intros i Hi Hbi. destruct (decide (i = n)) as [->|]; [congruence|lia]. }
  split; try done.
  - intros E i Hi. destruct (decide (i = n)) as [->|]; [done|]. apply Hf; [done|lia].
  - eapply touched_mono, Htc. intros q [?|(i & Hi & ?)]; [by left|right; exists i; split; [lia|done]].
  - intros j Hj. eapply holds_ext; [|by apply Hp]. intros k _. symmetry. by apply Hcw.
  - intros E j Hj. rewrite (Hpc E j Hj). do 2 f_equal. apply list.list_fmap_ext. intros ? k ?. symmetry. by apply Hcw.
  - apply crcs_set_skip; [done|]. by rewrite land_bit, Hb, andb_false_r.
  - intros i Hi Hbi. apply Hcp; auto.
Qed.

Lemma row_start : row_inv 0 (UpState s m (ul_crc u) crc new_vec true 0).
Proof using Hu Hreq.
  destruct Hu as [Hc _ _]. split; simpl; try done; try (intros; lia); [apply touched_refl|].
  intros j Hj. by apply (ur_parity Hreq j Hj).
Qed.

Lemma update_rows_ok : ∃ st,
  update_rows pf u replicas slice_size snake_size first_rlba old_vec cpy_vec old_bm crc_bm len
    (UpState s m (ul_crc u) crc new_vec true 0) = Ok st ∧ row_inv slice_size st ∧ us_first st = false.
Proof using Ht Hu Hreq.
  unfold update_rows. match goal with |- context [for_up _ ?body _] =>
    destruct (for_up_inv body row_inv slice_size (UpState s m (ul_crc u) crc new_vec true 0))
      as (st & -> & Hinv) end; [apply row_start| |].
  - intros n st Hn Hinv.
    assert (bit (data_update slice_size old_bm) n = bit old_bm n) as ->.
    { unfold data_update, bit, GENMASK0. rewrite Z.land_spec, Z.ones_spec_low, andb_true_r by lia. done. }
    destruct (bit old_bm n) eqn:Hb; [|eauto using row_skip].
    destruct (update_row_ok n st Hinv Hn Hb) as (st' & ? & ? & _). eauto.
  - exists st. split_and!; [done..|]. destruct (us_first st) eqn:E; [|done].
    destruct (ur_some Hreq) as (i & Hi & Hb). rewrite (ri_first _ _ Hinv E i Hi) in Hb. done.
Qed.

Lemma parity_crcs_ok st : row_inv slice_size st → us_first st = false → ∃ crc',
  parity_crcs replicas slice_size crc_bm (us__crc st) (us_crc st) = Ok crc' ∧
  crcs_set replicas (Z.land crc_bm old_bm) (fun i =>
    crc_spec (salt (block_rlba slice_size snake_size first_rlba i))
      (codeword slice_size (R slice_size) i <$> seq 0 len)) crc crc'.
Proof using Hreq.
  intros Hinv E. destruct (ur_shape Hreq) as (_ & _ & Hsl & _). set (val := fun i => crc_spec _ _).
  unfold parity_crcs. match goal with |- context [for_up _ ?body _] =>
    destruct (for_up_inv body (fun j c => crcs_set (slice_size + j) (Z.land crc_bm old_bm) val crc c)
      parities (us_crc st)) as (crc' & -> & H) end.
  - rewrite Nat.add_0_r. eapply crcs_set_ext, (ri_crc _ _ Hinv). intros i Hi Hb. unfold val, block_rlba.
    rewrite land_bit in Hb. apply andb_true_iff in Hb as [_ Hb]. rewrite (proj2 (Nat.ltb_lt _ _) Hi). f_equal.
    apply list.list_fmap_ext. intros ? k ?. rewrite codeword_data by done. unfold rewritten.
    by rewrite (proj2 (Nat.ltb_lt _ _) Hi), Hb.
  - intros j c Hj Hset. destruct (ur_parity Hreq j Hj) as (Hb & _). rewrite Nat.add_succ_r.
    destruct (bit crc_bm (slice_size + j)) eqn:Ec.
    + rewrite (proj2 (aget_ok _ _ _) (ri_pcrc _ _ Hinv E j Hj)). rstep.
      destruct (ur_crc Hreq (slice_size + j)) as [x Hx]; [lia|done|done|].
      assert (val (slice_size + j) = crc_spec (parity_seed j)
        (codeword slice_size (R slice_size) (slice_size + j) <$> seq 0 len)) as <-.
      { unfold val, block_rlba, parity_seed. by rewrite Ec, (proj2 (Nat.ltb_ge _ _)) by lia. }
      refine (crcs_set_step _ _ _ crc c x Hset Hx _). by rewrite land_bit, Ec, Hb.
    + eexists. split; [done|]. apply crcs_set_skip; [done|]. by rewrite land_bit, Ec.
  - replace (slice_size + parities) with replicas in H by lia. eauto.
Qed.
End program_ok.

(** C7: folding rewritten rows into the parities.  When every parity is given
    and at least one row is rewritten, the call succeeds and keeps the parity
    buffers; they then hold the parities of the slice with the rows replaced,
    every copy holds its new row, and the requested CRCs of the rewritten rows
    and of the parities are the complemented salted CRC32Cs of the new contents. *)
Theorem update_parities_ok pf s u replicas slice_size snake_size first_rlba old_vec new_vec cpy_vec crc
    old_bm crc_bm dbg m D N od nd cp op np
    (Ht : EcTable (gf_funcs s)) (Hu : up_locals_ok u)
    (Hreq : update_request m (DEBUG_DI_SIZE_CALC dbg) replicas slice_size old_vec new_vec cpy_vec crc
      old_bm crc_bm D N od nd cp op np) :
  let len := DEBUG_DI_SIZE_CALC dbg in
  let D' := rewritten old_bm D N slice_size in
  ∃ m' crc',
    nvmeibc_reed_solomon_update_parities pf s u replicas slice_size snake_size old_vec new_vec cpy_vec crc
      old_bm crc_bm first_rlba dbg m = Ok (0%Z, s, m', crc', new_vec) ∧
    (∀ j, j < replicas - slice_size → holds m' (np j) len (codeword slice_size D' (slice_size + j))) ∧
    (∀ i, i < slice_size → bit old_bm i = true → cp i ≠ NULL → holds m' (cp i) len (N i)) ∧
    crcs_set replicas (Z.land crc_bm old_bm) (fun i =>
      crc_spec (salt (block_rlba slice_size snake_size first_rlba i))
        (codeword slice_size D' i <$> seq 0 len)) crc crc'.
Proof.
  intros len D'. destruct (update_rows_ok pf s u replicas slice_size snake_size first_rlba m _ old_vec new_vec
    cpy_vec crc old_bm crc_bm D N od nd cp op np Ht Hu Hreq) as (st & Hrun & Hinv & Hf).
  edestruct parity_crcs_ok as (crc' & Hrun2 & Hset); [exact Hreq|exact Hinv|exact Hf|].
  exists (us_mem st), crc'. unfold nvmeibc_reed_solomon_update_parities. rewrite Hrun. rstep. rewrite Hrun2. rstep.
  destruct Hinv as [-> -> -> _ _ _ Hp _ _ Hc]. rewrite Hf in Hp. done.
Qed.

(** ** A concrete update: rows 0 and 2 of three are rewritten, the parities go to
    new buffers, row 0 is also copied. *)
Module TwoRows.
Import RaidSlice.LostPair.
Definition N (i j : nat) : Z := ((91 * Z.of_nat j + 17 + Z.of_nat i) mod 256)%Z.
Definition m : mem :=
  {[0 := row (D 0); 1 := row (D 2); 2 := row (N 0); 3 := row (N 2); 4 := row (codeword 3 D 3);
    5 := row (codeword 3 D 4); 6 := zeros; 7 := zeros; 8 := zeros]}.
Definition od (i : nat) : ptr := if i =? 0 then PTR 0 else PTR 1.
Definition nd (i : nat) : ptr := if i =? 0 then PTR 2 else PTR 3.
Definition cp (i : nat) : ptr := if i =? 0 then PTR 8 else NULL.
Definition op (j : nat) : ptr := PTR (4 + j).
Definition np (j : nat) : ptr := PTR (6 + j).
Definition old_vec : list ptr := [PTR 0; NULL; PTR 1; PTR 4; PTR 5] ++ replicate 7 NULL.
Definition new_vec : list ptr := [PTR 2; NULL; PTR 3; PTR 6; PTR 7] ++ replicate 7 NULL.
Definition cpy_vec : list ptr := PTR 8 :: replicate 11 NULL.
Definition u : up_locals := UpLocals (replicate 13 0%Z) (replicate 14 NULL) (replicate 12 NULL).
Definition old_bm : Z := 29.

Lemma u_ok' : up_locals_ok u.
Proof. split; try split; try done. by apply Forall_replicate. Qed.

Lemma rows3 (P : nat → Prop) : P 0 → P 2 → ∀ i, i < 3 → bit old_bm i = true → P i.
Proof. intros ? ? [|[|[|i]]] Hi Hb; done || lia. Qed.

Lemma request' : update_request m (DEBUG_DI_SIZE_CALC true) 5 3 old_vec new_vec cpy_vec crc old_bm old_bm
  D N od nd cp op np.
Proof.
  split.
  - done.
  - unfold N_MAX_RAID_SLICE_LEN. lia.
  - split; intros i j; apply Z.mod_pos_bound; lia.
  - apply rows3; (split_and!; [reflexivity..|apply holdsb_ok; vm_compute; reflexivity|apply holdsb_ok; vm_compute; reflexivity]).
  - exists 0. split; [lia|done].
  - intros [|[|j]] Hj; [..|simpl in Hj; lia]; (split_and!; [reflexivity..|apply holdsb_ok; vm_compute; reflexivity|
      apply validb_ok; vm_compute; reflexivity]).
  - intros i j Hi Hb Hj. unfold np, od, nd, cp. split_and!; case_match; congruence || (intros [=]; lia).
  - intros j j' Hj Hj' Hne. unfold np, op. simpl in *. split; intros [=]; lia.
  - refine (rows3 _ _ _); [|done]. intros _. split_and!; [apply validb_ok; vm_compute; reflexivity|apply rows3; done|].
    intros j Hj. unfold cp, op. simpl in *. intros [=]. lia.
  - intros i Hi _ _. exists 0%Z. apply lookup_replicate_2. lia.
Qed.
End TwoRows.

Lemma update_parities_ok_witness : ∃ m' crc',
  nvmeibc_reed_solomon_update_parities LostPair.pf LostPair.s TwoRows.u 5 3 8 TwoRows.old_vec TwoRows.new_vec
    TwoRows.cpy_vec LostPair.crc TwoRows.old_bm TwoRows.old_bm 1000 true TwoRows.m =
    Ok (0%Z, LostPair.s, m', crc', TwoRows.new_vec) ∧
  holds m' (PTR 6) 512 (codeword 3 (rewritten TwoRows.old_bm LostPair.D TwoRows.N 3) 3) ∧
  holds m' (PTR 8) 512 (TwoRows.N 0).
Proof.
  destruct (update_parities_ok LostPair.pf LostPair.s TwoRows.u 5 3 8 1000 TwoRows.old_vec TwoRows.new_vec
    TwoRows.cpy_vec LostPair.crc TwoRows.old_bm TwoRows.old_bm true TwoRows.m LostPair.D TwoRows.N
    TwoRows.od TwoRows.nd TwoRows.cp TwoRows.op TwoRows.np unoptimized_table TwoRows.u_ok' TwoRows.request')
    as (m' & crc' & Hrun & Hp & Hc & _).
  exists m', crc'. split; [exact Hrun|]. split; [exact (Hp 0 ltac:(lia))|].
  apply (Hc 0); [lia|reflexivity|done].
Defined.
