(* ===== verification/BitFields.v ===== *)
(** * Packed bit fields

    A packed structure of the source is an integer; a member [u16 f : w] at bit
    [o] is read with [field o w] and assigned with [set_field o w].  Shared by
    the dirty-bit markers, the lock entries and the block metadata. *)
From stdpp Require Import base list numbers.
From Stdlib Require Import ZArith Lia.
From S2P Require Import Prelude.
Local Open Scope Z_scope.

Definition field (o w x : Z) : Z := Z.land (Z.shiftr x o) (Z.ones w).
Definition flag (o x : Z) : bool := Z.testbit x o.
Definition set_field (o w v x : Z) : Z :=
  Z.lor (Z.ldiff x (Z.shiftl (Z.ones w) o)) (Z.shiftl (Z.land v (Z.ones w)) o).

(** Number of set bits among the low [n]. *)
Fixpoint hweight (n : nat) (x : Z) : Z :=
  match n with
  | O => 0
  | S n' => hweight n' x + (if Z.testbit x (Z.of_nat n') then 1 else 0)
  end.

(** ** Bits of a field *)
Lemma ones_testbit w i : 0 ≤ w → 0 ≤ i → Z.testbit (Z.ones w) i = (i <? w).
Proof.
  intros Hw Hi. destruct (Z.ltb_spec i w); [by apply Z.ones_spec_low|by apply Z.ones_spec_high].
Qed.

Lemma field_testbit o w x i : 0 ≤ o → 0 ≤ w → 0 ≤ i →
  Z.testbit (field o w x) i = Z.testbit x (i + o) && (i <? w).
Proof. intros. unfold field. by rewrite Z.land_spec, Z.shiftr_spec, ones_testbit. Qed.

Lemma set_field_testbit o w v x i : 0 ≤ o → 0 ≤ w → 0 ≤ i →
  Z.testbit (set_field o w v x) i =
  if (o <=? i) && (i <? o + w) then Z.testbit v (i - o) else Z.testbit x i.
Proof.
  intros Ho Hw Hi. unfold set_field. rewrite Z.lor_spec, Z.ldiff_spec, !Z.shiftl_spec by lia.
  destruct (Z.leb_spec o i); simpl.
  - rewrite Z.land_spec, ones_testbit by lia.
    destruct (Z.ltb_spec i (o + w)), (Z.ltb_spec (i - o) w); try lia; simpl;
      destruct (Z.testbit x i), (Z.testbit v (i - o)); done.
  - rewrite !(Z.testbit_neg_r _ (i - o)) by lia. by rewrite andb_true_r, orb_false_r.
Qed.

Ltac field_bits :=
  apply Z.bits_inj'; intros ?i ?Hi;
  rewrite ?field_testbit, ?set_field_testbit, ?wrap_testbit by lia.

Lemma field_range o w x : 0 ≤ w → 0 ≤ field o w x < 2 ^ w.
Proof.
  intros Hw. unfold field. rewrite Z.land_ones by done. apply Z.mod_pos_bound. apply Z.pow_pos_nonneg; lia.
Qed.

Lemma field_set_same o w v x : 0 ≤ o → 0 ≤ w → field o w (set_field o w v x) = wrap w v.
Proof.
  intros Ho Hw. field_bits. destruct (Z.ltb_spec i w); simpl; [|by rewrite andb_false_r].
  rewrite (proj2 (Z.leb_le _ _)), (proj2 (Z.ltb_lt _ _)) by lia. simpl. rewrite andb_true_r. f_equal. lia.
Qed.

Lemma field_set_other o w v x o' w' : 0 ≤ o → 0 ≤ w → 0 ≤ o' → 0 ≤ w' → o' + w' ≤ o ∨ o + w ≤ o' →
  field o' w' (set_field o w v x) = field o' w' x.
Proof.
  intros Ho Hw Ho' Hw' Hdis. field_bits. destruct (Z.ltb_spec i w'); [|by rewrite !andb_false_r].
  destruct (Z.leb_spec o (i + o')), (Z.ltb_spec (i + o') (o + w)); simpl; done || lia.
Qed.

(** A narrower view of a field, as in a union. *)
Lemma field_set_prefix o w v x w' : 0 ≤ o → 0 ≤ w' ≤ w → field o w' (set_field o w v x) = wrap w' v.
Proof.
  intros Ho Hw. field_bits. destruct (Z.ltb_spec i w'); simpl; [|by rewrite andb_false_r].
  rewrite (proj2 (Z.leb_le _ _)), (proj2 (Z.ltb_lt _ _)) by lia. simpl. rewrite andb_true_r. f_equal. lia.
Qed.

(** [fields] reads members through a chain of assignments. *)
Ltac fields :=
  repeat first [rewrite field_set_same by lia | rewrite field_set_other by lia | rewrite field_set_prefix by lia].

Lemma set_field_bound o w v x n : 0 ≤ o → 0 ≤ w → o + w ≤ n → 0 ≤ x < 2 ^ n → 0 ≤ set_field o w v x < 2 ^ n.
Proof.
  intros Ho Hw Hn Hx. assert (0 ≤ set_field o w v x) as Hpos.
  { unfold set_field. apply Z.lor_nonneg. split; [apply Z.ldiff_nonneg; lia|].
    apply Z.shiftl_nonneg. rewrite Z.land_ones by done. apply Z.mod_pos_bound, Z.pow_pos_nonneg; lia. }
  split; [done|]. apply bits_bound; [lia|done|].
  intros i Hi. rewrite set_field_testbit by lia. rewrite (proj2 (Z.ltb_ge _ _)) by lia. rewrite andb_false_r.
  by apply (testbit_high n).
Qed.

(** Two values of [n] bits with the same fields are the same. *)
Lemma field_split o w x n : 0 ≤ o → 0 ≤ w → o + w = n → 0 ≤ x < 2 ^ n →
  x = Z.lor (field 0 o x) (Z.shiftl (field o w x) o).
Proof.
  intros Ho Hw Hn Hx. apply Z.bits_inj'. intros i Hi. rewrite Z.lor_spec, Z.shiftl_spec, field_testbit by lia.
  rewrite Z.add_0_r. destruct (Z.ltb_spec i o).
  - rewrite (Z.testbit_neg_r _ (i - o)) by lia. by rewrite andb_true_r, orb_false_r.
  - rewrite field_testbit, andb_false_r by lia. simpl. replace (i - o + o) with i by lia.
    destruct (Z.ltb_spec (i - o) w); [by rewrite andb_true_r|]. rewrite andb_false_r. apply (testbit_high n); lia.
Qed.

(** ** Counting bits *)
Lemma hweight_range n x : 0 ≤ hweight n x ≤ Z.of_nat n.
Proof. induction n as [|n IH]; simpl hweight; [lia|]. destruct (Z.testbit x (Z.of_nat n)); lia. Qed.

Lemma hweight_0 n : hweight n 0 = 0.
Proof. induction n as [|n IH]; simpl; [done|]. rewrite IH. by destruct n. Qed.

Lemma hweight_mono n x y : (∀ i, 0 ≤ i → Z.testbit x i = true → Z.testbit y i = true) → hweight n x ≤ hweight n y.
Proof.
  intros H. induction n as [|n IH]; simpl; [lia|]. specialize (H (Z.of_nat n)).
  destruct (Z.testbit x _); [rewrite H by (done || lia); lia|]. destruct (Z.testbit y _); lia.
Qed.

Lemma hweight_more n m x : (n ≤ m)%nat → 0 ≤ x < 2 ^ Z.of_nat n → hweight m x = hweight n x.
Proof.
  intros Hle Hx. induction Hle as [|m Hle IH]; simpl; [done|].
  rewrite IH, (testbit_high (Z.of_nat n)) by (done || lia). lia.
Qed.

Lemma hweight_zero n x : 0 ≤ x < 2 ^ Z.of_nat n → hweight n x = 0 → x = 0.
Proof.
  intros Hx H. apply Z.bits_inj'. intros i Hi. rewrite Z.bits_0.
  destruct (Z.ltb_spec i (Z.of_nat n)) as [Hlt|]; [|by apply (testbit_high (Z.of_nat n))].
  destruct (Z.testbit x i) eqn:E; [|done]. exfalso. clear Hx.
  induction n as [|n IH]; [lia|]. simpl in H. pose proof (hweight_range n x).
  destruct (decide (i = Z.of_nat n)) as [->|]; [rewrite E in H; lia|].
  destruct (Z.testbit x (Z.of_nat n)); [lia|]. apply IH; lia.
Qed.

Lemma hweight_lor n x y : hweight n (Z.lor x y) ≤ hweight n x + hweight n y.
Proof.
  induction n as [|n IH]; simpl; [done|]. rewrite Z.lor_spec.
  destruct (Z.testbit x _), (Z.testbit y _); simpl; lia.
Qed.

#[global] Arguments hweight : simpl never.

(** ** Exhaustive checks over all values of a field *)
Fixpoint all_from (n : nat) (i : Z) (P : Z → bool) : bool :=
  match n with O => true | S n' => P i && all_from n' (i + 1) P end.
Definition all_values (w : nat) (P : Z → bool) : bool := all_from (Nat.pow 2 w) 0 P.

Lemma all_from_spec n i P : all_from n i P = true → ∀ x, i ≤ x < i + Z.of_nat n → P x = true.
Proof.
  revert i. induction n as [|n IH]; intros i H x Hx; [lia|]. simpl in H. apply andb_true_iff in H as [H1 H2].
  destruct (decide (x = i)) as [->|]; [done|]. apply (IH (i + 1)); [done|lia].
Qed.

Lemma all_values_spec w P : all_values w P = true → ∀ x, 0 ≤ x < 2 ^ Z.of_nat w → P x = true.
Proof.
  intros H x Hx. apply (all_from_spec _ _ _ H). rewrite Nat2Z.inj_pow. lia.
Qed.
