(* ===== verification/DirtyBits.v ===== *)
(** * Dirty bits

    Models [clnt/block/datapath_utils_generic/nvmeibc_block_dp_dbits.c/.h] and
    the marker, lock and blockset entries of [common/nvmeib_shared.h]: the 12-bit
    marker [nvmeibc_dbits_entry], its unpacked form [nvmeibc_dbits_action],
    decoding, encoding, merging of two markers and applying a transaction.
    [WARN] only logs and is left out. *)
From stdpp Require Import base list numbers.
From Stdlib Require Import ZArith Lia.
From S2P Require Import Prelude BitFields.
Local Open Scope Z_scope.

(** ** The marker: members of the union, a 12-bit integer *)
Definition entry : Type := Z.
Definition mod_marker (e : entry) : Z := field 0 4 e.
Definition is_d0_convict (e : entry) : bool := flag 0 e.
Definition is_d1_convict (e : entry) : bool := flag 1 e.
Definition dead0 (e : entry) : Z := field 4 4 e.
Definition dead1 (e : entry) : Z := field 8 4 e.
Definition sl_dead0 (e : entry) : Z := field 0 4 e.
Definition set_mod_marker (v : Z) (e : entry) : entry := set_field 0 4 v e.
Definition set_d0_convict (v : Z) (e : entry) : entry := set_field 0 1 v e.
Definition set_d1_convict (v : Z) (e : entry) : entry := set_field 1 1 v e.
Definition set_dead0 (v : Z) (e : entry) : entry := set_field 4 4 v e.
Definition set_dead1 (v : Z) (e : entry) : entry := set_field 8 4 v e.
Definition set_sl_dead0 (v : Z) (e : entry) : entry := set_field 0 4 v e.

Definition UNK_DB : Z := 0xF.
Definition nvmeibc_dbits_entry_is_global_mode (e : entry) : bool :=
  (mod_marker e =? 0) || (0xc <? mod_marker e).

Definition nvmeibc_dbits_has_unknowns (e : entry) : bool :=
  if nvmeibc_dbits_entry_is_global_mode e then (dead0 e =? UNK_DB) || (dead1 e =? UNK_DB) else false.

(** ** Builders of markers *)
Definition nvmeib_dbits_entry_single_unk : entry := set_dead0 0xF 0.

Definition nvmeib_dbits_entry_build_unk (conv0 conv1 : Z) : entry :=
  let '(conv0, conv1) := if conv0 <? conv1 then (conv1, conv0) else (conv0, conv1) in
  let rv := 0 in
  let rv := if 0 <=? conv0 then set_dead0 (conv0 + 1) (set_d0_convict 1 rv) else set_dead0 0xF rv in
  let rv := if 0 <=? conv1 then set_dead1 (conv1 + 1) (set_d1_convict 1 rv) else set_dead1 0xF rv in
  let rv := if mod_marker rv =? 0 then rv else set_mod_marker (mod_marker rv + 0xc) rv in
  if dead0 rv <? dead1 rv then
    let tmp := dead0 rv in
    let rv := set_dead0 (dead1 rv) rv in
    let rv := set_dead1 tmp rv in
    let tmp := is_d0_convict rv in
    let rv := set_d0_convict (Z.b2z (is_d1_convict rv)) rv in
    set_d1_convict (Z.b2z tmp) rv
  else rv.

Definition nvmeib_dbits_entry_build_unknowns_generic (n_deg replicas n_parities : Z)
    (is_seg_degraded : bool) : entry :=
  if (replicas - n_parities =? 1) && (n_parities =? 1) && is_seg_degraded then 0
  else
    let rv := if 0 <? n_deg then set_dead0 0xF 0 else 0 in
    if 1 <? n_deg then set_dead1 0xF rv else rv.

Definition nvmeib_dbits_entry_build_for_seg (seg0 : Z) : entry :=
  if 0 <=? seg0 then set_sl_dead0 (seg0 + 1) 0 else 0.

Definition nvmeib_dbits_entry_build_for_segs (seg0 seg1 : Z) : entry :=
  let seg0 := seg0 + 1 in
  let seg1 := seg1 + 1 in
  if seg1 <? seg0 then set_dead1 seg1 (set_dead0 seg0 0) else set_dead1 seg0 (set_dead0 seg1 0).

(** ** Actions *)
Record action : Type := Action {
  db_turn_on_bmp : Z; db_turn_off_bmp : Z; db_conv_map : Z;
  num_unknowns : Z; num_degraded : Z; has_slice_info : bool
}.

Record topo_traits : Type := TopoTraits {
  n_parities : Z; n_degraded : Z;
  dbits_on : Z; dbits_off : Z; traits_wm : Z
}.

Definition nvmeibc_dbits_action_init (num_degraded : Z) : res action :=
  if 3 <? num_degraded then Fault BUG else Ok (Action 0 0 0 0 (wrap 3 num_degraded) false).

Definition action_add (act : action) (di : Z) (c : bool) : action :=
  let '(Action on off conv unk deg slc) := act in
  if di =? UNK_DB then Action on off conv (wrap 4 (unk + 1)) deg slc
  else if di =? 0 then act
  else Action (Z.lor on (Z.shiftl 1 (di - 1))) off (Z.lor conv (Z.shiftl (Z.b2z c) (di - 1))) unk deg slc.

Definition should_loose_slice_info (act : action) (is_deg2 : bool) : bool :=
  is_deg2 || negb (db_conv_map act =? 0) || negb (num_unknowns act =? 0).

Definition action_calc_has_slice_info (act : action) : action :=
  let n_deg := hweight 32 (Z.ldiff (db_turn_on_bmp act) (db_turn_off_bmp act)) in
  let '(Action on off conv unk deg _) := act in
  Action on off conv unk deg (negb (should_loose_slice_info act (1 <? n_deg))).

Definition nvmeibc_dbits_action_init_by_entry (e : entry) (num_degraded : Z) : res action :=
  act ← nvmeibc_dbits_action_init num_degraded;
  if nvmeibc_dbits_entry_is_global_mode e && negb (e =? 0) then
    let act := action_add act (dead0 e) (is_d0_convict e) in
    let act := action_add act (dead1 e) (is_d1_convict e) in
    Ok (action_calc_has_slice_info act)
  else
    let '(Action on off conv unk deg _) := action_add act (sl_dead0 e) false in
    Ok (Action on off conv unk deg true).

(** The two lowest dirty segments, each as index plus one and convict flag; the
    loop ends when no bit is left (sixteen bits at most) or at the third. *)
Fixpoint lowest_two (fuel : nat) (i db_map conv_map : Z) (found : list (Z * bool)) : list (Z * bool) :=
  match fuel with
  | O => found
  | S fuel =>
      if db_map =? 0 then found
      else if Z.testbit db_map 0 then
        if (2 <=? length found)%nat then found
        else lowest_two fuel (i + 1) (Z.shiftr db_map 1) conv_map (found ++ [(i + 1, Z.testbit conv_map i)])
      else lowest_two fuel (i + 1) (Z.shiftr db_map 1) conv_map found
  end.

Definition nvmeibc_dbits_action_to_entry (act : action) : entry :=
  let found := lowest_two 16 0 (db_turn_on_bmp act) (db_conv_map act) [] in
  let '(s0, c0) := nth 0 found (0, false) in
  let '(s1, c1) := nth 1 found (0, false) in
  let '(s0, c0, s1, c1) := if s0 <? s1 then (s1, c1, s0, c0) else (s0, c0, s1, c1) in
  let dst := 0 in
  if has_slice_info act then set_sl_dead0 s0 dst
  else
    let dst :=
      if num_unknowns act =? 0 then
        set_dead1 s1 (set_dead0 s0 (set_d1_convict (Z.b2z c1) (set_d0_convict (Z.b2z c0) dst)))
      else if num_unknowns act =? 1 then
        set_d1_convict (Z.b2z c0) (set_dead1 s0 (set_dead0 UNK_DB dst))
      else set_dead0 UNK_DB (set_dead1 UNK_DB dst) in
    if mod_marker dst =? 0 then dst else set_mod_marker (mod_marker dst + 0xc) dst.

(** ** Merging *)
Inductive merge_option : Set := MERGE_OPT_INTERSECT | MERGE_OPT_UNIFY.

(** Step 1 of the merge: bitmaps, convicts and unknowns, without turn-offs. *)
Definition merge_basic (old New : action) (mo : merge_option) : Z * Z * Z * Z :=
  let on_or := Z.lor (db_turn_on_bmp old) (db_turn_on_bmp New) in
  let conv_or := Z.lor (db_conv_map old) (db_conv_map New) in
  match mo with
  | MERGE_OPT_UNIFY =>
      (on_or, Z.lor (db_turn_off_bmp old) (db_turn_off_bmp New), conv_or,
       wrap 4 (num_unknowns old + num_unknowns New))
  | MERGE_OPT_INTERSECT =>
      let unk := Z.min (num_unknowns old) (num_unknowns New) in
      if (0 <? num_unknowns New) && (num_unknowns old =? 0) then
        (db_turn_on_bmp old, 0, db_conv_map old, unk)
      else if (0 <? num_unknowns old) && (num_unknowns New =? 0) then
        (db_turn_on_bmp New, 0, db_conv_map New, unk)
      else if (0 <? num_unknowns old) && (0 <? num_unknowns New) then (on_or, 0, conv_or, unk)
      else (Z.land (db_turn_on_bmp old) (db_turn_on_bmp New), 0,
            Z.land (db_conv_map old) (db_conv_map New), unk)
  end.

(** Step 2: cap the unknowns and drop what is turned off. *)
Definition merge_fixup (on off conv unk deg : Z) : action :=
  let n_max_unk := Z.max 0 (deg - hweight 16 (Z.lor on off)) in
  let unk := if n_max_unk <? unk then wrap 4 n_max_unk else unk in
  let on := Z.ldiff on off in
  let conv := Z.land conv on in
  action_calc_has_slice_info (Action on off conv unk deg false).

Definition nvmeibc_dbits_action_merge (old New : action) (mo : merge_option) : res action :=
  if negb (num_degraded old =? num_degraded New) then Fault BUG else
  rv ← nvmeibc_dbits_action_init (num_degraded old);
  if negb (db_turn_off_bmp old =? 0) then Fault BUG else
  let '(on, off, conv, unk) := merge_basic old New mo in
  Ok (merge_fixup on off conv unk (num_degraded rv)).

(** ** Interface on markers *)
Definition nvmeibc_dbits_get_turn_on_bmp (e : entry) (t : topo_traits) : res Z :=
  a ← nvmeibc_dbits_action_init_by_entry e (n_degraded t); Ok (db_turn_on_bmp a).

Definition nvmeibc_dbits_get_n_unk (e : entry) (t : topo_traits) : res Z :=
  a ← nvmeibc_dbits_action_init_by_entry e (n_parities t); Ok (num_unknowns a).

Definition dbits_del_unk (e : entry) (np : Z) : res entry :=
  a ← nvmeibc_dbits_action_init_by_entry e np;
  let a := if num_unknowns a =? 0 then a
           else action_calc_has_slice_info
                  (Action (db_turn_on_bmp a) (db_turn_off_bmp a) (db_conv_map a) 0 (num_degraded a) (has_slice_info a)) in
  Ok (nvmeibc_dbits_action_to_entry a).
Definition nvmeibc_dbits_del_unk (e : entry) (t : topo_traits) : res entry := dbits_del_unk e (n_degraded t).
Definition nvmeibc_dbits_del_unk_worst_case (e : entry) (t : topo_traits) : res entry :=
  dbits_del_unk e (n_parities t).

Definition dbits_merge_by_strategy (e1 e2 : entry) (mo : merge_option) (t : topo_traits) : res entry :=
  if e1 =? 0 then Ok (match mo with MERGE_OPT_UNIFY => e2 | MERGE_OPT_INTERSECT => 0 end)
  else if e2 =? 0 then Ok (match mo with MERGE_OPT_UNIFY => e1 | MERGE_OPT_INTERSECT => 0 end)
  else
    a1 ← nvmeibc_dbits_action_init_by_entry e1 (n_degraded t);
    a2 ← nvmeibc_dbits_action_init_by_entry e2 (n_degraded t);
    a ← nvmeibc_dbits_action_merge a1 a2 mo;
    Ok (nvmeibc_dbits_action_to_entry a).

Definition nvmeibc_dbits_intersect_owners (e1 e2 : entry) (t : topo_traits) : res entry :=
  dbits_merge_by_strategy e1 e2 MERGE_OPT_INTERSECT t.
Definition nvmeibc_dbits_merge_owners (e1 e2 : entry) (t : topo_traits) : res entry :=
  dbits_merge_by_strategy e1 e2 MERGE_OPT_UNIFY t.

(** A transaction: the action and the marker it leaves. *)
Definition nvmeibc_dbits_tx_apply (e_pre : entry) (tx_action : action) : res entry :=
  a_pre ← nvmeibc_dbits_action_init_by_entry e_pre (num_degraded tx_action);
  a_post ← nvmeibc_dbits_action_merge a_pre tx_action MERGE_OPT_UNIFY;
  Ok (nvmeibc_dbits_action_to_entry a_post).

Definition nvmeibc_dbits_tx_init_empty (t : topo_traits) : res action :=
  nvmeibc_dbits_action_init (n_degraded t).

Definition nvmeibc_dbits_tx_init_by_bmp (t : topo_traits) (turn_on turn_off turn_on_conv : Z) : res action :=
  a ← nvmeibc_dbits_tx_init_empty t;
  Ok (action_calc_has_slice_info
        (Action (wrap 16 (Z.lor turn_on turn_on_conv)) (wrap 16 turn_off) (wrap 16 turn_on_conv)
           (num_unknowns a) (num_degraded a) (has_slice_info a))).

(** Mark the segments whose dirty bits cannot be trusted. *)
Definition nvmeibc_dbits_turn_on_convict (e : entry) (t : topo_traits) : res entry :=
  dbits ← nvmeibc_dbits_tx_init_by_bmp t 0 0 (traits_wm t);
  nvmeibc_dbits_tx_apply e dbits.

Definition nvmeibc_dbits_tx_has_action (a : action) : bool :=
  negb (Z.lor (db_turn_on_bmp a) (db_turn_off_bmp a) =? 0).

(** ** What an action can say and a marker can hold

    At most two of twelve segments are dirty or unknown, convicts are dirty, and
    per-slice information is claimed exactly when the slice form is used. *)
Definition slice_of (on conv unk : Z) : bool :=
  negb ((1 <? hweight 12 on) || negb (conv =? 0) || negb (unk =? 0)).

Definition known (on conv unk deg : Z) : action := Action on 0 conv unk deg (slice_of on conv unk).

Record legal (on conv unk : Z) : Prop := {
  lg_on : 0 ≤ on < 2 ^ 12;
  lg_conv : Z.land conv on = conv;
  lg_unk : 0 ≤ unk;
  lg_two : hweight 12 on + unk ≤ 2
}.

Definition action_eqb (a b : action) : bool :=
  (db_turn_on_bmp a =? db_turn_on_bmp b) && (db_turn_off_bmp a =? db_turn_off_bmp b) &&
  (db_conv_map a =? db_conv_map b) && (num_unknowns a =? num_unknowns b) &&
  (num_degraded a =? num_degraded b) && eqb (has_slice_info a) (has_slice_info b).

Lemma action_eqb_ok a b : action_eqb a b = true → a = b.
Proof.
  destruct a, b. unfold action_eqb. simpl. rewrite !andb_true_iff, !Z.eqb_eq, eqb_true_iff.
  by intros [[[[[-> ->] ->] ->] ->] ->].
Qed.

(** The marker of a legal state. *)
Definition encode (on conv unk : Z) : entry := nvmeibc_dbits_action_to_entry (known on conv unk 0).

Definition roundtrip_check (on conv unk : Z) : bool :=
  let e := encode on conv unk in
  (e <? 2 ^ 12) && (0 <=? e) &&
  match nvmeibc_dbits_action_init_by_entry e 0 with
  | Ok a => action_eqb a (known on conv unk 0)
  | Fault _ => false
  end.

Lemma roundtrip_all : all_values 12 (fun on =>
  if hweight 12 on <=? 2 then
    all_values 12 (fun conv => if Z.land conv on =? conv then
      forallb (fun unk => if hweight 12 on + unk <=? 2 then roundtrip_check on conv unk else true) [0; 1; 2]
    else true)
  else true) = true.
Proof. vm_compute. reflexivity. Qed.

#[local] Opaque hweight.

Lemma action_init_ok n : 0 ≤ n ≤ 3 → nvmeibc_dbits_action_init n = Ok (Action 0 0 0 0 n false).
Proof.
  intros Hn. unfold nvmeibc_dbits_action_init. rewrite (proj2 (Z.ltb_ge 3 n)), wrap_small by lia. done.
Qed.

Definition with_deg (n : Z) (a : action) : action :=
  Action (db_turn_on_bmp a) (db_turn_off_bmp a) (db_conv_map a) (num_unknowns a) n (has_slice_info a).

Lemma action_add_deg n a di c : action_add (with_deg n a) di c = with_deg n (action_add a di c).
Proof. destruct a. unfold action_add. simpl. by destruct (di =? UNK_DB), (di =? 0). Qed.

Lemma calc_deg n a : action_calc_has_slice_info (with_deg n a) = with_deg n (action_calc_has_slice_info a).
Proof. destruct a. reflexivity. Qed.

Lemma decode_deg e n on conv unk : 0 ≤ n ≤ 3 →
  nvmeibc_dbits_action_init_by_entry e 0 = Ok (known on conv unk 0) →
  nvmeibc_dbits_action_init_by_entry e n = Ok (known on conv unk n).
Proof.
  intros Hn. unfold nvmeibc_dbits_action_init_by_entry. rewrite !action_init_ok by lia. rstep.
  change (Action 0 0 0 0 n false) with (with_deg n (Action 0 0 0 0 0 false)).
  generalize (Action 0 0 0 0 0 false). intros a0. rewrite !action_add_deg, calc_deg.
  destruct (_ && _); [by intros [= ->]|]. destruct (action_add _ (sl_dead0 e) false). unfold known. simpl. by intros [= -> -> -> -> _ ->].
Qed.

Lemma legal_conv_range on conv unk : legal on conv unk → 0 ≤ conv < 2 ^ 12.
Proof. intros [Hon <- _ _]. rewrite Z.land_comm. by apply land_bound_l. Qed.

Lemma roundtrip_at on conv unk : legal on conv unk → roundtrip_check on conv unk = true.
Proof.
  intros Hl. pose proof (legal_conv_range _ _ _ Hl) as Hc. destruct Hl as [Hon Hcv Hu H2].
  pose proof (hweight_range 12 on). pose proof (all_values_spec 12 _ roundtrip_all on Hon) as H1. cbv beta in H1.
  rewrite (proj2 (Z.leb_le _ _)) in H1 by lia. apply (all_values_spec 12 _ H1) in Hc. cbv beta in Hc.
  rewrite Hcv, Z.eqb_refl in Hc. rewrite List.forallb_forall in Hc.
  specialize (Hc unk). rewrite (proj2 (Z.leb_le _ _)) in Hc by lia. apply Hc.
  assert (unk = 0 ∨ unk = 1 ∨ unk = 2) as [-> | [-> | ->]] by lia; simpl; auto.
Qed.

Lemma to_entry_deg on conv unk n : nvmeibc_dbits_action_to_entry (known on conv unk n) = encode on conv unk.
Proof.
  unfold encode, nvmeibc_dbits_action_to_entry, known.
  cbn [db_turn_on_bmp db_conv_map num_unknowns has_slice_info]. reflexivity.
Qed.

#[local] Opaque encode.

Lemma encode_range on conv unk : legal on conv unk → 0 ≤ encode on conv unk < 2 ^ 12.
Proof. intros Hl. pose proof (roundtrip_at _ _ _ Hl) as H. unfold roundtrip_check in H. cbv zeta in H. lia. Qed.

Lemma decode_encode on conv unk n : legal on conv unk → 0 ≤ n ≤ 3 →
  nvmeibc_dbits_action_init_by_entry (encode on conv unk) n = Ok (known on conv unk n).
Proof.
  intros Hl Hn. apply decode_deg; [done|]. pose proof (roundtrip_at _ _ _ Hl) as H. unfold roundtrip_check in H.
  cbv zeta in H. apply andb_true_iff in H as [_ H].
  destruct (nvmeibc_dbits_action_init_by_entry _ 0) as [a|]; [|done]. by apply action_eqb_ok in H as ->.
Qed.

Lemma legal_empty : legal 0 0 0.
Proof. split; done. Qed.

Lemma encode_zero on conv unk : legal on conv unk → encode on conv unk = 0 → on = 0 ∧ conv = 0 ∧ unk = 0.
Proof.
  intros Hl E. pose proof (decode_encode on conv unk 0 Hl ltac:(lia)) as H. rewrite E in H.
  change (nvmeibc_dbits_action_init_by_entry 0 0) with (Ok (Action 0 0 0 0 0 true)) in H. by injection H as <- <- <- _.
Qed.

(** ** What a merge leaves

    Step 2 of the merge, on twelve-bit maps: unknowns are capped by the degraded
    segments no bit accounts for, what is turned off is no longer dirty. *)
Definition cap (n on unk : Z) : Z := Z.min unk (Z.max 0 (n - hweight 12 on)).

Lemma ldiff_bound w x y : 0 ≤ w → 0 ≤ x < 2 ^ w → 0 ≤ Z.ldiff x y < 2 ^ w.
Proof.
  intros Hw Hx. assert (0 ≤ Z.ldiff x y) by (apply Z.ldiff_nonneg; lia). split; [done|].
  apply bits_bound; [done|done|]. intros i Hi. by rewrite Z.ldiff_spec, (testbit_high w).
Qed.

Lemma to_entry_off on off conv unk n slc :
  nvmeibc_dbits_action_to_entry (Action on off conv unk n slc) =
  nvmeibc_dbits_action_to_entry (Action on 0 conv unk n slc).
Proof.
  unfold nvmeibc_dbits_action_to_entry.
  cbn [db_turn_on_bmp db_conv_map num_unknowns has_slice_info]. reflexivity.
Qed.

Lemma merge_fixup_ok on off conv unk n : 0 ≤ on < 2 ^ 12 → 0 ≤ off < 2 ^ 12 → 0 ≤ unk → 0 ≤ n ≤ 3 →
  let on' := Z.ldiff on off in
  let conv' := Z.land conv on' in
  let unk' := cap n (Z.lor on off) unk in
  merge_fixup on off conv unk n = Action on' off conv' unk' n (slice_of on' conv' unk').
Proof.
  intros Hon Hoff Hu Hn on' conv' unk'. unfold merge_fixup.
  assert (0 ≤ Z.lor on off < 2 ^ 12) as Hor by (by apply lor_bound).
  assert (0 ≤ on' < 2 ^ 12) as Hon' by (by apply ldiff_bound).
  rewrite (hweight_more 12 16 (Z.lor on off)) by (done || lia). pose proof (hweight_range 12 (Z.lor on off)) as Hw.
  assert ((if Z.max 0 (n - hweight 12 (Z.lor on off)) <? unk then wrap 4 (Z.max 0 (n - hweight 12 (Z.lor on off)))
    else unk) = unk') as ->.
  { unfold unk', cap. set (w := hweight 12 _) in *.
    destruct (Z.ltb_spec (Z.max 0 (n - w)) unk); [rewrite wrap_small by lia|]; lia. }
  fold on'. fold conv'. unfold action_calc_has_slice_info, should_loose_slice_info, slice_of.
  cbn [db_turn_on_bmp db_turn_off_bmp db_conv_map num_unknowns].
  assert (Z.ldiff on' off = on') as ->.
  { apply Z.bits_inj'. intros i Hi. unfold on'. rewrite !Z.ldiff_spec.
    by destruct (Z.testbit on i), (Z.testbit off i). }
  by rewrite (hweight_more 12 32 on') by (done || lia).
Qed.

(** What two markers say together. *)
Lemma merge_legal n on off conv unk : 0 ≤ on < 2 ^ 12 → 0 ≤ off < 2 ^ 12 → 0 ≤ unk → 0 ≤ n ≤ 2 →
  hweight 12 (Z.ldiff on off) ≤ 2 →
  legal (Z.ldiff on off) (Z.land conv (Z.ldiff on off)) (cap n (Z.lor on off) unk).
Proof.
  intros Hon Hoff Hu Hn H2. split; [by apply ldiff_bound| |unfold cap; lia|].
  - by rewrite <-Z.land_assoc, Z.land_diag.
  - assert (hweight 12 (Z.ldiff on off) ≤ hweight 12 (Z.lor on off)).
    { apply hweight_mono. intros i Hi. rewrite Z.ldiff_spec, Z.lor_spec. by destruct (Z.testbit on i). }
    unfold cap. lia.
Qed.

Lemma encode_merge n on off conv unk : 0 ≤ on < 2 ^ 12 → 0 ≤ off < 2 ^ 12 → 0 ≤ unk → 0 ≤ n ≤ 3 →
  nvmeibc_dbits_action_to_entry (merge_fixup on off conv unk n) =
  encode (Z.ldiff on off) (Z.land conv (Z.ldiff on off)) (cap n (Z.lor on off) unk).
Proof.
  intros Hon Hoff Hu Hn. rewrite merge_fixup_ok by done. rewrite to_entry_off. apply to_entry_deg.
Qed.

(** Markers of a topology with [n] degraded segments. *)
Record fits (n on conv unk : Z) : Prop := {
  ft_legal : legal on conv unk;
  ft_deg : 0 ≤ n ≤ 2;
  ft_count : hweight 12 on + unk ≤ n
}.

Lemma lor_0 x : Z.lor x 0 = x.
Proof. apply Z.lor_0_r. Qed.

Lemma land_lor_sub c1 c2 o1 o2 : Z.land c1 o1 = c1 → Z.land c2 o2 = c2 →
  Z.land (Z.lor c1 c2) (Z.lor o1 o2) = Z.lor c1 c2.
Proof.
  intros H1 H2. apply Z.bits_inj'. intros i Hi. rewrite <-H1, <-H2, !Z.land_spec, !Z.lor_spec, !Z.land_spec.
  by destruct (Z.testbit c1 i), (Z.testbit c2 i), (Z.testbit o1 i), (Z.testbit o2 i).
Qed.

Lemma fits_cap n on conv unk : fits n on conv unk → cap n on unk = unk.
Proof. intros [[_ _ Hu _] _ Hc]. unfold cap. lia. Qed.

(** [BUG_ON]s of the merge do not fire on decoded markers. *)
Lemma merge_run n on1 conv1 unk1 a2 mo : 0 ≤ n ≤ 3 → num_degraded a2 = n →
  nvmeibc_dbits_action_merge (known on1 conv1 unk1 n) a2 mo =
  let '(on, off, conv, unk) := merge_basic (known on1 conv1 unk1 n) a2 mo in
  Ok (merge_fixup on off conv unk n).
Proof.
  intros Hn Hd. unfold nvmeibc_dbits_action_merge. cbn [known num_degraded db_turn_off_bmp].
  rewrite Hd, Z.eqb_refl, action_init_ok by done. rstep. reflexivity.
Qed.

Lemma merge_owners_ok t on1 conv1 unk1 on2 conv2 unk2 :
  let n := n_degraded t in
  fits n on1 conv1 unk1 → fits n on2 conv2 unk2 → hweight 12 (Z.lor on1 on2) ≤ n →
  let on := Z.lor on1 on2 in let conv := Z.lor conv1 conv2 in let unk := cap n on (unk1 + unk2) in
  nvmeibc_dbits_merge_owners (encode on1 conv1 unk1) (encode on2 conv2 unk2) t = Ok (encode on conv unk) ∧
  fits n on conv unk.
Proof.
  intros n H1 H2 Hw on conv unk. fold on in Hw. pose proof (fits_cap _ _ _ _ H1) as Hc1. pose proof (fits_cap _ _ _ _ H2) as Hc2.
  pose proof H1 as [[Ho1 Hv1 Hu1 Ht1] Hn Hk1]. pose proof H2 as [[Ho2 Hv2 Hu2 Ht2] _ Hk2].
  assert (0 ≤ on < 2 ^ 12) as Hon by (by apply lor_bound).
  assert (Z.land conv on = conv) as Hconv by (by apply land_lor_sub).
  split; [|split; [split; [done|done|unfold unk, cap; lia|]|done|]; unfold unk, cap; lia].
  unfold nvmeibc_dbits_merge_owners, dbits_merge_by_strategy.
  destruct (Z.eqb_spec (encode on1 conv1 unk1) 0) as [E|_].
  { apply encode_zero in E as (-> & -> & ->); [|apply H1]. unfold unk, on, conv. by rewrite !Z.lor_0_l, Z.add_0_l, Hc2. }
  destruct (Z.eqb_spec (encode on2 conv2 unk2) 0) as [E|_].
  { apply encode_zero in E as (-> & -> & ->); [|apply H2]. unfold unk, on, conv. by rewrite !Z.lor_0_r, Z.add_0_r, Hc1. }
  fold n. rewrite !decode_encode by (apply H1 || apply H2 || lia). rstep. rewrite merge_run by (done || lia).
  cbn [merge_basic known db_turn_on_bmp db_turn_off_bmp db_conv_map num_unknowns]. rstep.
  rewrite wrap_small by (pose proof (hweight_range 12 on1); pose proof (hweight_range 12 on2); lia).
  rewrite encode_merge by (done || lia). rewrite Z.ldiff_0_r, Z.lor_0_r.
  fold on. fold conv. by rewrite Hconv.
Qed.

(** C23: decoding a marker gives back the state it was encoded from: dirty
    segments, convicts, unknowns and the form of the marker, for every state a
    marker can hold; the marker fits its twelve bits. *)
Theorem dbits_roundtrip on conv unk n (Hl : legal on conv unk) (Hn : 0 ≤ n ≤ 3) :
  let e := nvmeibc_dbits_action_to_entry (known on conv unk n) in
  0 ≤ e < 2 ^ 12 ∧ nvmeibc_dbits_action_init_by_entry e n = Ok (known on conv unk n).
Proof. intros e. unfold e. rewrite to_entry_deg. split; [by apply encode_range|by apply decode_encode]. Qed.

Lemma dbits_roundtrip_witness : nvmeibc_dbits_action_to_entry (known 0x204 0x200 0 2) = 0x3AD ∧
  nvmeibc_dbits_action_init_by_entry 0x3AD 2 = Ok (known 0x204 0x200 0 2).
Proof.
  split; [vm_compute; reflexivity|].
  destruct (dbits_roundtrip 0x204 0x200 0 2) as [_ H]; [split; vm_compute; intuition congruence|lia|].
  exact H.
Defined.

Lemma cap_cap n on on' a b : 0 ≤ n → 0 ≤ a → 0 ≤ b →
  (∀ i, 0 ≤ i → Z.testbit on i = true → Z.testbit on' i = true) →
  cap n on' (cap n on a + b) = cap n on' (a + b).
Proof. intros Hn Ha Hb Hsub. pose proof (hweight_mono 12 on on' Hsub). unfold cap. lia. Qed.

Lemma lor_sub x y i : Z.testbit x i = true → Z.testbit (Z.lor x y) i = true.
Proof. rewrite Z.lor_spec. by intros ->. Qed.

Lemma sub_weight n x y : (∀ i, 0 ≤ i → Z.testbit x i = true → Z.testbit y i = true) →
  hweight 12 y ≤ n → hweight 12 x ≤ n.
Proof. intros Hs Hy. pose proof (hweight_mono 12 x y Hs). lia. Qed.

(** Three markers, both ways of merging them. *)
Lemma merge_three t on1 conv1 unk1 on2 conv2 unk2 on3 conv3 unk3 :
  fits (n_degraded t) on1 conv1 unk1 → fits (n_degraded t) on2 conv2 unk2 → fits (n_degraded t) on3 conv3 unk3 →
  hweight 12 (Z.lor (Z.lor on1 on2) on3) ≤ n_degraded t →
  let on := Z.lor (Z.lor on1 on2) on3 in let conv := Z.lor (Z.lor conv1 conv2) conv3 in
  let unk := cap (n_degraded t) on (unk1 + unk2 + unk3) in
  (x ← nvmeibc_dbits_merge_owners (encode on1 conv1 unk1) (encode on2 conv2 unk2) t;
   nvmeibc_dbits_merge_owners x (encode on3 conv3 unk3) t) = Ok (encode on conv unk) ∧
  (x ← nvmeibc_dbits_merge_owners (encode on2 conv2 unk2) (encode on3 conv3 unk3) t;
   nvmeibc_dbits_merge_owners (encode on1 conv1 unk1) x t) = Ok (encode on conv unk) ∧
  fits (n_degraded t) on conv unk.
Proof.
  intros H1 H2 H3 Hw. cbv zeta.
  pose proof (lg_unk _ _ _ (ft_legal _ _ _ _ H1)) as Hu1. pose proof (lg_unk _ _ _ (ft_legal _ _ _ _ H2)) as Hu2.
  pose proof (lg_unk _ _ _ (ft_legal _ _ _ _ H3)) as Hu3. pose proof (ft_deg _ _ _ _ H1) as Hn.
  assert (∀ i, 0 ≤ i → Z.testbit (Z.lor on1 on2) i = true → Z.testbit (Z.lor (Z.lor on1 on2) on3) i = true) as S12
    by (intros; by apply lor_sub).
  assert (∀ i, 0 ≤ i → Z.testbit (Z.lor on2 on3) i = true → Z.testbit (Z.lor (Z.lor on1 on2) on3) i = true) as S23
    by (intros i _; rewrite !Z.lor_spec; by destruct (Z.testbit on1 i), (Z.testbit on2 i)).
  destruct (merge_owners_ok t _ _ _ _ _ _ H1 H2 (sub_weight _ _ _ S12 Hw)) as [E12 F12].
  destruct (merge_owners_ok t _ _ _ _ _ _ H2 H3 (sub_weight _ _ _ S23 Hw)) as [E23 F23].
  destruct (merge_owners_ok t _ _ _ _ _ _ F12 H3 Hw) as [E F].
  destruct (merge_owners_ok t _ _ _ _ _ _ H1 F23) as [E' _]; [by rewrite Z.lor_assoc|].
  rewrite E12, E23. rstep. rewrite E, E'. clear E E' E12 E23.
  rewrite cap_cap in F |- * by (done || lia). rewrite (Z.add_comm unk1 (cap _ _ _)), !Z.lor_assoc.
  rewrite cap_cap by (done || lia). split_and!; [done| |done].
  by replace (unk2 + unk3 + unk1) with (unk1 + unk2 + unk3) by lia.
Qed.

(** Merging the markers read from the owners of a lock is independent of
    their number and order: it is commutative and associative, and the merged
    marker decodes to the union of the dirty segments and of the convicts, with
    the unknowns added up to what the degraded segments leave room for. *)
Theorem merge_owners_order t on1 conv1 unk1 on2 conv2 unk2 on3 conv3 unk3
    (H1 : fits (n_degraded t) on1 conv1 unk1) (H2 : fits (n_degraded t) on2 conv2 unk2)
    (H3 : fits (n_degraded t) on3 conv3 unk3)
    (Hw : hweight 12 (Z.lor (Z.lor on1 on2) on3) ≤ n_degraded t) :
  let e1 := encode on1 conv1 unk1 in let e2 := encode on2 conv2 unk2 in let e3 := encode on3 conv3 unk3 in
  let n := n_degraded t in let on := Z.lor (Z.lor on1 on2) on3 in
  nvmeibc_dbits_merge_owners e1 e2 t = nvmeibc_dbits_merge_owners e2 e1 t ∧
  (x ← nvmeibc_dbits_merge_owners e1 e2 t; nvmeibc_dbits_merge_owners x e3 t) =
  (x ← nvmeibc_dbits_merge_owners e2 e3 t; nvmeibc_dbits_merge_owners e1 x t) ∧
  (x ← nvmeibc_dbits_merge_owners e1 e2 t;
   y ← nvmeibc_dbits_merge_owners x e3 t; nvmeibc_dbits_action_init_by_entry y n) =
  Ok (known on (Z.lor (Z.lor conv1 conv2) conv3) (cap n on (unk1 + unk2 + unk3)) n).
Proof.
  cbv zeta. destruct (merge_three t _ _ _ _ _ _ _ _ _ H1 H2 H3 Hw) as (E & E' & F). split_and!.
  - destruct (merge_owners_ok t _ _ _ _ _ _ H1 H2) as [-> _]; [|destruct (merge_owners_ok t _ _ _ _ _ _ H2 H1) as [-> _]].
    + eapply sub_weight, Hw. intros. by apply lor_sub.
    + eapply sub_weight, Hw. intros i _. rewrite !Z.lor_spec. by destruct (Z.testbit on1 i), (Z.testbit on2 i).
    + by rewrite (Z.lor_comm on2), (Z.lor_comm conv2), (Z.add_comm unk2).
  - by rewrite E, E'.
  - destruct (nvmeibc_dbits_merge_owners _ _ t) as [x|]; [|done]. revert E. rstep. intros ->. rstep.
    apply decode_encode; [apply F|]. pose proof (ft_deg _ _ _ _ H1). lia.
Qed.

Lemma merge_owners_order_witness :
  let t := TopoTraits 2 2 0 0 0 in
  (x ← nvmeibc_dbits_merge_owners (encode 0x4 0 0) (encode 0 0 1) t;
   y ← nvmeibc_dbits_merge_owners x (encode 0x4 0x4 0) t; nvmeibc_dbits_action_init_by_entry y 2) =
  Ok (known 0x4 0x4 1 2).
Proof.
  intros t. destruct (merge_owners_order t 0x4 0 0 0 0 1 0x4 0x4 0) as (_ & _ & H);
    [split; [split|..]; vm_compute; intuition congruence..|vm_compute; intuition congruence|exact H].
Defined.

(** What a transaction leaves, as the marker itself. *)
Lemma tx_apply_run t on conv unk turn_on turn_off turn_conv
    (Hl : legal on conv unk) (Hn : 0 ≤ n_degraded t ≤ 2)
    (Hon : 0 ≤ turn_on < 2 ^ 12) (Hoff : 0 ≤ turn_off < 2 ^ 12) (Hcv : 0 ≤ turn_conv < 2 ^ 12) :
  let n := n_degraded t in
  let all := Z.lor on (Z.lor turn_on turn_conv) in
  let on' := Z.ldiff all turn_off in
  let conv' := Z.land (Z.lor conv turn_conv) on' in
  hweight 12 on' ≤ 2 →
  ∃ a e', nvmeibc_dbits_tx_init_by_bmp t turn_on turn_off turn_conv = Ok a ∧
    nvmeibc_dbits_tx_apply (encode on conv unk) a = Ok e' ∧
    nvmeibc_dbits_action_init_by_entry e' n = Ok (known on' conv' (cap n (Z.lor all turn_off) unk) n).
Proof.
  intros n all on' conv' H2. pose proof Hl as [Ho Hc Hu Ht].
  assert (0 ≤ Z.lor turn_on turn_conv < 2 ^ 12) as Hoc by (by apply lor_bound).
  assert (0 ≤ all < 2 ^ 12) as Hall by (by apply lor_bound).
  unfold nvmeibc_dbits_tx_init_by_bmp, nvmeibc_dbits_tx_init_empty. rewrite action_init_ok by lia. rstep.
  rewrite !wrap_small by lia. eexists. exists (encode on' conv' (cap n (Z.lor all turn_off) unk)).
  split; [done|]. unfold nvmeibc_dbits_tx_apply, action_calc_has_slice_info.
  cbn [db_turn_on_bmp db_turn_off_bmp db_conv_map num_unknowns num_degraded].
  rewrite decode_encode by (done || lia). rstep. rewrite merge_run by (done || lia).
  cbn [merge_basic known db_turn_on_bmp db_turn_off_bmp db_conv_map num_unknowns]. rstep.
  rewrite Z.add_0_r, Z.lor_0_l, wrap_small by (pose proof (hweight_range 12 on); lia).
  rewrite encode_merge by (done || lia). split; [done|].
  apply decode_encode; [|lia]. apply merge_legal; done || lia.
Qed.

(** C26: a transaction that dirties some segments, makes some of them convicts and
    cleans others leaves a marker that decodes to exactly that: the old and new
    dirty segments without the cleaned ones, the convicts among them, and no more
    unknowns than degraded segments that the transaction says nothing about. *)
Theorem tx_apply_ok t on conv unk turn_on turn_off turn_conv
    (Hl : legal on conv unk) (Hn : 0 ≤ n_degraded t ≤ 2)
    (Hon : 0 ≤ turn_on < 2 ^ 12) (Hoff : 0 ≤ turn_off < 2 ^ 12) (Hcv : 0 ≤ turn_conv < 2 ^ 12) :
  let n := n_degraded t in
  let all := Z.lor on (Z.lor turn_on turn_conv) in
  let on' := Z.ldiff all turn_off in
  let conv' := Z.land (Z.lor conv turn_conv) on' in
  hweight 12 on' ≤ 2 →
  ∃ a e', nvmeibc_dbits_tx_init_by_bmp t turn_on turn_off turn_conv = Ok a ∧
    nvmeibc_dbits_tx_apply (encode on conv unk) a = Ok e' ∧
    nvmeibc_dbits_action_init_by_entry e' n = Ok (known on' conv' (cap n (Z.lor all turn_off) unk) n).
Proof. by apply tx_apply_run. Qed.

(** One convict, one unknown; the write dirties segment 7 and cleans segment 2. *)
Lemma tx_apply_ok_witness : ∃ a e',
  nvmeibc_dbits_tx_init_by_bmp (TopoTraits 2 2 0 0 0) 0x80 0x4 0 = Ok a ∧
  nvmeibc_dbits_tx_apply (encode 0x4 0x4 1) a = Ok e' ∧
  nvmeibc_dbits_action_init_by_entry e' 2 = Ok (known 0x80 0 0 2).
Proof.
  apply (tx_apply_ok (TopoTraits 2 2 0 0 0) 0x4 0x4 1 0x80 0x4 0); try (vm_compute; intuition congruence).
  split; vm_compute; intuition congruence.
Defined.

(** The four cases of step 1 of an intersection. *)
Lemma intersect_basic n on1 conv1 unk1 on2 conv2 unk2 :
  fits n on1 conv1 unk1 → fits n on2 conv2 unk2 →
  ∃ on conv, merge_basic (known on1 conv1 unk1 n) (known on2 conv2 unk2 n) MERGE_OPT_INTERSECT =
      (on, 0, conv, Z.min unk1 unk2) ∧
    0 ≤ on < 2 ^ 12 ∧ Z.land conv on = conv ∧ hweight 12 on ≤ 2 ∧
    (∀ i, Z.testbit on1 i = true → Z.testbit on2 i = true → Z.testbit on i = true) ∧
    (∀ i, Z.testbit on i = true → Z.testbit on1 i = true ∨ Z.testbit on2 i = true) ∧
    (unk1 = 0 → unk2 = 0 → on = Z.land on1 on2).
Proof.
  intros [[Ho1 Hv1 Hu1 Ht1] Hn Hk1] [[Ho2 Hv2 Hu2 Ht2] _ Hk2].
  cbn [merge_basic known db_turn_on_bmp db_conv_map num_unknowns].
  destruct (Z.ltb_spec 0 unk2), (Z.eqb_spec unk1 0), (Z.ltb_spec 0 unk1), (Z.eqb_spec unk2 0); try lia;
    cbn [andb]; do 2 eexists; (split; [reflexivity|]).
  - split_and!; (done || lia || auto).
  - split; [by apply lor_bound|]. split_and!; [by apply land_lor_sub| | | |lia].
    + pose proof (hweight_lor 12 on1 on2). lia.
    + intros i. rewrite Z.lor_spec. by intros ->.
    + intros i. rewrite Z.lor_spec, orb_true_iff. done.
  - split; [by apply land_bound_l|]. split_and!; [| | | |done].
    + rewrite <-Hv1, <-Hv2 at 2. apply Z.bits_inj'. intros i Hi. rewrite !Z.land_spec.
      by destruct (Z.testbit conv1 i), (Z.testbit conv2 i), (Z.testbit on1 i), (Z.testbit on2 i).
    + apply (sub_weight _ _ on1); [|lia]. intros i _. rewrite Z.land_spec. by destruct (Z.testbit on1 i).
    + intros i. rewrite Z.land_spec. by intros -> ->.
    + intros i. rewrite Z.land_spec, andb_true_iff. by intros [? ?]; left.
  - split_and!; (done || lia || auto).
Qed.

(** Intersecting the markers of two owners keeps every segment both call
    dirty, adds none that neither calls dirty, and keeps no more unknowns than
    either has; without unknowns it is the intersection of the two. *)
Theorem intersect_owners_ok t on1 conv1 unk1 on2 conv2 unk2
    (H1 : fits (n_degraded t) on1 conv1 unk1) (H2 : fits (n_degraded t) on2 conv2 unk2) :
  ∃ on conv unk,
    nvmeibc_dbits_intersect_owners (encode on1 conv1 unk1) (encode on2 conv2 unk2) t = Ok (encode on conv unk) ∧
    legal on conv unk ∧ unk ≤ Z.min unk1 unk2 ∧
    (∀ i, Z.testbit on1 i = true → Z.testbit on2 i = true → Z.testbit on i = true) ∧
    (∀ i, Z.testbit on i = true → Z.testbit on1 i = true ∨ Z.testbit on2 i = true) ∧
    (unk1 = 0 → unk2 = 0 → on = Z.land on1 on2).
Proof.
  pose proof H1 as [[Ho1 Hv1 Hu1 Ht1] Hn Hk1]. pose proof H2 as [[Ho2 Hv2 Hu2 Ht2] _ Hk2].
  unfold nvmeibc_dbits_intersect_owners, dbits_merge_by_strategy.
  assert (∃ on conv unk, Ok 0 = Ok (encode on conv unk) ∧ on = 0 ∧ unk = 0 ∧ legal on conv unk) as (o0 & c0 & u0 & E0 & -> & -> & L0).
  { exists 0, 0, 0. split_and!; [|done..|apply legal_empty]. f_equal. }
  destruct (Z.eqb_spec (encode on1 conv1 unk1) 0) as [E|_].
  { apply encode_zero in E as (-> & -> & ->); [|apply H1]. exists 0, c0, 0.
    split_and!; [done|done|lia|..]; intros i; rewrite ?Z.bits_0; done || by rewrite Z.land_0_l. }
  destruct (Z.eqb_spec (encode on2 conv2 unk2) 0) as [E|_].
  { apply encode_zero in E as (-> & -> & ->); [|apply H2]. exists 0, c0, 0.
    split_and!; [done|done|lia|..]; intros i; rewrite ?Z.bits_0; done || by rewrite Z.land_0_r. }
  rewrite !decode_encode by (apply H1 || apply H2 || lia). rstep. rewrite merge_run by (done || lia).
  destruct (intersect_basic _ _ _ _ _ _ _ H1 H2) as (on & conv & -> & Hon & Hcv & Hw & Hin & Hout & Hand). rstep.
  rewrite encode_merge by (done || lia). rewrite Z.ldiff_0_r, Z.lor_0_r, Hcv.
  exists on, conv, (cap (n_degraded t) on (Z.min unk1 unk2)).
  split_and!; [done| |unfold cap; lia|done..]. split; [done|done|unfold cap; lia|unfold cap; lia].
Qed.

Lemma intersect_owners_ok_witness : ∃ on conv unk,
  nvmeibc_dbits_intersect_owners (encode 0x6 0x2 0) (encode 0x2 0x2 0) (TopoTraits 2 2 0 0 0) = Ok (encode on conv unk) ∧
  on = 0x2.
Proof.
  destruct (intersect_owners_ok (TopoTraits 2 2 0 0 0) 0x6 0x2 0 0x2 0x2 0) as (on & conv & unk & H & _ & _ & _ & _ & E);
    [split; [split|..]; vm_compute; intuition congruence..|].
  exists on, conv, unk. split; [exact H|]. by apply E.
Defined.

(** Dropping the unknowns of a marker, as recovery does once they are
    resolved, keeps its dirty segments and convicts. *)
Theorem del_unk_ok t on conv unk (Hl : legal on conv unk) (Hn : 0 ≤ n_degraded t ≤ 3) :
  nvmeibc_dbits_del_unk (encode on conv unk) t = Ok (encode on conv 0) ∧ legal on conv 0.
Proof.
  pose proof Hl as [Ho Hc Hu Ht]. split; [|split; [done..|lia]].
  unfold nvmeibc_dbits_del_unk, dbits_del_unk. rewrite decode_encode by done. rstep. f_equal.
  rewrite <-(to_entry_deg on conv 0 (n_degraded t)).
  destruct (Z.eqb_spec (num_unknowns (known on conv unk (n_degraded t))) 0) as [E|_];
    [cbn in E; by subst unk|]. f_equal. unfold known, action_calc_has_slice_info, slice_of, should_loose_slice_info.
  cbn [db_turn_on_bmp db_turn_off_bmp db_conv_map num_unknowns num_degraded has_slice_info].
  by rewrite Z.ldiff_0_r, (hweight_more 12 32 on) by (done || lia).
Qed.

Lemma del_unk_ok_witness : nvmeibc_dbits_del_unk (encode 0x8 0x8 1) (TopoTraits 2 2 0 0 0) = Ok (encode 0x8 0x8 0).
Proof.
  apply (del_unk_ok (TopoTraits 2 2 0 0 0) 0x8 0x8 1); [split; vm_compute; intuition congruence|simpl; lia].
Defined.

(** ** The builders *)
Definition seg_bit (s : Z) : Z := if s <? 0 then 0 else Z.shiftl 1 s.
Definition decodes_to (e on conv unk : Z) : bool :=
  match nvmeibc_dbits_action_init_by_entry e 0 with
  | Ok a => action_eqb a (known on conv unk 0) | Fault _ => false
  end.

Lemma decodes_to_ok e on conv unk n : decodes_to e on conv unk = true → 0 ≤ n ≤ 3 →
  nvmeibc_dbits_action_init_by_entry e n = Ok (known on conv unk n).
Proof.
  unfold decodes_to. intros H Hn. apply decode_deg; [done|].
  destruct (nvmeibc_dbits_action_init_by_entry e 0); [|done]. by apply action_eqb_ok in H as ->.
Qed.

Definition builders_check (s0 s1 : Z) : bool :=
  let on := Z.lor (seg_bit s0) (seg_bit s1) in
  decodes_to (nvmeib_dbits_entry_build_for_seg s0) (seg_bit s0) 0 0 &&
  decodes_to (nvmeib_dbits_entry_build_for_segs s0 s1) on 0 0 &&
  decodes_to (nvmeib_dbits_entry_build_unk s0 s1) on on (Z.b2z (s0 <? 0) + Z.b2z (s1 <? 0)).

Lemma builders_all : all_from 13 (-1) (fun s0 => all_from 13 (-1) (builders_check s0)) = true.
Proof. vm_compute. reflexivity. Qed.

(** The builders make the markers they are asked for: of one and of two
    segments, and of two segments known to be convicts, where -1 stands for no
    segment (for a convict: an unknown one). *)
Theorem builders_ok s0 s1 n (H0 : -1 ≤ s0 < 12) (H1 : -1 ≤ s1 < 12) (Hn : 0 ≤ n ≤ 3) :
  let on := Z.lor (seg_bit s0) (seg_bit s1) in
  nvmeibc_dbits_action_init_by_entry (nvmeib_dbits_entry_build_for_seg s0) n = Ok (known (seg_bit s0) 0 0 n) ∧
  nvmeibc_dbits_action_init_by_entry (nvmeib_dbits_entry_build_for_segs s0 s1) n = Ok (known on 0 0 n) ∧
  nvmeibc_dbits_action_init_by_entry (nvmeib_dbits_entry_build_unk s0 s1) n =
    Ok (known on on (Z.b2z (s0 <? 0) + Z.b2z (s1 <? 0)) n).
Proof.
  pose proof (all_from_spec _ _ _ (all_from_spec _ _ _ builders_all s0 ltac:(lia)) s1 ltac:(lia)) as H.
  unfold builders_check in H. apply andb_true_iff in H as [H Hc]. apply andb_true_iff in H as [Ha Hb].
  split_and!; by apply decodes_to_ok.
Qed.

Lemma builders_ok_witness :
  nvmeibc_dbits_action_init_by_entry (nvmeib_dbits_entry_build_unk 4 (-1)) 2 = Ok (known 0x10 0x10 1 2).
Proof. apply (builders_ok 4 (-1) 2); lia. Defined.
