(* ===== verification/BlockMd.v ===== *)
(** * Metadata of data and parity blocks

    Models [clnt/block/datapath_utils_generic/nvmeibc_block_dp_block_md.h] and
    the read check of [nvmeibc_block_dp_block_md.c]: the 64-bit metadata word
    kept beside every 4KB block, its constructors and special markers, the dirty
    bits kept in parity metadata, and the verification of a read against the
    EDIC (the salted CRC32C of the block).  Hooks of the debug build that mark
    checked blocks ([dp_dbgdi_mark_edic]) are empty in production and left out. *)
From stdpp Require Import base list gmap numbers.
From Stdlib Require Import ZArith Lia.
From S2P Require Import Prelude CMemory GaloisField Crc32c ErasureCode GfTable RaidSlice BitFields DirtyBits.
Local Open Scope Z_scope.

(** ** The metadata word, [union nvmeibc_block_dp_ec_data_block_md] *)
Definition dmd : Type := Z.
Definition md_version (md : dmd) : Z := field 0 2 md.
Definition md_d2j_rng (md : dmd) : Z := field 2 9 md.
Definition md_D_edic (md : dmd) : Z := field 11 21 md.
Definition md_P_edic (md : dmd) : Z := field 11 13 md.
Definition md_dbits_0 (md : dmd) : Z := field 24 4 md.
Definition md_dbits_1 (md : dmd) : Z := field 28 4 md.
Definition md_tx_id (md : dmd) : Z := field 32 20 md.
Definition md_jri (md : dmd) : Z := field 52 10 md.
Definition md_reserved (md : dmd) : Z := field 62 2 md.

Definition JRI_MARK_NO_JOURNAL : Z := 0.
Definition JRI_MARK_INVALID_FOR_READ : Z := 1.
Definition JRI_MARK_DATA_INVALID_IS_ZEROS : Z := 2.
Definition NVMEIBC_MIRROR_UNUSED_TXID_JRI : Z := 6.
Definition NVMEIBC_DP_EC_MD_TX_ID_NO_JOURNALS : Z := 1.
Definition NVMEIBC_DATA_MD_VERSION : Z := 1.
Definition unwritten_md : dmd := Z.ones 64.
Definition backdoor_md : dmd := 0.

Definition NVMEIBC_DP_EC_MD_EDIC_MASK (is_p : bool) : Z := Z.ones (if is_p then 13 else 21).

Definition nvmeibc_block_dp_ec_md_set_edic (edic : Z) (is_p : bool) (md : dmd) : dmd :=
  if is_p then set_field 11 13 edic md else set_field 11 21 edic md.
Definition nvmeibc_block_dp_ec_md_get_edic (md : dmd) (is_p : bool) : Z :=
  if is_p then md_P_edic md else md_D_edic md.
Definition nbdpec_md_mark_valid_version (md : dmd) : dmd := set_field 0 2 NVMEIBC_DATA_MD_VERSION md.

Definition nvmeibc_dbits_entry_get_ind (e : entry) : Z * Z :=
  if nvmeibc_dbits_entry_is_global_mode e then (dead0 e, dead1 e) else (sl_dead0 e, 0).
Definition nvmeibc_block_dp_ec_md_fill_p_with_dbits (dbits : entry) (md : dmd) : dmd :=
  let '(d0, d1) := nvmeibc_dbits_entry_get_ind dbits in set_field 28 4 d1 (set_field 24 4 d0 md).

Definition nvmeibc_block_dp_ec_md_make_d (edic jri tx_id d2j_rng : Z) (md : dmd) : dmd :=
  let md := nbdpec_md_mark_valid_version md in
  let md := set_field 11 21 edic md in
  let md := set_field 2 9 d2j_rng md in
  let md := set_field 32 20 tx_id md in
  set_field 52 10 jri md.
Definition nvmeibc_block_dp_ec_md_make_p (edic jri tx_id : Z) (dbits : entry) (d2j_rng : Z) (md : dmd) : dmd :=
  nvmeibc_block_dp_ec_md_fill_p_with_dbits dbits (nvmeibc_block_dp_ec_md_make_d edic jri tx_id d2j_rng md).
Definition nvmeibc_block_dp_ec_md_make_r1 (edic : Z) (md : dmd) : dmd :=
  let md := nbdpec_md_mark_valid_version md in
  let md := set_field 11 13 edic md in
  let md := set_field 32 20 NVMEIBC_MIRROR_UNUSED_TXID_JRI md in
  set_field 52 10 NVMEIBC_MIRROR_UNUSED_TXID_JRI md.

(** ** State of a block *)
Inductive nvmeibc_data_written_state : Set :=
| DATA_VIRGIN | DATA_EXPLICITLY_MARKED_NEVERWRITTEN | DATA_EXPLICITLY_MARKED_INVALID | DATA_WRITTEN.
#[export] Instance written_state_eq_dec : EqDecision nvmeibc_data_written_state.
Proof. solve_decision. Defined.

Definition nbdpec_md_was_data_explicitly_marked_never_written (md : dmd) : bool :=
  (md_tx_id md =? NVMEIBC_DP_EC_MD_TX_ID_NO_JOURNALS) && (md_jri md =? JRI_MARK_DATA_INVALID_IS_ZEROS).
Definition is_data_invalid_for_read (md : dmd) : bool := md_jri md =? JRI_MARK_INVALID_FOR_READ.

Definition nbdpec_md_get_data_written_state (md : dmd) : nvmeibc_data_written_state :=
  if md =? backdoor_md then DATA_VIRGIN
  else if md =? unwritten_md then DATA_VIRGIN
  else if md_version md =? NVMEIBC_DATA_MD_VERSION then
    if nbdpec_md_was_data_explicitly_marked_never_written md then DATA_EXPLICITLY_MARKED_NEVERWRITTEN
    else if is_data_invalid_for_read md then DATA_EXPLICITLY_MARKED_INVALID
    else DATA_WRITTEN
  else DATA_WRITTEN.

Definition nbdpec_md_was_data_never_written (md : dmd) : bool :=
  match nbdpec_md_get_data_written_state md with
  | DATA_VIRGIN | DATA_EXPLICITLY_MARKED_NEVERWRITTEN => true | _ => false
  end.

Definition fill_nvmeibc_dbits_entry_from_md (md : dmd) : entry :=
  match nbdpec_md_get_data_written_state md with
  | DATA_VIRGIN => 0
  | _ =>
      if negb (md_dbits_1 md =? 0) then set_dead1 (md_dbits_1 md) (set_dead0 (md_dbits_0 md) 0)
      else if negb (md_dbits_0 md =? 0) then set_sl_dead0 (md_dbits_0 md) 0
      else 0
  end.

(** ** Markers *)
Definition nvmeibc_block_dp_ec_md_clean_reserved (md : dmd) : dmd := set_field 62 2 0 (set_field 2 9 0 md).
Definition nbdpec_md_mark_data_never_written_with_dbits (is_parity : bool) (dbits : entry) (md : dmd) : dmd :=
  let md := nbdpec_md_mark_valid_version md in
  let md := set_field 32 20 NVMEIBC_DP_EC_MD_TX_ID_NO_JOURNALS md in
  let md := set_field 52 10 JRI_MARK_DATA_INVALID_IS_ZEROS md in
  let md := if is_parity then nvmeibc_block_dp_ec_md_fill_p_with_dbits dbits md else md in
  nvmeibc_block_dp_ec_md_clean_reserved md.
Definition nbdpec_md_mark_data_never_written_no_dbits (is_parity : bool) (md : dmd) : dmd :=
  nbdpec_md_mark_data_never_written_with_dbits is_parity 0 md.
Definition nbdpec_md_mark_no_journal (txid : Z) (md : dmd) : dmd :=
  set_field 52 10 JRI_MARK_NO_JOURNAL (set_field 32 20 txid (nbdpec_md_mark_valid_version md)).
Definition nvmeibc_block_dp_ec_md_set_txid_and_dirty_bits_value_mark_no_journal
    (txid : Z) (dbits : entry) (md : dmd) : dmd :=
  nbdpec_md_mark_no_journal txid (nvmeibc_block_dp_ec_md_fill_p_with_dbits dbits md).
Definition nbdpec_md_is_no_journal (md : dmd) : bool := md_jri md =? JRI_MARK_NO_JOURNAL.
Definition nbdpec_md_mark_data_invalid_for_read (txid : Z) (md : dmd) : dmd :=
  set_field 52 10 JRI_MARK_INVALID_FOR_READ (set_field 32 20 txid (nbdpec_md_mark_valid_version md)).

(** ** Repair of metadata by the external checker *)
Definition set_externally_written_by_nvck_ec (max_txid_in_slice : Z) (is_parity : bool) (edic : Z)
    (dbits : option entry) (md : dmd) : dmd :=
  let md := nvmeibc_block_dp_ec_md_set_edic edic is_parity md in
  let md := if is_parity then nvmeibc_block_dp_ec_md_fill_p_with_dbits (default 0 dbits) md else md in
  let md := nbdpec_md_mark_no_journal max_txid_in_slice md in
  nvmeibc_block_dp_ec_md_clean_reserved md.
Definition set_externally_fixed_by_nvck_ec (max_txid_in_slice : Z) (is_parity : bool) (edic : Z)
    (is_slice_neverwritten : bool) (dbits : option entry) (md : dmd) : dmd :=
  if is_slice_neverwritten then unwritten_md
  else if nbdpec_md_was_data_never_written md then nbdpec_md_mark_data_never_written_no_dbits is_parity md
  else set_externally_written_by_nvck_ec max_txid_in_slice is_parity edic dbits md.
Definition set_externally_written_by_nvck_r1 (edic : Z) (md : dmd) : dmd :=
  nvmeibc_block_dp_ec_md_clean_reserved
    (nvmeibc_block_dp_ec_md_fill_p_with_dbits 0 (nvmeibc_block_dp_ec_md_make_r1 edic md)).
Definition set_externally_fixed_by_nvck_r1 (edic : Z) (md : dmd) : dmd :=
  if nbdpec_md_was_data_never_written md then nbdpec_md_mark_data_never_written_no_dbits true md
  else set_externally_written_by_nvck_r1 edic md.

(** Metadata of a block rebuilt from another copy ([nvmeibc_block_dp_ec.c]). *)
Definition nvmeibc_block_dp_ec_copy_md_dbits (src dst : dmd) : dmd :=
  set_field 28 4 (md_dbits_1 src) (set_field 24 4 (md_dbits_0 src) dst).
Definition nvmeibc_block_dp_ec_copy_md (src dst : dmd) : dmd :=
  let md := set_field 11 13 (md_P_edic dst) src in
  if nbdpec_md_was_data_never_written src then md else nbdpec_md_mark_no_journal (md_tx_id md) md.

(** ** Verification of a read *)
Inductive metadata_action : Set := RESUME | SKIP_EDIC_CHECK | BAD_SECTOR | MARK_NEVER_WRITTEN.
Definition nvmeibc_data_written_state_to_action (state : nvmeibc_data_written_state) : metadata_action :=
  match state with
  | DATA_VIRGIN => MARK_NEVER_WRITTEN
  | DATA_EXPLICITLY_MARKED_INVALID => BAD_SECTOR
  | DATA_EXPLICITLY_MARKED_NEVERWRITTEN => SKIP_EDIC_CHECK
  | DATA_WRITTEN => RESUME
  end.

Definition EPERM_READ_FAIL : Z := 0x281.
Definition EPERM_READ_FAIL_NO_RETRY : Z := Z.lor 0x4000 0x281.

Definition advance_rlba_to_next_slice (rlba snake_size slice_size : Z) : Z :=
  if snake_size =? 1 then u64 (rlba + slice_size)
  else
    let rlba := u64 (rlba + 1) in
    if rlba mod snake_size =? 0 then u64 (rlba + (slice_size - 1) * snake_size) else rlba.

(** The blocks of all scatter-gather elements in order, each a buffer of its
    own, against their metadata; the error of the first bad block, if any, and
    the metadata as left behind. *)
Fixpoint check_blocks (s : gf_state) (m : mem) (is_parity enable_edic_check dbg : bool)
    (mask slice_size snake_size rlba : Z) (blocks : list ptr) (mds : list dmd) : res (option Z * list dmd) :=
  match blocks, mds with
  | [], _ => Ok (None, mds)
  | _ :: _, [] => Fault OOB
  | blk_data :: blocks, md :: mds =>
      let next md :=
        '(r, mds) ← check_blocks s m is_parity enable_edic_check dbg mask slice_size snake_size
                      (advance_rlba_to_next_slice rlba snake_size slice_size) blocks mds;
        Ok (r, md :: mds) in
      match nvmeibc_data_written_state_to_action (nbdpec_md_get_data_written_state md) with
      | BAD_SECTOR => Ok (Some EPERM_READ_FAIL_NO_RETRY, md :: mds)
      | MARK_NEVER_WRITTEN => next (nbdpec_md_mark_data_never_written_no_dbits is_parity md)
      | SKIP_EDIC_CHECK => next md
      | RESUME =>
          if enable_edic_check then
            e ← nvmeibc_calculate_edic_from_data_and_rlba s m rlba blk_data dbg;
            if nvmeibc_block_dp_ec_md_get_edic md is_parity =? Z.land e mask then next md
            else Ok (Some EPERM_READ_FAIL, md :: mds)
          else next md
      end
  end.

(** Result code, whether the command may be reused, and the metadata. *)
Definition nvmeibc_check_metadata_read_cmd (s : gf_state) (m : mem)
    (is_parity enable_edic_check enable_di_debug_mode : bool)
    (rlba mask slice_size snake_size prev_rv : Z) (sgl : list (list ptr)) (mds : list dmd)
    (is_valid_for_reuse : bool) : res (Z * bool * list dmd) :=
  '(r, mds) ← check_blocks s m is_parity enable_edic_check enable_di_debug_mode mask slice_size snake_size
                rlba (concat sgl) mds;
  match r with
  | Some err => Ok (err, is_valid_for_reuse, mds)
  | None => Ok (prev_rv, is_valid_for_reuse || (prev_rv =? 0), mds)
  end.

(** ** States and markers *)
Lemma valid_version md : md_version md = 1 → (md =? backdoor_md) = false ∧ (md =? unwritten_md) = false.
Proof.
  intros Hv. split; apply Z.eqb_neq; intros ->; vm_compute in Hv; discriminate.
Qed.

Lemma state_marked md : md_version md = 1 →
  nbdpec_md_get_data_written_state md =
  if nbdpec_md_was_data_explicitly_marked_never_written md then DATA_EXPLICITLY_MARKED_NEVERWRITTEN
  else if is_data_invalid_for_read md then DATA_EXPLICITLY_MARKED_INVALID else DATA_WRITTEN.
Proof.
  intros Hv. unfold nbdpec_md_get_data_written_state. destruct (valid_version md Hv) as [-> ->]. by rewrite Hv.
Qed.

Lemma state_written md : md_version md = 1 → md_jri md ≠ 1 → md_jri md ≠ 2 →
  nbdpec_md_get_data_written_state md = DATA_WRITTEN.
Proof.
  intros Hv H1 H2. rewrite state_marked by done.
  unfold nbdpec_md_was_data_explicitly_marked_never_written, is_data_invalid_for_read.
  rewrite (proj2 (Z.eqb_neq (md_jri md) JRI_MARK_DATA_INVALID_IS_ZEROS)), andb_false_r by done.
  by rewrite (proj2 (Z.eqb_neq _ _)).
Qed.

Ltac md_fields := unfold md_version, md_d2j_rng, md_D_edic, md_P_edic, md_dbits_0, md_dbits_1, md_tx_id,
  md_jri, md_reserved, nvmeibc_block_dp_ec_md_clean_reserved, nvmeibc_block_dp_ec_md_make_d,
  nvmeibc_block_dp_ec_md_make_r1, nbdpec_md_mark_no_journal, nbdpec_md_mark_valid_version; cbv zeta; fields.

(** Assigning dirty bits leaves the other members alone. *)
Lemma fill_p_other o w dbits md : 0 ≤ o → 0 ≤ w → o + w ≤ 24 ∨ 32 ≤ o →
  field o w (nvmeibc_block_dp_ec_md_fill_p_with_dbits dbits md) = field o w md.
Proof.
  intros. unfold nvmeibc_block_dp_ec_md_fill_p_with_dbits. destruct (nvmeibc_dbits_entry_get_ind dbits).
  by rewrite !field_set_other by lia.
Qed.

Lemma no_journal_state txid md : nbdpec_md_get_data_written_state (nbdpec_md_mark_no_journal txid md) = DATA_WRITTEN.
Proof. apply state_written; md_fields; vm_compute; congruence. Qed.

Lemma clean_reserved_state md : md_version md = 1 →
  nbdpec_md_get_data_written_state (nvmeibc_block_dp_ec_md_clean_reserved md) =
  nbdpec_md_get_data_written_state md.
Proof.
  intros Hv. rewrite !state_marked; [|done|by md_fields].
  unfold nbdpec_md_was_data_explicitly_marked_never_written, is_data_invalid_for_read. md_fields. done.
Qed.

Lemma never_written_state is_parity dbits md :
  nbdpec_md_get_data_written_state (nbdpec_md_mark_data_never_written_with_dbits is_parity dbits md) =
  DATA_EXPLICITLY_MARKED_NEVERWRITTEN.
Proof.
  unfold nbdpec_md_mark_data_never_written_with_dbits. cbv zeta.
  set (md1 := set_field 52 10 _ _).
  assert (md_version (if is_parity then nvmeibc_block_dp_ec_md_fill_p_with_dbits dbits md1 else md1) = 1 ∧
    md_tx_id (if is_parity then nvmeibc_block_dp_ec_md_fill_p_with_dbits dbits md1 else md1) = 1 ∧
    md_jri (if is_parity then nvmeibc_block_dp_ec_md_fill_p_with_dbits dbits md1 else md1) = 2) as (Hv & Ht & Hj).
  { destruct is_parity; unfold md_version, md_tx_id, md_jri; rewrite ?fill_p_other by lia; unfold md1; md_fields; done. }
  rewrite clean_reserved_state, state_marked by done.
  unfold nbdpec_md_was_data_explicitly_marked_never_written. by rewrite Ht, Hj.
Qed.

Lemma invalid_state txid md :
  nbdpec_md_get_data_written_state (nbdpec_md_mark_data_invalid_for_read txid md) = DATA_EXPLICITLY_MARKED_INVALID.
Proof.
  rewrite state_marked; unfold nbdpec_md_mark_data_invalid_for_read; [|by md_fields].
  unfold nbdpec_md_was_data_explicitly_marked_never_written, is_data_invalid_for_read. md_fields.
  by rewrite andb_false_r.
Qed.

(** ** Dirty bits in parity metadata *)
Definition entry_of_ind (d0 d1 : Z) : entry :=
  if negb (d1 =? 0) then set_dead1 d1 (set_dead0 d0 0) else if negb (d0 =? 0) then set_sl_dead0 d0 0 else 0.
Definition md_dbits_check (on conv : Z) : bool :=
  let '(d0, d1) := nvmeibc_dbits_entry_get_ind (encode on conv 0) in
  (0 <=? d0) && (d0 <? 16) && (0 <=? d1) && (d1 <? 16) && decodes_to (entry_of_ind d0 d1) on 0 0.

Lemma md_dbits_all : all_values 12 (fun on => if hweight 12 on <=? 2 then
  all_values 12 (fun conv => if Z.land conv on =? conv then md_dbits_check on conv else true) else true) = true.
Proof. vm_compute. reflexivity. Qed.

#[local] Opaque hweight encode decodes_to known nvmeibc_dbits_action_init_by_entry nvmeibc_dbits_entry_get_ind.

Lemma md_dbits_at on conv : legal on conv 0 → md_dbits_check on conv = true.
Proof.
  intros Hl. pose proof (legal_conv_range _ _ _ Hl) as Hc. destruct Hl as [Hon Hcv _ H2].
  pose proof (all_values_spec 12 _ md_dbits_all on Hon) as H1. cbv beta in H1.
  rewrite (proj2 (Z.leb_le _ _)) in H1 by lia. apply (all_values_spec 12 _ H1) in Hc. cbv beta in Hc.
  by rewrite Hcv, Z.eqb_refl in Hc.
Qed.

Lemma md_dbits_roundtrip on conv n md : legal on conv 0 → 0 ≤ n ≤ 3 →
  let md' := nvmeibc_block_dp_ec_md_fill_p_with_dbits (encode on conv 0) md in
  nbdpec_md_get_data_written_state md' ≠ DATA_VIRGIN →
  nvmeibc_dbits_action_init_by_entry (fill_nvmeibc_dbits_entry_from_md md') n = Ok (known on 0 0 n).
Proof.
  intros Hl Hn md' Hs. pose proof (md_dbits_at on conv Hl) as H. unfold md_dbits_check in H.
  assert (∀ x, fill_nvmeibc_dbits_entry_from_md x = match nbdpec_md_get_data_written_state x with
    DATA_VIRGIN => 0 | _ => entry_of_ind (md_dbits_0 x) (md_dbits_1 x) end) as E.
  { intros x. unfold fill_nvmeibc_dbits_entry_from_md, entry_of_ind. by destruct (nbdpec_md_get_data_written_state x). }
  rewrite E. unfold md', nvmeibc_block_dp_ec_md_fill_p_with_dbits in *.
  destruct (nvmeibc_dbits_entry_get_ind (encode on conv 0)) as [d0 d1]. unfold md_dbits_0, md_dbits_1. fields.
  rewrite !andb_true_iff in H. destruct H as ((((H1 & H2) & H3) & H4) & Hd). rewrite !wrap_small by lia.
  destruct (nbdpec_md_get_data_written_state _); try done; by apply decodes_to_ok.
Qed.

(** The metadata of a parity block holds what it was made from: the block
    counts as written, the stored EDIC is the given one cut to its thirteen bits,
    transaction, journal range and journal position are the given ones, and the
    dirty bits read back are the dirty segments of the given marker (convicts
    are not kept); the reserved bits are untouched. *)
Theorem make_p_ok edic jri tx_id d2j_rng on conv n md
    (Hjri : 3 ≤ jri < 2 ^ 10) (Htx : 0 ≤ tx_id < 2 ^ 20) (Hd2j : 0 ≤ d2j_rng < 2 ^ 9)
    (Hl : legal on conv 0) (Hn : 0 ≤ n ≤ 3) :
  let md' := nvmeibc_block_dp_ec_md_make_p edic jri tx_id (encode on conv 0) d2j_rng md in
  nbdpec_md_get_data_written_state md' = DATA_WRITTEN ∧
  nvmeibc_block_dp_ec_md_get_edic md' true = Z.land edic (NVMEIBC_DP_EC_MD_EDIC_MASK true) ∧
  md_tx_id md' = tx_id ∧ md_jri md' = jri ∧ md_d2j_rng md' = d2j_rng ∧ md_reserved md' = md_reserved md ∧
  nvmeibc_dbits_action_init_by_entry (fill_nvmeibc_dbits_entry_from_md md') n = Ok (known on 0 0 n).
Proof.
  intros md'. assert (nbdpec_md_get_data_written_state md' = DATA_WRITTEN) as Hw.
  { apply state_written; unfold md', nvmeibc_block_dp_ec_md_make_p, md_version, md_jri; rewrite fill_p_other by lia;
      md_fields; rewrite ?wrap_small by lia; done || lia. }
  split; [exact Hw|]. unfold md', nvmeibc_block_dp_ec_md_make_p, nvmeibc_block_dp_ec_md_get_edic, md_P_edic,
    md_tx_id, md_jri, md_d2j_rng, md_reserved. rewrite !fill_p_other by lia. md_fields. rewrite (wrap_land 13) by lia.
  rewrite !wrap_small by lia. split_and!; try done. apply md_dbits_roundtrip; [done|done|].
  change (nbdpec_md_get_data_written_state md' ≠ DATA_VIRGIN). by rewrite Hw.
Qed.

Lemma make_p_ok_witness :
  let md := nvmeibc_block_dp_ec_md_make_p 0xDEADBEEF 77 4242 (encode 0x204 0x200 0) 5 unwritten_md in
  nbdpec_md_get_data_written_state md = DATA_WRITTEN ∧ md_P_edic md = 0x1EEF ∧
  nvmeibc_dbits_action_init_by_entry (fill_nvmeibc_dbits_entry_from_md md) 2 = Ok (known 0x204 0 0 2).
Proof.
  destruct (make_p_ok 0xDEADBEEF 77 4242 5 0x204 0x200 2 unwritten_md) as (H1 & H2 & _ & _ & _ & _ & H7);
    [lia|lia|lia|split; vm_compute; intuition congruence|lia|].
  split; [exact H1|]. split; [exact H2|exact H7].
Defined.

(** The external checker leaves no bad sector: whatever the metadata was, the
    repaired metadata reads as virgin when the whole slice was never written, as
    never written when the block was, and otherwise as written with the EDIC it
    was given and no journal. *)
Theorem nvck_repairs txid is_parity edic never dbits md :
  let md' := set_externally_fixed_by_nvck_ec txid is_parity edic never dbits md in
  nbdpec_md_get_data_written_state md' =
    (if never then DATA_VIRGIN else if nbdpec_md_was_data_never_written md
     then DATA_EXPLICITLY_MARKED_NEVERWRITTEN else DATA_WRITTEN) ∧
  (nbdpec_md_get_data_written_state md' = DATA_WRITTEN →
    nvmeibc_block_dp_ec_md_get_edic md' is_parity = Z.land edic (NVMEIBC_DP_EC_MD_EDIC_MASK is_parity) ∧
    nbdpec_md_is_no_journal md' = true).
Proof.
  intros md'. unfold md', set_externally_fixed_by_nvck_ec. destruct never; [done|].
  destruct (nbdpec_md_was_data_never_written md).
  { unfold nbdpec_md_mark_data_never_written_no_dbits. by rewrite never_written_state. }
  unfold set_externally_written_by_nvck_ec. cbv zeta. rewrite clean_reserved_state, no_journal_state by (by md_fields).
  split; [done|]. intros _. split; [|unfold nbdpec_md_is_no_journal; md_fields; done].
  unfold nvmeibc_block_dp_ec_md_get_edic, nvmeibc_block_dp_ec_md_set_edic, NVMEIBC_DP_EC_MD_EDIC_MASK.
  destruct is_parity; md_fields; rewrite ?fill_p_other by lia; md_fields; by rewrite wrap_land by lia.
Qed.

(** ** What the verification of a read decides *)
Section read_check.
Context (s : gf_state) (m : mem) (is_parity enable dbg : bool) (mask slice_size snake_size : Z).
Context (Ht : EcTable (gf_funcs s)).
Local Abbreviation len := (DEBUG_DI_SIZE_CALC dbg).

Definition block_edic (rlba : Z) (f : nat → Z) : Z := not32 (crc_spec (salt rlba) (f <$> seq 0 len)).
Definition block_passes (rlba : Z) (f : nat → Z) (md : dmd) : bool :=
  match nbdpec_md_get_data_written_state md with
  | DATA_EXPLICITLY_MARKED_INVALID => false
  | DATA_WRITTEN =>
      negb enable || (nvmeibc_block_dp_ec_md_get_edic md is_parity =? Z.land (block_edic rlba f) mask)
  | _ => true
  end.
Definition block_error (md : dmd) : Z :=
  match nbdpec_md_get_data_written_state md with
  | DATA_EXPLICITLY_MARKED_INVALID => EPERM_READ_FAIL_NO_RETRY | _ => EPERM_READ_FAIL
  end.
Definition md_after (md : dmd) : dmd :=
  match nbdpec_md_get_data_written_state md with
  | DATA_VIRGIN => nbdpec_md_mark_data_never_written_no_dbits is_parity md | _ => md
  end.
Definition rlba_at (rlba : Z) (i : nat) : Z :=
  Nat.iter i (fun r => advance_rlba_to_next_slice r snake_size slice_size) rlba.

Lemma md_after_not_virgin md : nbdpec_md_get_data_written_state (md_after md) ≠ DATA_VIRGIN.
Proof.
  unfold md_after. destruct (nbdpec_md_get_data_written_state md) eqn:E; try by rewrite E.
  unfold nbdpec_md_mark_data_never_written_no_dbits. by rewrite never_written_state.
Qed.

(** One block. *)
Lemma check_blocks_cons rlba p blocks md mds f : holds m p len f → (∀ j, byte_range (f j)) →
  check_blocks s m is_parity enable dbg mask slice_size snake_size rlba (p :: blocks) (md :: mds) =
  if block_passes rlba f md then
    '(r, mds) ← check_blocks s m is_parity enable dbg mask slice_size snake_size
       (advance_rlba_to_next_slice rlba snake_size slice_size) blocks mds; Ok (r, md_after md :: mds)
  else Ok (Some (block_error md), md :: mds).
Proof using Ht.
  intros Hp Hf. cbn [check_blocks]. unfold block_passes, block_error, md_after.
  destruct (nbdpec_md_get_data_written_state md); try reflexivity.
  cbn [nvmeibc_data_written_state_to_action]. destruct enable; cbn [negb orb]; [|reflexivity].
  rewrite (edic_ok s m rlba p f dbg Ht Hp Hf). rstep. fold (block_edic rlba f).
  by destruct (nvmeibc_block_dp_ec_md_get_edic md is_parity =? Z.land (block_edic rlba f) mask).
Qed.

Lemma rlba_at_S rlba i : rlba_at rlba (S i) = rlba_at (advance_rlba_to_next_slice rlba snake_size slice_size) i.
Proof. unfold rlba_at. by rewrite Nat.iter_succ_r. Qed.

Context (f : nat → nat → Z) (Hbytes : ∀ i j, byte_range (f i j)).

Lemma check_blocks_pass blocks mds rlba o : length mds = length blocks →
  (∀ i p, blocks !! i = Some p → holds m p len (f (o + i)%nat)) →
  (∀ i md, mds !! i = Some md → block_passes (rlba_at rlba i) (f (o + i)%nat) md = true) →
  check_blocks s m is_parity enable dbg mask slice_size snake_size rlba blocks mds = Ok (None, md_after <$> mds).
Proof using Ht Hbytes.
  revert mds rlba o. induction blocks as [|p blocks IH]; intros [|md mds] rlba o Hl Hp Hok; try done.
  rewrite (check_blocks_cons _ _ _ _ _ (f o)); [|by specialize (Hp 0%nat p eq_refl); rewrite Nat.add_0_r in Hp|done].
  pose proof (Hok 0%nat md eq_refl) as H0. rewrite Nat.add_0_r in H0. unfold rlba_at in H0. simpl in H0. rewrite H0.
  rewrite (IH mds _ (S o)); [done|by injection Hl|..].
  - intros i q Hq. specialize (Hp (S i) q Hq). by rewrite Nat.add_succ_r in Hp.
  - intros i d Hd. specialize (Hok (S i) d Hd). by rewrite Nat.add_succ_r, rlba_at_S in Hok.
Qed.

Lemma check_blocks_fail blocks mds rlba o k mdk : length mds = length blocks →
  (∀ i p, blocks !! i = Some p → holds m p len (f (o + i)%nat)) →
  mds !! k = Some mdk → block_passes (rlba_at rlba k) (f (o + k)%nat) mdk = false →
  (∀ i md, (i < k)%nat → mds !! i = Some md → block_passes (rlba_at rlba i) (f (o + i)%nat) md = true) →
  check_blocks s m is_parity enable dbg mask slice_size snake_size rlba blocks mds =
  Ok (Some (block_error mdk), (md_after <$> take k mds) ++ drop k mds).
Proof using Ht Hbytes.
  revert mds rlba o k. induction blocks as [|p blocks IH]; intros [|md mds] rlba o k Hl Hp Hk Hbad Hok; try done.
  rewrite (check_blocks_cons _ _ _ _ _ (f o)); [|by specialize (Hp 0%nat p eq_refl); rewrite Nat.add_0_r in Hp|done].
  destruct k as [|k].
  - injection Hk as ->. rewrite Nat.add_0_r in Hbad. unfold rlba_at in Hbad. simpl in Hbad. by rewrite Hbad.
  - pose proof (Hok 0%nat md ltac:(lia) eq_refl) as H0. rewrite Nat.add_0_r in H0. unfold rlba_at in H0. simpl in H0.
    rewrite H0, (IH mds _ (S o) k); [done|by injection Hl| |done| |].
    + intros i q Hq. specialize (Hp (S i) q Hq). by rewrite Nat.add_succ_r in Hp.
    + by rewrite Nat.add_succ_r, rlba_at_S in Hbad.
    + intros i d Hi Hd. specialize (Hok (S i) d ltac:(lia) Hd). by rewrite Nat.add_succ_r, rlba_at_S in Hok.
Qed.
End read_check.

(** C29: verification of a read.  When every block passes - it is not marked
    invalid, and if it was written its stored EDIC is the salted CRC of its
    contents at its address - the previous result is kept and every virgin block
    is re-marked as never written, so that none is left.  Otherwise the error of
    the first block that fails is returned, without retry for a bad sector, and
    its metadata and those behind it are untouched. *)
Theorem read_check_ok s m is_parity enable dbg rlba mask slice_size snake_size sgl mds reuse f
    (Ht : EcTable (gf_funcs s)) (Hl : length mds = length (concat sgl))
    (Hp : ∀ i p, concat sgl !! i = Some p → holds m p (DEBUG_DI_SIZE_CALC dbg) (f i))
    (Hf : ∀ i j, byte_range (f i j)) :
  let pass i md := block_passes is_parity enable dbg mask (rlba_at slice_size snake_size rlba i) (f i) md in
  let run := nvmeibc_check_metadata_read_cmd s m is_parity enable dbg rlba mask slice_size snake_size 0 sgl mds reuse in
  ((∀ i md, mds !! i = Some md → pass i md = true) →
    run = Ok (0, true, md_after is_parity <$> mds) ∧
    ∀ md, md ∈ md_after is_parity <$> mds → nbdpec_md_get_data_written_state md ≠ DATA_VIRGIN) ∧
  (∀ k mdk, mds !! k = Some mdk → pass k mdk = false →
    (∀ i md, (i < k)%nat → mds !! i = Some md → pass i md = true) →
    run = Ok (block_error mdk, reuse, (md_after is_parity <$> take k mds) ++ drop k mds)).
Proof.
  cbv zeta. unfold nvmeibc_check_metadata_read_cmd. split.
  - intros Hok. rewrite (check_blocks_pass s m is_parity enable dbg mask slice_size snake_size Ht f Hf _ mds rlba 0)
      by done. rstep. rewrite orb_true_r. split; [done|].
    intros md (md0 & -> & _)%list_elem_of_fmap. apply md_after_not_virgin.
  - intros k mdk Hk Hbad Hok.
    by rewrite (check_blocks_fail s m is_parity enable dbg mask slice_size snake_size Ht f Hf _ mds rlba 0 k mdk).
Qed.

Module TwoBlocks.
Definition f (i j : nat) : Z := (Z.of_nat j * 7 + Z.of_nat i) mod 256.
Definition m : mem := {[0%nat := f 0 <$> seq 0 512; 1%nat := f 1 <$> seq 0 512]}.
Definition md0 : dmd := nvmeibc_block_dp_ec_md_make_d (block_edic true 1000 (f 0)) 77 4242 5 0.
Definition mds : list dmd := [md0; unwritten_md].
Definition s : gf_state := GfState gf_functions_unoptimized false.
End TwoBlocks.

(** The first block was written, the second never was. *)
Lemma read_check_ok_witness :
  nvmeibc_check_metadata_read_cmd TwoBlocks.s TwoBlocks.m false true true 1000 (NVMEIBC_DP_EC_MD_EDIC_MASK false)
    4 1 0 [[PTR 0; PTR 1]] TwoBlocks.mds false = Ok (0, true, md_after false <$> TwoBlocks.mds).
Proof.
  destruct (read_check_ok TwoBlocks.s TwoBlocks.m false true true 1000 (NVMEIBC_DP_EC_MD_EDIC_MASK false)
    4 1 [[PTR 0; PTR 1]] TwoBlocks.mds false TwoBlocks.f unoptimized_table) as [H _].
  - reflexivity.
  - intros [|[|i]] p; [intros [= <-]..|done]; apply holdsb_ok; vm_compute; reflexivity.
  - intros i j. apply Z.mod_pos_bound. lia.
  - apply H. intros [|[|i]] md Hi; [..|done]; apply (inj Some) in Hi; rewrite <-Hi; vm_compute; reflexivity.
Defined.

(** A block whose metadata was made with the EDIC of contents [f] at an
    address passes the check exactly when the contents found there have the same
    EDIC in the bits that are kept: twenty-one for data, thirteen for parity. *)
Theorem written_block_checked is_parity dbg rlba rlba' f g jri tx_id dbits d2j_rng md
    (Hjri : 3 ≤ jri < 2 ^ 10) :
  let mask := NVMEIBC_DP_EC_MD_EDIC_MASK is_parity in
  let edic := block_edic dbg rlba f in
  let md' := if is_parity then nvmeibc_block_dp_ec_md_make_p edic jri tx_id dbits d2j_rng md
             else nvmeibc_block_dp_ec_md_make_d edic jri tx_id d2j_rng md in
  block_passes is_parity true dbg mask rlba' g md' =
  (Z.land edic mask =? Z.land (block_edic dbg rlba' g) mask).
Proof.
  intros mask edic md'. unfold block_passes. replace (nbdpec_md_get_data_written_state md') with DATA_WRITTEN.
  - unfold md', mask, NVMEIBC_DP_EC_MD_EDIC_MASK, nvmeibc_block_dp_ec_md_get_edic. destruct is_parity; cbn [negb orb].
    + unfold nvmeibc_block_dp_ec_md_make_p, md_P_edic. rewrite fill_p_other by lia. md_fields. by rewrite wrap_land by lia.
    + md_fields. by rewrite wrap_land by lia.
  - symmetry. unfold md'. destruct is_parity; apply state_written; unfold nvmeibc_block_dp_ec_md_make_p, md_version, md_jri;
      rewrite ?fill_p_other by lia; md_fields; rewrite ?wrap_small by lia; done || lia.
Qed.

Lemma written_block_checked_witness :
  block_passes false true true (NVMEIBC_DP_EC_MD_EDIC_MASK false) 1000 (TwoBlocks.f 0) TwoBlocks.md0 =
  (Z.land (block_edic true 1000 (TwoBlocks.f 0)) (NVMEIBC_DP_EC_MD_EDIC_MASK false) =?
   Z.land (block_edic true 1000 (TwoBlocks.f 0)) (NVMEIBC_DP_EC_MD_EDIC_MASK false)).
Proof. apply (written_block_checked false true 1000 1000 (TwoBlocks.f 0) (TwoBlocks.f 0) 77 4242 0 5 0). lia. Defined.
