(* ===== verification/JournalMd.v ===== *)
(** * Metadata of journal blocks

    Models [union jblock_md] and the journal entries of
    [common/nvmeib_shared_ec.h] and [nvmeib_shared_ec.inc.c], the compression of
    transaction bitmaps ([nvmeibc_block_dp_block_md_tables.c] and its users in
    [nvmeibc_block_dp_block_md.h]) and the encoders and decoders of
    [nvmeibc_block_dp_block_md.c].  A journal entry is a chain of journal blocks
    of one transaction; the arrays are lists and running off one is a fault. *)
From stdpp Require Import base list numbers.
From Stdlib Require Import ZArith Lia.
From S2P Require Import Prelude CMemory BitFields.
Local Open Scope Z_scope.

(** ** Compression of role pairs *)
Definition ROLES : nat := 12.
Definition DECOMP_TABLE_SIZE : nat := 145.
Definition roles_tables : Type := list (list Z) * list (Z * Z).
(** Before initialisation every code stands for the empty range [l = 1, h = 0]. *)
Definition roles_tables_zero : roles_tables :=
  (replicate ROLES (replicate ROLES 0), replicate DECOMP_TABLE_SIZE (1, 0)).

Definition set_pair (i j : nat) (st : roles_tables * Z) : res (roles_tables * Z) :=
  let '((comp, decomp), val) := st in
  row ← aget comp i;
  row ← aset row j (u8 val);
  comp ← aset comp i row;
  decomp ← aset decomp (Z.to_nat val) (Z.of_nat i, Z.of_nat j);
  Ok ((comp, decomp), u16 (val + 1)).

Definition init_roles_pair_compression_tables (t : roles_tables) : res roles_tables :=
  '(t, _) ← for_up ROLES (fun j st => for_up (S j) (fun i => set_pair i j) st) (t, 1);
  Ok t.

Definition nvmeibc_block_dp_ec_md_roles_pair_compress (t : roles_tables) (l h : nat) : res Z :=
  row ← aget (fst t) l; aget row h.
Definition nvmeibc_block_dp_ec_md_roles_pair_decompress (t : roles_tables) (z : Z) : res (Z * Z) :=
  aget (snd t) (Z.to_nat z).

Definition GENMASK (h l : Z) : Z := Z.ldiff (Z.ones (h + 1)) (Z.ones l).
(** [__builtin_ctzl] and [63 - __builtin_clzl] of a non-zero bitmap. *)
Fixpoint ctz_from (fuel : nat) (i : Z) (x : Z) : Z :=
  match fuel with O => i | S fuel => if Z.testbit x i then i else ctz_from fuel (i + 1) x end.
Definition ctzl (x : Z) : Z := ctz_from 63 0 x.
Definition last_bit (x : Z) : Z := Z.log2 x.

Definition NVMEIBC_DP_EC_MD_TXBM_INVALID : Z := 0.
Definition nvmeibc_block_dp_ec_md_txbm_compress (t : roles_tables) (tx_bmp : Z) : res Z :=
  if tx_bmp =? NVMEIBC_DP_EC_MD_TXBM_INVALID then Ok NVMEIBC_DP_EC_MD_TXBM_INVALID
  else nvmeibc_block_dp_ec_md_roles_pair_compress t (Z.to_nat (ctzl tx_bmp)) (Z.to_nat (last_bit tx_bmp)).
Definition nvmeibc_block_dp_ec_md_txbm_decompress (t : roles_tables) (tx_bmp : Z) : res Z :=
  if tx_bmp =? NVMEIBC_DP_EC_MD_TXBM_INVALID then Ok NVMEIBC_DP_EC_MD_TXBM_INVALID
  else
    '(l, h) ← nvmeibc_block_dp_ec_md_roles_pair_decompress t tx_bmp;
    Ok (u16 (GENMASK h l)).

(** ** The journal metadata word *)
Definition jmd : Type := Z.
Definition j2d_0 (md : jmd) : Z := field 0 32 md.
Definition tx_id (md : jmd) : Z := field 32 20 md.
Definition tx_bmp (md : jmd) : Z := field 52 10 md.
Definition version (md : jmd) : Z := field 62 2 md.
Definition tx_bmp_zip (md : jmd) : Z := field 52 8 md.
Definition has_next (md : jmd) : bool := field 60 1 md =? 1.
Definition j2d_extended (md : jmd) : Z := field 61 1 md.

Definition NVMEIBC_JOURNAL_MD_VERSION_UNPACKED : Z := 0.
Definition NVMEIBC_JOURNAL_MD_VERSION_PACKED : Z := 1.

Definition dp_ec_jmd_get_u64_j2d (md : jmd) : Z := Z.lor (j2d_0 md) (Z.shiftl (j2d_extended md) 32).
Definition nvmeibc_block_dp_ec_jmd_decode_j2d_only (md : jmd) : Z :=
  if version md =? NVMEIBC_JOURNAL_MD_VERSION_PACKED then dp_ec_jmd_get_u64_j2d md else j2d_0 md.
Definition nvmeibc_block_dp_ec_jmd_encode_j2d_only (j2d : Z) (md : jmd) : jmd :=
  if version md =? NVMEIBC_JOURNAL_MD_VERSION_PACKED
  then set_field 61 1 (Z.shiftr j2d 32) (set_field 0 32 j2d md) else set_field 0 32 j2d md.
Definition jblock_md_jmd_encode_v0 (j2d txid txbmp : Z) (md : jmd) : jmd :=
  set_field 62 2 NVMEIBC_JOURNAL_MD_VERSION_UNPACKED
    (set_field 52 10 txbmp (set_field 32 20 txid (set_field 0 32 j2d md))).

Definition nvmeibc_block_dp_ec_jmd_encode (t : roles_tables) (wr_version j2d txid txbmp : Z)
    (next : bool) (md : jmd) : res jmd :=
  if negb (wr_version =? 0) then
    let md := set_field 0 32 j2d md in
    let md := set_field 32 20 txid md in
    z ← nvmeibc_block_dp_ec_md_txbm_compress t txbmp;
    let md := set_field 52 10 z md in
    let md := set_field 60 1 (Z.b2z next) md in
    let md := set_field 61 1 (Z.shiftr j2d 32) md in
    Ok (set_field 62 2 NVMEIBC_JOURNAL_MD_VERSION_PACKED md)
  else Ok (jblock_md_jmd_encode_v0 j2d txid txbmp md).

Record jblock_md_decompressed : Type := JmdDec {
  jd_j2d : Z; jd_tx_id : Z; jd_tx_bmp : Z; jd_version : Z; jd_has_next : bool
}.
Definition nvmeibc_block_dp_ec_jmd_decode (t : roles_tables) (md : jmd) : res jblock_md_decompressed :=
  let j2d := nvmeibc_block_dp_ec_jmd_decode_j2d_only md in
  if version md =? NVMEIBC_JOURNAL_MD_VERSION_PACKED then
    bm ← nvmeibc_block_dp_ec_md_txbm_decompress t (tx_bmp_zip md);
    Ok (JmdDec j2d (tx_id md) bm (version md) (has_next md))
  else Ok (JmdDec j2d (tx_id md) (tx_bmp md) (version md) false).

(** ** Transaction ids and special values *)
Definition INITIAL_LAZY_READ_TXID : Z := 0.
Definition TX_ID_NO_JOURNALS : Z := 1.
Definition NVMEIBC_DP_EC_MD_TX_ID_MAX : Z := 2 ^ 20 - 2.
Definition nvmeib_txid_never_write_to_disk (txid : Z) : bool :=
  (NVMEIBC_DP_EC_MD_TX_ID_MAX <? txid) || (txid =? 0).
Definition nvmeib_txid_no_journal (txid : Z) : bool := (txid =? TX_ID_NO_JOURNALS) || (txid =? 0).
Definition nvmeib_is_jmd_io_entry_by_txid (txid : Z) : bool :=
  negb ((txid =? INITIAL_LAZY_READ_TXID) || (txid =? TX_ID_NO_JOURNALS) || (NVMEIBC_DP_EC_MD_TX_ID_MAX <? txid)).
Definition nvmeib_is_jmd_io_entry (md : jmd) : bool :=
  if negb (nvmeib_is_jmd_io_entry_by_txid (tx_id md)) then false
  else negb (tx_bmp md =? NVMEIBC_DP_EC_MD_TXBM_INVALID).

Definition nvmeib_jmd_unused_entry_val : jmd :=
  jblock_md_jmd_encode_v0 (Z.ones 32) TX_ID_NO_JOURNALS 0 0.
Definition nvmeib_jmd_invalid_special_val : jmd :=
  jblock_md_jmd_encode_v0 (Z.ones 32) (NVMEIBC_DP_EC_MD_TX_ID_MAX + 1) 0 0.
Definition nvmeib_jmd_unused_jblock_val : jmd :=
  set_field 62 2 NVMEIBC_JOURNAL_MD_VERSION_PACKED (set_field 32 20 TX_ID_NO_JOURNALS (set_field 0 32 (Z.ones 32) 0)).
Definition nvmeib_is_jmd_trim_val (md : jmd) : bool := (md =? 0) || (md =? Z.ones 64).

(** ** Journal entries *)
Definition nvmeib_jentry_md_is_unused_fast (jentry : list jmd) : res bool :=
  md ← aget jentry 0; Ok (md =? nvmeib_jmd_unused_entry_val).
Definition nvmeib_jentry_md_is_invalid_special (jentry : list jmd) : res bool :=
  md ← aget jentry 0; Ok (md =? nvmeib_jmd_invalid_special_val).
Fixpoint nvmeib_jentry_md_is_unused_slow (jentry : list jmd) (binje : nat) {struct binje} : res bool :=
  match binje with
  | O => Ok true
  | S binje => match jentry with
               | [] => Fault OOB
               | md :: rest => if md =? nvmeib_jmd_unused_entry_val
                               then nvmeib_jentry_md_is_unused_slow rest binje else Ok false
               end
  end.
Definition nvmeib_shared_set_jentry_md_unused (jentry : list jmd) (binje : nat) : res (list jmd) :=
  for_up binje (fun i l => aset l i nvmeib_jmd_unused_entry_val) jentry.
Definition nvmeib_shared_set_jentry_md_invalid_special (jentry : list jmd) (binje : nat) : res (list jmd) :=
  for_up binje (fun i l => aset l i nvmeib_jmd_invalid_special_val) jentry.

(** The rest of the chain, behind block [jb - 1] with metadata [prev]. *)
Fixpoint jentry_chain (t : roles_tables) (first : jblock_md_decompressed) (binje jb : nat)
    (prev : jmd) (rest : list jmd) : res bool :=
  if has_next prev then
    match rest with
    | [] => Fault OOB
    | md :: rest =>
        cur ← nvmeibc_block_dp_ec_jmd_decode t md;
        if (jb <? binje)%nat then
          if negb (nvmeib_is_jmd_io_entry_by_txid (tx_id md)) then Ok false
          else if negb (jd_version first =? jd_version cur) then Ok false
          else if negb (jd_j2d cur =? u64 (jd_j2d first + Z.of_nat jb)) || negb (jd_tx_id cur =? jd_tx_id first)
          then Ok false
          else jentry_chain t first binje (S jb) md rest
        else Ok false
    end
  else Ok true.

Definition nvmeib_jentry_md_is_valid (t : roles_tables) (jentry : list jmd) (binje : nat) : res bool :=
  match jentry with
  | [] => Fault OOB
  | md :: rest =>
      if negb (nvmeib_is_jmd_io_entry md) then Ok false
      else if version md =? NVMEIBC_JOURNAL_MD_VERSION_UNPACKED then Ok true
      else
        first ← nvmeibc_block_dp_ec_jmd_decode t md;
        jentry_chain t first binje 1 md rest
  end.

(** Decoding follows the links; [res] has room for thirty-two blocks. *)
Definition NVMEIB_EC_JOURNAL_MAX_BLOCKS_PER_ENTRY : nat := 32.
Fixpoint decode_chain (t : roles_tables) (seg_start_dlba : Z) (len : nat) (src : list jmd)
    : res (list jblock_md_decompressed) :=
  match src with
  | [] => Fault OOB
  | md :: src =>
      d ← nvmeibc_block_dp_ec_jmd_decode t md;
      if (NVMEIB_EC_JOURNAL_MAX_BLOCKS_PER_ENTRY <=? len)%nat then Fault OOB else
      let d := JmdDec (u64 (jd_j2d d - seg_start_dlba)) (jd_tx_id d) (jd_tx_bmp d) (jd_version d) (jd_has_next d) in
      if jd_has_next d then ds ← decode_chain t seg_start_dlba (S len) src; Ok (d :: ds) else Ok [d]
  end.
Definition nvmeibc_block_dp_ec_md_decode_jentry (t : roles_tables) (seg_start_dlba : Z) (ent : list jmd)
    : res (list jblock_md_decompressed) := decode_chain t seg_start_dlba 0 ent.

Definition nvmeibc_jentry_md_container_fill (src : list jmd) (sw2hw n binje : nat) (dst : list jmd) : res (list jmd) :=
  if (binje <? n)%nat then Fault BUG else
  for_up binje (fun j dst =>
    if (j <? n)%nat then v ← aget src (Nat.shiftl j sw2hw); aset dst j v
    else aset dst j nvmeib_jmd_unused_jblock_val) dst.

Definition NVMEIB_EC_JOURNAL_MAX_ENTRIES_PER_RANGE : Z := 512.
Definition nvmeib_ec_journal_entries_in_range_binje (binje blk_in_rng : Z) : Z :=
  let ent_in_rng := blk_in_rng / binje in
  if NVMEIB_EC_JOURNAL_MAX_ENTRIES_PER_RANGE <? ent_in_rng then NVMEIB_EC_JOURNAL_MAX_ENTRIES_PER_RANGE else ent_in_rng.

(** ** Transaction bitmaps *)
Definition roles_tables_init : roles_tables :=
  match init_roles_pair_compression_tables roles_tables_zero with Ok t => t | Fault _ => roles_tables_zero end.

Lemma init_tables_ok : init_roles_pair_compression_tables roles_tables_zero = Ok roles_tables_init.
Proof. vm_compute. reflexivity. Qed.

Lemma init_tables_unique t : init_roles_pair_compression_tables roles_tables_zero = Ok t → t = roles_tables_init.
Proof.
  intros H. apply (f_equal (fun r => match r with Ok t => t | Fault _ => roles_tables_zero end)) in H. by symmetry.
Qed.

Definition hull (bm : Z) : Z := GENMASK (last_bit bm) (ctzl bm).
Definition txbm_check (bm : Z) : bool :=
  (bm =? 0) ||
  match nvmeibc_block_dp_ec_md_txbm_compress roles_tables_init bm with
  | Ok z => (1 <=? z) && (z <=? 78) &&
      match nvmeibc_block_dp_ec_md_txbm_decompress roles_tables_init z with
      | Ok bm' => (bm' =? hull bm) && (Z.lor bm bm' =? bm') && (0 <=? ctzl bm) && (ctzl bm <=? last_bit bm) && (last_bit bm <? 12)
      | Fault _ => false
      end
  | Fault _ => false
  end.

Lemma txbm_all : all_values 12 txbm_check = true.
Proof. vm_compute. reflexivity. Qed.

Lemma txbm_ok bm : 0 < bm < 2 ^ 12 →
  ∃ z, nvmeibc_block_dp_ec_md_txbm_compress roles_tables_init bm = Ok z ∧ 1 ≤ z ≤ 78 ∧
    nvmeibc_block_dp_ec_md_txbm_decompress roles_tables_init z = Ok (hull bm) ∧ Z.lor bm (hull bm) = hull bm.
Proof.
  intros Hbm. pose proof (all_values_spec 12 _ txbm_all bm ltac:(lia)) as H. unfold txbm_check in H.
  rewrite (proj2 (Z.eqb_neq bm 0)) in H by lia. cbn [orb] in H.
  destruct (nvmeibc_block_dp_ec_md_txbm_compress _ bm) as [z|]; [|done].
  destruct (nvmeibc_block_dp_ec_md_txbm_decompress _ z) as [bm'|] eqn:E; [|by rewrite andb_false_r in H].
  rewrite !andb_true_iff in H. destruct H as ((H1 & H2) & ((((H3 & H4) & _) & _) & _)).
  apply Z.eqb_eq in H3 as ->. apply Z.eqb_eq in H4. exists z. split; [done|]. split; [lia|]. split; [done|done].
Qed.

Definition contiguous_check (l h : Z) : bool :=
  (GENMASK h l <? 2 ^ 12) && (0 <? GENMASK h l) && (hull (GENMASK h l) =? GENMASK h l).
Lemma contiguous_all : all_from 12 0 (fun l => all_from 12 0 (fun h => negb (l <=? h) || contiguous_check l h)) = true.
Proof. vm_compute. reflexivity. Qed.

Lemma contiguous_hull l h : 0 ≤ l ≤ h → h < 12 →
  0 < GENMASK h l < 2 ^ 12 ∧ hull (GENMASK h l) = GENMASK h l.
Proof.
  intros Hl Hh. pose proof (all_from_spec _ _ _ (all_from_spec _ _ _ contiguous_all l ltac:(lia)) h ltac:(lia)) as H.
  cbv beta in H. rewrite (proj2 (Z.leb_le l h)) in H by lia. cbn [negb orb] in H. unfold contiguous_check in H. lia.
Qed.

#[local] Opaque init_roles_pair_compression_tables roles_tables_init hull GENMASK.

(** Compression of transaction bitmaps.  The tables built at start-up give
    every non-empty bitmap of twelve roles a code of one byte, between 1 and 78,
    that decompresses to the smallest run of roles covering the bitmap; a bitmap
    that is a run of roles comes back unchanged. *)
Theorem txbm_roundtrip t bm (Ht : init_roles_pair_compression_tables roles_tables_zero = Ok t)
    (Hbm : 0 < bm < 2 ^ 12) :
  ∃ z bm', nvmeibc_block_dp_ec_md_txbm_compress t bm = Ok z ∧ 1 ≤ z ≤ 78 ∧
    nvmeibc_block_dp_ec_md_txbm_decompress t z = Ok bm' ∧ bm' = GENMASK (last_bit bm) (ctzl bm) ∧
    Z.lor bm bm' = bm' ∧
    (∀ l h, 0 ≤ l ≤ h → h < 12 → bm = GENMASK h l → bm' = bm).
Proof.
  apply init_tables_unique in Ht as ->. destruct (txbm_ok bm Hbm) as (z & H1 & H2 & H3 & H4).
  exists z, (hull bm). split_and!; [done|lia|lia|done|done|done|].
  intros l h Hl Hh ->. by apply contiguous_hull.
Qed.

Lemma txbm_roundtrip_witness : ∃ z bm',
  nvmeibc_block_dp_ec_md_txbm_compress roles_tables_init 0x3C = Ok z ∧
  nvmeibc_block_dp_ec_md_txbm_decompress roles_tables_init z = Ok bm' ∧ bm' = 0x3C.
Proof.
  destruct (txbm_roundtrip roles_tables_init 0x3C init_tables_ok ltac:(lia)) as (z & bm' & H1 & _ & H3 & _ & _ & H6).
  exists z, bm'. split; [exact H1|]. split; [exact H3|]. apply (H6 2 5); [lia|lia|reflexivity].
Defined.

(** A code above the last one of the decompression table, which a damaged
    journal block can hold in its eight bits, is looked up outside the table. *)
Theorem txbm_decompress_overrun t z (Ht : init_roles_pair_compression_tables roles_tables_zero = Ok t)
    (Hz : 145 ≤ z < 2 ^ 8) : nvmeibc_block_dp_ec_md_txbm_decompress t z = Fault OOB.
Proof.
  apply init_tables_unique in Ht as ->.
  unfold nvmeibc_block_dp_ec_md_txbm_decompress. rewrite (proj2 (Z.eqb_neq _ _)) by (unfold NVMEIBC_DP_EC_MD_TXBM_INVALID; lia).
  unfold nvmeibc_block_dp_ec_md_roles_pair_decompress, aget.
  rewrite lookup_ge_None_2; [done|]. replace (length (snd roles_tables_init)) with 145%nat by reflexivity. lia.
Qed.

Lemma txbm_decompress_overrun_witness : nvmeibc_block_dp_ec_md_txbm_decompress roles_tables_init 200 = Fault OOB.
Proof. apply (txbm_decompress_overrun roles_tables_init 200 init_tables_ok). lia. Defined.

(** ** Journal metadata words *)
Ltac jmd_fields := unfold j2d_0, tx_id, tx_bmp, version, tx_bmp_zip, has_next, j2d_extended,
  jblock_md_jmd_encode_v0; fields.

Lemma j2d_split j2d : 0 ≤ j2d < 2 ^ 33 → Z.lor (wrap 32 j2d) (Z.shiftl (wrap 1 (Z.shiftr j2d 32)) 32) = j2d.
Proof.
  intros Hj. rewrite (field_split 32 1 j2d 33) at 3 by lia. f_equal; [|f_equal].
  - unfold field. rewrite Z.shiftr_0_r. apply wrap_land. lia.
  - unfold field. apply wrap_land. lia.
Qed.

(** Journal metadata round trip.  A packed word decodes to the block address
    of up to 33 bits, transaction id, role range and chain link it was encoded
    from, an unpacked word to the address of 32 bits, the id and the bitmap of
    ten bits; a packed encoding does not depend on the word it overwrites. *)
Theorem jmd_roundtrip t j2d txid l h bm next md (Ht : init_roles_pair_compression_tables roles_tables_zero = Ok t)
    (Hj : 0 ≤ j2d < 2 ^ 33) (Htx : 0 ≤ txid < 2 ^ 20) (Hl : 0 ≤ l ≤ h) (Hh : h < 12) (Hbm : 0 ≤ bm < 2 ^ 10) :
  (∃ md1, nvmeibc_block_dp_ec_jmd_encode t 1 j2d txid (GENMASK h l) next md = Ok md1 ∧
     nvmeibc_block_dp_ec_jmd_decode t md1 = Ok (JmdDec j2d txid (GENMASK h l) 1 next)) ∧
  (∃ md0, nvmeibc_block_dp_ec_jmd_encode t 0 j2d txid bm next md = Ok md0 ∧
     (j2d < 2 ^ 32 → nvmeibc_block_dp_ec_jmd_decode t md0 = Ok (JmdDec j2d txid bm 0 false))).
Proof.
  apply init_tables_unique in Ht as ->. destruct (contiguous_hull l h Hl Hh) as [Hg Eh].
  destruct (txbm_ok _ Hg) as (z & Hz & Hzr & Hd & _). rewrite Eh in Hd. split.
  - unfold nvmeibc_block_dp_ec_jmd_encode. cbn [Z.eqb negb]. rewrite Hz. rstep. eexists. split; [done|].
    unfold nvmeibc_block_dp_ec_jmd_decode, nvmeibc_block_dp_ec_jmd_decode_j2d_only, dp_ec_jmd_get_u64_j2d.
    jmd_fields. rewrite (wrap_small 8 z), (wrap_small 20 txid) by lia. cbn [wrap Z.eqb].
    change (wrap 2 NVMEIBC_JOURNAL_MD_VERSION_PACKED =? NVMEIBC_JOURNAL_MD_VERSION_PACKED) with true. cbv iota.
    rewrite Hd. rstep. rewrite j2d_split by done. by destruct next.
  - unfold nvmeibc_block_dp_ec_jmd_encode. cbn [Z.eqb negb]. eexists. split; [done|]. intros Hj32.
    unfold nvmeibc_block_dp_ec_jmd_decode, nvmeibc_block_dp_ec_jmd_decode_j2d_only. jmd_fields.
    change (wrap 2 NVMEIBC_JOURNAL_MD_VERSION_UNPACKED =? NVMEIBC_JOURNAL_MD_VERSION_PACKED) with false. cbv iota. fields.
    rewrite (wrap_small 10 bm), (wrap_small 20 txid), (wrap_small 32 j2d) by lia. reflexivity.
Qed.

Lemma jmd_roundtrip_witness :
  (∃ md1, nvmeibc_block_dp_ec_jmd_encode roles_tables_init 1 0x123456789 77 (GENMASK 6 3) true 0 = Ok md1 ∧
     nvmeibc_block_dp_ec_jmd_decode roles_tables_init md1 = Ok (JmdDec 0x123456789 77 (GENMASK 6 3) 1 true)) ∧
  (∃ md0, nvmeibc_block_dp_ec_jmd_encode roles_tables_init 0 0x123456789 77 0x2A5 true 0 = Ok md0 ∧
     (0x123456789 < 2 ^ 32 → nvmeibc_block_dp_ec_jmd_decode roles_tables_init md0 = Ok (JmdDec 0x123456789 77 0x2A5 0 false))).
Proof. apply (jmd_roundtrip _ _ _ 3 6 0x2A5 true 0 init_tables_ok); lia. Defined.

(** ** Chains of journal blocks *)
Lemma decode_fields t md d : nvmeibc_block_dp_ec_jmd_decode t md = Ok d →
  jd_j2d d = nvmeibc_block_dp_ec_jmd_decode_j2d_only md ∧ jd_tx_id d = tx_id md ∧ jd_version d = version md ∧
  jd_has_next d = (version md =? NVMEIBC_JOURNAL_MD_VERSION_PACKED) && has_next md.
Proof.
  unfold nvmeibc_block_dp_ec_jmd_decode. destruct (version md =? _) eqn:Ev.
  - destruct (nvmeibc_block_dp_ec_md_txbm_decompress _ _); rstep; [|done]. by intros [= <-].
  - by intros [= <-].
Qed.

Lemma j2d_range md : 0 ≤ nvmeibc_block_dp_ec_jmd_decode_j2d_only md < 2 ^ 64.
Proof.
  unfold nvmeibc_block_dp_ec_jmd_decode_j2d_only, dp_ec_jmd_get_u64_j2d, j2d_0, j2d_extended.
  pose proof (field_range 0 32 md ltac:(lia)). pose proof (field_range 61 1 md ltac:(lia)).
  case_match; [|lia]. rewrite Z.shiftl_mul_pow2 by lia. split; [apply Z.lor_nonneg; lia|].
  destruct (Z.eq_dec (field 61 1 md) 0) as [->|]; [rewrite Z.mul_0_l, Z.lor_0_r; lia|].
  apply Z.log2_lt_cancel. rewrite Z.log2_lor by lia. change (Z.log2 (2 ^ 64)) with 64.
  pose proof (Z.log2_le_mono (field 0 32 md) (2 ^ 32) ltac:(lia)).
  pose proof (Z.log2_le_mono (field 61 1 md * 2 ^ 32) (2 ^ 33) ltac:(lia)).
  rewrite Z.log2_pow2 in * by lia. lia.
Qed.

(** What [decode_chain] promises of the blocks of a valid chain. *)
Definition chain_of (j2d txid : Z) (ds : list jblock_md_decompressed) : Prop :=
  ∀ i d, ds !! i = Some d →
    jd_j2d d = u64 (j2d + Z.of_nat i) ∧ jd_tx_id d = txid ∧ (jd_has_next d = true ↔ (S i < length ds)%nat).

Lemma wrap_sub_l w a s : wrap w (wrap w a - s) = wrap w (a - s).
Proof. apply Zminus_mod_idemp_l. Qed.

Lemma chain_of_single j2d txid bm v : chain_of j2d txid [JmdDec (u64 j2d) txid bm v false].
Proof. intros [|i] d; simpl; [|done]. intros [= <-]. simpl. rewrite Z.add_0_r. split_and!; try done. lia. Qed.

Lemma chain_of_cons j2d txid bm v ds : ds ≠ [] → chain_of (j2d + 1) txid ds →
  chain_of j2d txid (JmdDec (u64 j2d) txid bm v true :: ds).
Proof.
  intros Hne H [|i] d; simpl.
  - intros [= <-]. simpl. rewrite Z.add_0_r. destruct ds; [done|]. simpl. split_and!; try done. lia.
  - intros Hd. destruct (H _ _ Hd) as (-> & -> & Hn). split_and!; [f_equal; lia|done|]. rewrite Hn. lia.
Qed.

Lemma decode_chain_cons t s len md src : decode_chain t s len (md :: src) =
  (d ← nvmeibc_block_dp_ec_jmd_decode t md;
   if (NVMEIB_EC_JOURNAL_MAX_BLOCKS_PER_ENTRY <=? len)%nat then Fault OOB else
   let d := JmdDec (u64 (jd_j2d d - s)) (jd_tx_id d) (jd_tx_bmp d) (jd_version d) (jd_has_next d) in
   if jd_has_next d then ds ← decode_chain t s (S len) src; Ok (d :: ds) else Ok [d]).
Proof. done. Qed.

Lemma chain_decodes t first binje s rest : (binje ≤ 32)%nat →
  jd_version first = NVMEIBC_JOURNAL_MD_VERSION_PACKED →
  ∀ jb md d, jentry_chain t first binje (S jb) md rest = Ok true →
  nvmeibc_block_dp_ec_jmd_decode t md = Ok d → version md = NVMEIBC_JOURNAL_MD_VERSION_PACKED →
  jd_j2d d = u64 (jd_j2d first + Z.of_nat jb) → jd_tx_id d = jd_tx_id first → (jb < 32)%nat →
  ∃ ds, decode_chain t s jb (md :: rest) = Ok ds ∧ ds ≠ [] ∧ (jb + length ds ≤ binje `max` S jb)%nat ∧
    chain_of (jd_j2d first + Z.of_nat jb - s) (jd_tx_id first) ds.
Proof.
  intros Hb Hv. induction rest as [|md' rest IH]; intros jb md d Hc Hd Hvm Hj Ht Hlt.
  all: destruct (decode_fields _ _ _ Hd) as (_ & _ & _ & Hn); rewrite Hvm in Hn; simpl in Hn.
  all: rewrite decode_chain_cons, Hd; rstep; rewrite (proj2 (Nat.leb_gt _ _)) by (unfold NVMEIB_EC_JOURNAL_MAX_BLOCKS_PER_ENTRY; lia).
  all: cbv zeta; cbn [jd_has_next]; rewrite Hj, Ht, Hn, wrap_sub_l.
  all: cbn [jentry_chain] in Hc; destruct (has_next md) eqn:Hnx.
  - done.
  - eexists; split_and!; [done|done|simpl; lia|apply chain_of_single].
  - destruct (nvmeibc_block_dp_ec_jmd_decode t md') as [cur|] eqn:Hd'; [|done]. cbn [mbind res_bind] in Hc.
    destruct (S jb <? binje)%nat eqn:Ej; [|done]. apply Nat.ltb_lt in Ej.
    destruct (negb _) in Hc; [done|]. destruct (jd_version first =? jd_version cur) eqn:Ev; simpl in Hc; [|done].
    destruct (jd_j2d cur =? _) eqn:E1, (jd_tx_id cur =? _) eqn:E2; simpl in Hc; try done.
    destruct (decode_fields _ _ _ Hd') as (_ & _ & Hv' & _). apply Z.eqb_eq in Ev, E1, E2.
    destruct (IH (S jb) md' cur Hc Hd' ltac:(congruence) E1 E2 ltac:(lia)) as (ds & Hds & Hne & Hlen & Hch).
    rewrite Hds. rstep. eexists; split_and!; [done|done|simpl; lia|]. apply chain_of_cons; [done|].
    by replace (jd_j2d first + Z.of_nat jb - s + 1) with (jd_j2d first + Z.of_nat (S jb) - s) by lia.
  - eexists; split_and!; [done|done|simpl; lia|apply chain_of_single].
Qed.

(** C30: a journal entry accepted by [nvmeib_jentry_md_is_valid] can be decoded.
    [nvmeibc_block_dp_ec_md_decode_jentry] stays inside the entry and its result
    array, returns between one and [binje] blocks, and these carry consecutive
    data addresses and one transaction id, with only the last one unlinked. *)
Theorem jentry_valid_decodes t jentry binje s md0 (Hv : nvmeib_jentry_md_is_valid t jentry binje = Ok true)
    (Hb : (1 ≤ binje ≤ 32)%nat) (H0 : jentry !! 0%nat = Some md0) (Hver : version md0 < 2) :
  ∃ ds, nvmeibc_block_dp_ec_md_decode_jentry t s jentry = Ok ds ∧ (1 ≤ length ds ≤ binje)%nat ∧
    chain_of (nvmeibc_block_dp_ec_jmd_decode_j2d_only md0 - s) (tx_id md0) ds.
Proof.
  destruct jentry as [|md rest]; [done|]. injection H0 as <-. unfold nvmeib_jentry_md_is_valid in Hv.
  destruct (negb (nvmeib_is_jmd_io_entry md)); [done|]. unfold nvmeibc_block_dp_ec_md_decode_jentry.
  pose proof (field_range 62 2 md ltac:(lia)) as Hr. fold (version md) in Hr.
  destruct (version md =? NVMEIBC_JOURNAL_MD_VERSION_UNPACKED) eqn:Eu.
  - apply Z.eqb_eq in Eu. rewrite decode_chain_cons. unfold nvmeibc_block_dp_ec_jmd_decode. rewrite Eu. cbv zeta. rstep.
    eexists. split; [done|]. split; [simpl; lia|]. apply chain_of_single.
  - apply Z.eqb_neq in Eu. assert (version md = NVMEIBC_JOURNAL_MD_VERSION_PACKED) as Hp
      by (unfold NVMEIBC_JOURNAL_MD_VERSION_UNPACKED, NVMEIBC_JOURNAL_MD_VERSION_PACKED in *; lia).
    destruct (nvmeibc_block_dp_ec_jmd_decode t md) as [d|] eqn:Hd; [|done]. cbn [mbind res_bind] in Hv.
    destruct (decode_fields _ _ _ Hd) as (Hj & Ht & Hvd & _). pose proof (j2d_range md).
    destruct (chain_decodes t d binje s rest ltac:(lia) ltac:(congruence) 0 md d Hv Hd Hp) as (ds & H1 & H2 & H3 & H4).
    { rewrite Z.add_0_r, wrap_small; [done|]. rewrite Hj. lia. } { done. } { lia. }
    exists ds. split; [done|]. split; [destruct ds; [done|cbn [length] in H3 |- *; lia]|].
    by rewrite Hj, Ht, Z.add_0_r in H4.
Qed.

(** A chain of three blocks of transaction 9 that ends before the entry does. *)
Module ThreeBlocks.
Definition word (next : bool) (j2d : Z) : jmd :=
  match nvmeibc_block_dp_ec_jmd_encode roles_tables_init 1 j2d 9 0x7 next 0 with Ok md => md | Fault _ => 0 end.
Definition jentry : list jmd := [word true 100; word true 101; word false 102; nvmeib_jmd_unused_jblock_val].
End ThreeBlocks.

Lemma jentry_valid_decodes_witness : ∃ ds,
  nvmeibc_block_dp_ec_md_decode_jentry roles_tables_init 40 ThreeBlocks.jentry = Ok ds ∧ (1 ≤ length ds ≤ 4)%nat ∧
    chain_of (nvmeibc_block_dp_ec_jmd_decode_j2d_only (ThreeBlocks.word true 100) - 40) (tx_id (ThreeBlocks.word true 100)) ds.
Proof.
  apply (jentry_valid_decodes roles_tables_init ThreeBlocks.jentry 4 40).
  - vm_compute. reflexivity.
  - lia.
  - reflexivity.
  - vm_compute. reflexivity.
Defined.

(** An entry whose blocks are all linked forward makes the validation read
    one block behind the entry: with an array of exactly [binje] blocks the read
    is out of bounds, here for an entry of one block. *)
Theorem jentry_valid_overrun t md d (Hio : nvmeib_is_jmd_io_entry md = true)
    (Hp : version md = NVMEIBC_JOURNAL_MD_VERSION_PACKED) (Hn : has_next md = true)
    (Hd : nvmeibc_block_dp_ec_jmd_decode t md = Ok d) :
  nvmeib_jentry_md_is_valid t [md] 1 = Fault OOB.
Proof. unfold nvmeib_jentry_md_is_valid. rewrite Hio, Hp, Hd. cbn [negb mbind res_bind jentry_chain]. by rewrite Hn. Qed.

Lemma jentry_valid_overrun_witness : nvmeib_jentry_md_is_valid roles_tables_init [ThreeBlocks.word true 100] 1 = Fault OOB.
Proof.
  apply (jentry_valid_overrun roles_tables_init _ (JmdDec 100 9 7 1 true)); vm_compute; reflexivity.
Defined.

(** ** Unused entries *)
(** A loop that stores [f i] at every [i < n] replaces a prefix of the array. *)
Lemma store_loop {A} (f : nat → A) (body : nat → list A → res (list A)) n (l : list A) : (n ≤ length l)%nat →
  (∀ i l', (i < n)%nat → body i l' = aset l' i (f i)) →
  for_up n body l = Ok ((f <$> seq 0 n) ++ drop n l).
Proof.
  intros Hn Hb.
  destruct (for_up_inv body (fun i l' => l' = (f <$> seq 0 i) ++ drop i l) n l) as (l' & Hl & ->); [done| |done].
  intros i s Hi ->. assert (is_Some (l !! i)) as [x Hx] by (apply lookup_lt_is_Some; lia).
  exists ((f <$> seq 0 (S i)) ++ drop (S i) l). split; [|done]. rewrite Hb by done. unfold aset.
  rewrite decide_True by (rewrite length_app, length_fmap, length_seq, length_drop; lia). f_equal.
  rewrite (drop_S l x i Hx), insert_app_r_alt, length_fmap, length_seq, Nat.sub_diag by (rewrite length_fmap, length_seq; lia).
  cbn [insert list_insert]. by rewrite seq_S, fmap_app, <-app_assoc.
Qed.

Lemma fmap_const_seq {A} (v : A) k n : (fun _ => v) <$> seq k n = replicate n v.
Proof. revert k. induction n as [|n IH]; intros k; [done|]. cbn [seq replicate]. rewrite fmap_cons. by rewrite IH. Qed.

Lemma unused_slow_replicate n rest :
  nvmeib_jentry_md_is_unused_slow (replicate n nvmeib_jmd_unused_entry_val ++ rest) n = Ok true.
Proof. induction n as [|n IH]; [done|]. cbn [replicate app nvmeib_jentry_md_is_unused_slow]. by rewrite Z.eqb_refl. Qed.

(** Marking an entry unused.  Every block of the entry, and no other, gets
    the unused value; the slow and the fast test then see an unused entry, and
    the validation refuses it without looking further. *)
Theorem set_unused_ok t jentry binje (Hb : (0 < binje ≤ length jentry)%nat) :
  ∃ l, nvmeib_shared_set_jentry_md_unused jentry binje = Ok l ∧
    take binje l = replicate binje nvmeib_jmd_unused_entry_val ∧ drop binje l = drop binje jentry ∧
    nvmeib_jentry_md_is_unused_slow l binje = Ok true ∧ nvmeib_jentry_md_is_unused_fast l = Ok true ∧
    nvmeib_jentry_md_is_invalid_special l = Ok false ∧ nvmeib_jentry_md_is_valid t l binje = Ok false.
Proof.
  unfold nvmeib_shared_set_jentry_md_unused.
  rewrite (store_loop (fun _ => nvmeib_jmd_unused_entry_val)), fmap_const_seq by first [done|lia].
  eexists. split; [done|]. split; [by rewrite take_app_length' by by rewrite length_replicate|].
  split; [by rewrite drop_app_length' by by rewrite length_replicate|].
  split; [apply unused_slow_replicate|]. destruct binje as [|b]; [lia|]. cbn [replicate app].
  split_and!; vm_compute; reflexivity.
Qed.

Lemma set_unused_ok_witness : ∃ l, nvmeib_shared_set_jentry_md_unused ThreeBlocks.jentry 3 = Ok l ∧
    take 3 l = replicate 3 nvmeib_jmd_unused_entry_val ∧ drop 3 l = drop 3 ThreeBlocks.jentry ∧
    nvmeib_jentry_md_is_unused_slow l 3 = Ok true ∧ nvmeib_jentry_md_is_unused_fast l = Ok true ∧
    nvmeib_jentry_md_is_invalid_special l = Ok false ∧ nvmeib_jentry_md_is_valid roles_tables_init l 3 = Ok false.
Proof. apply set_unused_ok. cbn [length ThreeBlocks.jentry]. lia. Defined.

(** Copying an entry out of a buffer of wider sectors takes the metadata of
    every [2^sw2hw]-th slot for the [n] blocks in use and pads the entry with the
    unused-block value, leaving what lies behind [binje] alone. *)
Theorem container_fill_ok src sw2hw n binje dst (Hn : (n ≤ binje)%nat) (Hd : (binje ≤ length dst)%nat)
    (Hs : (0 < n)%nat → (Nat.shiftl (n - 1) sw2hw < length src)%nat) :
  nvmeibc_jentry_md_container_fill src sw2hw n binje dst =
    Ok (((fun j => src !!! Nat.shiftl j sw2hw) <$> seq 0 n) ++ replicate (binje - n) nvmeib_jmd_unused_jblock_val ++ drop binje dst).
Proof.
  unfold nvmeibc_jentry_md_container_fill. rewrite (proj2 (Nat.ltb_ge _ _)) by lia.
  rewrite (store_loop (fun j => if (j <? n)%nat then src !!! Nat.shiftl j sw2hw else nvmeib_jmd_unused_jblock_val)); [|lia|].
  - rewrite app_assoc. do 2 f_equal. replace binje with (n + (binje - n))%nat at 1 by lia.
    rewrite seq_app, fmap_app. f_equal.
    + apply list.list_fmap_ext. intros i j Hj. apply lookup_seq in Hj. by rewrite (proj2 (Nat.ltb_lt _ _)) by lia.
    + rewrite <-(fmap_const_seq _ (0 + n)). apply list.list_fmap_ext. intros i j Hj. apply lookup_seq in Hj.
      by rewrite (proj2 (Nat.ltb_ge _ _)) by lia.
  - intros i l Hi. destruct (Nat.ltb_spec i n) as [Hin|]; [|done].
    assert (Nat.shiftl i sw2hw < length src)%nat as Hlt.
    { specialize (Hs ltac:(lia)). rewrite !Nat.shiftl_mul_pow2 in *. nia. }
    destruct (lookup_lt_is_Some_2 src _ Hlt) as [v Hv]. rewrite (proj2 (aget_ok _ _ _) Hv). rstep.
    by rewrite (list_lookup_total_correct _ _ _ Hv).
Qed.

Lemma container_fill_ok_witness :
  nvmeibc_jentry_md_container_fill [10; 11; 12; 13; 14] 1 3 4 [0; 0; 0; 0; 99] = Ok [10; 12; 14; nvmeib_jmd_unused_jblock_val; 99].
Proof. apply (container_fill_ok [10; 11; 12; 13; 14] 1 3 4 [0; 0; 0; 0; 99]); cbn; lia. Defined.
