(* ===== verification/HashTable.v ===== *)
(** * The open-addressing hash table

    Models [common/nvmeib_hash.c] and [nvmeib_hash.h]: MurmurHash, tables of a
    power of two of slots with linear probing, growing and shrinking, and
    deletion that pushes the rest of a chain backwards.

    A pointer to an object is a [Z], 0 for [HASH_ENTRY_EMPTY].  A key is the list
    of its bytes: the sixteen bytes of the union, or for [key_len = -1] the
    characters of the string the union points to, which the header asks to be
    alive as long as the key is in the table.  Multi-byte keys are stored little
    endian.  The [int] arithmetic of the load factors wraps at 32 bits. *)
From stdpp Require Import base list gmap numbers.
From Stdlib Require Import ZArith Lia.
From S2P Require Import Prelude CMemory.
Local Open Scope Z_scope.

(** ** MurmurHash *)
Definition rotl32 (x r : Z) : Z := Z.lor (u32 (Z.shiftl x r)) (Z.shiftr x (32 - r)).

Definition murmur_32_scramble (k : Z) : Z :=
  let k := u32 (k * 0xcc9e2d51) in
  let k := rotl32 k 15 in
  u32 (k * 0x1b873593).

(** The groups of four, then up to three remaining bytes. *)
Fixpoint murmur_groups (key : list Z) (h : Z) : Z * list Z :=
  match key with
  | a :: b :: c :: d :: key =>
      let h := Z.lxor h (murmur_32_scramble (le_word [a; b; c; d])) in
      let h := rotl32 h 13 in
      let h := u32 (h * 5 + 0xe6546b64) in
      murmur_groups key h
  | rest => (h, rest)
  end.
Definition murmur_finalize (h len : Z) : Z :=
  let h := Z.lxor h (u32 len) in
  let h := Z.lxor h (Z.shiftr h 16) in
  let h := u32 (h * 0x85ebca6b) in
  let h := Z.lxor h (Z.shiftr h 13) in
  let h := u32 (h * 0xc2b2ae35) in
  Z.lxor h (Z.shiftr h 16).
Definition murmur3_32 (key : list Z) (seed : Z) : Z :=
  let '(h, rest) := murmur_groups key seed in
  let k := fold_right (fun b k => Z.lor (u32 (Z.shiftl k 8)) b) 0 rest in
  let h := Z.lxor h (murmur_32_scramble k) in
  murmur_finalize h (Z.of_nat (length key)).

(** ** Entries and tables *)
Definition HASH_ENTRY_EMPTY : Z := 0.
Definition HASH_MIN_LOG2_OF_N_ARR_ENTRIES : Z := 5.
Definition HASH_MIN_N_ARR_ENTRIES : Z := 32.
Definition HASH_EMERGENCY_LOAD_FACTOR_THRESHOLD (n_entries : Z) : Z := Z.quot (s32 (n_entries * 60)) 100.
Definition HASH_RELAXED_LOAD_FACTOR_THRESHOLD (n_entries : Z) : Z := Z.quot (s32 (n_entries * 51)) 100.
Definition HASH_SHRINK_FACTOR_THRESHOLD : Z := 10.

Record nvmeib_hash_entry : Type := HashEntry { key : list Z; ptr_to_obj : Z; scrambled : Z }.
Record nvmeib_hash_table : Type := HashTable {
  scrambled_to_idx_mask : Z;
  arr : list nvmeib_hash_entry;
  log2_of_n_arr_entries : Z;
  initial_log2_of_n_arr_entries : Z;
  n_arr_entries : Z;
  n_occupied : Z;
  is_used_outside_main_thread : bool;
  key_len : Z
}.
Definition with_arr (t : nvmeib_hash_table) (a : list nvmeib_hash_entry) (n : Z) : nvmeib_hash_table :=
  HashTable (scrambled_to_idx_mask t) a (log2_of_n_arr_entries t) (initial_log2_of_n_arr_entries t)
    (n_arr_entries t) n (is_used_outside_main_thread t) (key_len t).

Definition hash_is_entry_OCCUPIED (e : nvmeib_hash_entry) : bool := negb (ptr_to_obj e =? HASH_ENTRY_EMPTY).
Definition nvmeib_hash_get_n_elements (t : option nvmeib_hash_table) : Z :=
  match t with Some t => n_occupied t | None => 0 end.

Definition is_hash_tbl_suitable_for_resize_relaxed_increase (t : nvmeib_hash_table) : bool :=
  HASH_RELAXED_LOAD_FACTOR_THRESHOLD (n_arr_entries t) <=? n_occupied t.
Definition is_hash_tbl_suitable_for_resize_emergency_increase (t : nvmeib_hash_table) : bool :=
  (HASH_EMERGENCY_LOAD_FACTOR_THRESHOLD (n_arr_entries t) <=? n_occupied t) ||
  (is_used_outside_main_thread t && is_hash_tbl_suitable_for_resize_relaxed_increase t).

Definition hash_scrambled_to_idx (scrambled mask : Z) : Z := Z.land scrambled (u32 mask).
Definition hash_next_idx_on_collision (idx mask : Z) : Z := Z.land (idx + 1) (u32 mask).

(** [strncmp] up to a length both strings have, and [memcmp]: 0 on equality. *)
Fixpoint bytes_cmp (n : nat) (a b : list Z) : Z :=
  match n, a, b with
  | S n, x :: a, y :: b => if x =? y then bytes_cmp n a b else x - y
  | _, _, _ => 0
  end.
Definition hash_is_same_key_OCCUPIED (key1 key2 : list Z) (key_len : Z) : bool :=
  if key_len =? -1 then (length key1 =? length key2)%nat && (bytes_cmp (length key1) key1 key2 =? 0)
  else bytes_cmp 16 key1 key2 =? 0.

Definition entry_at (t : nvmeib_hash_table) (idx : Z) : res nvmeib_hash_entry := aget (arr t) (Z.to_nat idx).

(** ** Growing and shrinking *)
Definition hash_init_arr (t : nvmeib_hash_table) (log2 : Z) : nvmeib_hash_table :=
  let log2 := Z.max log2 HASH_MIN_LOG2_OF_N_ARR_ENTRIES in
  let n := Z.shiftl 1 log2 in
  HashTable (n - 1) (replicate (Z.to_nat n) (HashEntry (replicate 16 0) 0 0)) log2 (initial_log2_of_n_arr_entries t) n 0
    (is_used_outside_main_thread t) (key_len t).

(** The first free slot from [idx] on; [more] is [n_arr_entries + 1 - n_collisions],
    and the source stores into the slot it has reached when that runs out. *)
Fixpoint readd_probe (t : nvmeib_hash_table) (more : nat) (idx : Z) : res Z :=
  e ← entry_at t idx;
  if hash_is_entry_OCCUPIED e then
    match more with
    | O => Ok idx
    | S more => readd_probe t more (hash_next_idx_on_collision idx (scrambled_to_idx_mask t))
    end
  else Ok idx.
Definition readd (e : nvmeib_hash_entry) (t : nvmeib_hash_table) : res nvmeib_hash_table :=
  if hash_is_entry_OCCUPIED e then
    idx ← readd_probe t (S (Z.to_nat (n_arr_entries t))) (hash_scrambled_to_idx (scrambled e) (scrambled_to_idx_mask t));
    a ← aset (arr t) (Z.to_nat idx) e;
    Ok (with_arr t a (n_occupied t + 1))
  else Ok t.
Definition rehash (t : nvmeib_hash_table) (log2 : Z) : res nvmeib_hash_table :=
  for_up (Z.to_nat (n_arr_entries t)) (fun i t' => e ← aget (arr t) i; readd e t') (hash_init_arr t log2).

Definition nvmeib_hash_resize (t : nvmeib_hash_table) : res nvmeib_hash_table :=
  if is_hash_tbl_suitable_for_resize_relaxed_increase t then rehash t (log2_of_n_arr_entries t + 1)
  else if n_occupied t * HASH_SHRINK_FACTOR_THRESHOLD <? n_arr_entries t then
    if (n_arr_entries t <? HASH_MIN_N_ARR_ENTRIES * 2) ||
       (log2_of_n_arr_entries t <=? initial_log2_of_n_arr_entries t) then Ok t
    else rehash t (log2_of_n_arr_entries t - 1)
  else Ok t.

(** [while (emergency) resize] *)
Fixpoint emergency_loop (fuel : nat) (t : nvmeib_hash_table) : res nvmeib_hash_table :=
  if is_hash_tbl_suitable_for_resize_emergency_increase t then
    match fuel with
    | O => Fault NO_FUEL
    | S fuel => t ← nvmeib_hash_resize t; emergency_loop fuel t
    end
  else Ok t.

(** ** The operations *)
Definition EMERGENCY_FUEL : nat := 2.

Inductive add_result : Type := FOUND (ptr : Z) | FREE (idx : Z) | TOO_MANY_COLLISIONS.
Fixpoint add_probe (t : nvmeib_hash_table) (k : list Z) (more : nat) (idx : Z) : res add_result :=
  e ← entry_at t idx;
  if hash_is_entry_OCCUPIED e then
    match more with
    | O => Ok TOO_MANY_COLLISIONS
    | S more =>
        if hash_is_same_key_OCCUPIED (key e) k (key_len t) then Ok (FOUND (ptr_to_obj e))
        else add_probe t k more (hash_next_idx_on_collision idx (scrambled_to_idx_mask t))
    end
  else Ok (FREE idx).
Definition hash_add (t : nvmeib_hash_table) (k : list Z) (scr ptr expected_key_len : Z) : res (nvmeib_hash_table * Z) :=
  if negb (key_len t =? expected_key_len) then Fault BUG
  else if ptr =? HASH_ENTRY_EMPTY then Fault BUG
  else
    t ← emergency_loop EMERGENCY_FUEL t;
    r ← add_probe t k (S (Z.to_nat (n_arr_entries t))) (hash_scrambled_to_idx scr (scrambled_to_idx_mask t));
    match r with
    | FOUND p => Ok (t, p)
    | TOO_MANY_COLLISIONS => Ok (t, 0)
    | FREE idx =>
        a ← aset (arr t) (Z.to_nat idx) (HashEntry k ptr scr);
        Ok (with_arr t a (n_occupied t + 1), 0)
    end.

(** [hash_search] and the outer loop of [hash_delete_key] walk alike. *)
Fixpoint find_probe (t : nvmeib_hash_table) (k : list Z) (more : nat) (idx : Z) : res (option (Z * nvmeib_hash_entry)) :=
  e ← entry_at t idx;
  if hash_is_entry_OCCUPIED e then
    if hash_is_same_key_OCCUPIED (key e) k (key_len t) then Ok (Some (idx, e))
    else match more with
         | O => Ok None
         | S more => find_probe t k more (hash_next_idx_on_collision idx (scrambled_to_idx_mask t))
         end
  else Ok None.
Definition hash_search (t : nvmeib_hash_table) (k : list Z) (scr expected_key_len : Z) : res Z :=
  if negb (key_len t =? expected_key_len) then Fault BUG
  else
    r ← find_probe t k (Z.to_nat (n_arr_entries t)) (hash_scrambled_to_idx scr (scrambled_to_idx_mask t));
    Ok (match r with Some (_, e) => ptr_to_obj e | None => 0 end).

(** The loop that pushes entries backwards over the hole at [prev_deleted_idx];
    it returns the last hole. *)
Fixpoint push_back (fuel : nat) (mask : Z) (a : list nvmeib_hash_entry) (prev_deleted_idx idx : Z)
    : res (list nvmeib_hash_entry * Z) :=
  match fuel with
  | O => Fault NO_FUEL
  | S fuel =>
      let idx := hash_next_idx_on_collision idx mask in
      e ← aget a (Z.to_nat idx);
      if negb (hash_is_entry_OCCUPIED e) then Ok (a, prev_deleted_idx)
      else
        let idx_according_to_scrambled := Z.land (scrambled e) mask in
        let gap_to_scrambled := Z.land (idx_according_to_scrambled - prev_deleted_idx) mask in
        let gap_to_idx := Z.land (idx - prev_deleted_idx) mask in
        if (0 <? gap_to_scrambled) && (gap_to_scrambled <=? gap_to_idx) then push_back fuel mask a prev_deleted_idx idx
        else
          a ← aset a (Z.to_nat prev_deleted_idx) e;
          push_back fuel mask a idx idx
  end.
Definition mark_empty (e : nvmeib_hash_entry) : nvmeib_hash_entry := HashEntry (key e) HASH_ENTRY_EMPTY (scrambled e).
Definition hash_delete_key (t : nvmeib_hash_table) (k : list Z) (scr expected_key_len : Z) : res (nvmeib_hash_table * Z) :=
  if negb (key_len t =? expected_key_len) then Fault BUG
  else
    r ← find_probe t k (Z.to_nat (n_arr_entries t)) (hash_scrambled_to_idx scr (scrambled_to_idx_mask t));
    match r with
    | None => Ok (t, 0)
    | Some (idx, e) =>
        '(a, hole) ← push_back (Z.to_nat (n_arr_entries t)) (scrambled_to_idx_mask t) (arr t) idx idx;
        h ← aget a (Z.to_nat hole);
        a ← aset a (Z.to_nat hole) (mark_empty h);
        Ok (with_arr t a (n_occupied t - 1), ptr_to_obj e)
    end.

(** ** Typed keys *)
Definition hash_uint32_t_to_nvmeib_hash_key (k : Z) : list Z := le_bytes 4 k ++ le_bytes 4 0 ++ le_bytes 4 0 ++ le_bytes 4 k.
Definition hash_uint64_t_to_nvmeib_hash_key (k : Z) : list Z := le_bytes 8 k ++ le_bytes 8 k.
Definition hash_scramble_uuid (uuid : list Z) : Z := murmur3_32 uuid 0.

Definition nvmeib_hash_add_uuid t (uuid : list Z) ptr := hash_add t uuid (hash_scramble_uuid uuid) ptr 16.
Definition nvmeib_hash_search_uuid t (uuid : list Z) := hash_search t uuid (hash_scramble_uuid uuid) 16.
Definition nvmeib_hash_delete_uuid t (uuid : list Z) := hash_delete_key t uuid (hash_scramble_uuid uuid) 16.
Definition nvmeib_hash_add_uint32_t t (k : Z) ptr :=
  hash_add t (hash_uint32_t_to_nvmeib_hash_key k) (murmur3_32 (le_bytes 4 k) 0) ptr 4.
Definition nvmeib_hash_search_uint32_t t (k : Z) :=
  hash_search t (hash_uint32_t_to_nvmeib_hash_key k) (murmur3_32 (le_bytes 4 k) 0) 4.
Definition nvmeib_hash_delete_uint32_t t (k : Z) :=
  hash_delete_key t (hash_uint32_t_to_nvmeib_hash_key k) (murmur3_32 (le_bytes 4 k) 0) 4.
Definition nvmeib_hash_add_uint64_t t (k : Z) ptr :=
  hash_add t (hash_uint64_t_to_nvmeib_hash_key k) (murmur3_32 (le_bytes 8 k) 0) ptr 8.
Definition nvmeib_hash_search_uint64_t t (k : Z) :=
  hash_search t (hash_uint64_t_to_nvmeib_hash_key k) (murmur3_32 (le_bytes 8 k) 0) 8.
Definition nvmeib_hash_delete_uint64_t t (k : Z) :=
  hash_delete_key t (hash_uint64_t_to_nvmeib_hash_key k) (murmur3_32 (le_bytes 8 k) 0) 8.
Definition nvmeib_hash_add_ascii_str t (str : list Z) ptr := hash_add t str (murmur3_32 str 0) ptr (-1).
Definition nvmeib_hash_search_ascii_str t (str : list Z) := hash_search t str (murmur3_32 str 0) (-1).
Definition nvmeib_hash_delete_ascii_str t (str : list Z) := hash_delete_key t str (murmur3_32 str 0) (-1).

Definition nvmeib_hash_create' (log2 : Z) (key_len : Z) (is_used_outside_main_thread : bool) : nvmeib_hash_table :=
  let log2 := if 24 <=? log2 then 16 else log2 in
  hash_init_arr (HashTable 0 [] 0 log2 0 0 is_used_outside_main_thread key_len) log2.

(** Published values of MurmurHash3 for the empty string, "test" and
    "Hello, world!". *)
Lemma murmur3_32_vectors :
  murmur3_32 [] 0 = 0 ∧ murmur3_32 [116; 101; 115; 116] 0 = 0xba6bd213 ∧
  murmur3_32 [72; 101; 108; 108; 111; 44; 32; 119; 111; 114; 108; 100; 33] 0 = 0xc0363e43.
Proof. vm_compute. auto. Qed.
