(* ===== verification/HashInv.v ===== *)
(** * Linear probing with backward-shift deletion

    The reasoning behind [HashTable]: the slots of a table seen as a function
    from indices to entries, cyclic distances, the invariant that every entry is
    reachable from its home slot, and its preservation when an entry is put into
    the first free slot and when a chain is pushed back over a deleted entry. *)
From stdpp Require Import base list gmap numbers.
From Stdlib Require Import ZArith Lia.
From S2P Require Import Prelude CMemory HashTable.
Local Open Scope Z_scope.

(** ** Cyclic distance *)
Definition dist (n a b : Z) : Z := if a <=? b then b - a else b - a + n.
Ltac dist_solve :=
  unfold dist in *;
  repeat match goal with
  | |- context [?a <=? ?b] => destruct (Z.leb_spec a b)
  | H : context [?a <=? ?b] |- _ => destruct (Z.leb_spec a b)
  end; lia.

Lemma land_mask k x : 0 ≤ k → Z.land x (2 ^ k - 1) = x mod 2 ^ k.
Proof. intros Hk. rewrite <-Z.land_ones by done. f_equal. rewrite Z.ones_equiv. lia. Qed.

Section slots.
Context (n : Z).

Definition home (e : nvmeib_hash_entry) : Z := scrambled e mod n.

(** ** Slots *)
Definition slots : Type := Z → option nvmeib_hash_entry.
Definition cell (a : list nvmeib_hash_entry) : slots := fun i =>
  match a !! Z.to_nat i with Some e => if hash_is_entry_OCCUPIED e then Some e else None | None => None end.
Definition set_slot (c : slots) (s : Z) (o : option nvmeib_hash_entry) : slots := fun i => if Z.eq_dec i s then o else c i.

Lemma set_slot_eq c s o : set_slot c s o s = o.
Proof. unfold set_slot. by destruct Z.eq_dec. Qed.
Lemma set_slot_ne c s o i : i ≠ s → set_slot c s o i = c i.
Proof. unfold set_slot. by destruct Z.eq_dec. Qed.
Lemma set_slot_some c s o i e : set_slot c s o i = Some e → (i = s ∧ o = Some e) ∨ (i ≠ s ∧ c i = Some e).
Proof. unfold set_slot. destruct Z.eq_dec; auto. Qed.

Lemma cell_insert a s e i : 0 ≤ s < Z.of_nat (length a) → 0 ≤ i →
  cell (<[Z.to_nat s := e]> a) i = set_slot (cell a) s (if hash_is_entry_OCCUPIED e then Some e else None) i.
Proof.
  intros Hs Hi. unfold cell, set_slot. destruct (Z.eq_dec i s) as [->|Hne].
  - rewrite list_lookup_insert_eq by lia. done.
  - rewrite list_lookup_insert_ne by lia. done.
Qed.

(** ** The invariant *)
Context (key_ok : list Z → Prop) (f : list Z → Z).

Record wf (c : slots) : Prop := {
  wf_key : ∀ i e, 0 ≤ i < n → c i = Some e → key_ok (key e) ∧ scrambled e = f (key e) ∧ ptr_to_obj e ≠ 0;
  wf_path : ∀ i e j, 0 ≤ i < n → c i = Some e → 0 ≤ j < n → dist n (home e) j < dist n (home e) i → c j ≠ None;
  wf_uniq : ∀ i j e e', 0 ≤ i < n → 0 ≤ j < n → c i = Some e → c j = Some e' → key e = key e' → i = j
}.
Arguments wf_key {_} _. Arguments wf_path {_} _. Arguments wf_uniq {_} _.
Definition holds_entry (c : slots) (e : nvmeib_hash_entry) : Prop := ∃ i, 0 ≤ i < n ∧ c i = Some e.
Definition maps (c : slots) (m : gmap (list Z) Z) : Prop :=
  ∀ x p, m !! x = Some p ↔ ∃ e, holds_entry c e ∧ key e = x ∧ ptr_to_obj e = p.

Lemma wf_ext c c' : (∀ i, 0 ≤ i < n → c i = c' i) → wf c → wf c'.
Proof.
  intros Hc [H1 H2 H3]. split.
  - intros i e Hi He. rewrite <-Hc in He by done. by apply (H1 i).
  - intros i e j Hi He Hj. rewrite <-Hc in He |- * by done. by apply (H2 i).
  - intros i j e e' Hi Hj He He'. rewrite <-Hc in He, He' by done. by apply (H3 i j e e').
Qed.
Lemma holds_entry_ext c c' e : (∀ i, 0 ≤ i < n → c i = c' i) → holds_entry c e ↔ holds_entry c' e.
Proof. intros Hc. split; intros (i & Hi & He); exists i; rewrite Hc in *; done || by rewrite <-Hc. Qed.
Lemma maps_entries c c' m : (∀ e, holds_entry c e ↔ holds_entry c' e) → maps c m → maps c' m.
Proof. intros He Hm x p. rewrite (Hm x p). by setoid_rewrite He. Qed.

Lemma maps_entry c m e : maps c m → holds_entry c e → m !! key e = Some (ptr_to_obj e).
Proof. intros Hm He. apply Hm. eauto. Qed.
Lemma maps_empty c : (∀ i, c i = None) → maps c ∅.
Proof. intros Hc x p. rewrite lookup_empty. split; [done|]. intros (e & (i & _ & Hi) & _). by rewrite Hc in Hi. Qed.
Lemma maps_unique c m m' : maps c m → maps c m' → m = m'.
Proof. intros H H'. apply map_eq. intros x. apply option_eq. intros p. by rewrite (H x p), (H' x p). Qed.

Lemma empty_slot c m : wf c → maps c m → Z.of_nat (size m) < n → ∃ q, 0 ≤ q < n ∧ c q = None.
Proof.
  intros Hwf Hm Hsz. destruct (decide (Forall (fun i => c i ≠ None) (seqZ 0 n))) as [Hall|Hex].
  - exfalso. set (g := fun i => match c i with Some e => key e | None => [] end).
    assert (∀ i, i ∈ seqZ 0 n → ∃ e, c i = Some e ∧ 0 ≤ i < n) as Hs.
    { intros i Hi. pose proof (proj1 (list.Forall_forall _ _) Hall i Hi) as Hc. apply elem_of_seqZ in Hi.
      destruct (c i) as [e|] eqn:E; [|done]. exists e. split; [done|lia]. }
    assert (NoDup (g <$> seqZ 0 n)) as Hnd.
    { apply NoDup_fmap_2_strong; [|apply NoDup_seqZ]. intros i j Hi Hj Hg. unfold g in Hg.
      destruct (Hs i Hi) as (e & He & ?), (Hs j Hj) as (e' & He' & ?). rewrite He, He' in Hg. by eapply wf_uniq. }
    assert (list_to_set (g <$> seqZ 0 n) ⊆ dom m) as Hsub.
    { intros x. rewrite elem_of_list_to_set, list_elem_of_fmap. intros (i & -> & Hi). destruct (Hs i Hi) as (e & He & ?).
      unfold g. rewrite He. apply elem_of_dom. exists (ptr_to_obj e). eapply maps_entry; [done|]. by exists i. }
    apply subseteq_size in Hsub. rewrite size_list_to_set, length_fmap, length_seqZ, size_dom in Hsub by done. lia.
  - apply not_Forall_Exists in Hex; [|apply _]. apply list.Exists_exists in Hex as (q & Hq & Hc).
    apply elem_of_seqZ in Hq. exists q. split; [lia|]. destruct (c q) eqn:E; [|done]. exfalso. apply Hc. congruence.
Qed.

(** The slots from [h] up to [s] are taken by other keys than [x]. *)
Definition passes (c : slots) (x : list Z) (h s : Z) : Prop :=
  ∀ j, 0 ≤ j < n → dist n h j < dist n h s → ∃ e, c j = Some e ∧ key e ≠ x.
Definition taken (c : slots) (h s : Z) : Prop := ∀ j, 0 ≤ j < n → dist n h j < dist n h s → c j ≠ None.

Lemma first_empty c h : 0 ≤ h < n → (∃ q, 0 ≤ q < n ∧ c q = None) → ∃ s, 0 ≤ s < n ∧ c s = None ∧ taken c h s.
Proof.
  intros Hh (q & Hq & Hc). remember (Z.to_nat (dist n h q)) as d eqn:Hd. revert q Hq Hc Hd.
  induction (lt_wf d) as [d _ IH]. intros q Hq Hc Hd.
  destruct (decide (Exists (fun j => dist n h j < dist n h q ∧ c j = None) (seqZ 0 n))) as [Hex|Hno].
  - apply list.Exists_exists in Hex as (j & Hj & Hlt & Hcj). apply elem_of_seqZ in Hj.
    apply (IH (Z.to_nat (dist n h j))) with j; [|lia|done|done]. subst d. dist_solve.
  - exists q. split_and!; [lia|lia|done|]. intros j Hj Hlt Hcj. apply Hno. apply list.Exists_exists. exists j.
    split; [|done]. apply elem_of_seqZ. lia.
Qed.

(** ** Insertion into the first free slot *)
Lemma insert_wf c m s e : wf c → maps c m → m !! key e = None → 0 ≤ s < n → c s = None → taken c (home e) s →
  key_ok (key e) → scrambled e = f (key e) → ptr_to_obj e ≠ 0 → wf (set_slot c s (Some e)).
Proof.
  intros Hwf Hm Hnone Hs Hcs Ht Hko Hf Hp.
  assert (∀ i e', 0 ≤ i < n → c i = Some e' → key e' ≠ key e) as Hfresh.
  { intros i e' Hi He' Heq. rewrite <-Heq, (maps_entry c m e') in Hnone; [done|done|by exists i]. }
  split.
  - intros i e' Hi [[-> [= <-]]|[_ He]]%set_slot_some; [done|]. by apply (wf_key Hwf i).
  - intros i e' j Hi He' Hj Hd. destruct (decide (j = s)) as [->|Hne]; [by rewrite set_slot_eq|]. rewrite set_slot_ne by done.
    apply set_slot_some in He' as [[-> [= <-]]|[_ He]]; [by apply Ht|]. by apply (wf_path Hwf i e').
  - intros i j e1 e2 Hi Hj [[-> [= <-]]|[Hni H1]]%set_slot_some [[-> [= <-]]|[Hnj H2]]%set_slot_some Heq; [done| | |].
    + by destruct (Hfresh j e2 Hj H2).
    + by destruct (Hfresh i e1 Hi H1).
    + by apply (wf_uniq Hwf i j e1 e2).
Qed.

Lemma insert_maps c m s e : maps c m → m !! key e = None → 0 ≤ s < n → c s = None →
  maps (set_slot c s (Some e)) (<[key e := ptr_to_obj e]> m).
Proof.
  intros Hm Hnone Hs Hcs x p. rewrite lookup_insert_Some. split.
  - intros [[<- <-]|[Hne Hx]]; [exists e; split; [exists s; by rewrite set_slot_eq|done]|].
    apply Hm in Hx as (e' & (i & Hi & He') & Hx). exists e'. split; [|done]. exists i. split; [lia|].
    rewrite set_slot_ne; [done|congruence].
  - intros (e' & (i & Hi & [[-> [= <-]]|[Hni He']]%set_slot_some) & <- & <-); [by left|]. right.
    assert (m !! key e' = Some (ptr_to_obj e')) as Hx by (apply (maps_entry c); [done|by exists i]).
    split; [congruence|done].
Qed.

(** ** Deletion
    [p] is the hole and [x] the last slot looked at: an entry behind [x] may
    still depend on the hole, and [q] is a free slot further on. *)
Record hole_wf (c : slots) (p x q : Z) : Prop := {
  hw_key : ∀ i e, 0 ≤ i < n → c i = Some e → key_ok (key e) ∧ scrambled e = f (key e) ∧ ptr_to_obj e ≠ 0;
  hw_path : ∀ i e j, 0 ≤ i < n → c i = Some e → 0 ≤ j < n → dist n (home e) j < dist n (home e) i →
    c j ≠ None ∨ (j = p ∧ dist n p x < dist n p i);
  hw_uniq : ∀ i j e e', 0 ≤ i < n → 0 ≤ j < n → c i = Some e → c j = Some e' → key e = key e' → i = j;
  hw_hole : c p = None;
  hw_ranges : 0 ≤ p < n ∧ 0 ≤ x < n ∧ 0 ≤ q < n;
  hw_free : c q = None;
  hw_order : dist n p x < dist n p q
}.

Arguments hw_key {_ _ _ _} _. Arguments hw_path {_ _ _ _} _. Arguments hw_uniq {_ _ _ _} _. Arguments hw_hole {_ _ _ _} _. Arguments hw_ranges {_ _ _ _} _. Arguments hw_free {_ _ _ _} _. Arguments hw_order {_ _ _ _} _.

Lemma hole_start c p q e : wf c → 0 ≤ p < n → 0 ≤ q < n → c p = Some e → c q = None → hole_wf (set_slot c p None) p p q.
Proof.
  intros Hwf Hp Hq He Hcq. assert (p ≠ q) as Hpq by congruence. split.
  - intros i e' Hi [[_ [=]]|[_ He']]%set_slot_some. by apply (wf_key Hwf i).
  - intros i e' j Hi [[_ [=]]|[Hip He']]%set_slot_some Hj Hd. destruct (decide (j = p)) as [->|Hne].
    + right. split; [done|]. dist_solve.
    + left. rewrite set_slot_ne by done. by apply (wf_path Hwf i e').
  - intros i j e1 e2 Hi Hj [[_ [=]]|[_ H1]]%set_slot_some [[_ [=]]|[_ H2]]%set_slot_some. by apply (wf_uniq Hwf).
  - apply set_slot_eq.
  - lia.
  - by rewrite set_slot_ne by done.
  - dist_solve.
Qed.

Definition succ (x : Z) : Z := if x + 1 =? n then 0 else x + 1.
Lemma succ_range x : 0 ≤ x < n → 0 ≤ succ x < n.
Proof. unfold succ. destruct (Z.eqb_spec (x + 1) n); lia. Qed.
Lemma dist_succ p x : 0 ≤ p < n → 0 ≤ x < n → succ x ≠ p → dist n p (succ x) = dist n p x + 1.
Proof. unfold succ. destruct (Z.eqb_spec (x + 1) n); dist_solve. Qed.
Lemma succ_not_hole c p x q : hole_wf c p x q → succ x ≠ p.
Proof.
  intros H. destruct (hw_ranges H) as (? & ? & ?). pose proof (hw_order H).
  unfold succ. destruct (Z.eqb_spec (x + 1) n); dist_solve.
Qed.

Lemma move_entries c p s e e' : p ≠ s → 0 ≤ p < n → 0 ≤ s < n → c p = None → c s = Some e →
  holds_entry (set_slot (set_slot c p (Some e)) s None) e' ↔ holds_entry c e'.
Proof.
  intros Hps Hp Hs Hcp Hcs. split.
  - intros (i & Hi & [[_ [=]]|[? [[-> [= <-]]|[? ?]]%set_slot_some]]%set_slot_some); [by exists s|by exists i].
  - intros (i & Hi & He). destruct (decide (i = s)) as [->|His].
    + exists p. split; [done|]. rewrite set_slot_ne, set_slot_eq by done. congruence.
    + exists i. split; [done|]. rewrite !set_slot_ne by congruence. done.
Qed.

Lemma aget_cell a i : 0 ≤ i < n → Z.of_nat (length a) = n → ∃ e, aget a (Z.to_nat i) = Ok e ∧
  cell a i = (if hash_is_entry_OCCUPIED e then Some e else None).
Proof.
  intros Hi Hl. destruct (lookup_lt_is_Some_2 a (Z.to_nat i)) as [e He]; [lia|]. exists e.
  split; [by apply aget_ok|]. unfold cell. by rewrite He.
Qed.

End slots.
Arguments wf_key {_ _ _ _} _. Arguments wf_path {_ _ _ _} _. Arguments wf_uniq {_ _ _ _} _.
Arguments hw_key {_ _ _ _ _ _ _} _. Arguments hw_path {_ _ _ _ _ _ _} _. Arguments hw_uniq {_ _ _ _ _ _ _} _. Arguments hw_hole {_ _ _ _ _ _ _} _. Arguments hw_ranges {_ _ _ _ _ _ _} _. Arguments hw_free {_ _ _ _ _ _ _} _. Arguments hw_order {_ _ _ _ _ _ _} _.

(** ** Tables of a power of two of slots *)
Section sized.
Context (k n : Z) (Hk : 0 ≤ k ≤ 31) (Hn : n = 2 ^ k).
#[local] Abbreviation home := (home n).
#[local] Abbreviation holds_entry := (holds_entry n).
#[local] Abbreviation maps := (maps n).
#[local] Abbreviation taken := (taken n).
#[local] Abbreviation passes := (passes n).
#[local] Abbreviation succ := (succ n).

Lemma n_pos : 0 < n ≤ 2 ^ 31.
Proof. subst n. split; [lia|]. apply Z.pow_le_mono_r; lia. Qed.

Lemma mask_u32 : u32 (n - 1) = n - 1.
Proof. pose proof n_pos. apply wrap_small. lia. Qed.

Lemma gap_dist a b : 0 ≤ a < n → 0 ≤ b < n → Z.land (b - a) (n - 1) = dist n a b.
Proof.
  intros Ha Hb. rewrite Hn, land_mask, <-Hn by lia. unfold dist. destruct (Z.leb_spec a b).
  - apply Z.mod_small. lia.
  - rewrite <-(Z.mod_add _ 1), Z.mul_1_l by lia. apply Z.mod_small. lia.
Qed.

Lemma next_idx i : 0 ≤ i < n →
  hash_next_idx_on_collision i (n - 1) = (if i + 1 =? n then 0 else i + 1).
Proof.
  intros Hi. unfold hash_next_idx_on_collision. rewrite mask_u32, Hn, land_mask, <-Hn by lia.
  destruct (Z.eqb_spec (i + 1) n) as [->|]; [apply Z.mod_same; lia|apply Z.mod_small; lia].
Qed.

Lemma home_range e : 0 ≤ home e < n.
Proof. pose proof n_pos. apply Z.mod_pos_bound. lia. Qed.

Lemma home_idx x : hash_scrambled_to_idx x (n - 1) = x mod n.
Proof. unfold hash_scrambled_to_idx. rewrite mask_u32, Hn. apply land_mask. lia. Qed.

Context (key_ok : list Z → Prop) (f : list Z → Z).
#[local] Abbreviation wf := (wf n key_ok f).
#[local] Abbreviation hole_wf := (hole_wf n key_ok f).

(** ** Free slots *)
(** A slot at which a search for [x] may stop. *)
Lemma lookup_stop c m x : wf c → maps c m → Z.of_nat (size m) < n → 
  ∃ s, 0 ≤ s < n ∧ passes c x (f x mod n) s ∧
    match c s with None => m !! x = None | Some e => key e = x ∧ m !! x = Some (ptr_to_obj e) end.
Proof.
  intros Hwf Hm Hsz. pose proof n_pos. destruct (m !! x) as [p|] eqn:Hx.
  - pose proof Hx as Hx'. apply Hm in Hx' as (e & (i & Hi & He) & <- & <-). exists i. split; [lia|].
    rewrite He. split; [|done]. intros j Hj Hd. destruct (wf_key Hwf i e Hi He) as (_ & Hs & _). rewrite <-Hs in Hd.
    destruct (c j) as [e'|] eqn:Hj'.
    + exists e'. split; [done|]. intros Heq. pose proof (wf_uniq Hwf j i e' e Hj Hi Hj' He Heq). subst. lia.
    + by destruct (wf_path Hwf i e j Hi He Hj Hd).
  - destruct (first_empty n c (f x mod n)) as (s & Hs & Hc & Ht); [apply Z.mod_pos_bound; lia|by eapply (empty_slot n)|].
    exists s. split; [done|]. rewrite Hc. split; [|done]. intros j Hj Hd. specialize (Ht j Hj Hd).
    destruct (c j) as [e|] eqn:Hj'; [|done]. exists e. split; [done|]. intros <-.
    rewrite (maps_entry n c m e) in Hx; [done|done|by exists j].
Qed.

(** The chain ends: no entry depends on the hole any more. *)
Lemma hole_done c p x q : hole_wf c p x q → c (succ x) = None → wf c.
Proof.
  intros H Hend. destruct (hw_ranges H) as (Hp & Hx & Hq). pose proof (succ_not_hole _ _ _ _ _ _ _ H) as Hnp.
  pose proof (succ_range n x Hx) as Hsx. split; [apply H| |apply H].
  intros i e j Hi He Hj Hd. destruct (hw_path H i e j Hi He Hj Hd) as [|[-> Hlt]]; [done|]. exfalso.
  pose proof (dist_succ n p x Hp Hx Hnp). assert (succ x ≠ i) by congruence.
  destruct (hw_path H i e (succ x) Hi He Hsx) as [|[? _]]; [|done|done].
  assert (0 ≤ home e < n) by apply home_range. dist_solve.
Qed.

Lemma hole_skip c p x q e : hole_wf c p x q → c (succ x) = Some e →
  0 < dist n p (home e) ≤ dist n p (succ x) → hole_wf c p (succ x) q.
Proof.
  intros H He Hgap. destruct (hw_ranges H) as (Hp & Hx & Hq). pose proof (succ_not_hole _ _ _ _ _ _ _ H) as Hnp.
  pose proof (succ_range n x Hx) as Hsx. pose proof (dist_succ n p x Hp Hx Hnp) as Hds. pose proof (hw_order H) as Ho.
  pose proof (hw_free H) as Hfree. assert (succ x ≠ q) as Hsq by congruence.
  assert (0 ≤ home e < n) by apply home_range. split; try apply H.
  - intros i e' j Hi He' Hj Hd. destruct (hw_path H i e' j Hi He' Hj Hd) as [|[-> Hlt]]; [by left|].
    destruct (decide (i = succ x)) as [->|Hne].
    + rewrite He in He'. injection He' as <-. exfalso. dist_solve.
    + right. split; [done|]. dist_solve.
  - auto.
  - dist_solve.
Qed.

Lemma hole_move c p x q e : hole_wf c p x q → c (succ x) = Some e →
  ¬ (0 < dist n p (home e) ≤ dist n p (succ x)) →
  hole_wf (set_slot (set_slot c p (Some e)) (succ x) None) (succ x) (succ x) q.
Proof.
  intros H He Hgap. destruct (hw_ranges H) as (Hp & Hx & Hq). pose proof (succ_not_hole _ _ _ _ _ _ _ H) as Hnp.
  pose proof (succ_range n x Hx) as Hsx. pose proof (hw_free H) as Hfree. pose proof (hw_hole H) as Hhole.
  assert (succ x ≠ q) as Hsq by congruence. assert (p ≠ q) as Hpq by (pose proof (hw_order H); dist_solve).
  assert (0 ≤ home e < n) as Hhome by apply home_range.
  assert (∀ i e', set_slot (set_slot c p (Some e)) (succ x) None i = Some e' →
    i ≠ succ x ∧ ((i = p ∧ e' = e) ∨ (i ≠ p ∧ c i = Some e'))) as Hinv.
  { intros i e' [[_ [=]]|[? [[? [=]]|[? ?]]%set_slot_some]]%set_slot_some; auto. }
  split.
  - intros i e' Hi [_ [[-> ->]|[_ ?]]]%Hinv; [by apply (hw_key H (succ x))|by apply (hw_key H i)].
  - intros i e' j Hi [Hns Hcase]%Hinv Hj Hd. destruct (decide (j = succ x)) as [->|Hjs]; [right; split; [done|dist_solve]|].
    left. rewrite set_slot_ne by done. destruct (decide (j = p)) as [->|Hjp]; [by rewrite set_slot_eq|]. rewrite set_slot_ne by done.
    destruct Hcase as [[-> ->]|[Hip Hi']].
    + destruct (hw_path H (succ x) e j Hsx He Hj) as [|[? _]]; [|done|done]. dist_solve.
    + destruct (hw_path H i e' j Hi Hi' Hj Hd) as [|[? _]]; done.
  - intros i j e1 e2 Hi Hj [Hni C1]%Hinv [Hnj C2]%Hinv Heq.
    destruct C1 as [[-> ->]|[? H1]], C2 as [[-> ->]|[? H2]]; [done| | |by apply (hw_uniq H i j e1 e2)].
    + by destruct Hnj; apply (hw_uniq H j (succ x) e2 e).
    + by destruct Hni; apply (hw_uniq H i (succ x) e1 e).
  - apply set_slot_eq.
  - lia.
  - by rewrite !set_slot_ne by done.
  - dist_solve.
Qed.

(** Pushing back ends, with every entry kept and the chain intact. *)
Lemma push_back_ok fuel a p x q c : hole_wf c p x q → Z.of_nat (length a) = n →
  (∀ i, 0 ≤ i < n → i ≠ p → cell a i = c i) → dist n x q ≤ Z.of_nat fuel → 
  ∃ a' p' c', push_back fuel (n - 1) a p x = Ok (a', p') ∧ Z.of_nat (length a') = n ∧ 0 ≤ p' < n ∧ c' p' = None ∧
    (∀ i, 0 ≤ i < n → i ≠ p' → cell a' i = c' i) ∧ wf c' ∧ (∀ e, holds_entry c' e ↔ holds_entry c e).
Proof.
  revert a p x c. induction fuel as [|fuel IH]; intros a p x c H Hl Hca Hf.
  { exfalso. destruct (hw_ranges H) as (? & ? & ?). pose proof (hw_order H). dist_solve. }
  destruct (hw_ranges H) as (Hp & Hx & Hq). pose proof (succ_not_hole _ _ _ _ _ _ _ H) as Hnp.
  pose proof (succ_range n x Hx) as Hsx. pose proof (hw_order H) as Ho.
  assert (x ≠ q) as Hxq by dist_solve.
  assert (dist n (succ x) q ≤ Z.of_nat fuel) as Hf' by (unfold succ in *; destruct (Z.eqb_spec (x + 1) n); dist_solve).
  cbn [push_back]. rewrite next_idx by done. fold (succ x).
  destruct (aget_cell n a (succ x) Hsx Hl) as (e & -> & Hce). rstep. rewrite Hca in Hce by done.
  destruct (hash_is_entry_OCCUPIED e) eqn:Hocc; cbn [negb].
  2:{ exists a, p, c. split_and!; try done; try lia; [apply H|by apply (hole_done c p x q)]. }
  assert (Z.land (scrambled e) (n - 1) = home e) as Eh by (unfold home; rewrite Hn; apply land_mask; lia).
  rewrite Eh, !gap_dist by (done || apply home_range).
  destruct ((0 <? dist n p (home e)) && (dist n p (home e) <=? dist n p (succ x))) eqn:Eg.
  - apply IH; [|done|done|done]. apply (hole_skip c p x q e); [done|done|lia].
  - rewrite aset_ok by lia. rstep.
    destruct (IH (<[Z.to_nat p := e]> a) (succ x) (succ x) (set_slot (set_slot c p (Some e)) (succ x) None))
      as (a' & p' & c' & H1 & H2 & H3 & H4 & H5 & H6 & H7).
    + apply hole_move; [done|done|lia].
    + by rewrite length_insert.
    + intros i Hi Hne. rewrite cell_insert, Hocc by lia. rewrite (set_slot_ne _ (succ x)) by done. unfold set_slot.
      destruct (Z.eq_dec i p); [done|]. by apply Hca.
    + done.
    + exists a', p', c'. split_and!; try done; try lia. intros e'. rewrite H7. apply move_entries; try done. apply H.
Qed.
End sized.
