(* ===== verification/HashRefine.v ===== *)
(** * The hash table is a finite map

    [represents t m] ties a table to the finite map from keys to objects it
    stands for.  Every operation of [HashTable] is shown to end, to touch no slot
    outside the array and to act on the map as its name says; any sequence of
    operations on a new table therefore behaves like a map. *)
From stdpp Require Import base list gmap numbers.
From Stdlib Require Import ZArith Lia.
From S2P Require Import Prelude CMemory HashTable HashInv.
Local Open Scope Z_scope.

(** ** Keys *)
Definition key_ok (kl : Z) (x : list Z) : Prop := kl = -1 ∨ length x = 16%nat.
Definition scramble_of (kl : Z) (x : list Z) : Z :=
  murmur3_32 (if kl =? 4 then take 4 x else if kl =? 8 then take 8 x else x) 0.

Lemma bytes_cmp_eq n a b : length a = n → length b = n → bytes_cmp n a b = 0 ↔ a = b.
Proof.
  revert a b. induction n as [|n IH]; intros [|x a] [|y b]; simpl; try done. intros [= Ha] [= Hb].
  destruct (Z.eqb_spec x y) as [->|Hne]; [rewrite IH by done; naive_solver|]. split; [lia|naive_solver].
Qed.
Lemma same_key_iff kl x y : key_ok kl x → key_ok kl y → hash_is_same_key_OCCUPIED x y kl = bool_decide (x = y).
Proof.
  intros Hx Hy. apply eq_bool_prop_intro. rewrite bool_decide_spec. unfold hash_is_same_key_OCCUPIED.
  destruct (Z.eqb_spec kl (-1)) as [->|Hne].
  - destruct (Nat.eqb_spec (length x) (length y)) as [Hl|Hl]; cbn [andb].
    + by rewrite <-(bytes_cmp_eq (length x) x y), Is_true_true, Z.eqb_eq.
    + split; [done|by intros ->].
  - destruct Hx, Hy; try done. by rewrite <-(bytes_cmp_eq 16 x y), Is_true_true, Z.eqb_eq.
Qed.

(** ** The representation *)
Abbreviation tcell t := (cell (arr t)).
Abbreviation twf t := (wf (n_arr_entries t) (key_ok (key_len t)) (scramble_of (key_len t)) (cell (arr t))).

Record table_ok (t : nvmeib_hash_table) (m : gmap (list Z) Z) : Prop := {
  to_log : 5 ≤ log2_of_n_arr_entries t ≤ 25;
  to_n : n_arr_entries t = 2 ^ log2_of_n_arr_entries t;
  to_mask : scrambled_to_idx_mask t = n_arr_entries t - 1;
  to_len : Z.of_nat (length (arr t)) = n_arr_entries t;
  to_wf : twf t;
  to_maps : maps (n_arr_entries t) (tcell t) m;
  to_occ : n_occupied t = Z.of_nat (size m)
}.
Arguments to_log {_ _} _. Arguments to_n {_ _} _. Arguments to_mask {_ _} _. Arguments to_len {_ _} _.
Arguments to_wf {_ _} _. Arguments to_maps {_ _} _. Arguments to_occ {_ _} _.

Lemma to_range t m : table_ok t m → 32 ≤ n_arr_entries t ≤ 2 ^ 25.
Proof.
  intros H. rewrite (to_n H). pose proof (to_log H). split.
  - apply (Z.pow_le_mono_r 2 5); lia.
  - apply Z.pow_le_mono_r; lia.
Qed.
Lemma to_k t m : table_ok t m → 0 ≤ log2_of_n_arr_entries t ≤ 31.
Proof. intros H. pose proof (to_log H). lia. Qed.

Lemma entry_at_cell t m i : table_ok t m → 0 ≤ i < n_arr_entries t → ∃ e, entry_at t i = Ok e ∧
  tcell t i = (if hash_is_entry_OCCUPIED e then Some e else None).
Proof. intros H Hi. by apply (aget_cell (n_arr_entries t) (arr t) i Hi (to_len H)). Qed.

Lemma next_slot t m i : table_ok t m → 0 ≤ i < n_arr_entries t →
  hash_next_idx_on_collision i (scrambled_to_idx_mask t) = succ (n_arr_entries t) i.
Proof. intros H Hi. rewrite (to_mask H). apply (next_idx _ _ (to_k _ _ H) (to_n H)). done. Qed.

(** ** Walking along a chain *)
Lemma passes_next n c x idx s : 0 ≤ idx < n → 0 ≤ s < n → idx ≠ s → passes n c x idx s →
  (∃ e, c idx = Some e ∧ key e ≠ x) ∧ passes n c x (succ n idx) s ∧ dist n (succ n idx) s = dist n idx s - 1.
Proof.
  intros Hi Hs Hne Hp. split; [apply Hp; [done|dist_solve]|].
  assert (dist n (succ n idx) s = dist n idx s - 1) as Hd by (unfold succ; destruct (Z.eqb_spec (idx + 1) n); dist_solve).
  split; [|done]. intros j Hj Hlt. apply Hp; [done|]. revert Hlt. unfold succ. destruct (Z.eqb_spec (idx + 1) n); dist_solve.
Qed.

Section walk.
Context (t : nvmeib_hash_table) (m : gmap (list Z) Z) (H : table_ok t m).

Lemma other_key i e x : 0 ≤ i < n_arr_entries t → tcell t i = Some e → key_ok (key_len t) x →
  hash_is_same_key_OCCUPIED (key e) x (key_len t) = bool_decide (key e = x).
Proof using H. intros Hi He Hx. apply same_key_iff; [|done]. by apply (wf_key (to_wf H) i e). Qed.

Lemma find_probe_run x s more idx : 0 ≤ idx < n_arr_entries t → 0 ≤ s < n_arr_entries t → key_ok (key_len t) x →
  passes (n_arr_entries t) (tcell t) x idx s → (∀ e, tcell t s = Some e → key e = x) →
  dist (n_arr_entries t) idx s ≤ Z.of_nat more →
  find_probe t x more idx = Ok ((fun e => (s, e)) <$> tcell t s).
Proof using H.
  revert idx. induction more as [|more IH]; intros idx Hi Hs Hx Hp Hstop Hd.
  all: destruct (entry_at_cell t m idx H Hi) as (e & He & Hc); cbn [find_probe]; rewrite He; rstep.
  all: destruct (decide (idx = s)) as [->|Hne]; [clear Hd|].
  1,3: rewrite Hc; destruct (hash_is_entry_OCCUPIED e); [|done].
  1,2: by rewrite (other_key s), bool_decide_true by auto.
  - exfalso. dist_solve.
  - destruct (passes_next _ _ _ _ _ Hi Hs Hne Hp) as ((e' & He' & Hk) & Hp' & Hd').
    rewrite He' in Hc. destruct (hash_is_entry_OCCUPIED e); [|done]. injection Hc as ->.
    rewrite (other_key idx), bool_decide_false by done. rewrite (next_slot _ _ _ H Hi).
    apply IH; [by apply succ_range|done|done|done|done|lia].
Qed.

Lemma add_probe_run x s more idx : 0 ≤ idx < n_arr_entries t → 0 ≤ s < n_arr_entries t → key_ok (key_len t) x →
  passes (n_arr_entries t) (tcell t) x idx s → (∀ e, tcell t s = Some e → key e = x) →
  dist (n_arr_entries t) idx s < Z.of_nat more →
  add_probe t x more idx = Ok (match tcell t s with Some e => FOUND (ptr_to_obj e) | None => FREE s end).
Proof using H.
  revert idx. induction more as [|more IH]; intros idx Hi Hs Hx Hp Hstop Hd; [exfalso; dist_solve|].
  destruct (entry_at_cell t m idx H Hi) as (e & He & Hc). cbn [add_probe]. rewrite He. rstep.
  destruct (decide (idx = s)) as [->|Hne].
  - rewrite Hc. destruct (hash_is_entry_OCCUPIED e); [|done]. by rewrite (other_key s), bool_decide_true by auto.
  - destruct (passes_next _ _ _ _ _ Hi Hs Hne Hp) as ((e' & He' & Hk) & Hp' & Hd').
    rewrite He' in Hc. destruct (hash_is_entry_OCCUPIED e); [|done]. injection Hc as ->.
    rewrite (other_key idx), bool_decide_false by done. rewrite (next_slot _ _ _ H Hi).
    apply IH; [by apply succ_range|done|done|done|done|lia].
Qed.

Lemma readd_probe_run s more idx : 0 ≤ idx < n_arr_entries t → 0 ≤ s < n_arr_entries t →
  taken (n_arr_entries t) (tcell t) idx s → tcell t s = None → dist (n_arr_entries t) idx s ≤ Z.of_nat more →
  readd_probe t more idx = Ok s.
Proof using H.
  revert idx. induction more as [|more IH]; intros idx Hi Hs Ht Hfree Hd.
  all: destruct (entry_at_cell t m idx H Hi) as (e & He & Hc); cbn [readd_probe]; rewrite He; rstep.
  all: destruct (decide (idx = s)) as [->|Hne]; [rewrite Hfree in Hc; by destruct (hash_is_entry_OCCUPIED e)|].
  - exfalso. dist_solve.
  - assert (tcell t idx ≠ None) as Hn by (apply Ht; [done|dist_solve]).
    destruct (hash_is_entry_OCCUPIED e); [|done]. rewrite (next_slot _ _ _ H Hi).
    apply IH; [by apply succ_range|done| |done|].
    + intros j Hj Hlt. apply Ht; [done|]. revert Hlt. unfold succ. destruct (Z.eqb_spec (idx + 1) (n_arr_entries t)); dist_solve.
    + unfold succ. destruct (Z.eqb_spec (idx + 1) (n_arr_entries t)); dist_solve.
Qed.

Lemma insert_table s e : m !! key e = None → 0 ≤ s < n_arr_entries t → tcell t s = None →
  taken (n_arr_entries t) (tcell t) (home (n_arr_entries t) e) s → key_ok (key_len t) (key e) →
  scrambled e = scramble_of (key_len t) (key e) → ptr_to_obj e ≠ 0 →
  table_ok (with_arr t (<[Z.to_nat s := e]> (arr t)) (n_occupied t + 1)) (<[key e := ptr_to_obj e]> m).
Proof using H.
  intros Hm Hs Hfree Ht Hk Hf Hp. pose proof (to_len H) as Hlen.
  assert (∀ i, 0 ≤ i < n_arr_entries t → set_slot (tcell t) s (Some e) i = cell (<[Z.to_nat s := e]> (arr t)) i) as Hext.
  { intros i Hi. rewrite cell_insert by lia. unfold hash_is_entry_OCCUPIED. by rewrite (proj2 (Z.eqb_neq _ _)) by done. }
  split; cbn [with_arr log2_of_n_arr_entries n_arr_entries scrambled_to_idx_mask arr key_len n_occupied].
  - apply (to_log H).
  - apply (to_n H).
  - apply (to_mask H).
  - by rewrite length_insert.
  - apply (wf_ext _ _ _ _ _ Hext). by apply (insert_wf _ _ _ _ m); try done; apply H.
  - apply (maps_entries _ (set_slot (tcell t) s (Some e))); [intros; by apply holds_entry_ext|]. by apply insert_maps; try done; apply H.
  - rewrite (to_occ H), map_size_insert_None by done. lia.
Qed.
End walk.

(** ** Search and deletion *)
Definition same_config (t t' : nvmeib_hash_table) : Prop :=
  key_len t' = key_len t ∧ is_used_outside_main_thread t' = is_used_outside_main_thread t ∧
  initial_log2_of_n_arr_entries t' = initial_log2_of_n_arr_entries t.

Lemma home_slot t m x : table_ok t m → hash_scrambled_to_idx x (scrambled_to_idx_mask t) = x mod n_arr_entries t.
Proof. intros H. rewrite (to_mask H). apply (home_idx _ _ (to_k _ _ H) (to_n H)). Qed.

(** The slot at which a walk for [x] ends. *)
Lemma walk_end t m x : table_ok t m → Z.of_nat (size m) < n_arr_entries t → key_ok (key_len t) x →
  ∃ s, 0 ≤ s < n_arr_entries t ∧ 
    passes (n_arr_entries t) (tcell t) x (scramble_of (key_len t) x mod n_arr_entries t) s ∧
    (∀ e, tcell t s = Some e → key e = x) ∧ (ptr_to_obj <$> tcell t s) = m !! x ∧
    dist (n_arr_entries t) (scramble_of (key_len t) x mod n_arr_entries t) s < n_arr_entries t.
Proof.
  intros H Hsz Hx. destruct (lookup_stop _ _ (to_k _ _ H) (to_n H) _ _ _ _ x (to_wf H) (to_maps H) Hsz) as (s & Hs & Hp & Hc).
  pose proof (to_range _ _ H). exists s. split; [done|]. split; [done|].
  pose proof (Z.mod_pos_bound (scramble_of (key_len t) x) (n_arr_entries t) ltac:(lia)).
  destruct (tcell t s) as [e|].
  - destruct Hc as [<- ->]. split_and!; [by intros ? [= <-]|done|dist_solve].
  - split_and!; [done|done|dist_solve].
Qed.

Lemma find_probe_ok t m x : table_ok t m → Z.of_nat (size m) < n_arr_entries t → key_ok (key_len t) x →
  ∃ r, find_probe t x (Z.to_nat (n_arr_entries t))
         (hash_scrambled_to_idx (scramble_of (key_len t) x) (scrambled_to_idx_mask t)) = Ok r ∧
    match r with
    | Some (s, e) => 0 ≤ s < n_arr_entries t ∧ tcell t s = Some e ∧ key e = x ∧ m !! x = Some (ptr_to_obj e)
    | None => m !! x = None
    end.
Proof.
  intros H Hsz Hx. destruct (walk_end t m x H Hsz Hx) as (s & Hs & Hp & Hk & Hm & Hd). pose proof (to_range _ _ H).
  eexists. split.
  - rewrite (home_slot _ _ _ H). apply (find_probe_run t m H x s); try done; [apply Z.mod_pos_bound; lia|lia].
  - destruct (tcell t s) as [e|] eqn:Hc; cbn; [|done]. split_and!; [lia|lia|done|by apply Hk|done].
Qed.

Lemma search_ok t m x : table_ok t m → Z.of_nat (size m) < n_arr_entries t → key_ok (key_len t) x →
  hash_search t x (scramble_of (key_len t) x) (key_len t) = Ok (default 0 (m !! x)).
Proof.
  intros H Hsz Hx. unfold hash_search. rewrite Z.eqb_refl. cbn [negb].
  destruct (find_probe_ok t m x H Hsz Hx) as (r & -> & Hr). rstep. destruct r as [[s e]|].
  - by destruct Hr as (_ & _ & _ & ->).
  - by rewrite Hr.
Qed.

(** Removing the entry of [x] from the slots removes [x] from the map. *)
Lemma remove_maps n key_ok f c m s e : maps n c m → wf n key_ok f c → 0 ≤ s < n → c s = Some e →
  maps n (set_slot c s None) (delete (key e) m).
Proof.
  intros Hm Hwf Hs Hc x p. rewrite lookup_delete_Some. split.
  - intros [Hne Hx]. apply Hm in Hx as (e' & (i & Hi & He') & Hx). exists e'. split; [|done]. exists i. split; [done|].
    rewrite set_slot_ne; [done|]. intros ->. destruct Hx as [<- _]. congruence.
  - intros (e' & (i & Hi & [[_ [=]]|[Hne He']]%set_slot_some) & <- & <-). split.
    + intros Heq. by apply Hne, (wf_uniq Hwf i s e' e).
    + apply (maps_entry n c); [done|by exists i].
Qed.

Lemma delete_ok t m x : table_ok t m → Z.of_nat (size m) < n_arr_entries t → key_ok (key_len t) x →
  ∃ t', hash_delete_key t x (scramble_of (key_len t) x) (key_len t) = Ok (t', default 0 (m !! x)) ∧
    table_ok t' (delete x m) ∧ same_config t t' ∧ n_arr_entries t' = n_arr_entries t.
Proof.
  intros H Hsz Hx. unfold hash_delete_key. rewrite Z.eqb_refl. cbn [negb].
  destruct (find_probe_ok t m x H Hsz Hx) as (r & -> & Hr). rstep. destruct r as [[s e]|].
  2:{ exists t. rewrite Hr, delete_id by done. by split_and!. }
  destruct Hr as (Hs & Hc & <- & Hm). rewrite Hm. pose proof (to_range _ _ H) as Hrng. pose proof (to_len H) as Hlen.
  destruct (empty_slot _ _ _ _ _ (to_wf H) (to_maps H) Hsz) as (q & Hq & Hfree).
  pose proof (hole_start _ _ _ _ _ _ _ (to_wf H) Hs Hq Hc Hfree) as Hw.
  destruct (push_back_ok _ _ (to_k _ _ H) (to_n H) _ _ (Z.to_nat (n_arr_entries t)) (arr t) s s q _ Hw Hlen)
    as (a' & p' & c' & H1 & H2 & H3 & H4 & H5 & H6 & H7).
  { intros i Hi Hne. by rewrite set_slot_ne. } { dist_solve. }
  rewrite (to_mask H), H1. rstep. destruct (aget_cell _ a' p' H3 H2) as (h & -> & _). rstep.
  rewrite aset_ok by lia. rstep. eexists. split; [done|]. split; [|by split_and!].
  assert (∀ i, 0 ≤ i < n_arr_entries t → c' i = cell (<[Z.to_nat p' := mark_empty h]> a') i) as Hext.
  { intros i Hi. rewrite cell_insert by lia. unfold set_slot. destruct (Z.eq_dec i p') as [->|Hne]; [done|]. by rewrite H5. }
  split; cbn [with_arr log2_of_n_arr_entries n_arr_entries scrambled_to_idx_mask arr key_len n_occupied]; try apply H.
  - by rewrite length_insert.
  - by apply (wf_ext _ _ _ c').
  - apply (maps_entries _ (set_slot (tcell t) s None)); [|by eapply remove_maps; try done; apply H].
    intros e'. by rewrite <-H7, (holds_entry_ext _ _ _ _ Hext).
  - rewrite (to_occ H), map_size_delete_Some by eauto.
    assert (size m ≠ 0%nat) by (intros Hz; apply map_size_empty_inv in Hz; subst m; by rewrite lookup_empty in Hm). lia.
Qed.

(** ** Growing and shrinking *)
Lemma cell_replicate k i : cell (replicate k (HashEntry (replicate 16 0) 0 0)) i = None.
Proof.
  unfold cell. destruct (replicate k _ !! Z.to_nat i) as [e|] eqn:He; [|done].
  apply lookup_replicate in He as [-> _]. done.
Qed.

Lemma init_arr_ok t l : 5 ≤ l ≤ 25 → table_ok (hash_init_arr t l) ∅.
Proof.
  intros Hl. unfold hash_init_arr, HASH_MIN_LOG2_OF_N_ARR_ENTRIES. rewrite Z.max_l, Z.shiftl_1_l by lia.
  pose proof (Z.pow_pos_nonneg 2 l ltac:(lia) ltac:(lia)).
  split; cbn [log2_of_n_arr_entries n_arr_entries scrambled_to_idx_mask arr key_len n_occupied]; try done.
  - rewrite length_replicate. lia.
  - split; intros i e; [|intros j|intros e1 e2 _ _]; [intros _|intros _|]; by rewrite cell_replicate.
  - apply maps_empty. intros i. apply cell_replicate.
Qed.

Lemma readd_ok t m e : table_ok t m → Z.of_nat (size m) < n_arr_entries t → hash_is_entry_OCCUPIED e = true →
  m !! key e = None → key_ok (key_len t) (key e) → scrambled e = scramble_of (key_len t) (key e) → ptr_to_obj e ≠ 0 →
  ∃ t', readd e t = Ok t' ∧ table_ok t' (<[key e := ptr_to_obj e]> m) ∧ same_config t t' ∧
    n_arr_entries t' = n_arr_entries t.
Proof.
  intros H Hsz Ho Hm Hk Hf Hp. unfold readd. rewrite Ho, (home_slot _ _ _ H). pose proof (to_range _ _ H) as Hr.
  pose proof (Z.mod_pos_bound (scrambled e) (n_arr_entries t) ltac:(lia)) as Hh.
  destruct (first_empty (n_arr_entries t) (tcell t) _ Hh) as (s & Hs & Hfree & Ht).
  { eapply empty_slot; [apply H|apply H|done]. }
  rewrite (readd_probe_run t m H s); try done; [|dist_solve]. rstep.
  pose proof (to_len H). rewrite aset_ok by lia. rstep. eexists. split; [done|]. split; [|by split_and!].
  by apply insert_table.
Qed.

(** The map of the first [i] slots. *)
Lemma maps_skip i c m : 0 ≤ i → maps i c m → c i = None → maps (i + 1) c m.
Proof.
  intros Hi Hm Hc x p. rewrite (Hm x p). split; intros (e & (j & Hj & He) & Hx); exists e; (split; [|done]); exists j.
  - split; [lia|done].
  - split; [|done]. destruct (decide (j = i)) as [->|]; [congruence|lia].
Qed.
Lemma maps_push i c m e : 0 ≤ i → maps i c m → c i = Some e → m !! key e = None →
  maps (i + 1) c (<[key e := ptr_to_obj e]> m).
Proof.
  intros Hi Hm Hc Hk. apply (maps_entries (i + 1) (set_slot (set_slot c i None) i (Some e))).
  { intros e'. apply holds_entry_ext. intros j Hj. unfold set_slot. by destruct (Z.eq_dec j i) as [->|]. }
  apply insert_maps; [|done|lia|by rewrite set_slot_eq]. apply maps_skip; [lia| |by rewrite set_slot_eq].
  apply (maps_entries i c); [|done]. intros e'. apply holds_entry_ext. intros j Hj. by rewrite set_slot_ne by lia.
Qed.
Lemma maps_fresh n ko f c m i e : wf n ko f c → 0 ≤ i < n → maps i c m → c i = Some e → m !! key e = None.
Proof.
  intros Hwf Hi Hm Hc. destruct (m !! key e) as [p|] eqn:Hx; [|done]. apply Hm in Hx as (e' & (j & Hj & He') & Hk & _).
  pose proof (wf_uniq Hwf j i e' e ltac:(lia) ltac:(lia) He' Hc Hk). lia.
Qed.

Lemma maps_prefix n c m m' i : i ≤ n → maps n c m → maps i c m' → m' ⊆ m.
Proof.
  intros Hi Hm Hm'. apply map_subseteq_spec. intros x p Hx. apply Hm' in Hx as (e & (j & Hj & He) & Hx).
  apply Hm. exists e. split; [|done]. exists j. split; [lia|done].
Qed.

Lemma rehash_ok t m l : table_ok t m → 5 ≤ l ≤ 25 → Z.of_nat (size m) < 2 ^ l →
  ∃ t', rehash t l = Ok t' ∧ table_ok t' m ∧ same_config t t' ∧ n_arr_entries t' = 2 ^ l.
Proof.
  intros H Hl Hsz. set (n := n_arr_entries t). pose proof (to_len H) as Hlen. fold n in Hlen.
  assert (n_arr_entries (hash_init_arr t l) = 2 ^ l) as Hn0.
  { unfold hash_init_arr, HASH_MIN_LOG2_OF_N_ARR_ENTRIES. by rewrite Z.max_l, Z.shiftl_1_l by lia. }
  destruct (for_up_inv (fun i t' => e ← aget (arr t) i; readd e t')
    (fun i t' => ∃ m', table_ok t' m' ∧ maps (Z.of_nat i) (tcell t) m' ∧ same_config t t' ∧ n_arr_entries t' = 2 ^ l)
    (Z.to_nat n) (hash_init_arr t l)) as (t' & Ht' & m' & H1 & H2 & H3 & H4).
  - exists ∅. split; [by apply init_arr_ok|]. split; [|by split_and!].
    intros x p. rewrite lookup_empty. split; [done|]. intros (e & (i & Hi & _) & _). lia.
  - intros i t' Hi (m' & H1 & H2 & H3 & H4).
    destruct (aget_cell n (arr t) (Z.of_nat i) ltac:(lia) Hlen) as (e & He & Hc). rewrite Nat2Z.id in He. rewrite He. rstep.
    replace (Z.of_nat (S i)) with (Z.of_nat i + 1) by lia. destruct (hash_is_entry_OCCUPIED e) eqn:Ho.
    2:{ exists t'. split; [unfold readd; by rewrite Ho|]. exists m'. by split_and!; try done; apply maps_skip; [lia|..]. }
    pose proof H3 as (Hkl & Hout & Hini). destruct (wf_key (to_wf H) (Z.of_nat i) e ltac:(fold n; lia) Hc) as (K1 & K2 & K3).
    assert (m' !! key e = None) as Hfresh by (apply (maps_fresh _ _ _ _ _ (Z.of_nat i) _ (to_wf H)); [fold n; lia|done..]).
    assert (size m' ≤ size m)%nat by (apply map_subseteq_size, (maps_prefix n (tcell t) m m' (Z.of_nat i)); [lia|apply H|done]).
    destruct (readd_ok t' m' e H1) as (t'' & Hr & Hok & (S1 & S2 & S3) & Hn); try done; [lia|by rewrite Hkl|by rewrite Hkl|].
    exists t''. split; [done|]. eexists. split; [done|]. split; [apply maps_push; [lia|done..]|].
    unfold same_config. split_and!; congruence.
  - exists t'. split; [done|]. split; [|done]. rewrite Z2Nat.id in H2 by lia.
    by rewrite (maps_unique n (tcell t) m m' (to_maps H) H2).
Qed.

(** ** Load factors *)
Ltac div_lia := Z.to_euclidean_division_equations; lia.

Definition MAX_ELEMENTS : Z := 17000000.
Definition represents (t : nvmeib_hash_table) (m : gmap (list Z) Z) : Prop :=
  table_ok t m ∧ n_occupied t * 100 ≤ n_arr_entries t * 60.

Lemma threshold n c : 0 ≤ n ≤ 2 ^ 25 → 0 ≤ c ≤ 60 → Z.quot (s32 (n * c)) 100 = n * c / 100.
Proof.
  intros Hn Hc. unfold s32. rewrite wrap_small by nia. replace (n * c + 2 ^ 31 - 2 ^ 31) with (n * c) by lia.
  apply Z.quot_div_nonneg; nia.
Qed.
Lemma relaxed_iff t : 0 ≤ n_arr_entries t ≤ 2 ^ 25 →
  is_hash_tbl_suitable_for_resize_relaxed_increase t = (n_arr_entries t * 51 / 100 <=? n_occupied t).
Proof. intros. unfold is_hash_tbl_suitable_for_resize_relaxed_increase, HASH_RELAXED_LOAD_FACTOR_THRESHOLD. by rewrite threshold by lia. Qed.
Lemma emergency_iff t : 0 ≤ n_arr_entries t ≤ 2 ^ 25 →
  is_hash_tbl_suitable_for_resize_emergency_increase t =
    (n_arr_entries t * 60 / 100 <=? n_occupied t) || (is_used_outside_main_thread t && (n_arr_entries t * 51 / 100 <=? n_occupied t)).
Proof.
  intros. unfold is_hash_tbl_suitable_for_resize_emergency_increase, HASH_EMERGENCY_LOAD_FACTOR_THRESHOLD.
  by rewrite threshold, relaxed_iff by lia.
Qed.

Lemma represents_room t m : represents t m → Z.of_nat (size m) < n_arr_entries t.
Proof. intros [H Hl]. pose proof (to_range _ _ H). rewrite (to_occ H) in Hl. lia. Qed.

Lemma grow_ok t m : represents t m → Z.of_nat (size m) < MAX_ELEMENTS →
  is_hash_tbl_suitable_for_resize_relaxed_increase t = true →
  ∃ t', nvmeib_hash_resize t = Ok t' ∧ represents t' m ∧ same_config t t' ∧ n_arr_entries t' = 2 * n_arr_entries t.
Proof.
  unfold MAX_ELEMENTS. intros [H Hload] Hmax Hrel. unfold nvmeib_hash_resize. pose proof (to_range _ _ H) as Hr. rewrite Hrel.
  pose proof (to_log H) as Hlog. pose proof (to_occ H) as Hocc. rewrite relaxed_iff in Hrel by lia.
  assert (log2_of_n_arr_entries t ≠ 25) as Hne by (intros E; rewrite (to_n H), E in Hrel; change (2 ^ 25 * 51 / 100) with 17112760 in Hrel; lia).
  assert (2 ^ (log2_of_n_arr_entries t + 1) = 2 * n_arr_entries t) as Hpow by (rewrite (to_n H), Z.pow_add_r by lia; lia).
  destruct (rehash_ok t m (log2_of_n_arr_entries t + 1) H) as (t' & Ht & Hok & Hs & Hn); [lia|lia|].
  exists t'. split; [done|]. split; [split; [done|]|by rewrite Hn, Hpow]. rewrite Hn, Hpow, (to_occ Hok). lia.
Qed.

Lemma resize_ok t m : represents t m → Z.of_nat (size m) < MAX_ELEMENTS →
  ∃ t', nvmeib_hash_resize t = Ok t' ∧ represents t' m ∧ same_config t t'.
Proof.
  intros Hrep Hmax. destruct (is_hash_tbl_suitable_for_resize_relaxed_increase t) eqn:Hrel.
  { destruct (grow_ok t m Hrep Hmax Hrel) as (t' & ? & ? & ? & _). by exists t'. }
  destruct Hrep as [H Hload]. unfold nvmeib_hash_resize. rewrite Hrel. unfold HASH_SHRINK_FACTOR_THRESHOLD, HASH_MIN_N_ARR_ENTRIES.
  destruct (Z.ltb_spec (n_occupied t * 10) (n_arr_entries t)); [|by exists t].
  destruct (Z.ltb_spec (n_arr_entries t) (32 * 2)); [by exists t|].
  destruct (Z.leb_spec (log2_of_n_arr_entries t) (initial_log2_of_n_arr_entries t)); [by exists t|]. cbn [orb].
  pose proof (to_log H) as Hlog. pose proof (to_occ H) as Hocc.
  assert (log2_of_n_arr_entries t ≠ 5) as Hne by (intros E; rewrite (to_n H), E in *; lia).
  assert (2 * 2 ^ (log2_of_n_arr_entries t - 1) = n_arr_entries t) as Hpow.
  { rewrite (to_n H), <-Z.pow_succ_r by lia. f_equal. lia. }
  destruct (rehash_ok t m (log2_of_n_arr_entries t - 1) H) as (t' & Ht & Hok & Hs & Hn); [lia|lia|].
  exists t'. split; [done|]. split; [split; [done|]|done]. rewrite Hn, (to_occ Hok). lia.
Qed.

(** One resize is enough before an element is added. *)
Lemma emergency_ok t m : represents t m → Z.of_nat (size m) < MAX_ELEMENTS →
  ∃ t', emergency_loop EMERGENCY_FUEL t = Ok t' ∧ represents t' m ∧ same_config t t' ∧
    (n_occupied t' + 1) * 100 ≤ n_arr_entries t' * 60.
Proof.
  intros Hrep Hmax. pose proof Hrep as [H Hload]. pose proof (to_range _ _ H) as Hr. unfold EMERGENCY_FUEL. cbn [emergency_loop].
  destruct (is_hash_tbl_suitable_for_resize_emergency_increase t) eqn:He; rewrite emergency_iff in He by lia.
  2:{ apply orb_false_iff in He as [He _]. exists t. split; [done|]. split; [done|]. split; [done|div_lia]. }
  assert (is_hash_tbl_suitable_for_resize_relaxed_increase t = true) as Hrel.
  { rewrite relaxed_iff by lia. apply orb_true_iff in He as [He|[_ He]%andb_true_iff]; div_lia. }
  destruct (grow_ok t m Hrep Hmax Hrel) as (t' & -> & [H' Hload'] & Hs & Hn). rstep.
  pose proof (to_range _ _ H') as Hr'. rewrite emergency_iff by lia. rewrite (to_occ H'), <-(to_occ H), Hn in *.
  rewrite (proj2 (Z.leb_gt _ _)), (proj2 (Z.leb_gt _ _)), andb_false_r by div_lia. cbn [orb]. exists t'.
  rewrite (to_occ H'), <-(to_occ H), Hn. split; [done|]. split; [split; [done|rewrite (to_occ H'), <-(to_occ H), Hn; lia]|]. split; [done|lia].
Qed.

Lemma add_ok t m x p : represents t m → Z.of_nat (size m) < MAX_ELEMENTS → key_ok (key_len t) x → p ≠ 0 →
  ∃ t', hash_add t x (scramble_of (key_len t) x) p (key_len t) = Ok (t', default 0 (m !! x)) ∧ same_config t t' ∧
    represents t' (match m !! x with Some _ => m | None => <[x := p]> m end).
Proof.
  intros Hrep Hmax Hx Hp. unfold hash_add. rewrite Z.eqb_refl, (proj2 (Z.eqb_neq p _)) by done. cbn [negb].
  destruct (emergency_ok t m Hrep Hmax) as (t' & -> & Hrep' & Hs & Hroom). rstep. pose proof Hs as (Hkl & _ & _).
  pose proof (represents_room _ _ Hrep') as Hsz. destruct Hrep' as [H' Hload]. pose proof (to_range _ _ H') as Hr.
  rewrite <-Hkl in Hx |- *. destruct (walk_end t' m x H' Hsz Hx) as (s & Hsr & Hpass & Hk & Hm & Hd).
  rewrite (home_slot _ _ _ H'), (add_probe_run t' m H' x s); try done; [|apply Z.mod_pos_bound; lia|lia]. rstep.
  destruct (tcell t' s) as [e|] eqn:Hc; cbn in Hm; rewrite <-Hm.
  - exists t'. by split.
  - pose proof (to_len H'). rewrite aset_ok by lia. rstep. eexists. split; [done|]. split; [done|]. split; [|done].
    apply (insert_table t' m H' s (HashEntry x p (scramble_of (key_len t') x))); try done.
    intros j Hj Hlt. destruct (Hpass j Hj Hlt) as (e & -> & _). done.
Qed.

Lemma create_represents log2 kl outside : represents (nvmeib_hash_create' log2 kl outside) ∅.
Proof.
  unfold nvmeib_hash_create'. set (l := if 24 <=? log2 then 16 else log2).
  assert (l ≤ 23) as Hl by (unfold l; destruct (Z.leb_spec 24 log2); lia).
  set (t0 := HashTable 0 [] 0 l 0 0 outside kl).
  assert (hash_init_arr t0 l = hash_init_arr t0 (Z.max l 5)) as ->.
  { unfold hash_init_arr, HASH_MIN_LOG2_OF_N_ARR_ENTRIES. by rewrite <-Z.max_assoc. }
  pose proof (init_arr_ok t0 (Z.max l 5) ltac:(lia)) as Hok. split; [done|]. rewrite (to_occ Hok). pose proof (to_range _ _ Hok).
  rewrite map_size_empty. lia.
Qed.
