(* ===== verification/HashApi.v ===== *)
(** * The typed interface of the hash table

    The four families of [nvmeib_hash_add_*], [nvmeib_hash_search_*] and
    [nvmeib_hash_delete_*] are instances of one interface, [hash_api]: a type of
    keys with an injective encoding in bytes, and operations that call the
    generic ones with that encoding and its scrambled value.  Against this
    interface the table is proved to behave like a finite map over the keys. *)
From stdpp Require Import base list gmap numbers.
From Stdlib Require Import ZArith Lia.
From S2P Require Import Prelude CMemory HashTable HashInv HashRefine.
Local Open Scope Z_scope.

Record hash_api (K : Type) : Type := HashApi {
  api_key_len : Z;
  api_valid : K → Prop;
  api_bytes : K → list Z;
  api_add : nvmeib_hash_table → K → Z → res (nvmeib_hash_table * Z);
  api_search : nvmeib_hash_table → K → res Z;
  api_delete : nvmeib_hash_table → K → res (nvmeib_hash_table * Z);
  api_key_ok : ∀ k, api_valid k → key_ok api_key_len (api_bytes k);
  api_inj : ∀ k k', api_valid k → api_valid k' → api_bytes k = api_bytes k' → k = k';
  api_add_spec : ∀ t k p, api_valid k →
    api_add t k p = hash_add t (api_bytes k) (scramble_of api_key_len (api_bytes k)) p api_key_len;
  api_search_spec : ∀ t k, api_valid k →
    api_search t k = hash_search t (api_bytes k) (scramble_of api_key_len (api_bytes k)) api_key_len;
  api_delete_spec : ∀ t k, api_valid k →
    api_delete t k = hash_delete_key t (api_bytes k) (scramble_of api_key_len (api_bytes k)) api_key_len
}.
Arguments api_key_len {K} _. Arguments api_valid {K} _ _. Arguments api_bytes {K} _ _.
Arguments api_add {K} _ _ _ _. Arguments api_search {K} _ _ _. Arguments api_delete {K} _ _ _.
Arguments api_key_ok {K} _ _ _. Arguments api_inj {K} _ _ _ _ _ _.
Arguments api_add_spec {K} _ _ _ _ _. Arguments api_search_spec {K} _ _ _ _. Arguments api_delete_spec {K} _ _ _ _.

Lemma le_bytes_inj n x y : 0 ≤ x < 256 ^ Z.of_nat n → 0 ≤ y < 256 ^ Z.of_nat n → le_bytes n x = le_bytes n y → x = y.
Proof.
  intros Hx Hy H. apply (f_equal le_word) in H. rewrite !le_word_bytes in H. by rewrite !Z.mod_small in H by done.
Qed.

Definition uuid_valid (u : list Z) : Prop := length u = 16%nat.
Definition uuid_api : hash_api (list Z).
Proof.
  refine (HashApi _ 16 uuid_valid (fun u => u) nvmeib_hash_add_uuid nvmeib_hash_search_uuid nvmeib_hash_delete_uuid _ _ _ _ _); try done.
  intros k Hk. by right.
Defined.

Lemma scramble_uint32 k : scramble_of 4 (hash_uint32_t_to_nvmeib_hash_key k) = murmur3_32 (le_bytes 4 k) 0.
Proof. unfold scramble_of, hash_uint32_t_to_nvmeib_hash_key. cbn [Z.eqb Pos.eqb]. by rewrite (take_app_length' (le_bytes 4 k)) by (by rewrite length_le_bytes). Qed.
Lemma scramble_uint64 k : scramble_of 8 (hash_uint64_t_to_nvmeib_hash_key k) = murmur3_32 (le_bytes 8 k) 0.
Proof. unfold scramble_of, hash_uint64_t_to_nvmeib_hash_key. cbn [Z.eqb Pos.eqb]. by rewrite (take_app_length' (le_bytes 8 k)) by (by rewrite length_le_bytes). Qed.

Definition uint32_api : hash_api Z.
Proof.
  refine (HashApi _ 4 (fun k => 0 ≤ k < 2 ^ 32) hash_uint32_t_to_nvmeib_hash_key
    nvmeib_hash_add_uint32_t nvmeib_hash_search_uint32_t nvmeib_hash_delete_uint32_t _ _ _ _ _).
  - intros k _. by right.
  - intros k k' Hk Hk' H. apply (le_bytes_inj 4); [done|done|]. by apply (f_equal (take 4)) in H.
  - intros t k p _. by rewrite scramble_uint32.
  - intros t k _. by rewrite scramble_uint32.
  - intros t k _. by rewrite scramble_uint32.
Defined.

Definition uint64_api : hash_api Z.
Proof.
  refine (HashApi _ 8 (fun k => 0 ≤ k < 2 ^ 64) hash_uint64_t_to_nvmeib_hash_key
    nvmeib_hash_add_uint64_t nvmeib_hash_search_uint64_t nvmeib_hash_delete_uint64_t _ _ _ _ _).
  - intros k _. by right.
  - intros k k' Hk Hk' H. apply (le_bytes_inj 8); [done|done|]. by apply (f_equal (take 8)) in H.
  - intros t k p _. by rewrite scramble_uint64.
  - intros t k _. by rewrite scramble_uint64.
  - intros t k _. by rewrite scramble_uint64.
Defined.

(** Strings without their terminating zero. *)
Definition ascii_valid (s : list Z) : Prop := Forall (fun b => 0 < b < 256) s.
Definition ascii_api : hash_api (list Z).
Proof.
  refine (HashApi _ (-1) ascii_valid (fun s => s)
    nvmeib_hash_add_ascii_str nvmeib_hash_search_ascii_str nvmeib_hash_delete_ascii_str _ _ _ _ _); try done.
  intros k _. by left.
Defined.

(** ** Operations on a table and on a map *)
Inductive op (K : Type) : Type := ADD (k : K) (p : Z) | SEARCH (k : K) | DELETE (k : K) | RESIZE.
Arguments ADD {K} _ _. Arguments SEARCH {K} _. Arguments DELETE {K} _. Arguments RESIZE {K}.

Section map.
Context {K : Type} `{Countable K} (api : hash_api K).

Definition run_op (o : op K) (t : nvmeib_hash_table) : res (nvmeib_hash_table * Z) :=
  match o with
  | ADD k p => api_add api t k p
  | SEARCH k => p ← api_search api t k; Ok (t, p)
  | DELETE k => api_delete api t k
  | RESIZE => t ← nvmeib_hash_resize t; Ok (t, 0)
  end.
Fixpoint run_ops (os : list (op K)) (t : nvmeib_hash_table) : res (nvmeib_hash_table * list Z) :=
  match os with
  | [] => Ok (t, [])
  | o :: os => '(t, p) ← run_op o t; '(t, ps) ← run_ops os t; Ok (t, p :: ps)
  end.

Definition spec_op (o : op K) (m : gmap K Z) : gmap K Z * Z :=
  match o with
  | ADD k p => (match m !! k with Some _ => m | None => <[k := p]> m end, default 0 (m !! k))
  | SEARCH k => (m, default 0 (m !! k))
  | DELETE k => (delete k m, default 0 (m !! k))
  | RESIZE => (m, 0)
  end.
Fixpoint spec_ops (os : list (op K)) (m : gmap K Z) : gmap K Z * list Z :=
  match os with
  | [] => (m, [])
  | o :: os => let '(m, p) := spec_op o m in let '(m, ps) := spec_ops os m in (m, p :: ps)
  end.
Definition op_valid (o : op K) : Prop :=
  match o with ADD k p => api_valid api k ∧ p ≠ 0 | SEARCH k | DELETE k => api_valid api k | RESIZE => True end.

Definition encoded (mb : gmap (list Z) Z) : Prop :=
  ∀ x p, mb !! x = Some p → ∃ k, api_valid api k ∧ x = api_bytes api k.
(** The table stands for the map [m] over keys. *)
Definition stands_for (t : nvmeib_hash_table) (m : gmap K Z) : Prop :=
  key_len t = api_key_len api ∧ n_occupied t = Z.of_nat (size m) ∧
  ∃ mb, represents t mb ∧ (∀ k, api_valid api k → mb !! api_bytes api k = m !! k) ∧ encoded mb.

Lemma stands_for_size t (m : gmap K Z) mb : table_ok t mb → n_occupied t = Z.of_nat (size m) → size mb = size m.
Proof. intros Ht Hm. rewrite (to_occ Ht) in Hm. lia. Qed.

Lemma insert_sim (mb : gmap (list Z) Z) (m : gmap K Z) k p : api_valid api k → (∀ k, api_valid api k → mb !! api_bytes api k = m !! k) →
  ∀ k', api_valid api k' → (<[api_bytes api k := p]> mb) !! api_bytes api k' = (<[k := p]> m) !! k'.
Proof.
  intros Hk Hm k' Hk'. destruct (decide (k' = k)) as [->|Hne]; [by rewrite !lookup_insert_eq|].
  rewrite !lookup_insert_ne; [by apply Hm|done|]. intros E. apply Hne. symmetry. by apply (api_inj api).
Qed.
Lemma delete_sim (mb : gmap (list Z) Z) (m : gmap K Z) k : api_valid api k → (∀ k, api_valid api k → mb !! api_bytes api k = m !! k) →
  ∀ k', api_valid api k' → (delete (api_bytes api k) mb) !! api_bytes api k' = (delete k m) !! k'.
Proof.
  intros Hk Hm k' Hk'. destruct (decide (k' = k)) as [->|Hne]; [by rewrite !lookup_delete_eq|].
  rewrite !lookup_delete_ne; [by apply Hm|done|]. intros E. apply Hne. symmetry. by apply (api_inj api).
Qed.

Lemma run_op_ok o t m : stands_for t m → op_valid o → Z.of_nat (size m) < MAX_ELEMENTS →
  ∃ t', run_op o t = Ok (t', (spec_op o m).2) ∧ stands_for t' (spec_op o m).1.
Proof.
  intros (Hkl & Hocc & mb & Hrep & Hm & Henc) Hv Hmax. pose proof Hrep as [Hok Hload]. pose proof (stands_for_size _ _ _ Hok Hocc) as Hsz.
  pose proof (represents_room _ _ Hrep) as Hroom. destruct o as [k p|k|k|]; cbn [run_op spec_op fst snd op_valid] in *.
  - destruct Hv as [Hv Hp]. rewrite (api_add_spec api), <-Hkl, <-Hm by done. pose proof (api_key_ok api k Hv) as Hko. rewrite <-Hkl in Hko.
    destruct (add_ok t mb (api_bytes api k) p Hrep ltac:(lia) Hko Hp) as (t' & -> & (Hkl' & _) & Hrep').
    exists t'. split; [done|]. split; [congruence|]. pose proof (to_occ (proj1 Hrep')) as Ho. rewrite Ho. split.
    + destruct (mb !! api_bytes api k) eqn:E; [by rewrite Hsz|]. rewrite !map_size_insert_None; [by rewrite Hsz|by rewrite <-Hm|done].
    + eexists. split; [done|]. destruct (mb !! api_bytes api k); [done|]. split; [by apply insert_sim|].
      intros x q [[<- _]|[_ Hx]]%lookup_insert_Some; [by exists k|by apply (Henc x q)].
  - rewrite (api_search_spec api), <-Hkl, <-Hm by done. pose proof (api_key_ok api k Hv) as Hko. rewrite <-Hkl in Hko.
    rewrite (search_ok t mb) by done. rstep. exists t. split; [done|]. by split_and!; [..|exists mb].
  - rewrite (api_delete_spec api), <-Hkl, <-Hm by done. pose proof (api_key_ok api k Hv) as Hko. rewrite <-Hkl in Hko.
    destruct (delete_ok t mb (api_bytes api k) Hok Hroom Hko) as (t' & -> & Hok' & (Hkl' & _) & Hn').
    exists t'. split; [done|]. split; [congruence|]. rewrite (to_occ Hok').
    assert (size (delete (api_bytes api k) mb) = size (delete k m)) as Hsd.
    { rewrite !map_size_delete, Hsz, <-Hm by done. done. }
    split; [by rewrite Hsd|]. eexists. split; [split; [done|]|split; [by apply delete_sim|]].
    2:{ intros x q [_ Hx]%lookup_delete_Some. by apply (Henc x q). }
    rewrite (to_occ Hok'), Hn', map_size_delete. rewrite (to_occ Hok) in Hload. destruct (mb !! api_bytes api k); unfold id; lia.
  - destruct (resize_ok t mb Hrep ltac:(lia)) as (t' & -> & Hrep' & (Hkl' & _)). rstep. exists t'. split; [done|].
    split; [congruence|]. pose proof (to_occ (proj1 Hrep')) as Ho. split; [by rewrite Ho, Hsz|by exists mb].
Qed.

Lemma spec_op_size o m : (size (spec_op o m).1 ≤ S (size m))%nat.
Proof.
  destruct o as [k p|k|k|]; cbn [spec_op fst]; try lia.
  - destruct (m !! k) eqn:E; [lia|]. by rewrite map_size_insert_None.
  - rewrite map_size_delete. destruct (m !! k); unfold id; lia.
Qed.

Lemma run_ops_ok os t m : stands_for t m → Forall op_valid os →
  Z.of_nat (size m + length os) < MAX_ELEMENTS →
  ∃ t', run_ops os t = Ok (t', (spec_ops os m).2) ∧ stands_for t' (spec_ops os m).1.
Proof.
  revert t m. induction os as [|o os IH]; intros t m Hs Hv Hlen; [by exists t|].
  inversion Hv as [|? ? Ho Hos]; subst. cbn [length] in Hlen.
  destruct (run_op_ok o t m Hs Ho ltac:(lia)) as (t1 & H1 & Hs1). pose proof (spec_op_size o m).
  cbn [run_ops spec_ops]. rewrite H1. rstep. destruct (spec_op o m) as [m1 p]. cbn [fst snd] in *.
  destruct (IH t1 m1 Hs1 Hos ltac:(lia)) as (t2 & H2 & Hs2). rewrite H2. rstep.
  destruct (spec_ops os m1) as [m2 ps]. by exists t2.
Qed.

Lemma create_ok log2 outside : stands_for (nvmeib_hash_create' log2 (api_key_len api) outside) ∅.
Proof.
  split; [done|]. split; [done|]. exists ∅. split; [apply create_represents|].
  split; [intros; by rewrite !lookup_empty|by intros x p; rewrite lookup_empty].
Qed.
End map.

(** Refinement step.  On a table that stands for a map, within the load
    limits, every operation of every key type ends without touching memory
    outside the array and without giving up on collisions; it returns the object
    the map has for the key (0 if none) and leaves a table that stands for the
    updated map: adding never replaces an object, deletion removes exactly its
    key, and resizing changes nothing. *)
Theorem hash_op_refines {K} `{Countable K} (api : hash_api K) o t (m : gmap K Z)
    (Hs : stands_for api t m) (Hv : op_valid api o) (Hmax : Z.of_nat (size m) < MAX_ELEMENTS) :
  ∃ t', run_op api o t = Ok (t', (spec_op o m).2) ∧ stands_for api t' (spec_op o m).1.
Proof. by apply run_op_ok. Qed.

(** C13: refinement of any history.  A new table, whatever its requested size and
    key type, answers every sequence of fewer than seventeen million additions,
    searches, deletions and resizes exactly like a finite map that starts empty,
    and its element count is the size of that map. *)
Theorem hash_table_is_map {K} `{Countable K} (api : hash_api K) log2 outside os
    (Hv : Forall (op_valid api) os) (Hlen : Z.of_nat (length os) < MAX_ELEMENTS) :
  ∃ t', run_ops api os (nvmeib_hash_create' log2 (api_key_len api) outside) = Ok (t', (spec_ops os ∅).2) ∧
    nvmeib_hash_get_n_elements (Some t') = Z.of_nat (size (spec_ops os (∅ : gmap K Z)).1).
Proof.
  destruct (run_ops_ok api os _ ∅ (create_ok api log2 outside) Hv) as (t' & Ht & _ & Hocc & _).
  { by rewrite map_size_empty. }
  by exists t'.
Qed.

(** A history over 64-bit keys with a collision-prone mix of operations. *)
Module History.
Definition ops : list (op Z) :=
  [ADD 7 100; ADD 8 200; SEARCH 7; ADD 7 300; DELETE 8; SEARCH 8; RESIZE; ADD 9 900; DELETE 7; SEARCH 9].
End History.

Lemma history_valid : Forall (op_valid uint64_api) History.ops.
Proof. repeat constructor; cbn; lia. Qed.

Lemma history_spec : (spec_ops History.ops (∅ : gmap Z Z)).2 = [0; 0; 100; 100; 200; 0; 0; 0; 100; 900] ∧
  size (spec_ops History.ops (∅ : gmap Z Z)).1 = 1%nat.
Proof. vm_compute. done. Qed.

Lemma hash_table_is_map_witness : ∃ t',
  run_ops uint64_api History.ops (nvmeib_hash_create' 5 8 false) = Ok (t', [0; 0; 100; 100; 200; 0; 0; 0; 100; 900]) ∧
    nvmeib_hash_get_n_elements (Some t') = 1.
Proof.
  rewrite <-(proj1 history_spec). change 1 with (Z.of_nat 1). rewrite <-(proj2 history_spec).
  apply (hash_table_is_map uint64_api 5 false History.ops history_valid). reflexivity.
Defined.

Lemma hash_op_refines_witness : ∃ t',
  run_op uint64_api (ADD 42 1000) (nvmeib_hash_create' 5 8 true) = Ok (t', (spec_op (ADD 42 1000) (∅ : gmap Z Z)).2) ∧
    stands_for uint64_api t' (spec_op (ADD 42 1000) (∅ : gmap Z Z)).1.
Proof.
  apply (hash_op_refines uint64_api (ADD 42 1000) (nvmeib_hash_create' 5 8 true) (∅ : gmap Z Z)).
  - apply (create_ok uint64_api 5 true).
  - cbn. lia.
  - unfold MAX_ELEMENTS. rewrite map_size_empty. lia.
Defined.

(** From 2^26 slots on the load-factor products overflow an [int].  The
    thresholds become zero or negative, so that even an empty table asks for an
    emergency increase, and the loop before an addition keeps doubling. *)
Theorem load_factor_overflows t k (Hk : 26 ≤ k ≤ 30) (Hn : n_arr_entries t = 2 ^ k) (Ho : 0 ≤ n_occupied t) :
  is_hash_tbl_suitable_for_resize_emergency_increase t = true.
Proof.
  unfold is_hash_tbl_suitable_for_resize_emergency_increase. apply orb_true_iff. left. rewrite Hn. apply Z.leb_le.
  assert (HASH_EMERGENCY_LOAD_FACTOR_THRESHOLD (2 ^ k) ≤ 0); [|lia].
  assert (k = 26 ∨ k = 27 ∨ k = 28 ∨ k = 29 ∨ k = 30) as [E|[E|[E|[E|E]]]] by lia; rewrite E; vm_compute; discriminate.
Qed.

Lemma load_factor_overflows_witness :
  is_hash_tbl_suitable_for_resize_emergency_increase (HashTable (2 ^ 26 - 1) [] 26 16 (2 ^ 26) 0 false 8) = true.
Proof. apply (load_factor_overflows _ 26); [lia|reflexivity|reflexivity || (cbn; lia)]. Defined.
