(* ===== verification/HashRegistry.v ===== *)
(** * The registry of hash tables

    Models the end of [common/nvmeib_hash.c]: every table is recorded in
    [all_active_hashs], itself a hash table from the 64-bit address of a table to
    that address; the idle task walks the registry and resizes the tables of the
    main thread; at shutdown all tables are freed.

    The heap of tables is a finite map from addresses to tables, and the address
    that [calloc] returns is an argument.  [getnstimeofday_boot] is a stream of
    clock readings in nanoseconds.  The mutex is held from the first to the last
    access of the registry, so that the operations are atomic steps. *)
From stdpp Require Import base list gmap numbers.
From Stdlib Require Import ZArith Lia.
From S2P Require Import Prelude CMemory HashTable HashInv HashRefine HashApi.
Local Open Scope Z_scope.

Record world : Type := World {
  tables : gmap Z nvmeib_hash_table;
  all_active_hashs : option nvmeib_hash_table;
  last_invocation : Z;
  last_scanned_idx : Z
}.
Definition world_init : world := World ∅ None 0 0.
Definition with_tables (w : world) (ts : gmap Z nvmeib_hash_table) : world :=
  World ts (all_active_hashs w) (last_invocation w) (last_scanned_idx w).

Definition nvmeib_hash_create (addr : Z) (log2 key_len : Z) (outside : bool) (w : world) : res world :=
  let hash_tbl := nvmeib_hash_create' log2 key_len outside in
  let registry := match all_active_hashs w with
                  | Some r => r
                  | None => nvmeib_hash_create' HASH_MIN_LOG2_OF_N_ARR_ENTRIES 8 true
                  end in
  '(registry, _) ← nvmeib_hash_add_uint64_t registry addr addr;
  Ok (World (<[addr := hash_tbl]> (tables w)) (Some registry) (last_invocation w) (last_scanned_idx w)).

Definition nvmeib_hash_tbl_free (addr : Z) (w : world) : res world :=
  if addr =? 0 then Ok w
  else match all_active_hashs w with
       | None => Fault NULL_DEREF
       | Some r =>
           '(r, _) ← nvmeib_hash_delete_uint64_t r addr;
           match tables w !! addr with
           | None => Fault OOB
           | Some _ => Ok (World (delete addr (tables w)) (Some r) (last_invocation w) (last_scanned_idx w))
           end
       end.

(** One slot of the idle scan. *)
Definition scan_slot (r : nvmeib_hash_table) (w : world) : res world :=
  let idx := hash_next_idx_on_collision (last_scanned_idx w) (scrambled_to_idx_mask r) in
  let w := World (tables w) (all_active_hashs w) (last_invocation w) idx in
  e ← entry_at r idx;
  if hash_is_entry_OCCUPIED e then
    match tables w !! ptr_to_obj e with
    | None => Fault OOB
    | Some t =>
        if negb (is_used_outside_main_thread t) then
          t ← nvmeib_hash_resize t;
          Ok (with_tables w (<[ptr_to_obj e := t]> (tables w)))
        else Ok w
    end
  else Ok w.
Fixpoint scan_slots (r : nvmeib_hash_table) (more i : nat) (clock : nat → Z) (w : world) : res world :=
  match more with
  | O => Ok w
  | S more =>
      w ← scan_slot r w;
      if 10 * 1000000 <? clock i - last_invocation w then Ok w else scan_slots r more (S i) clock w
  end.
Definition nvmeib_hash_resize_all_tables_as_needed (clock : nat → Z) (w : world) : res world :=
  match all_active_hashs w with
  | None => Ok w
  | Some r =>
      if clock 0%nat - last_invocation w <? 2000 * 1000000 then Ok w
      else scan_slots r (Z.to_nat (n_arr_entries r)) 1 clock (World (tables w) (Some r) (clock 0%nat) (last_scanned_idx w))
  end.

Definition free_slot (r : nvmeib_hash_table) (i : nat) (ts : gmap Z nvmeib_hash_table) : res (gmap Z nvmeib_hash_table) :=
  e ← aget (arr r) i;
  if hash_is_entry_OCCUPIED e then
    match ts !! ptr_to_obj e with
    | None => Fault OOB
    | Some _ => Ok (delete (ptr_to_obj e) ts)
    end
  else Ok ts.
Definition nvmeib_hash_free_all_tables (w : world) : res world :=
  match all_active_hashs w with
  | None => Ok w
  | Some r =>
      ts ← (if negb (n_occupied r =? 0) then for_up (Z.to_nat (n_arr_entries r)) (free_slot r) (tables w) else Ok (tables w));
      Ok (World ts None (last_invocation w) (last_scanned_idx w))
  end.

(** ** The invariant *)
Definition registered (ts : gmap Z nvmeib_hash_table) : gmap Z Z := map_imap (fun a _ => Some a) ts.
(** The tables of the heap stand for the maps [ms], address by address. *)
Definition contents (ts : gmap Z nvmeib_hash_table) (ms : gmap Z (gmap (list Z) Z)) : Prop :=
  ∀ a, option_Forall2 represents (ts !! a) (ms !! a).
Record registry_inv (w : world) (ms : gmap Z (gmap (list Z) Z)) : Prop := {
  ri_contents : contents (tables w) ms;
  ri_small : ∀ a m, ms !! a = Some m → Z.of_nat (size m) < MAX_ELEMENTS;
  ri_addr : ∀ a, is_Some (tables w !! a) → 0 < a < 2 ^ 64;
  ri_registry : match all_active_hashs w with
                | Some r => stands_for uint64_api r (registered (tables w))
                | None => tables w = ∅
                end;
  ri_count : Z.of_nat (size (tables w)) < MAX_ELEMENTS;
  ri_scan : 0 ≤ last_scanned_idx w
}.
Arguments ri_contents {_ _} _. Arguments ri_small {_ _} _. Arguments ri_addr {_ _} _.
Arguments ri_registry {_ _} _. Arguments ri_count {_ _} _. Arguments ri_scan {_ _} _.

Lemma registered_lookup ts a p : registered ts !! a = Some p ↔ p = a ∧ is_Some (ts !! a).
Proof.
  unfold registered. rewrite map_lookup_imap. destruct (ts !! a) as [t|]; cbn; [|naive_solver].
  split; [intros [= <-]; eauto|by intros [-> _]].
Qed.
Lemma registered_insert ts a t : registered (<[a := t]> ts) = <[a := a]> (registered ts).
Proof. unfold registered. by rewrite map_imap_insert. Qed.
Lemma registered_delete ts a : registered (delete a ts) = delete a (registered ts).
Proof. unfold registered. by rewrite map_imap_delete. Qed.
Lemma registered_size ts : size (registered ts) = size ts.
Proof.
  rewrite <-!size_dom. f_equal. apply set_eq. intros a. rewrite !elem_of_dom. split.
  - intros [p Hp]. by apply registered_lookup in Hp as [_ ?].
  - intros Ht. exists a. by apply registered_lookup.
Qed.

Lemma contents_lookup ts ms a t : contents ts ms → ts !! a = Some t → ∃ m, ms !! a = Some m ∧ represents t m.
Proof. intros Hc Ht. specialize (Hc a). rewrite Ht in Hc. inversion Hc; subst. eauto. Qed.
Lemma contents_insert ts ms a t m : contents ts ms → represents t m → contents (<[a := t]> ts) (<[a := m]> ms).
Proof.
  intros Hc Ht b. destruct (decide (b = a)) as [->|Hne]; [rewrite !lookup_insert_eq; by constructor|].
  rewrite !lookup_insert_ne by done. apply Hc.
Qed.
Lemma contents_update ts ms a t m : contents ts ms → ms !! a = Some m → represents t m → contents (<[a := t]> ts) ms.
Proof. intros Hc Hm Ht. rewrite <-(insert_id ms a m) by done. by apply contents_insert. Qed.
Lemma contents_delete ts ms a : contents ts ms → contents (delete a ts) (delete a ms).
Proof.
  intros Hc b. destruct (decide (b = a)) as [->|Hne]; [rewrite !lookup_delete_eq; by constructor|].
  rewrite !lookup_delete_ne by done. apply Hc.
Qed.

(** ** Creation and release *)
Lemma create_inv w ms addr log2 kl outside : registry_inv w ms → 0 < addr < 2 ^ 64 → tables w !! addr = None →
  Z.of_nat (size (tables w)) + 1 < MAX_ELEMENTS →
  ∃ w', nvmeib_hash_create addr log2 kl outside w = Ok w' ∧ registry_inv w' (<[addr := ∅]> ms) ∧
    tables w' = <[addr := nvmeib_hash_create' log2 kl outside]> (tables w).
Proof.
  intros Hi Ha Hnew Hsz. unfold nvmeib_hash_create.
  assert (∃ r, match all_active_hashs w with Some r => r | None => nvmeib_hash_create' HASH_MIN_LOG2_OF_N_ARR_ENTRIES 8 true end = r
    ∧ stands_for uint64_api r (registered (tables w))) as (r & -> & Hr).
  { eexists. split; [done|]. pose proof (ri_registry Hi) as Hr. destruct (all_active_hashs w); [done|]. rewrite Hr.
    apply (create_ok uint64_api). }
  destruct (run_op_ok uint64_api (ADD addr addr) r (registered (tables w))) as (r' & Hadd & Hr'); [done|cbn; lia|rewrite registered_size; lia|].
  cbn [run_op api_add uint64_api] in Hadd. rewrite Hadd. rstep. eexists. split; [done|]. split; [|done].
  assert (registered (tables w) !! addr = None) as Hnone.
  { destruct (registered (tables w) !! addr) eqn:E; [|done]. apply registered_lookup in E as [_ [t E]]. congruence. }
  cbn [spec_op fst] in Hr'. rewrite Hnone in Hr'. split; cbn [tables all_active_hashs last_scanned_idx].
  - apply contents_insert; [apply Hi|]. apply create_represents.
  - intros a m [[_ <-]|[_ Hm]]%lookup_insert_Some; [by rewrite map_size_empty|by apply (ri_small Hi a)].
  - intros a [t [[<- _]|[_ Ht]]%lookup_insert_Some]; [lia|]. apply (ri_addr Hi). by exists t.
  - by rewrite registered_insert.
  - rewrite map_size_insert_None by done. lia.
  - apply Hi.
Qed.

Lemma free_inv w ms addr : registry_inv w ms → is_Some (tables w !! addr) →
  ∃ w', nvmeib_hash_tbl_free addr w = Ok w' ∧ registry_inv w' (delete addr ms) ∧ tables w' = delete addr (tables w).
Proof.
  intros Hi Ht. pose proof (ri_addr Hi addr Ht) as Ha. unfold nvmeib_hash_tbl_free. rewrite (proj2 (Z.eqb_neq _ _)) by lia.
  pose proof (ri_registry Hi) as Hr. destruct (all_active_hashs w) as [r|]; [|by rewrite Hr, lookup_empty in Ht; destruct Ht].
  pose proof (ri_count Hi) as Hmax.
  destruct (run_op_ok uint64_api (DELETE addr) r (registered (tables w)) Hr) as (r' & Hdel & Hr'); [cbn; lia|by rewrite registered_size|].
  cbn [run_op api_delete uint64_api] in Hdel. rewrite Hdel. rstep. destruct Ht as [t Ht]. rewrite Ht.
  eexists. split; [done|]. split; [|done]. split; cbn [tables all_active_hashs last_scanned_idx].
  - apply contents_delete, Hi.
  - intros a m [_ Hm]%lookup_delete_Some. by apply (ri_small Hi a).
  - intros a [t' [_ Ht']%lookup_delete_Some]. apply (ri_addr Hi). by exists t'.
  - by rewrite registered_delete.
  - rewrite map_size_delete, Ht. lia.
  - apply Hi.
Qed.

(** ** The idle task *)
(** What a slot of the registry holds. *)
Lemma registry_entry r ts i e : stands_for uint64_api r (registered ts) → 0 ≤ i < n_arr_entries r → cell (arr r) i = Some e →
  is_Some (ts !! ptr_to_obj e) ∧ key e = api_bytes uint64_api (ptr_to_obj e).
Proof.
  intros (_ & _ & mb & [Hok _] & Hm & Henc) Hi He.
  assert (mb !! key e = Some (ptr_to_obj e)) as Hb by (apply (maps_entry _ _ _ _ (to_maps Hok)); by exists i).
  destruct (Henc _ _ Hb) as (k & Hk & Ek). rewrite Ek, Hm in Hb by done. apply registered_lookup in Hb as [-> Ht]. done.
Qed.
Lemma registry_slot r ts a : stands_for uint64_api r (registered ts) → is_Some (ts !! a) → 0 < a < 2 ^ 64 →
  ∃ i e, 0 ≤ i < n_arr_entries r ∧ cell (arr r) i = Some e ∧ ptr_to_obj e = a.
Proof.
  intros (_ & _ & mb & [Hok _] & Hm & _) Ht Ha.
  assert (mb !! api_bytes uint64_api a = Some a) as Hb by (rewrite Hm by (cbn; lia); by apply registered_lookup).
  apply (to_maps Hok) in Hb as (e & (i & Hi & He) & _ & Hp). by exists i, e.
Qed.

Lemma next_in_range r m i : table_ok r m → 0 ≤ hash_next_idx_on_collision i (scrambled_to_idx_mask r) < n_arr_entries r.
Proof.
  intros Hok. pose proof (to_range _ _ Hok) as Hr. unfold hash_next_idx_on_collision. rewrite (to_mask Hok).
  rewrite (mask_u32 _ _ (to_k _ _ Hok) (to_n Hok)), (to_n Hok), land_mask by (pose proof (to_log Hok); lia).
  rewrite <-(to_n Hok). apply Z.mod_pos_bound. lia.
Qed.

Lemma scan_slot_inv r w ms : registry_inv w ms → all_active_hashs w = Some r →
  ∃ w', scan_slot r w = Ok w' ∧ registry_inv w' ms ∧ all_active_hashs w' = Some r ∧ dom (tables w') = dom (tables w).
Proof.
  intros Hi Hw. pose proof (ri_registry Hi) as Hr. rewrite Hw in Hr. pose proof Hr as (_ & _ & mb & [Hok _] & _).
  unfold scan_slot. pose proof (next_in_range r mb (last_scanned_idx w) Hok) as Hidx. set (idx := hash_next_idx_on_collision _ _) in *.
  assert (registry_inv (World (tables w) (all_active_hashs w) (last_invocation w) idx) ms) as Hi'.
  { split; cbn [tables all_active_hashs last_scanned_idx]; try apply Hi. lia. }
  destruct (entry_at_cell r mb idx Hok Hidx) as (e & -> & Hc). rstep. cbn [tables].
  destruct (hash_is_entry_OCCUPIED e); [|by eexists].
  destruct (registry_entry r (tables w) idx e Hr Hidx Hc) as [[t Ht] _]. rewrite Ht.
  destruct (is_used_outside_main_thread t); cbn [negb]; [by eexists|].
  destruct (contents_lookup _ _ _ _ (ri_contents Hi) Ht) as (m & Hm & Hrep).
  destruct (resize_ok t m Hrep (ri_small Hi _ _ Hm)) as (t' & -> & Hrep' & _). rstep. eexists. split; [done|].
  assert (registered (<[ptr_to_obj e := t']> (tables w)) = registered (tables w)) as Hreg.
  { rewrite registered_insert. apply insert_id, registered_lookup. eauto. }
  assert (dom (<[ptr_to_obj e := t']> (tables w)) = dom (tables w)) as Hdom by (apply dom_insert_lookup_L; eauto).
  split; [|done]. split; cbn [tables all_active_hashs last_scanned_idx with_tables]; try apply Hi'.
  - by apply (contents_update _ _ _ _ m); [apply Hi|..].
  - intros a Ha. apply (ri_addr Hi). apply elem_of_dom. rewrite <-Hdom. by apply elem_of_dom.
  - by rewrite Hw, Hreg.
  - rewrite map_size_insert_Some by eauto. apply Hi.
Qed.

Lemma scan_slots_inv r more i clock w ms : registry_inv w ms → all_active_hashs w = Some r →
  ∃ w', scan_slots r more i clock w = Ok w' ∧ registry_inv w' ms ∧ all_active_hashs w' = Some r ∧ dom (tables w') = dom (tables w).
Proof.
  revert i w. induction more as [|more IH]; intros i w Hi Hw; [by exists w|]. cbn [scan_slots].
  destruct (scan_slot_inv r w ms Hi Hw) as (w1 & -> & Hi1 & Hw1 & Hd1). rstep. case_match; [by exists w1|].
  destruct (IH (S i) w1 Hi1 Hw1) as (w2 & -> & Hi2 & Hw2 & Hd2). exists w2. split; [done|]. split; [done|].
  split; [done|congruence].
Qed.

Lemma resize_all_inv clock w ms : registry_inv w ms →
  ∃ w', nvmeib_hash_resize_all_tables_as_needed clock w = Ok w' ∧ registry_inv w' ms ∧
    all_active_hashs w' = all_active_hashs w ∧ dom (tables w') = dom (tables w).
Proof.
  intros Hi. unfold nvmeib_hash_resize_all_tables_as_needed. destruct (all_active_hashs w) as [r|] eqn:Hw; [|by exists w].
  case_match; [by exists w|].
  apply (scan_slots_inv r _ _ _ (World (tables w) (Some r) (clock 0%nat) (last_scanned_idx w)) ms); [|done].
  pose proof (ri_registry Hi) as Hr. rewrite Hw in Hr. split; cbn [tables all_active_hashs last_scanned_idx]; done || apply Hi.
Qed.

(** ** Shutdown *)
Lemma free_loop r ts n : stands_for uint64_api r (registered ts) → (n ≤ Z.to_nat (n_arr_entries r))%nat →
  ∃ ts', for_up n (free_slot r) ts = Ok ts' ∧ ts' ⊆ ts ∧ 
    ∀ i e, 0 ≤ i < Z.of_nat n → cell (arr r) i = Some e → ts' !! ptr_to_obj e = None.
Proof.
  intros Hr Hn. pose proof Hr as (_ & _ & mb & [Hok _] & _). pose proof (to_len Hok) as Hlen.
  destruct (for_up_inv (free_slot r) (fun k ts' => ts' ⊆ ts ∧
      (∀ i e, 0 ≤ i < Z.of_nat k → cell (arr r) i = Some e → ts' !! ptr_to_obj e = None) ∧
      (∀ i e, Z.of_nat k ≤ i < n_arr_entries r → cell (arr r) i = Some e → is_Some (ts' !! ptr_to_obj e))) n ts)
    as (ts' & H1 & H2 & H3 & _); [| |by exists ts'].
  - split; [done|]. split; [intros; lia|]. intros i e Hi He. apply (registry_entry r ts i e Hr); [lia|done].
  - intros k ts' Hk (H1 & H2 & H3). unfold free_slot.
    destruct (aget_cell (n_arr_entries r) (arr r) (Z.of_nat k) ltac:(lia) Hlen) as (e & He & Hc). rewrite Nat2Z.id in He. rewrite He. rstep.
    destruct (hash_is_entry_OCCUPIED e).
    + destruct (H3 (Z.of_nat k) e ltac:(lia) Hc) as [t Ht]. rewrite Ht. eexists. split; [done|].
      split; [etrans; [apply delete_subseteq|done]|]. split.
      * intros i e' Hi He'. rewrite lookup_delete_None. destruct (decide (i = Z.of_nat k)) as [->|]; [left; congruence|].
        right. apply (H2 i e'); [lia|done].
      * intros i e' Hi He'. rewrite lookup_delete_ne; [apply (H3 i e'); [lia|done]|]. intros Heq.
        destruct (registry_entry r ts i e' Hr ltac:(lia) He') as [_ E']. destruct (registry_entry r ts (Z.of_nat k) e Hr ltac:(lia) Hc) as [_ E].
        pose proof (wf_uniq (to_wf Hok) i (Z.of_nat k) e' e ltac:(lia) ltac:(lia) He' Hc ltac:(congruence)). lia.
    + exists ts'. split; [done|]. split; [done|]. split.
      * intros i e' Hi He'. destruct (decide (i = Z.of_nat k)) as [->|]; [congruence|]. apply (H2 i); [lia|done].
      * intros i e' Hi He'. apply (H3 i); [lia|done].
Qed.

Lemma free_all_inv w ms : registry_inv w ms →
  nvmeib_hash_free_all_tables w = Ok (World ∅ None (last_invocation w) (last_scanned_idx w)).
Proof.
  intros Hi. unfold nvmeib_hash_free_all_tables. pose proof (ri_registry Hi) as Hr.
  destruct (all_active_hashs w) as [r|] eqn:Hw; [|destruct w; cbn in *; by subst].
  destruct (Z.eqb_spec (n_occupied r) 0) as [Hz|Hz]; cbn [negb].
  - rstep. destruct Hr as (_ & Hocc & _). rewrite registered_size, Hz in Hocc.
    assert (tables w = ∅) as -> by (apply map_size_empty_inv; lia). done.
  - destruct (free_loop r (tables w) (Z.to_nat (n_arr_entries r)) Hr ltac:(lia)) as (ts' & -> & Hsub & Hgone). rstep.
    assert (ts' = ∅) as ->; [|done]. apply map_empty. intros a. destruct (ts' !! a) as [t|] eqn:Ha; [|done].
    assert (is_Some (tables w !! a)) as Ht by (exists t; by apply (lookup_weaken ts')).
    destruct (registry_slot r (tables w) a Hr Ht (ri_addr Hi a Ht)) as (i & e & Hir & He & <-). rewrite <-Ha. 
    apply (Hgone i); [lia|done].
Qed.

(** ** Reachable worlds *)
Inductive step (w : world) : world → Prop :=
| step_create addr log2 kl outside w' : 0 < addr < 2 ^ 64 → tables w !! addr = None →
    Z.of_nat (size (tables w)) + 1 < MAX_ELEMENTS → nvmeib_hash_create addr log2 kl outside w = Ok w' → step w w'
| step_free addr w' : is_Some (tables w !! addr) → nvmeib_hash_tbl_free addr w = Ok w' → step w w'
| step_add addr t x p t' r : tables w !! addr = Some t → key_ok (key_len t) x → p ≠ 0 → n_occupied t + 1 < MAX_ELEMENTS →
    hash_add t x (scramble_of (key_len t) x) p (key_len t) = Ok (t', r) → step w (with_tables w (<[addr := t']> (tables w)))
| step_delete addr t x t' r : tables w !! addr = Some t → key_ok (key_len t) x →
    hash_delete_key t x (scramble_of (key_len t) x) (key_len t) = Ok (t', r) → step w (with_tables w (<[addr := t']> (tables w)))
| step_idle clock w' : nvmeib_hash_resize_all_tables_as_needed clock w = Ok w' → step w w'
| step_shutdown w' : nvmeib_hash_free_all_tables w = Ok w' → step w w'.
Inductive reachable : world → Prop :=
| reachable_init : reachable world_init
| reachable_step w w' : reachable w → step w w' → reachable w'.

Lemma init_inv w : tables w = ∅ → all_active_hashs w = None → 0 ≤ last_scanned_idx w → registry_inv w ∅.
Proof.
  intros Ht Ha Hl. split; rewrite ?Ha, ?Ht; try done.
  - intros a. rewrite !lookup_empty. constructor.
  - intros a [t Hx]. by rewrite lookup_empty in Hx.
Qed.

(** Replacing a table by one for another map keeps the registry. *)
Lemma use_inv w ms addr t t' m' : registry_inv w ms → tables w !! addr = Some t → represents t' m' →
  Z.of_nat (size m') < MAX_ELEMENTS →
  registry_inv (with_tables w (<[addr := t']> (tables w))) (<[addr := m']> ms).
Proof.
  intros Hi Ht Hrep Hsz. split; cbn [tables all_active_hashs last_scanned_idx with_tables].
  - by apply contents_insert; [apply Hi|].
  - intros a m [[_ <-]|[_ Hm]]%lookup_insert_Some; [done|by apply (ri_small Hi a)].
  - intros a [x [[<- _]|[_ Hx]]%lookup_insert_Some]; apply (ri_addr Hi); eauto.
  - pose proof (ri_registry Hi) as Hr. destruct (all_active_hashs w).
    + rewrite registered_insert, insert_id; [done|]. apply registered_lookup. eauto.
    + rewrite Hr in Ht. by rewrite lookup_empty in Ht.
  - rewrite map_size_insert_Some by eauto. apply Hi.
  - apply Hi.
Qed.

Lemma step_inv w w' ms : registry_inv w ms → step w w' → ∃ ms', registry_inv w' ms'.
Proof.
  intros Hi Hs. destruct Hs as [addr log2 kl outside w' Ha Hn Hc H|addr w' Ht H|addr t x p t' r Ht Hx Hp Hc H|addr t x t' r Ht Hx H|clock w' H|w' H].
  - destruct (create_inv w ms addr log2 kl outside Hi Ha Hn Hc) as (w2 & E & Hi2 & _). rewrite E in H. injection H as <-. eauto.
  - destruct (free_inv w ms addr Hi Ht) as (w2 & E & Hi2 & _). rewrite E in H. injection H as <-. eauto.
  - destruct (contents_lookup _ _ _ _ (ri_contents Hi) Ht) as (m & Hm & Hrep). pose proof (to_occ (proj1 Hrep)) as Ho.
    destruct (add_ok t m x p Hrep (ri_small Hi _ _ Hm) Hx Hp) as (t2 & E & _ & Hrep2). rewrite E in H. injection H as <- _.
    eexists. apply (use_inv w ms addr t); [done|done|exact Hrep2|].
    destruct (m !! x) eqn:Hmx; [lia|]. rewrite map_size_insert_None by done. lia.
  - destruct (contents_lookup _ _ _ _ (ri_contents Hi) Ht) as (m & Hm & Hrep). pose proof (ri_small Hi _ _ Hm).
    destruct (delete_ok t m x (proj1 Hrep) (represents_room _ _ Hrep) Hx) as (t2 & E & Hok2 & _ & Hn2). rewrite E in H. injection H as <- _.
    assert (size (delete x m) ≤ size m)%nat by (rewrite map_size_delete; destruct (m !! x); unfold id; lia).
    eexists. apply (use_inv w ms addr t _ (delete x m)); [done|done| |lia]. split; [done|].
    rewrite Hn2, (to_occ Hok2). destruct Hrep as [Hok Hl]. rewrite (to_occ Hok) in Hl. lia.
  - destruct (resize_all_inv clock w ms Hi) as (w2 & E & Hi2 & _). rewrite E in H. injection H as <-. eauto.
  - rewrite (free_all_inv w ms Hi) in H. injection H as <-. exists ∅. apply init_inv; [done|done|apply Hi].
Qed.

(** C15: in every reachable world the registry holds exactly the addresses of the
    live tables, and every live table is a well-formed table for some map,
    whatever tables were created, freed, filled, emptied and resized before. *)
Theorem registry_tracks_tables w (Hw : reachable w) :
  ∃ ms, registry_inv w ms ∧
    match all_active_hashs w with
    | Some r => ∀ a, 0 < a < 2 ^ 64 → nvmeib_hash_search_uint64_t r a = Ok (if decide (is_Some (tables w !! a)) then a else 0)
    | None => tables w = ∅
    end.
Proof.
  assert (∃ ms, registry_inv w ms) as (ms & Hi).
  { induction Hw as [|w w' Hw (ms & Hi) Hs]; [exists ∅; by apply init_inv|by apply (step_inv w w' ms)]. }
  exists ms. split; [done|]. pose proof (ri_registry Hi) as Hr. destruct (all_active_hashs w) as [r|]; [|done]. intros a Ha.
  pose proof (ri_count Hi) as Hc. rewrite <-registered_size in Hc.
  destruct (run_op_ok uint64_api (SEARCH a) r _ Hr ltac:(cbn; lia) Hc) as (r' & H & _). cbn [run_op uint64_api api_search spec_op snd] in H.
  destruct (nvmeib_hash_search_uint64_t r a) as [p|]; [|done]. injection H as _ ->. f_equal. case_decide as Hd.
  - by rewrite (proj2 (registered_lookup (tables w) a a)).
  - destruct (registered (tables w) !! a) as [p|] eqn:E; [|done]. by apply registered_lookup in E as [_ ?].
Qed.

(** The idle task ends for every clock, resizes only what it finds in the
    registry, and leaves every table standing for the map it stood for. *)
Theorem idle_resize_keeps_contents clock w ms (Hi : registry_inv w ms) :
  ∃ w', nvmeib_hash_resize_all_tables_as_needed clock w = Ok w' ∧ dom (tables w') = dom (tables w) ∧
    all_active_hashs w' = all_active_hashs w ∧ contents (tables w') ms.
Proof.
  destruct (resize_all_inv clock w ms Hi) as (w' & H1 & H2 & H3 & H4). exists w'. split_and!; try done. apply H2.
Qed.

(** Shutdown frees every live table once, and nothing else, and drops the
    registry. *)
Theorem shutdown_frees_all w ms (Hi : registry_inv w ms) :
  nvmeib_hash_free_all_tables w = Ok (World ∅ None (last_invocation w) (last_scanned_idx w)).
Proof. by apply (free_all_inv w ms). Qed.

(** A world with one table of the main thread. *)
Module OneTable.
Definition w : world :=
  match nvmeib_hash_create 4096 5 8 false world_init with Ok w => w | Fault _ => world_init end.
End OneTable.

Lemma one_table_created : nvmeib_hash_create 4096 5 8 false world_init = Ok OneTable.w.
Proof. vm_compute. reflexivity. Qed.
Lemma one_table_reachable : reachable OneTable.w.
Proof.
  apply (reachable_step world_init); [constructor|]. eapply step_create; [..|exact one_table_created]; [lia|done|].
  unfold MAX_ELEMENTS. cbn [tables world_init]. rewrite map_size_empty. lia.
Qed.
Lemma one_table_inv : registry_inv OneTable.w (<[4096 := ∅]> ∅).
Proof.
  destruct (create_inv world_init ∅ 4096 5 8 false) as (w & E & Hi & _); [by apply init_inv|lia|done| |].
  - unfold MAX_ELEMENTS. cbn [tables world_init]. rewrite map_size_empty. lia.
  - rewrite one_table_created in E. apply (f_equal (fun r => match r with Ok w => w | Fault _ => world_init end)) in E.
    cbv beta iota in E. by rewrite E.
Qed.

Lemma registry_tracks_tables_witness : ∃ ms, registry_inv OneTable.w ms ∧
    match all_active_hashs OneTable.w with
    | Some r => ∀ a, 0 < a < 2 ^ 64 →
        nvmeib_hash_search_uint64_t r a = Ok (if decide (is_Some (tables OneTable.w !! a)) then a else 0)
    | None => tables OneTable.w = ∅
    end.
Proof. apply (registry_tracks_tables OneTable.w). exact one_table_reachable. Defined.

Lemma idle_resize_keeps_contents_witness : ∃ w',
  nvmeib_hash_resize_all_tables_as_needed (fun _ => 3000000000) OneTable.w = Ok w' ∧
    dom (tables w') = dom (tables OneTable.w) ∧ all_active_hashs w' = all_active_hashs OneTable.w ∧
    contents (tables w') (<[4096 := ∅]> ∅).
Proof. apply (idle_resize_keeps_contents _ OneTable.w). exact one_table_inv. Defined.

Lemma shutdown_frees_all_witness : nvmeib_hash_free_all_tables OneTable.w =
  Ok (World ∅ None (last_invocation OneTable.w) (last_scanned_idx OneTable.w)).
Proof. apply (shutdown_frees_all OneTable.w (<[4096 := ∅]> ∅)). exact one_table_inv. Defined.
