(* ===== verification/Heap.v ===== *)
(** * The heap of timers

    Models [common/nvmeib_heap.c]: a binary heap of pointers to elements, ordered
    by [timestamp], in which every element records its index.  Elements are owned
    by the callers: they are kept in a store from addresses to elements, and a
    caller may change a timestamp before it calls [nvmeib_heap_relocate_element].
    An array read or a pointer outside these is a fault. *)
From stdpp Require Import base list gmap numbers.
From Stdlib Require Import ZArith Lia.
From S2P Require Import Prelude CMemory.
Local Open Scope Z_scope.

Record nvmeib_heap_element_t : Type := HeapElement { timestamp : Z; idx_in_heap_arr : Z }.
Abbreviation store := (gmap Z nvmeib_heap_element_t).
Record nvmeib_heap_t : Type := Heap {
  n_elements : nat;
  n_allocated_elements : nat;
  heap_arr : list Z
}.

(** The memory [realloc] adds holds no pointer yet. *)
Definition heap_realloc_as_needed (h : nvmeib_heap_t) : nvmeib_heap_t :=
  if (n_elements h =? n_allocated_elements h)%nat then
    let n := if (n_allocated_elements h <? 128)%nat then 128%nat else (2 * n_allocated_elements h)%nat in
    Heap (n_elements h) n (heap_arr h ++ replicate (n - length (heap_arr h)) 0)
  else h.

Definition deref (s : store) (p : Z) : res nvmeib_heap_element_t :=
  match s !! p with Some e => Ok e | None => Fault OOB end.
Definition ts_at (a : list Z) (s : store) (i : nat) : res Z := p ← aget a i; e ← deref s p; Ok (timestamp e).

Definition heap_assign_element (a : list Z) (s : store) (dst_idx : nat) (src : Z) : res (list Z * store) :=
  a ← aset a dst_idx src;
  e ← deref s src;
  Ok (a, <[src := HeapElement (timestamp e) (Z.of_nat dst_idx)]> s).
Definition heap_move_element (a : list Z) (s : store) (dst_idx src_idx : nat) : res (list Z * store) :=
  p ← aget a src_idx; heap_assign_element a s dst_idx p.

Definition nvmeib_heap_peek_top (h : nvmeib_heap_t) : res (option Z) :=
  if (n_elements h =? 0)%nat then Ok None else p ← aget (heap_arr h) 0; Ok (Some p).

Definition parent (i : nat) : nat := Nat.div2 (i - 1).

(** [i > 0 && ts < heap_arr[parent]->timestamp] *)
Definition before_parent (a : list Z) (s : store) (ts : Z) (i : nat) : res bool :=
  if (0 <? i)%nat then t ← ts_at a s (parent i); Ok (ts <? t) else Ok false.
Fixpoint trickle_up (fuel : nat) (a : list Z) (s : store) (ts : Z) (i : nat) : res (list Z * store * nat) :=
  b ← before_parent a s ts i;
  if b : bool then
    match fuel with
    | O => Fault NO_FUEL
    | S fuel => '(a, s) ← heap_move_element a s i (parent i); trickle_up fuel a s ts (parent i)
    end
  else Ok (a, s, i).

(** The loop over nodes with two children, then the node with one child. *)
Fixpoint trickle_down (fuel n : nat) (a : list Z) (s : store) (ts : Z) (i : nat) : res (list Z * store * nat) :=
  if (2 * i + 2 <? n)%nat then
    t1 ← ts_at a s (2 * i + 1);
    t2 ← ts_at a s (2 * i + 2);
    let c := if t1 <? t2 then (2 * i + 1)%nat else (2 * i + 2)%nat in
    tc ← ts_at a s c;
    if tc <? ts then
      match fuel with
      | O => Fault NO_FUEL
      | S fuel => '(a, s) ← heap_move_element a s i c; trickle_down fuel n a s ts c
      end
    else Ok (a, s, i)
  else Ok (a, s, i).
Definition trickle_last (n : nat) (a : list Z) (s : store) (ts : Z) (i : nat) : res (list Z * store * nat) :=
  if (2 * i + 2 =? n)%nat then
    t ← ts_at a s (2 * i + 1);
    if t <? ts then '(a, s) ← heap_move_element a s i (2 * i + 1); Ok (a, s, (2 * i + 1)%nat)
    else Ok (a, s, i)
  else Ok (a, s, i).

Definition nvmeib_heap_relocate_element (h : nvmeib_heap_t) (s : store) (x : Z) : res (nvmeib_heap_t * store) :=
  e ← deref s x;
  let i := Z.to_nat (idx_in_heap_arr e) in
  if idx_in_heap_arr e <? 0 then Fault OOB else
  let h := heap_realloc_as_needed h in
  up ← before_parent (heap_arr h) s (timestamp e) i;
  '(a, s, i) ←
    (if up : bool then trickle_up i (heap_arr h) s (timestamp e) i
     else
       '(a, s, i) ← trickle_down (n_elements h) (n_elements h) (heap_arr h) s (timestamp e) i;
       trickle_last (n_elements h) a s (timestamp e) i);
  '(a, s) ← heap_assign_element a s i x;
  Ok (Heap (n_elements h) (n_allocated_elements h) a, s).

Definition nvmeib_heap_remove_element (h : nvmeib_heap_t) (s : store) (x : Z) : res (nvmeib_heap_t * store) :=
  e ← deref s x;
  let i := Z.to_nat (idx_in_heap_arr e) in
  if (0 <? n_elements h)%nat then
    if idx_in_heap_arr e <? 0 then Fault OOB else
    '(a, s) ← heap_move_element (heap_arr h) s i (n_elements h - 1);
    y ← aget a i;
    nvmeib_heap_relocate_element (Heap (n_elements h - 1) (n_allocated_elements h) a) s y
  else Ok (h, s).

Definition nvmeib_heap_add_element (h : nvmeib_heap_t) (s : store) (x : Z) : res (nvmeib_heap_t * store) :=
  e ← deref s x;
  let h := heap_realloc_as_needed h in
  '(a, s, i) ← trickle_up (n_elements h) (heap_arr h) s (timestamp e) (n_elements h);
  '(a, s) ← heap_assign_element a s i x;
  Ok (Heap (n_elements h + 1) (n_allocated_elements h) a, s).

Definition make_heap (h : nvmeib_heap_t) (s : store) : res (nvmeib_heap_t * store) :=
  '(a, s) ← for_down (n_elements h - 1) (fun j '(a, s) =>
     let i := S j in
     tp ← ts_at a s (parent i);
     t ← ts_at a s i;
     if t <? tp then
       tmp ← aget a i;
       '(a, s) ← heap_move_element a s i (parent i);
       heap_assign_element a s (parent i) tmp
     else Ok (a, s)) (heap_arr h, s);
  Ok (Heap (n_elements h) (n_allocated_elements h) a, s).

(** ** Order in a heap with one misplaced position *)
Definition heap_ord (n : nat) (v : nat → Z) : Prop := ∀ j, (0 < j < n)%nat → v (parent j) ≤ v j.
Definition loose_ord (n : nat) (v : nat → Z) (i : nat) : Prop :=
  (∀ j, (0 < j < n)%nat → j ≠ i → parent j ≠ i → v (parent j) ≤ v j) ∧
  (∀ j, (0 < j < n)%nat → parent j = i → (0 < i)%nat → v (parent i) ≤ v j).
Definition swap (v : nat → Z) (i c : nat) : nat → Z :=
  fun j => if decide (j = i) then v c else if decide (j = c) then v i else v j.

Lemma parent_lt i : (0 < i)%nat → (parent i < i)%nat.
Proof. unfold parent. intros. pose proof (Nat.div2_decr (i - 1) (i - 1)). lia. Qed.
Lemma parent_child i j : (0 < j)%nat → parent j = i ↔ (j = 2 * i + 1 ∨ j = 2 * i + 2)%nat.
Proof.
  intros Hj. unfold parent. rewrite Nat.div2_div. split.
  - intros <-. pose proof (Nat.div_mod_eq (j - 1) 2). pose proof (Nat.mod_upper_bound (j - 1) 2). lia.
  - intros [-> | ->]; [replace (2 * i + 1 - 1)%nat with (i * 2)%nat by lia; by apply Nat.div_mul|].
    replace (2 * i + 2 - 1)%nat with (1 + i * 2)%nat by lia. by rewrite Nat.div_add.
Qed.
Lemma swap_l v i c : swap v i c i = v c.
Proof. unfold swap. by rewrite decide_True. Qed.
Lemma swap_r v i c : swap v i c c = v i.
Proof. unfold swap. case_decide; [by subst|]. by rewrite decide_True. Qed.
Lemma swap_ne v i c j : j ≠ i → j ≠ c → swap v i c j = v j.
Proof. intros. unfold swap. by rewrite !decide_False. Qed.

(** Moving a position that is smaller than its parent up. *)
Lemma up_ord n v i : (0 < i < n)%nat → v i < v (parent i) → loose_ord n v i →
  loose_ord n (swap v i (parent i)) (parent i) ∧
  (∀ j, (0 < j < n)%nat → parent j = parent i → swap v i (parent i) (parent i) ≤ swap v i (parent i) j).
Proof.
  intros Hi Hlt [H1 H2]. pose proof (parent_lt i ltac:(lia)) as Hp.
  assert (∀ j, (0 < j < n)%nat → parent j = parent i → j ≠ i → v (parent i) ≤ v j) as Hsib.
  { intros j Hj Hpj Hne. rewrite <-Hpj. apply H1; [done|done|lia]. }
  split; [split|].
  - intros j Hj Hne Hpar. destruct (decide (j = i)) as [->|Hji]; [done|]. rewrite (swap_ne _ _ _ j) by done.
    destruct (decide (parent j = i)) as [Hc|Hc]; [rewrite Hc, swap_l; by apply H2; [..|lia]|]. rewrite swap_ne by done. by apply H1.
  - intros j Hj Hpj Hp0. pose proof (parent_lt (parent i) Hp0). pose proof (H1 (parent i) ltac:(lia) ltac:(lia) ltac:(lia)).
    rewrite (swap_ne _ _ _ (parent (parent i))) by lia. destruct (decide (j = i)) as [->|Hji]; [by rewrite swap_l|].
    pose proof (parent_lt j ltac:(lia)). rewrite swap_ne by lia. pose proof (Hsib j Hj Hpj Hji). lia.
  - intros j Hj Hpj. rewrite swap_r. destruct (decide (j = i)) as [->|Hji]; [rewrite swap_l; lia|].
    pose proof (parent_lt j ltac:(lia)). rewrite swap_ne by lia. pose proof (Hsib j Hj Hpj Hji). lia.
Qed.

(** Moving a position that is larger than its smallest child [c] down. *)
Lemma down_ord n v i c : (0 < c < n)%nat → parent c = i → v c < v i → (∀ j, (0 < j < n)%nat → parent j = i → v c ≤ v j) →
  loose_ord n v i → loose_ord n (swap v i c) c ∧ swap v i c (parent c) ≤ swap v i c c.
Proof.
  intros Hc Hpc Hlt Hmin [H1 H2]. pose proof (parent_lt c ltac:(lia)) as Hic. rewrite Hpc in Hic. split; [split|].
  - intros j Hj Hne Hpar. destruct (decide (parent j = i)) as [Hpi|Hpi].
    + pose proof (parent_lt j ltac:(lia)). rewrite Hpi, swap_l, swap_ne by lia. by apply Hmin.
    + rewrite (swap_ne _ _ _ (parent j)) by done. destruct (decide (j = i)) as [->|Hji].
      * rewrite swap_l. apply H2; [done|done|lia].
      * rewrite swap_ne by done. by apply H1.
  - intros j Hj Hpj _. pose proof (parent_lt j ltac:(lia)). rewrite Hpc, swap_l, swap_ne by lia. rewrite <-Hpj. apply H1; lia.
  - rewrite Hpc, swap_l, swap_r. lia.
Qed.

Lemma loose_done n v i : loose_ord n v i → ((0 < i)%nat → v (parent i) ≤ v i) →
  (∀ j, (0 < j < n)%nat → parent j = i → v i ≤ v j) → heap_ord n v.
Proof.
  intros [H1 H2] Hup Hdown j Hj. destruct (decide (j = i)) as [->|Hji]; [apply Hup; lia|].
  destruct (decide (parent j = i)) as [Hp|Hp]; [rewrite Hp; by apply Hdown|by apply H1].
Qed.
Lemma heap_loose n v v' i : heap_ord n v → (∀ j, j ≠ i → v' j = v j) → loose_ord n v' i.
Proof.
  intros H Hv. split.
  - intros j Hj H1 H2. rewrite !Hv by done. by apply H.
  - intros j Hj Hp Hi. pose proof (parent_lt i Hi). pose proof (parent_lt j ltac:(lia)).
    rewrite !Hv by lia. etrans; [apply H|rewrite <-Hp; by apply H]. lia.
Qed.

(** ** The loops
    Position [i] is the hole [x] will be assigned to; [v] gives the timestamps of
    the array with [x] in the hole, [S] the elements, [s0] the store before. *)
Definition entry_ok (a : list Z) (s : store) (v : nat → Z) (j : nat) (y : Z) : Prop :=
  a !! j = Some y ∧ ∃ e, s !! y = Some e ∧ idx_in_heap_arr e = Z.of_nat j ∧ timestamp e = v j.
Record loop_ok (n : nat) (s0 : store) (x : Z) (X : gset Z) (a : list Z) (s : store) (i : nat) (v : nat → Z) : Prop := {
  lo_i : (i < n ≤ length a)%nat;
  lo_x : ∃ e, s !! x = Some e ∧ timestamp e = v i;
  lo_entry : ∀ j, (j < n)%nat → j ≠ i → ∃ y, y ≠ x ∧ entry_ok a s v j y;
  lo_mem : ∀ y, y ∈ X ↔ y = x ∨ ∃ j, (j < n)%nat ∧ j ≠ i ∧ a !! j = Some y;
  lo_ts : ∀ y, timestamp <$> s !! y = timestamp <$> s0 !! y;
  lo_frame : ∀ y, y ∉ X → s !! y = s0 !! y
}.
Arguments lo_i {_ _ _ _ _ _ _ _} _. Arguments lo_x {_ _ _ _ _ _ _ _} _. Arguments lo_entry {_ _ _ _ _ _ _ _} _.
Arguments lo_mem {_ _ _ _ _ _ _ _} _. Arguments lo_ts {_ _ _ _ _ _ _ _} _. Arguments lo_frame {_ _ _ _ _ _ _ _} _.

Section loops.
Context (n : nat) (s0 : store) (x : Z) (X : gset Z).
#[local] Abbreviation loop := (loop_ok n s0 x X).

Lemma ts_at_ok a s i v j : loop a s i v → (j < n)%nat → j ≠ i → ts_at a s j = Ok (v j).
Proof.
  intros H Hj Hne. destruct (lo_entry H j Hj Hne) as (y & _ & Ha & e & Hs & _ & Ht).
  unfold ts_at. rewrite (proj2 (aget_ok _ _ _) Ha). rstep. unfold deref. rewrite Hs. rstep. by rewrite Ht.
Qed.

Lemma move_ok a s i v c : loop a s i v → (c < n)%nat → c ≠ i →
  ∃ a' s', heap_move_element a s i c = Ok (a', s') ∧ loop a' s' c (swap v i c) ∧ length a' = length a.
Proof.
  intros H Hc Hne. destruct (lo_entry H c Hc Hne) as (y & Hyx & Ha & e & Hs & Hidx & Ht). pose proof (lo_i H) as Hi.
  unfold heap_move_element, heap_assign_element. rewrite (proj2 (aget_ok _ _ _) Ha). rstep. rewrite aset_ok by lia. rstep.
  unfold deref. rewrite Hs. rstep. do 2 eexists. split; [done|]. split; [|apply length_insert]. split.
  - rewrite length_insert. lia.
  - destruct (lo_x H) as (ex & Hx & Hxt). exists ex. rewrite swap_r, lookup_insert_ne by done. done.
  - intros j Hj Hjc. destruct (decide (j = i)) as [->|Hji].
    + exists y. split; [done|]. split; [apply list_lookup_insert_eq; lia|]. eexists. rewrite lookup_insert_eq. split; [done|].
      split; [done|]. by rewrite swap_l.
    + destruct (lo_entry H j Hj Hji) as (y' & Hyx' & Ha' & e' & Hs' & Hidx' & Ht'). exists y'. split; [done|].
      split; [by rewrite list_lookup_insert_ne|]. assert (y ≠ y') by (intros <-; rewrite Hs in Hs'; injection Hs' as <-; lia).
      exists e'. rewrite lookup_insert_ne by done. by rewrite swap_ne.
  - intros z. rewrite (lo_mem H). split; (intros [->|(j & Hj & Hji & Haj)]; [by left|]).
    + right. destruct (decide (j = c)) as [->|Hjc]; [exists i|exists j].
      * split; [lia|]. split; [done|]. rewrite list_lookup_insert_eq by lia. congruence.
      * split; [done|]. split; [done|]. by rewrite list_lookup_insert_ne.
    + right. destruct (decide (j = i)) as [->|Hne'].
      * rewrite list_lookup_insert_eq in Haj by lia. injection Haj as <-. by exists c.
      * rewrite list_lookup_insert_ne in Haj by done. by exists j.
  - intros z. rewrite <-(lo_ts H). destruct (decide (z = y)) as [->|]; [by rewrite lookup_insert_eq, Hs|by rewrite lookup_insert_ne].
  - intros z Hz. rewrite <-(lo_frame H) by done. apply lookup_insert_ne. intros <-. apply Hz, (lo_mem H). right. by exists c.
Qed.

Lemma before_parent_ok a s i v ts : loop a s i v → before_parent a s ts i = Ok (bool_decide (0 < i)%nat && (ts <? v (parent i))).
Proof.
  intros H. unfold before_parent. destruct (Nat.ltb_spec 0 i) as [Hi|Hi].
  - pose proof (parent_lt i Hi). pose proof (lo_i H). rewrite (ts_at_ok a s i v) by (done || lia). rstep. by rewrite bool_decide_true.
  - by rewrite bool_decide_false by lia.
Qed.

Lemma trickle_up_ok ts fuel a s i v : loop a s i v → v i = ts → loose_ord n v i →
  (∀ j, (0 < j < n)%nat → parent j = i → v i ≤ v j) → (i ≤ fuel)%nat →
  ∃ a' s' i' v', trickle_up fuel a s ts i = Ok (a', s', i') ∧ loop a' s' i' v' ∧ heap_ord n v' ∧ length a' = length a.
Proof.
  revert a s i v. induction fuel as [|fuel IH]; intros a s i v H Hts Ho Hch Hf.
  all: cbn [trickle_up]; rewrite (before_parent_ok a s i v) by done; rstep; pose proof (lo_i H) as Hi.
  all: destruct (bool_decide_reflect (0 < i)%nat) as [Hi0|Hi0]; cbn [andb].
  1: lia.
  1,3: exists a, s, i, v; split; [done|]; split; [done|]; split; [|done]; apply (loose_done n v i); [done|lia|done].
  destruct (Z.ltb_spec ts (v (parent i))) as [Hlt|Hge].
  - pose proof (parent_lt i Hi0). destruct (move_ok a s i v (parent i) H) as (a1 & s1 & -> & H1 & Hl1); [lia|lia|]. rstep.
    destruct (up_ord n v i ltac:(lia) ltac:(lia) Ho) as [Ho1 Hch1].
    destruct (IH a1 s1 (parent i) _ H1) as (a2 & s2 & i2 & v2 & E & H2 & Ho2 & Hl2); [by rewrite swap_r|done|done|lia|].
    exists a2, s2, i2, v2. split; [done|]. split; [done|]. split; [done|congruence].
  - exists a, s, i, v. split; [done|]. split; [done|]. split; [|done]. apply (loose_done n v i); [done|lia|done].
Qed.

(** Where the loop towards the leaves stops: at a node that is not larger than
    its children, or has fewer than two. *)
Lemma trickle_down_ok ts fuel a s i v : loop a s i v → v i = ts → loose_ord n v i →
  ((0 < i)%nat → v (parent i) ≤ v i) → (n ≤ i + fuel)%nat →
  ∃ a' s' i' v', trickle_down fuel n a s ts i = Ok (a', s', i') ∧ loop a' s' i' v' ∧ v' i' = ts ∧ loose_ord n v' i' ∧
    ((0 < i')%nat → v' (parent i') ≤ v' i') ∧ length a' = length a ∧
    ((2 * i' + 2 < n)%nat → ∀ j, (0 < j < n)%nat → parent j = i' → ts ≤ v' j).
Proof.
  revert a s i v. induction fuel as [|fuel IH]; intros a s i v H Hts Ho Hup Hf; cbn [trickle_down]; pose proof (lo_i H) as Hi; [lia|].
  destruct (Nat.ltb_spec (2 * i + 2) n) as [H2|H2].
  2:{ exists a, s, i, v. split_and!; try done. intros; lia. }
  rewrite !(ts_at_ok a s i v) by (done || lia). rstep.
  set (c := if v (2 * i + 1)%nat <? v (2 * i + 2)%nat then (2 * i + 1)%nat else (2 * i + 2)%nat).
  assert ((c = 2 * i + 1 ∨ c = 2 * i + 2)%nat ∧ v c ≤ v (2 * i + 1)%nat ∧ v c ≤ v (2 * i + 2)%nat) as (Hc & Hc1 & Hc2).
  { unfold c. destruct (Z.ltb_spec (v (2 * i + 1)%nat) (v (2 * i + 2)%nat)); split_and!; auto; lia. }
  assert (∀ j, (0 < j < n)%nat → parent j = i → v c ≤ v j) as Hmin.
  { intros j Hj [-> | ->]%parent_child; [done|done|lia]. }
  rewrite (ts_at_ok a s i v) by (done || lia). rstep. destruct (Z.ltb_spec (v c) ts) as [Hlt|Hge].
  - destruct (move_ok a s i v c H) as (a1 & s1 & -> & H1 & Hl1); [lia|lia|]. rstep.
    destruct (down_ord n v i c ltac:(lia)) as [Ho1 Hup1]; [by apply parent_child; [lia|]|lia|done|done|].
    destruct (IH a1 s1 c _ H1) as (a2 & s2 & i2 & v2 & E & K1 & K2 & K3 & K4 & K5 & K6); [by rewrite swap_r|done|by intros|lia|].
    exists a2, s2, i2, v2. split; [done|]. split_and!; try done. congruence.
  - exists a, s, i, v. split_and!; try done. intros _ j Hj Hp. specialize (Hmin j Hj Hp). lia.
Qed.

Lemma trickle_last_ok ts a s i v : loop a s i v → v i = ts → loose_ord n v i → ((0 < i)%nat → v (parent i) ≤ v i) →
  ((2 * i + 2 < n)%nat → ∀ j, (0 < j < n)%nat → parent j = i → ts ≤ v j) →
  ∃ a' s' i' v', trickle_last n a s ts i = Ok (a', s', i') ∧ loop a' s' i' v' ∧ heap_ord n v' ∧ length a' = length a.
Proof.
  intros H Hts Ho Hup Hdown. unfold trickle_last. pose proof (lo_i H) as Hi. destruct (Nat.eqb_spec (2 * i + 2) n) as [He|He].
  - rewrite (ts_at_ok a s i v) by (done || lia). rstep.
    assert (∀ j, (0 < j < n)%nat → parent j = i → j = (2 * i + 1)%nat) as Honly by (intros j Hj [-> | ->]%parent_child; lia).
    destruct (Z.ltb_spec (v (2 * i + 1)%nat) ts) as [Hlt|Hge].
    + destruct (move_ok a s i v (2 * i + 1) H) as (a1 & s1 & -> & H1 & Hl1); [lia|lia|]. rstep.
      destruct (down_ord n v i (2 * i + 1) ltac:(lia)) as [Ho1 Hup1]; [by apply parent_child; [lia|left]|lia| |done|].
      { intros j Hj Hp. by rewrite (Honly j Hj Hp). }
      do 4 eexists. split; [done|]. split; [exact H1|]. split; [|done]. apply (loose_done n _ (2 * i + 1)); [done|by intros|].
      intros j Hj [-> | ->]%parent_child; lia.
    + exists a, s, i, v. split; [done|]. split; [done|]. split; [|done]. apply (loose_done n v i); [done|done|].
      intros j Hj Hp. rewrite (Honly j Hj Hp). lia.
  - exists a, s, i, v. split; [done|]. split; [done|]. split; [|done]. apply (loose_done n v i); [done|done|].
    intros j Hj Hp. destruct (decide (2 * i + 2 < n)%nat) as [Hlt|Hge]; [rewrite Hts; by apply Hdown|].
    apply parent_child in Hp as [-> | ->]; lia.
Qed.
End loops.

(** ** Heaps as priority queues *)
Record heap_rep (h : nvmeib_heap_t) (s : store) (X : gset Z) : Prop := {
  hr_len : length (heap_arr h) = n_allocated_elements h;
  hr_n : (n_elements h ≤ n_allocated_elements h)%nat;
  hr_order : ∃ v, (∀ j, (j < n_elements h)%nat → ∃ y, entry_ok (heap_arr h) s v j y) ∧ heap_ord (n_elements h) v;
  hr_mem : ∀ y, y ∈ X ↔ ∃ j, (j < n_elements h)%nat ∧ heap_arr h !! j = Some y
}.
Arguments hr_len {_ _ _} _. Arguments hr_n {_ _ _} _. Arguments hr_order {_ _ _} _. Arguments hr_mem {_ _ _} _.

(** Timestamps are kept, and elements outside the heap are untouched. *)
Definition frame (s s' : store) (X : gset Z) : Prop :=
  (∀ y, timestamp <$> s' !! y = timestamp <$> s !! y) ∧ (∀ y, y ∉ X → s' !! y = s !! y).

Lemma assign_ok n s0 x X a s i v m : loop_ok n s0 x X a s i v → heap_ord n v → length a = m →
  ∃ a' s', heap_assign_element a s i x = Ok (a', s') ∧ heap_rep (Heap n m a') s' X ∧ frame s0 s' X.
Proof.
  intros H Ho Hm. pose proof (lo_i H) as Hi. destruct (lo_x H) as (e & Hx & Ht). unfold heap_assign_element.
  rewrite aset_ok by lia. rstep. unfold deref. rewrite Hx. rstep. do 2 eexists. split; [done|]. split; [split|split]; cbn [n_elements n_allocated_elements heap_arr].
  - by rewrite length_insert.
  - lia.
  - exists v. split; [|done]. intros j Hj. destruct (decide (j = i)) as [->|Hne].
    + exists x. split; [apply list_lookup_insert_eq; lia|]. eexists. by rewrite lookup_insert_eq.
    + destruct (lo_entry H j Hj Hne) as (y & Hyx & Ha & ey & Hs & Hidx & Hty). exists y.
      split; [by rewrite list_lookup_insert_ne|]. exists ey. by rewrite lookup_insert_ne.
  - intros y. rewrite (lo_mem H). split.
    + intros [->|(j & Hj & Hne & Ha)]; [exists i; rewrite list_lookup_insert_eq by lia; split; [lia|done]|].
      exists j. by rewrite list_lookup_insert_ne.
    + intros (j & Hj & Ha). destruct (decide (j = i)) as [->|Hne].
      * rewrite list_lookup_insert_eq in Ha by lia. injection Ha as ->. by left.
      * rewrite list_lookup_insert_ne in Ha by done. right. by exists j.
  - intros y. rewrite <-(lo_ts H). destruct (decide (y = x)) as [->|]; [by rewrite lookup_insert_eq, Hx|by rewrite lookup_insert_ne].
  - intros y Hy. rewrite <-(lo_frame H) by done. apply lookup_insert_ne. intros <-. apply Hy, (lo_mem H). by left.
Qed.

Definition upd_at (v : nat → Z) (i : nat) (t : Z) : nat → Z := fun j => if decide (j = i) then t else v j.
Lemma upd_at_eq v i t : upd_at v i t i = t.
Proof. unfold upd_at. by rewrite decide_True. Qed.
Lemma upd_at_ne v i t j : j ≠ i → upd_at v i t j = v j.
Proof. intros. unfold upd_at. by rewrite decide_False. Qed.

Lemma realloc_cases h : length (heap_arr h) = n_allocated_elements h → (n_elements h ≤ n_allocated_elements h)%nat →
  ∃ pad, heap_arr (heap_realloc_as_needed h) = heap_arr h ++ pad ∧
    n_elements (heap_realloc_as_needed h) = n_elements h ∧
    length (heap_arr (heap_realloc_as_needed h)) = n_allocated_elements (heap_realloc_as_needed h) ∧
    (n_elements h < n_allocated_elements (heap_realloc_as_needed h))%nat.
Proof.
  intros Hl Hn. unfold heap_realloc_as_needed. destruct (Nat.eqb_spec (n_elements h) (n_allocated_elements h)) as [He|He].
  - eexists. split; [done|]. split; [done|]. cbn [heap_arr n_allocated_elements]. rewrite length_app, length_replicate.
    destruct (Nat.ltb_spec (n_allocated_elements h) 128); lia.
  - exists []. rewrite app_nil_r. split; [done|]. split; [done|]. split; [done|lia].
Qed.
Lemma loop_app n s0 x X a pad s i v : loop_ok n s0 x X a s i v → loop_ok n s0 x X (a ++ pad) s i v.
Proof.
  intros H. pose proof (lo_i H) as Hi. split; try apply H.
  - rewrite length_app. lia.
  - intros j Hj Hne. destruct (lo_entry H j Hj Hne) as (y & Hy & Ha & He). exists y. split; [done|]. split; [|done]. by apply lookup_app_l_Some.
  - intros y. rewrite (lo_mem H). split; (intros [->|(j & Hj & Hne & Ha)]; [by left|right; exists j; split; [done|]; split; [done|]]).
    + by apply lookup_app_l_Some.
    + by rewrite lookup_app_l in Ha by lia.
Qed.

(** Relocation of an element whose position may be wrong. *)
Lemma relocate_gen h s x X e v : loop_ok (n_elements h) s x X (heap_arr h) s (Z.to_nat (idx_in_heap_arr e)) v →
  length (heap_arr h) = n_allocated_elements h → s !! x = Some e → 0 ≤ idx_in_heap_arr e →
  loose_ord (n_elements h) v (Z.to_nat (idx_in_heap_arr e)) →
  ∃ h' s', nvmeib_heap_relocate_element h s x = Ok (h', s') ∧ heap_rep h' s' X ∧ frame s s' X ∧ n_elements h' = n_elements h.
Proof.
  intros H Hlen Hx Hidx Ho. unfold nvmeib_heap_relocate_element, deref at 1. rewrite Hx. rstep. cbv zeta.
  rewrite (proj2 (Z.ltb_ge _ _)) by lia. set (i := Z.to_nat (idx_in_heap_arr e)) in *.
  pose proof (lo_i H) as Hi. destruct (realloc_cases h Hlen ltac:(lia)) as (pad & Ha & Hn & Hl & _).
  set (h1 := heap_realloc_as_needed h) in *. apply (loop_app _ _ _ _ _ pad) in H. rewrite <-Ha in H. rewrite <-Hn in H, Ho |- *.
  destruct (lo_x H) as (e' & Hx' & Ht). rewrite Hx in Hx'. injection Hx' as <-.
  rewrite (before_parent_ok _ _ _ _ _ _ _ v _ H). rstep.
  assert (∃ a' s' i' v', (if bool_decide (0 < i)%nat && (timestamp e <? v (parent i)) then trickle_up i (heap_arr h1) s (timestamp e) i
     else '(a, s, i) ← trickle_down (n_elements h1) (n_elements h1) (heap_arr h1) s (timestamp e) i;
          trickle_last (n_elements h1) a s (timestamp e) i) = Ok (a', s', i') ∧
     loop_ok (n_elements h1) s x X a' s' i' v' ∧ heap_ord (n_elements h1) v' ∧ length a' = length (heap_arr h1))
    as (a' & s' & i' & v' & -> & H' & Ho' & Hl').
  { destruct (bool_decide (0 < i)%nat && (timestamp e <? v (parent i))) eqn:Eb.
    - apply andb_true_iff in Eb as [Hi0%bool_decide_eq_true Hlt%Z.ltb_lt].
      apply (trickle_up_ok _ _ _ _ _ _ _ _ _ v); try done. intros j Hj Hp. destruct Ho as [_ Ho2]. specialize (Ho2 j Hj Hp Hi0). lia.
    - destruct (trickle_down_ok (n_elements h1) s x X (timestamp e) (n_elements h1) (heap_arr h1) s i v)
        as (a1 & s1 & i1 & v1 & -> & K1 & K2 & K3 & K4 & K5 & K6); try done; [|lia|].
      + intros Hi0. rewrite bool_decide_true in Eb by done. cbn [andb] in Eb. lia.
      + rstep. rewrite <-K5. by apply (trickle_last_ok (n_elements h1) s x X _ _ _ _ v1). }
  rstep. destruct (assign_ok _ _ _ _ _ _ _ _ (n_allocated_elements h1) H' Ho') as (a2 & s2 & -> & Hrep & Hfr); [congruence|]. rstep.
  do 2 eexists. split; [done|]. done.
Qed.

Lemma rep_loop h s X i x v : (∀ j, (j < n_elements h)%nat → ∃ y, entry_ok (heap_arr h) s v j y) → heap_rep h s X →
  (i < n_elements h)%nat → heap_arr h !! i = Some x → ∀ j, (j < n_elements h)%nat → j ≠ i → ∃ y, y ≠ x ∧ entry_ok (heap_arr h) s v j y.
Proof.
  intros Hv H Hi Hx j Hj Hne. destruct (Hv j Hj) as (y & Hy). exists y. split; [|done]. intros ->.
  destruct (Hv i Hi) as (x' & Hx' & e & He & Hidx & _). rewrite Hx in Hx'. injection Hx' as <-.
  destruct Hy as (_ & e' & He' & Hidx' & _). rewrite He in He'. injection He' as <-. lia.
Qed.

Lemma relocate_ok h s X x e ts : heap_rep h s X → x ∈ X → s !! x = Some e →
  ∃ h' s', nvmeib_heap_relocate_element h (<[x := HeapElement ts (idx_in_heap_arr e)]> s) x = Ok (h', s') ∧ heap_rep h' s' X ∧
    frame (<[x := HeapElement ts (idx_in_heap_arr e)]> s) s' X.
Proof.
  intros H Hx He. destruct (hr_order H) as (v & Hv & Ho). pose proof (hr_n H). pose proof (hr_len H).
  apply (hr_mem H) in Hx as (i & Hi & Ha). destruct (Hv i Hi) as (x' & Ha' & e' & He' & Hidx & Ht). rewrite Ha in Ha'. injection Ha' as <-.
  rewrite He in He'. injection He' as <-.
  destruct (relocate_gen h (<[x := HeapElement ts (idx_in_heap_arr e)]> s) x X (HeapElement ts (idx_in_heap_arr e)) (upd_at v i ts)) as (h' & s' & K1 & K2 & K3 & _);
    cbn [idx_in_heap_arr]; rewrite ?Hidx, ?Nat2Z.id.
  - split; [lia| | | |done|done].
    + eexists. rewrite lookup_insert_eq, upd_at_eq. done.
    + intros j Hj Hne. destruct (rep_loop h s X i x v Hv H Hi Ha j Hj Hne) as (y & Hyx & Hay & ey & Hey & Hiy & Hty).
      exists y. split; [done|]. split; [done|]. exists ey. by rewrite lookup_insert_ne, upd_at_ne.
    + intros y. rewrite (hr_mem H). split.
      * intros (j & Hj & Hy). destruct (decide (j = i)) as [->|]; [left; congruence|right; by exists j].
      * intros [->|(j & Hj & _ & Hy)]; [by exists i|by exists j].
  - done.
  - by rewrite lookup_insert_eq.
  - lia.
  - apply (heap_loose _ v); [done|]. intros j Hj. by apply upd_at_ne.
  - rewrite Hidx in K1, K3. by exists h', s'.
Qed.

Lemma heap_add_ok h s X x e : heap_rep h s X → x ∉ X → s !! x = Some e →
  ∃ h' s', nvmeib_heap_add_element h s x = Ok (h', s') ∧ heap_rep h' s' (X ∪ {[x]}) ∧ frame s s' (X ∪ {[x]}).
Proof.
  intros H Hx He. destruct (hr_order H) as (v & Hv & Ho). pose proof (hr_n H) as Hn. pose proof (hr_len H) as Hlen.
  unfold nvmeib_heap_add_element, deref at 1. rewrite He. rstep. cbv zeta. destruct (realloc_cases h Hlen Hn) as (pad & Ha & Hn' & Hl & Hroom).
  set (h1 := heap_realloc_as_needed h) in *. set (n := n_elements h) in *. rewrite Hn'.
  assert (∀ j y, (j < n)%nat → heap_arr h1 !! j = Some y ↔ heap_arr h !! j = Some y) as Hold by (intros; rewrite Ha, lookup_app_l by lia; done).
  assert (loop_ok (n + 1) s x (X ∪ {[x]}) (heap_arr h1) s n (upd_at v n (timestamp e))) as Hloop.
  { split; [lia| | | |done|done].
    - exists e. by rewrite upd_at_eq.
    - intros j Hj Hne. destruct (Hv j ltac:(lia)) as (y & Hy & ey & Hey & Hiy & Hty). exists y. split.
      + intros ->. apply Hx, (hr_mem H). exists j. split; [fold n; lia|done].
      + split; [by apply Hold; [lia|]|]. exists ey. by rewrite upd_at_ne.
    - intros y. rewrite elem_of_union, elem_of_singleton, (hr_mem H). fold n. split.
      + intros [(j & Hj & Hy)| ->]; [right|by left]. exists j. split; [lia|]. split; [lia|by apply Hold].
      + intros [->|(j & Hj & Hne & Hy)]; [by right|left]. exists j. split; [lia|]. by apply Hold; [lia|]. }
  destruct (trickle_up_ok (n + 1) s x (X ∪ {[x]}) (timestamp e) n (heap_arr h1) s n (upd_at v n (timestamp e)) Hloop)
    as (a1 & s1 & i1 & v1 & -> & H1 & Ho1 & Hl1); [apply upd_at_eq| | |done|].
  { split; intros j Hj; [|intros Hp; pose proof (parent_lt j ltac:(lia)); lia]. intros Hne Hp. pose proof (parent_lt j ltac:(lia)).
    rewrite !upd_at_ne by lia. apply Ho. fold n. lia. }
  { intros j Hj Hp. pose proof (parent_lt j ltac:(lia)). lia. }
  rstep. destruct (assign_ok _ _ _ _ _ _ _ _ (n_allocated_elements h1) H1 Ho1) as (a2 & s2 & -> & Hrep & Hfr); [congruence|].
  rstep. by do 2 eexists.
Qed.

(** Removing the last element of the array leaves the rest as it is. *)
Lemma remove_last h s X x e n : heap_rep h s X → n_elements h = S n → heap_arr h !! n = Some x → s !! x = Some e →
  idx_in_heap_arr e = Z.of_nat n →
  nvmeib_heap_relocate_element (Heap n (n_allocated_elements h) (heap_arr h)) s x = Ok (Heap n (n_allocated_elements h) (heap_arr h), s).
Proof.
  intros H Hn Ha He Hidx. destruct (hr_order H) as (v & Hv & Ho). pose proof (hr_n H) as Hle. pose proof (hr_len H) as Hlen.
  unfold nvmeib_heap_relocate_element, deref at 1. rewrite He. rstep. cbv zeta. rewrite Hidx, Nat2Z.id, (proj2 (Z.ltb_ge _ _)) by lia.
  unfold heap_realloc_as_needed. cbn [n_elements n_allocated_elements heap_arr]. rewrite (proj2 (Nat.eqb_neq _ _)) by lia.
  cbn [n_elements n_allocated_elements heap_arr].
  assert (before_parent (heap_arr h) s (timestamp e) n = Ok false) as ->.
  { unfold before_parent. destruct (Nat.ltb_spec 0 n) as [H0|H0]; [|done]. pose proof (parent_lt n H0).
    destruct (Hv (parent n) ltac:(lia)) as (y & Hy & ey & Hey & _ & Hty). destruct (Hv n ltac:(lia)) as (x' & Hx' & e' & He' & _ & Ht').
    rewrite Ha in Hx'. injection Hx' as <-. rewrite He in He'. injection He' as <-. pose proof (Ho n ltac:(lia)).
    unfold ts_at. rewrite (proj2 (aget_ok _ _ _) Hy). rstep. unfold deref. rewrite Hey. rstep. rewrite (proj2 (Z.ltb_ge _ _)); [done|lia]. }
  rstep. destruct n as [|n]; cbn [trickle_down]; rewrite (proj2 (Nat.ltb_ge _ _)) by lia.
  all: rstep; unfold trickle_last; rewrite (proj2 (Nat.eqb_neq _ _)) by lia; rstep.
  all: unfold heap_assign_element; rewrite aset_ok by lia; rstep; unfold deref; rewrite He; rstep.
  all: rewrite list_insert_id by done; rewrite insert_id; [done|]; by destruct e; cbn in *; subst.
Qed.

Lemma entry_distinct h s X v i x j : (∀ j, (j < n_elements h)%nat → ∃ y, entry_ok (heap_arr h) s v j y) → heap_rep h s X →
  (i < n_elements h)%nat → (j < n_elements h)%nat → heap_arr h !! i = Some x → heap_arr h !! j = Some x → i = j.
Proof.
  intros Hv H Hi Hj Hx Hy. destruct (decide (i = j)) as [|Hne]; [done|].
  destruct (rep_loop h s X i x v Hv H Hi Hx j Hj ltac:(done)) as (y & Hyx & Hy' & _). congruence.
Qed.

Lemma remove_last_rep h s X x n : heap_rep h s X → n_elements h = S n → heap_arr h !! n = Some x →
  heap_rep (Heap n (n_allocated_elements h) (heap_arr h)) s (X ∖ {[x]}).
Proof.
  intros H Hn Ha. destruct (hr_order H) as (v & Hv & Ho). pose proof (hr_n H) as Hle. pose proof (hr_len H) as Hlen.
  split; cbn [n_elements heap_arr n_allocated_elements]; [done|lia| |].
  - exists v. split; [intros j Hj; apply Hv; lia|intros j Hj; apply Ho; lia].
  - intros z. rewrite elem_of_difference, elem_of_singleton, (hr_mem H), Hn. split.
    + intros [(j & Hj & Hz) Hzx]. exists j. split; [|done]. destruct (decide (j = n)) as [->|]; [congruence|lia].
    + intros (j & Hj & Hz). split; [exists j; split; [lia|done]|]. intros ->.
      pose proof (entry_distinct h s X v n x j Hv H ltac:(lia) ltac:(lia) Ha Hz). lia.
Qed.

(** Putting the last element in the place of [x]. *)
Lemma remove_hole h s X x y ey i n v : heap_rep h s X → n_elements h = S n → (∀ j, (j < S n)%nat → ∃ y, entry_ok (heap_arr h) s v j y) →
  heap_arr h !! i = Some x → heap_arr h !! n = Some y → s !! y = Some ey → timestamp ey = v n → (i < n)%nat →
  let s1 := <[y := HeapElement (timestamp ey) (Z.of_nat i)]> s in
  loop_ok n s1 y (X ∖ {[x]}) (<[i := y]> (heap_arr h)) s1 i (upd_at v i (v n)).
Proof.
  intros H Hn Hv Ha Hy Hey Hty Hi s1. pose proof (hr_n H) as Hle. pose proof (hr_len H) as Hlen. rewrite <-Hn in Hv.
  split; [rewrite length_insert; lia| | | |done|done].
  - eexists. unfold s1. by rewrite lookup_insert_eq, upd_at_eq.
  - intros j Hj Hji. destruct (rep_loop h s X n y v Hv H ltac:(lia) Hy j ltac:(lia) ltac:(lia)) as (z & Hz & Hzj & ez & Hez & Hiz & Htz).
    exists z. split; [done|]. unfold s1. split; [by rewrite list_lookup_insert_ne|]. exists ez. by rewrite lookup_insert_ne, upd_at_ne.
  - intros z. rewrite elem_of_difference, elem_of_singleton, (hr_mem H), Hn. split.
    + intros [(j & Hj & Hz) Hzx]. destruct (decide (j = n)) as [->|Hjn]; [left; congruence|]. right.
      assert (j ≠ i) by congruence. exists j. split; [lia|]. split; [done|]. by rewrite list_lookup_insert_ne.
    + assert (∀ j, (j < S n)%nat → heap_arr h !! j = Some x → i = j) as Hd.
      { intros j Hj. apply (entry_distinct h s X v i x j Hv H); [lia|lia|done]. }
      intros [->|(j & Hj & Hji & Hz)].
      * split; [exists n; split; [lia|done]|]. intros ->. specialize (Hd n ltac:(lia) Hy). lia.
      * rewrite list_lookup_insert_ne in Hz by done. split; [exists j; split; [lia|done]|]. intros ->. specialize (Hd j ltac:(lia) Hz). done.
Qed.

Lemma remove_ok h s X x : heap_rep h s X → x ∈ X →
  ∃ h' s', nvmeib_heap_remove_element h s x = Ok (h', s') ∧ heap_rep h' s' (X ∖ {[x]}) ∧ frame s s' X.
Proof.
  intros H Hx. destruct (hr_order H) as (v & Hv & Ho). pose proof (hr_n H) as Hle. pose proof (hr_len H) as Hlen.
  apply (hr_mem H) in Hx as (i & Hi & Ha). destruct (Hv i Hi) as (x' & Ha' & e & He & Hidx & Ht). rewrite Ha in Ha'. injection Ha' as <-.
  destruct (n_elements h) as [|n] eqn:Hn; [lia|]. destruct (Hv n ltac:(lia)) as (y & Hy & ey & Hey & Hiy & Hty).
  unfold nvmeib_heap_remove_element, deref at 1. rewrite He. rstep. cbv zeta. rewrite Hn, Hidx, Nat2Z.id, (proj2 (Z.ltb_ge _ _)) by lia.
  cbn [Nat.ltb Nat.leb]. replace (S n - 1)%nat with n by lia. unfold heap_move_element, heap_assign_element.
  rewrite (proj2 (aget_ok _ _ _) Hy). rstep. rewrite aset_ok by lia. rstep. unfold deref. rewrite Hey. rstep.
  rewrite (proj2 (aget_ok _ _ _) (list_lookup_insert_eq (heap_arr h) i y ltac:(lia))). rstep.
  destruct (decide (i = n)) as [->|Hne].
  - rewrite Ha in Hy. injection Hy as <-. rewrite He in Hey. injection Hey as <-.
    rewrite list_insert_id by done. rewrite insert_id by (rewrite <-Hidx; by destruct e).
    rewrite (remove_last h s X x e n) by done. do 2 eexists. split; [done|]. split; [by apply remove_last_rep|done].
  - pose proof (remove_hole h s X x y ey i n v H Hn Hv Ha Hy Hey Hty ltac:(lia)) as Hloop. cbv zeta in Hloop.
    set (s1 := <[y := _]> s) in *.
    destruct (relocate_gen (Heap n (n_allocated_elements h) (<[i := y]> (heap_arr h))) s1 y (X ∖ {[x]}) (HeapElement (timestamp ey) (Z.of_nat i)) (upd_at v i (v n)))
      as (h' & s' & -> & Hrep & [Hf1 Hf2] & _); cbn [n_elements n_allocated_elements heap_arr idx_in_heap_arr]; rewrite ?Nat2Z.id; try done; [..|].
    + by rewrite length_insert.
    + unfold s1. by rewrite lookup_insert_eq.
    + lia.
    + apply (heap_loose n v); [intros j Hj; apply Ho; lia|]. intros j Hj. by apply upd_at_ne.
    + do 2 eexists. split; [done|]. split; [done|]. split.
      * intros z. rewrite Hf1. unfold s1. destruct (decide (z = y)) as [->|]; [by rewrite lookup_insert_eq, Hey|by rewrite lookup_insert_ne].
      * intros z Hz. assert (z ≠ y) by (intros ->; apply Hz, (hr_mem H); exists n; rewrite Hn; split; [lia|done]).
        rewrite Hf2 by set_solver. unfold s1. by rewrite lookup_insert_ne.
Qed.

(** The top of the heap. *)
Lemma heap_ord_top n v : heap_ord n v → ∀ j, (j < n)%nat → v 0%nat ≤ v j.
Proof.
  intros H j. induction (lt_wf j) as [j _ IH]. intros Hj. destruct (decide (j = 0%nat)) as [->|Hne]; [done|].
  pose proof (parent_lt j ltac:(lia)). etrans; [apply (IH (parent j)); lia|]. apply H. lia.
Qed.
Lemma peek_ok h s X : heap_rep h s X →
  match nvmeib_heap_peek_top h with
  | Ok None => X = ∅
  | Ok (Some x) => x ∈ X ∧ ∃ e, s !! x = Some e ∧ ∀ y ey, y ∈ X → s !! y = Some ey → timestamp e ≤ timestamp ey
  | Fault _ => False
  end.
Proof.
  intros H. destruct (hr_order H) as (v & Hv & Ho). unfold nvmeib_heap_peek_top. destruct (Nat.eqb_spec (n_elements h) 0) as [Hn|Hn].
  - apply set_eq. intros y. rewrite (hr_mem H), elem_of_empty. split; [|done]. intros (j & Hj & _). lia.
  - destruct (Hv 0%nat ltac:(lia)) as (x & Hx & e & He & _ & Ht). rewrite (proj2 (aget_ok _ _ _) Hx). rstep.
    split; [apply (hr_mem H); exists 0%nat; split; [lia|done]|]. exists e. split; [done|]. intros y ey (j & Hj & Hy)%(hr_mem H) Hey.
    destruct (Hv j Hj) as (y' & Hy' & ey' & Hey' & _ & Hty). rewrite Hy in Hy'. injection Hy' as <-. rewrite Hey in Hey'. injection Hey' as <-.
    rewrite Ht, Hty. by apply (heap_ord_top (n_elements h)).
Qed.

(** ** Histories *)
Definition ILLEGAL_HEAP_ARR_IDX : Z := -10.
Definition heap_empty : nvmeib_heap_t := Heap 0 0 [].
Inductive heap_op : Type := ADD (x ts : Z) | REMOVE (x : Z) | RETIME (x ts : Z).
(** The caller sets the timestamp of its element, then calls the heap. *)
Definition heap_run_op (o : heap_op) (st : nvmeib_heap_t * store) : res (nvmeib_heap_t * store) :=
  let '(h, s) := st in
  match o with
  | ADD x ts => nvmeib_heap_add_element h (<[x := HeapElement ts ILLEGAL_HEAP_ARR_IDX]> s) x
  | REMOVE x => nvmeib_heap_remove_element h s x
  | RETIME x ts => e ← deref s x; nvmeib_heap_relocate_element h (<[x := HeapElement ts (idx_in_heap_arr e)]> s) x
  end.
Fixpoint heap_run_ops (os : list heap_op) (st : nvmeib_heap_t * store) : res (nvmeib_heap_t * store) :=
  match os with [] => Ok st | o :: os => st ← heap_run_op o st; heap_run_ops os st end.

(** The priority queue is the map from elements to timestamps. *)
Definition queue_op (o : heap_op) (q : gmap Z Z) : gmap Z Z :=
  match o with ADD x ts | RETIME x ts => <[x := ts]> q | REMOVE x => delete x q end.
Definition queue_ops (os : list heap_op) (q : gmap Z Z) : gmap Z Z := fold_left (fun q o => queue_op o q) os q.
Definition op_legal (o : heap_op) (q : gmap Z Z) : bool :=
  match o with ADD x _ => bool_decide (q !! x = None) | REMOVE x | RETIME x _ => bool_decide (is_Some (q !! x)) end.
Fixpoint ops_legal (os : list heap_op) (q : gmap Z Z) : bool :=
  match os with [] => true | o :: os => op_legal o q && ops_legal os (queue_op o q) end.

Definition queue_of (h : nvmeib_heap_t) (s : store) (q : gmap Z Z) : Prop :=
  heap_rep h s (dom q) ∧ ∀ x t, q !! x = Some t → timestamp <$> s !! x = Some t.

Lemma rep_store_ext h s s' X : heap_rep h s X → (∀ y, y ∈ X → s' !! y = s !! y) → heap_rep h s' X.
Proof.
  intros H Hs. split; try apply H. destruct (hr_order H) as (v & Hv & Ho). exists v. split; [|done].
  intros j Hj. destruct (Hv j Hj) as (y & Hy & He). exists y. split; [done|]. rewrite Hs; [done|]. apply (hr_mem H). by exists j.
Qed.

Lemma heap_run_op_ok o h s q : queue_of h s q → op_legal o q = true →
  ∃ h' s', heap_run_op o (h, s) = Ok (h', s') ∧ queue_of h' s' (queue_op o q).
Proof.
  intros [H Ht] Hl. destruct o as [x ts|x|x ts]; cbn [heap_run_op queue_op op_legal] in *; apply bool_decide_eq_true in Hl.
  - assert (x ∉ dom q) as Hx by (by apply not_elem_of_dom).
    destruct (heap_add_ok h (<[x := HeapElement ts ILLEGAL_HEAP_ARR_IDX]> s) (dom q) x (HeapElement ts ILLEGAL_HEAP_ARR_IDX)) as (h' & s' & -> & H' & Hf & _).
    + apply (rep_store_ext h s); [done|]. intros y Hy. rewrite lookup_insert_ne by set_solver. done.
    + done.
    + apply lookup_insert_eq.
    + exists h', s'. split; [done|]. split; [by replace (dom (<[x:=ts]> q)) with (dom q ∪ {[x]}) by set_solver|].
      intros y t [[<- <-]|[Hne Hy]]%lookup_insert_Some; rewrite Hf; [by rewrite lookup_insert_eq|].
      rewrite lookup_insert_ne by done. by apply Ht.
  - destruct (remove_ok h s (dom q) x H) as (h' & s' & -> & H' & Hf & _); [by apply elem_of_dom|].
    exists h', s'. split; [done|]. split; [by rewrite dom_delete_L|]. intros y t [_ Hy]%lookup_delete_Some. rewrite Hf. by apply Ht.
  - destruct Hl as [t0 Hx]. pose proof (Ht x t0 Hx) as Hs. destruct (s !! x) as [e|] eqn:He; [|done]. unfold deref at 1. rewrite He. rstep.
    destruct (relocate_ok h s (dom q) x e ts H) as (h' & s' & -> & H' & Hf & _); [apply elem_of_dom; by exists t0|done|].
    exists h', s'. split; [done|]. split; [by rewrite dom_insert_lookup_L by by exists t0|].
    intros y t [[<- <-]|[Hne Hy]]%lookup_insert_Some; rewrite Hf; [by rewrite lookup_insert_eq|].
    rewrite lookup_insert_ne by done. by apply Ht.
Qed.

Lemma heap_run_ops_ok os h s q : queue_of h s q → ops_legal os q = true →
  ∃ h' s', heap_run_ops os (h, s) = Ok (h', s') ∧ queue_of h' s' (queue_ops os q).
Proof.
  revert h s q. induction os as [|o os IH]; intros h s q H Hl; [by exists h, s|]. apply andb_true_iff in Hl as [Ho Hl].
  destruct (heap_run_op_ok o h s q H Ho) as (h1 & s1 & E & H1). cbn [heap_run_ops]. rewrite E. rstep. by apply IH.
Qed.

Lemma empty_queue s : queue_of heap_empty s ∅.
Proof.
  split; [|intros x t; by rewrite lookup_empty]. split; cbn [heap_empty heap_arr n_elements n_allocated_elements]; [done|done| |].
  - exists (fun _ => 0). split; intros j Hj; lia.
  - intros y. rewrite dom_empty_L, elem_of_empty. split; [done|]. intros (j & Hj & _). lia.
Qed.


(** Five timers, one of them moved and the first removed. *)
Module Timers.
Definition ops : list heap_op := [ADD 1 50; ADD 2 40; ADD 3 30; ADD 4 20; ADD 5 10; RETIME 4 60; REMOVE 5; RETIME 1 5].
End Timers.


(** [make_heap] does not build a heap.  It compares every element with its
    parent once, from the last to the first, and never sifts further down: on
    five elements with timestamps 9, 1, 5, 2 and 3 it ends with 5 above 2. *)
Theorem make_heap_no_heap :
  let s : store := list_to_map [(1, HeapElement 9 0); (2, HeapElement 1 1); (3, HeapElement 5 2); (4, HeapElement 2 3); (5, HeapElement 3 4)] in
  match make_heap (Heap 5 5 [1; 2; 3; 4; 5]) s with
  | Ok (h', s') => (∃ t1 t3, ts_at (heap_arr h') s' 1 = Ok t1 ∧ ts_at (heap_arr h') s' 3 = Ok t3 ∧ parent 3 = 1%nat ∧ t3 < t1)
  | Fault _ => False
  end.
Proof. vm_compute. exists 5, 2. auto. Qed.
