(* ===== verification/RscPool.v ===== *)
(** * The resource pool

    Models [common_public/nvmeib_rsc_pool.c] and [nvmeib_rsc_pool.h]: a pool of
    resources shared by actors.  An actor's greed and priority give its pressure,
    its share of the total pressure gives its quota, and the pool is rebalanced
    when an actor arrives or changes its greed.

    A resource is a number.  The constructor of resources is an argument: the
    outcome of its [k]-th call, [None] when memory is out.  The callbacks invoked
    before a rebalance may change the configuration and are a list of functions
    on it; those invoked afterwards only notify.  [size_t] is 64 bits wide.  All
    operations hold the lock of the pool and are atomic steps. *)
From stdpp Require Import base list gmap numbers.
From Stdlib Require Import ZArith Lia.
From S2P Require Import Prelude CMemory.
Local Open Scope Z_scope.

Record nvmeib_rsc_pool_conf : Type := PoolConf { size : Z; size_pcpu : Z; reserve : Z; reserve_percent : Z }.
Record nvmeib_rsc_pool_actor_conf : Type := ActorConf { priority : Z; min_rsc : Z; min_greed : Z; max_greed : Z }.
Record nvmeib_rsc_pool_actor : Type := Actor {
  a_conf : nvmeib_rsc_pool_actor_conf;
  a_rsc_list : list Z;
  greed : Z;
  nbufs : Z;
  pressure : Z;
  quota : Z;
  closing : bool;
  is_safe_to_remove : bool
}.
Record nvmeib_rsc_pool : Type := Pool {
  conf : nvmeib_rsc_pool_conf;
  accepted : nvmeib_rsc_pool_conf;
  on_before_rebalance : list (nvmeib_rsc_pool_conf → nvmeib_rsc_pool_conf);
  total_pressure : Z;
  n_actors : Z;
  n_available_rsc : Z;
  rsc_list : list Z;
  actor_list : list Z;
  peak_pressure : Z
}.
(** The pool, the actors by address, and the number of constructor calls. *)
Record system : Type := System {
  pool : nvmeib_rsc_pool;
  actors : gmap Z nvmeib_rsc_pool_actor;
  n_constructed : nat;
  destructed : list Z
}.

Definition nvmeib_rsc_pool_actor_pressure (a : nvmeib_rsc_pool_actor) : Z :=
  if closing a then 0 else u64 (s32 (Z.shiftl 1 (greed a)) * priority (a_conf a)).

Section rsc_pool.
Context (num_online_cpus : Z) (construct_rsc : nat → option Z).

(** ** Rebalancing *)
Definition validate_conf (c acc : nvmeib_rsc_pool_conf) : res nvmeib_rsc_pool_conf :=
  if negb (reserve_percent c =? reserve_percent acc) || negb (size_pcpu c =? size_pcpu acc) then
    let sz := if 0 <? size_pcpu c then u64 (num_online_cpus * size_pcpu c) else size c in
    let rs := if 0 <? reserve_percent c then u64 (sz * reserve_percent c) / 100 else reserve c in
    if 100 <=? reserve_percent c then Fault BUG
    else if sz <=? rs then Fault BUG
    else Ok (PoolConf sz (size_pcpu acc) rs (reserve_percent acc))
  else Ok c.

Definition with_rsc (p : nvmeib_rsc_pool) (l : list Z) (delta : Z) : nvmeib_rsc_pool :=
  Pool (conf p) (PoolConf (size (accepted p) + delta) (size_pcpu (accepted p)) (reserve (accepted p)) (reserve_percent (accepted p)))
    (on_before_rebalance p) (total_pressure p) (n_actors p) (n_available_rsc p + delta) l (actor_list p) (peak_pressure p).
Definition with_pool (s : system) (p : nvmeib_rsc_pool) : system := System p (actors s) (n_constructed s) (destructed s).

(** [n] more resources are wanted. *)
Fixpoint create_loop (n : nat) (s : system) : system :=
  match n with
  | O => s
  | S n =>
      match construct_rsc (n_constructed s) with
      | None => System (pool s) (actors s) (S (n_constructed s)) (destructed s)
      | Some r => create_loop n (System (with_rsc (pool s) (rsc_list (pool s) ++ [r]) 1) (actors s) (S (n_constructed s)) (destructed s))
      end
  end.
Fixpoint free_loop (n : nat) (s : system) : system :=
  match n with
  | O => s
  | S n =>
      match rsc_list (pool s) with
      | [] => s
      | r :: l => free_loop n (System (with_rsc (pool s) l (-1)) (actors s) (n_constructed s) (destructed s ++ [r]))
      end
  end.
Definition set_reserve (p : nvmeib_rsc_pool) : nvmeib_rsc_pool :=
  if negb (reserve (accepted p) =? reserve (conf p)) then
    Pool (conf p) (PoolConf (size (accepted p)) (size_pcpu (accepted p)) (Z.min (reserve (conf p)) (u64 (size (accepted p) - 1))) (reserve_percent (accepted p)))
      (on_before_rebalance p) (total_pressure p) (n_actors p) (n_available_rsc p) (rsc_list p) (actor_list p) (peak_pressure p)
  else p.
Fixpoint sum_pressure (s : gmap Z nvmeib_rsc_pool_actor) (l : list Z) (total : Z) : res Z :=
  match l with
  | [] => Ok total
  | x :: l => match s !! x with
              | None => Fault OOB
              | Some a => sum_pressure s l (u64 (total + nvmeib_rsc_pool_actor_pressure a))
              end
  end.
Definition set_pressure (p : nvmeib_rsc_pool) (t : Z) : nvmeib_rsc_pool :=
  Pool (conf p) (accepted p) (on_before_rebalance p) t (n_actors p) (n_available_rsc p) (rsc_list p) (actor_list p)
    (if peak_pressure p <? t then t else peak_pressure p).
Definition with_conf (p : nvmeib_rsc_pool) (c : nvmeib_rsc_pool_conf) : nvmeib_rsc_pool :=
  Pool c (accepted p) (on_before_rebalance p) (total_pressure p) (n_actors p) (n_available_rsc p) (rsc_list p) (actor_list p) (peak_pressure p).

Definition nvmeib_rsc_pool_force_rebalance_unsafe (s : system) : res system :=
  let c := fold_left (fun c f => f c) (on_before_rebalance (pool s)) (conf (pool s)) in
  c ← validate_conf c (accepted (pool s));
  let s := with_pool s (with_conf (pool s) c) in
  let s := create_loop (Z.to_nat (size (conf (pool s)) - size (accepted (pool s)))) s in
  let s := free_loop (Z.to_nat (size (accepted (pool s)) - size (conf (pool s)))) s in
  let p := set_reserve (pool s) in
  t ← sum_pressure (actors s) (actor_list p) 0;
  Ok (with_pool s (set_pressure p t)).

(** ** Interface *)
Definition nvmeib_rsc_pool_init (c : nvmeib_rsc_pool_conf) : res system :=
  s ← nvmeib_rsc_pool_force_rebalance_unsafe (System (Pool c (PoolConf 0 0 0 0) [] 0 0 0 [] [] 0) ∅ 0 []);
  if negb (size (conf (pool s)) =? size (accepted (pool s))) then Fault BUG else Ok s.

Definition nvmeib_rsc_pool_free (s : system) : res system :=
  let p := pool s in
  if negb (bool_decide (actor_list p = [])) then Fault BUG else
  let c := PoolConf 0 (size_pcpu (conf p)) (reserve (conf p)) (reserve_percent (conf p)) in
  s ← nvmeib_rsc_pool_force_rebalance_unsafe (with_pool s
    (Pool c (accepted p) [] (total_pressure p) (n_actors p) (n_available_rsc p) (rsc_list p) (actor_list p) (peak_pressure p)));
  if negb (bool_decide (rsc_list (pool s) = [])) then Fault BUG
  else if negb (size (accepted (pool s)) =? 0) then Fault BUG else Ok s.

Definition nvmeib_rsc_pool_register_callback (f : nvmeib_rsc_pool_conf → nvmeib_rsc_pool_conf) (s : system) : system :=
  let p := pool s in
  with_pool s (Pool (conf p) (accepted p) (on_before_rebalance p ++ [f]) (total_pressure p) (n_actors p) (n_available_rsc p)
    (rsc_list p) (actor_list p) (peak_pressure p)).

Definition with_actors (p : nvmeib_rsc_pool) (l : list Z) (n : Z) : nvmeib_rsc_pool :=
  Pool (conf p) (accepted p) (on_before_rebalance p) (total_pressure p) n (n_available_rsc p) (rsc_list p) l (peak_pressure p).
Definition nvmeib_rsc_pool_register_actor (x : Z) (c : nvmeib_rsc_pool_actor_conf) (s : system) : res system :=
  if max_greed c <? 0 then Fault BUG else
  if min_greed c <? 0 then Fault BUG else
  if max_greed c <? min_greed c then Fault BUG else
  let a := Actor c [] (min_greed c) 0 0 0 false false in
  nvmeib_rsc_pool_force_rebalance_unsafe
    (System (with_actors (pool s) (actor_list (pool s) ++ [x]) (n_actors (pool s) + 1)) (<[x := a]> (actors s)) (n_constructed s) (destructed s)).

Definition upd_actor (x : Z) (f : nvmeib_rsc_pool_actor → nvmeib_rsc_pool_actor) (s : system) : res system :=
  match actors s !! x with
  | None => Fault OOB
  | Some a => Ok (System (pool s) (<[x := f a]> (actors s)) (n_constructed s) (destructed s))
  end.
Definition nvmeib_rsc_pool_actor_start_closing (x : Z) : system → res system :=
  upd_actor x (fun a => Actor (a_conf a) (a_rsc_list a) (greed a) (nbufs a) (pressure a) (quota a) true (is_safe_to_remove a)).

(** [None] is a caller that still waits for the completion. *)
Definition nvmeib_rsc_pool_unregister_actor (x : Z) (s : system) : res (option system) :=
  match actors s !! x with
  | None => Fault OOB
  | Some a =>
      if negb (closing a) then Fault BUG
      else if (nbufs a =? 0) || is_safe_to_remove a then
        if negb (bool_decide (a_rsc_list a = [])) then Fault BUG
        else if negb (bool_decide (x ∈ actor_list (pool s))) then Fault BUG
        else Ok (Some (System (with_actors (pool s) (filter (.≠ x) (actor_list (pool s))) (n_actors (pool s) - 1))
                  (delete x (actors s)) (n_constructed s) (destructed s)))
      else Ok None
  end.

Definition quota_of (p : nvmeib_rsc_pool) (a : nvmeib_rsc_pool_actor) : nvmeib_rsc_pool_actor * Z :=
  let set pr q := Actor (a_conf a) (a_rsc_list a) (greed a) (nbufs a) pr q (closing a) (is_safe_to_remove a) in
  if closing a then (set 0 0, 0)
  else if total_pressure p =? 0 then (set 0 0, 0)
  else
    let resulting_size := Z.min (size (conf p)) (size (accepted p)) in
    let pr := nvmeib_rsc_pool_actor_pressure a in
    let q := Z.max (min_rsc (a_conf a)) (u64 (resulting_size * pr) / total_pressure p) in
    (set pr q, q).
Definition nvmeib_rsc_pool_quota (x : Z) (s : system) : res (system * Z) :=
  match actors s !! x with
  | None => Fault OOB
  | Some a => let '(a, q) := quota_of (pool s) a in
              Ok (System (pool s) (<[x := a]> (actors s)) (n_constructed s) (destructed s), q)
  end.

Definition nvmeib_rsc_pool_upd_greed (x delta : Z) (s : system) : res system :=
  match actors s !! x with
  | None => Fault OOB
  | Some a =>
      let g := greed a + delta in
      let g := if max_greed (a_conf a) <? g then max_greed (a_conf a) else g in
      let g := if g <? min_greed (a_conf a) then min_greed (a_conf a) else g in
      if negb (g =? greed a) then
        s ← upd_actor x (fun a => Actor (a_conf a) (a_rsc_list a) g (nbufs a) (pressure a) (quota a) (closing a) (is_safe_to_remove a)) s;
        nvmeib_rsc_pool_force_rebalance_unsafe s
      else Ok s
  end.

Definition with_list (p : nvmeib_rsc_pool) (l : list Z) : nvmeib_rsc_pool :=
  Pool (conf p) (accepted p) (on_before_rebalance p) (total_pressure p) (n_actors p) (n_available_rsc p) l (actor_list p) (peak_pressure p).
(** Moving elements one by one from the head of one list to the tail of the
    other, until [count] are moved or the list ends. *)
Fixpoint move_rsc (count : nat) (src dst : list Z) (moved : Z) : list Z * list Z * Z :=
  match count, src with
  | S count, r :: src => move_rsc count src (dst ++ [r]) (moved + 1)
  | _, _ => (src, dst, moved)
  end.
Definition nvmeib_rsc_pool_fetch_rsc (x : Z) (count : nat) (s : system) : res (system * Z) :=
  match actors s !! x with
  | None => Fault OOB
  | Some a =>
      let '(l, la, fetched) := move_rsc count (rsc_list (pool s)) (a_rsc_list a) 0 in
      let a := Actor (a_conf a) la (greed a) (u64 (nbufs a + fetched)) (pressure a) (quota a) (closing a) (is_safe_to_remove a) in
      Ok (System (with_list (pool s) l) (<[x := a]> (actors s)) (n_constructed s) (destructed s), fetched)
  end.
Definition nvmeib_rsc_pool_return_rsc (x : Z) (count : nat) (s : system) : res system :=
  match actors s !! x with
  | None => Fault OOB
  | Some a =>
      let '(la, l, returned) := move_rsc count (a_rsc_list a) (rsc_list (pool s)) 0 in
      if negb (returned =? Z.of_nat count) then Fault BUG else
      let nb := u64 (nbufs a - returned) in
      let a := Actor (a_conf a) la (greed a) nb (pressure a) (quota a) (closing a) (is_safe_to_remove a || (closing a && (nb =? 0))) in
      Ok (System (with_list (pool s) l) (<[x := a]> (actors s)) (n_constructed s) (destructed s))
  end.
End rsc_pool.
