(* ===== verification/RscPoolProof.v ===== *)
(** * Conservation in the resource pool

    The invariant of [RscPool] and its consequences: every resource that was
    constructed and not destructed is in exactly one list, the counters agree
    with the lists, quotas fit the pool, and a pool without actors can be freed
    completely. *)
From stdpp Require Import base list gmap numbers.
From Stdlib Require Import ZArith Lia.
From S2P Require Import Prelude CMemory RscPool.
Local Open Scope Z_scope.

Definition actor_rsc (acts : gmap Z nvmeib_rsc_pool_actor) (x : Z) : list Z :=
  match acts !! x with Some a => a_rsc_list a | None => [] end.
Definition held (acts : gmap Z nvmeib_rsc_pool_actor) (l : list Z) : list Z := l ≫= actor_rsc acts.
(** The live resources: in the pool and at the actors. *)
Definition live (s : system) : list Z := rsc_list (pool s) ++ held (actors s) (actor_list (pool s)).

Definition conf_ok (c : nvmeib_rsc_pool_conf) : Prop :=
  0 ≤ size c < 2 ^ 64 ∧ 0 ≤ size_pcpu c < 2 ^ 64 ∧ 0 ≤ reserve c < 2 ^ 64 ∧ 0 ≤ reserve_percent c < 2 ^ 64.
Definition actor_ok (a : nvmeib_rsc_pool_actor) : Prop :=
  nbufs a = Z.of_nat (length (a_rsc_list a)) ∧ 0 ≤ min_greed (a_conf a) ∧
  min_greed (a_conf a) ≤ greed a ≤ max_greed (a_conf a).

Section proof.
Context (cpus : Z) (construct : nat → option Z).
(** Every call of the constructor makes a resource of its own. *)
Context (construct_fresh : ∀ i j r, construct i = Some r → construct j = Some r → i = j).
#[local] Abbreviation rebalance := (nvmeib_rsc_pool_force_rebalance_unsafe cpus construct).

Record pool_inv (s : system) : Prop := {
  pi_actors : ∀ x, x ∈ actor_list (pool s) ↔ is_Some (actors s !! x);
  pi_nodup : NoDup (actor_list (pool s));
  pi_n_actors : n_actors (pool s) = Z.of_nat (length (actor_list (pool s)));
  pi_actor : ∀ x a, actors s !! x = Some a → actor_ok a;
  pi_size : size (accepted (pool s)) = Z.of_nat (length (live s));
  pi_available : n_available_rsc (pool s) = size (accepted (pool s));
  pi_bound : size (accepted (pool s)) < 2 ^ 64;
  pi_once : NoDup (live s ++ destructed s);
  pi_made : ∀ r, r ∈ live s ++ destructed s → ∃ k, (k < n_constructed s)%nat ∧ construct k = Some r;
  pi_all : ∀ k r, (k < n_constructed s)%nat → construct k = Some r → r ∈ live s ++ destructed s;
  pi_accepted : size_pcpu (accepted (pool s)) = 0 ∧ reserve_percent (accepted (pool s)) = 0;
  pi_conf : conf_ok (conf (pool s));
  pi_callbacks : Forall (fun f => ∀ c, conf_ok c → conf_ok (f c)) (on_before_rebalance (pool s))
}.
Arguments pi_actors {_} _. Arguments pi_nodup {_} _. Arguments pi_n_actors {_} _. Arguments pi_actor {_} _.
Arguments pi_size {_} _. Arguments pi_available {_} _. Arguments pi_bound {_} _. Arguments pi_once {_} _.
Arguments pi_made {_} _. Arguments pi_all {_} _. Arguments pi_accepted {_} _. Arguments pi_conf {_} _. Arguments pi_callbacks {_} _.

Lemma callbacks_conf fs c : Forall (fun f => ∀ c, conf_ok c → conf_ok (f c)) fs → conf_ok c → conf_ok (fold_left (fun c f => f c) fs c).
Proof. intros H. revert c. induction H as [|f fs Hf _ IH]; intros c Hc; [done|]. cbn [fold_left]. auto. Qed.

(** A valid configuration stays one, and its per-cpu and percentage parts are
    reset to the accepted ones. *)
Lemma validate_ok c acc c' : conf_ok c → size_pcpu acc = 0 → reserve_percent acc = 0 → validate_conf cpus c acc = Ok c' →
  conf_ok c' ∧ size_pcpu c' = 0 ∧ reserve_percent c' = 0.
Proof.
  intros (H1 & H2 & H3 & H4) Hp Hr. unfold validate_conf. rewrite Hp, Hr.
  destruct (Z.eqb_spec (reserve_percent c) 0) as [E1|E1], (Z.eqb_spec (size_pcpu c) 0) as [E2|E2]; cbn [negb orb].
  1: by intros [= <-].
  all: cbv zeta; destruct (100 <=? reserve_percent c); [done|]; destruct (_ <=? _) in |- *; [done|]; intros [= <-].
  all: unfold conf_ok; cbn [size size_pcpu reserve reserve_percent]; split; [|done].
  all: split_and!; try lia; repeat match goal with |- context [if ?b then _ else _] => destruct b end; try lia.
  all: try (pose proof (wrap_range 64 (cpus * size_pcpu c) ltac:(lia)); lia).
  all: match goal with
       | |- _ ≤ wrap 64 ?x / 100 => pose proof (wrap_range 64 x ltac:(lia)); apply Z.div_pos; lia
       | |- wrap 64 ?x / 100 < _ => pose proof (wrap_range 64 x ltac:(lia)); apply Z.div_lt_upper_bound; lia
       end.
Qed.

(** ** The loops *)
Definition same_actors (s s' : system) : Prop :=
  actors s' = actors s ∧ actor_list (pool s') = actor_list (pool s) ∧ conf (pool s') = conf (pool s) ∧
  on_before_rebalance (pool s') = on_before_rebalance (pool s).

Lemma create_one s r : pool_inv s → construct (n_constructed s) = Some r → size (accepted (pool s)) + 1 < 2 ^ 64 →
  pool_inv (System (with_rsc (pool s) (rsc_list (pool s) ++ [r]) 1) (actors s) (S (n_constructed s)) (destructed s)).
Proof.
  intros H Hr Hb. set (s' := System _ _ _ _).
  assert (live s' ≡ₚ r :: live s) as Hp.
  { unfold live, s'. cbn [pool actors with_rsc rsc_list actor_list]. rewrite <-app_assoc. apply (Permutation_sym (Permutation_middle _ _ _)). }
  assert (r ∉ live s ++ destructed s) as Hnew.
  { intros Hin. destruct (pi_made H r Hin) as (k & Hk & E). pose proof (construct_fresh _ _ _ E Hr). lia. }
  split; cbn [s' pool actors n_constructed destructed with_rsc actor_list n_actors accepted n_available_rsc size size_pcpu reserve_percent conf on_before_rebalance]; try apply H.
  - rewrite Hp. cbn [length]. rewrite (pi_size H). lia.
  - rewrite (pi_available H). lia.
  - done.
  - rewrite Hp. cbn [app]. constructor; [done|apply H].
  - intros x. rewrite Hp. cbn [app]. rewrite elem_of_cons. intros [->|Hx]; [exists (n_constructed s); split; [lia|done]|].
    destruct (pi_made H x Hx) as (k & Hk & E). exists k. split; [lia|done].
  - intros k x Hk Ex. rewrite Hp. cbn [app]. destruct (decide (k = n_constructed s)) as [->|Hne].
    + rewrite Hr in Ex. injection Ex as <-. set_solver.
    + apply list_elem_of_further, (pi_all H k); [lia|done].
Qed.

Lemma create_fail s : pool_inv s → construct (n_constructed s) = None →
  pool_inv (System (pool s) (actors s) (S (n_constructed s)) (destructed s)).
Proof.
  intros H Hr. split; try apply H.
  - intros r Hin. destruct (pi_made H r Hin) as (k & Hk & E). exists k. split; [cbn; lia|done].
  - intros k r Hk E. cbn in Hk. destruct (decide (k = n_constructed s)) as [->|Hne]; [congruence|]. apply (pi_all H k); [lia|done].
Qed.

Lemma create_loop_inv n s : pool_inv s → size (accepted (pool s)) + Z.of_nat n < 2 ^ 64 →
  pool_inv (create_loop construct n s) ∧ same_actors s (create_loop construct n s) ∧
  (destructed (create_loop construct n s) = destructed s) ∧
  size (accepted (pool s)) ≤ size (accepted (pool (create_loop construct n s))) ≤ size (accepted (pool s)) + Z.of_nat n ∧
  ((∀ k, is_Some (construct k)) → size (accepted (pool (create_loop construct n s))) = size (accepted (pool s)) + Z.of_nat n).
Proof.
  revert s. induction n as [|n IH]; intros s H Hb; cbn [create_loop]; [split_and!; try done; lia|].
  destruct (construct (n_constructed s)) as [r|] eqn:Hr.
  - pose proof (create_one s r H Hr ltac:(lia)) as H1. set (s1 := System _ _ _ _) in *.
    destruct (IH s1 H1) as (K1 & K2 & K3 & K4 & K5); [cbn; lia|]. cbn [s1 pool accepted with_rsc size] in K4, K5.
    split; [done|]. split; [done|]. split; [done|]. split; [lia|]. intros Hall. rewrite (K5 Hall). lia.
  - split; [by apply create_fail|]. split; [done|]. split; [done|]. cbn [pool]. split; [lia|].
    intros Hall. destruct (Hall (n_constructed s)). congruence.
Qed.

Lemma free_one s r l : pool_inv s → rsc_list (pool s) = r :: l →
  pool_inv (System (with_rsc (pool s) l (-1)) (actors s) (n_constructed s) (destructed s ++ [r])).
Proof.
  intros H Hl. set (s' := System _ _ _ _).
  assert (live s = r :: live s') as Hp by (unfold live, s'; cbn [pool actors with_rsc rsc_list actor_list]; by rewrite Hl).
  assert (live s' ++ destructed s ++ [r] ≡ₚ live s ++ destructed s) as Hall.
  { rewrite Hp, app_assoc. cbn [app]. apply Permutation_sym, Permutation_cons_append. }
  split; cbn [s' pool actors n_constructed destructed with_rsc actor_list n_actors accepted n_available_rsc size size_pcpu reserve_percent conf on_before_rebalance]; try apply H.
  - rewrite (pi_size H), Hp. cbn [length]. fold s'. lia.
  - rewrite (pi_available H). lia.
  - pose proof (pi_bound H). lia.
  - fold s'. rewrite Hall. apply H.
  - intros x. fold s'. rewrite Hall. apply H.
  - intros k x. fold s'. rewrite Hall. apply (pi_all H).
Qed.

Lemma free_loop_inv n s : pool_inv s →
  pool_inv (free_loop n s) ∧ same_actors s (free_loop n s) ∧
  destructed (free_loop n s) = destructed s ++ take n (rsc_list (pool s)) ∧ rsc_list (pool (free_loop n s)) = drop n (rsc_list (pool s)).
Proof.
  revert s. induction n as [|n IH]; intros s H; cbn [free_loop take drop]; [by rewrite app_nil_r|].
  destruct (rsc_list (pool s)) as [|r l] eqn:Hl; [by rewrite app_nil_r|].
  pose proof (free_one s r l H Hl) as H1. destruct (IH _ H1) as (K1 & K2 & K3 & K4). cbn [pool with_rsc rsc_list destructed] in K3, K4.
  split; [done|]. split; [done|]. split; [|done]. by rewrite K3, <-app_assoc.
Qed.

Lemma sum_pressure_ok acts l t : (∀ x, x ∈ l → is_Some (acts !! x)) → ∃ t', sum_pressure acts l t = Ok t'.
Proof.
  revert t. induction l as [|x l IH]; intros t Hl; cbn [sum_pressure]; [by exists t|].
  destruct (Hl x ltac:(set_solver)) as [a Ha]. rewrite Ha. apply IH. set_solver.
Qed.

Lemma conf_inv s c : pool_inv s → conf_ok c → pool_inv (with_pool s (with_conf (pool s) c)).
Proof. intros H Hc. split; try apply H. done. Qed.
Lemma finish_inv s t : pool_inv s → pool_inv (with_pool s (set_pressure (set_reserve (pool s)) t)).
Proof. intros H. unfold set_reserve. destruct (negb _); split; apply H. Qed.

(** A rebalance stops at an invalid configuration, or keeps the invariant, the
    actors and the valid configuration and brings the total pressure up to date.
    A pool that is too large gives up resources from the head of its list; one
    that is too small is filled when the constructor never fails. *)
Lemma rebalance_ok s : pool_inv s →
  match validate_conf cpus (fold_left (fun c f => f c) (on_before_rebalance (pool s)) (conf (pool s))) (accepted (pool s)) with
  | Fault f => rebalance s = Fault f
  | Ok c => ∃ s', rebalance s = Ok s' ∧ pool_inv s' ∧ actors s' = actors s ∧ actor_list (pool s') = actor_list (pool s) ∧
      conf (pool s') = c ∧ on_before_rebalance (pool s') = on_before_rebalance (pool s) ∧
      sum_pressure (actors s) (actor_list (pool s)) 0 = Ok (total_pressure (pool s')) ∧
      (size c ≤ size (accepted (pool s)) →
         destructed s' = destructed s ++ take (Z.to_nat (size (accepted (pool s)) - size c)) (rsc_list (pool s)) ∧
         rsc_list (pool s') = drop (Z.to_nat (size (accepted (pool s)) - size c)) (rsc_list (pool s))) ∧
      (size (accepted (pool s)) < size c → (∀ k, is_Some (construct k)) → size (accepted (pool s')) = size c)
  end.
Proof.
  intros H. unfold nvmeib_rsc_pool_force_rebalance_unsafe.
  destruct (validate_conf cpus _ _) as [c|f] eqn:Ev; rstep; [|done].
  destruct (validate_ok _ _ _ (callbacks_conf _ _ (pi_callbacks H) (pi_conf H)) (proj1 (pi_accepted H)) (proj2 (pi_accepted H)) Ev) as (Hc & _).
  pose proof (conf_inv s c H Hc) as H1. cbv zeta. set (s1 := with_pool s (with_conf (pool s) c)) in *.
  change (conf (pool s1)) with c in *. change (accepted (pool s1)) with (accepted (pool s)) in *.
  pose proof (pi_bound H) as Hb. destruct Hc as (Hc & _).
  destruct (create_loop_inv (Z.to_nat (size c - size (accepted (pool s)))) s1 H1) as (H2 & (A2 & L2 & C2 & O2) & D2 & S2 & F2).
  { change (accepted (pool s1)) with (accepted (pool s)). lia. }
  change (accepted (pool s1)) with (accepted (pool s)) in S2, F2.
  set (s2 := create_loop construct _ s1) in *. change (conf (pool s1)) with c in C2. rewrite C2.
  destruct (free_loop_inv (Z.to_nat (size (accepted (pool s2)) - size c)) s2 H2) as (H3 & (A3 & L3 & C3 & O3) & D3 & R3).
  set (s3 := free_loop _ s2) in *.
  assert (∀ t, actor_list (set_pressure (set_reserve (pool s3)) t) = actor_list (pool s3)) as EL by (intros; unfold set_reserve; by destruct (negb _)).
  assert (actor_list (set_reserve (pool s3)) = actor_list (pool s3)) as -> by apply (EL 0).
  assert (actors s3 = actors s ∧ actor_list (pool s3) = actor_list (pool s)) as [EA EAL] by (rewrite A3, A2, L3, L2; done).
  destruct (sum_pressure_ok (actors s3) (actor_list (pool s3)) 0) as [t Ht]; [intros x Hx; by apply (pi_actors H3)|].
  rewrite Ht. rstep. eexists. split; [done|]. split; [by apply finish_inv|]. cbn [with_pool actors pool destructed].
  split; [done|]. split; [by rewrite EL|]. split; [unfold set_reserve; destruct (negb _); cbn [conf set_pressure]; by rewrite C3, C2|].
  split; [unfold set_reserve; destruct (negb _); cbn [on_before_rebalance set_pressure]; by rewrite O3, O2|].
  split; [rewrite <-EA, <-EAL, Ht; unfold set_reserve; by destruct (negb _)|]. split.
  - intros Hle. assert (s2 = s1) as E2.
    { unfold s2. by replace (Z.to_nat (size c - size (accepted (pool s)))) with 0%nat by lia. }
    rewrite E2 in D3, R3. split; [exact D3|]. unfold set_reserve. destruct (negb _); exact R3.
  - intros Hlt Hall. specialize (F2 Hall). assert (s3 = s2) as E3.
    { unfold s3. by replace (Z.to_nat (size (accepted (pool s2)) - size c)) with 0%nat by lia. }
    rewrite E3. unfold set_reserve. destruct (negb _); cbn [set_pressure accepted size]; lia.
Qed.

(** ** The interface *)
Lemma held_ext acts acts' l : (∀ y, y ∈ l → actor_rsc acts y = actor_rsc acts' y) → held acts l = held acts' l.
Proof.
  intros H. unfold held. induction l as [|y l IH]; [done|]. cbn [mbind list_bind]. rewrite (H y ltac:(set_solver)). f_equal. apply IH. set_solver.
Qed.
Lemma actor_rsc_ne acts x a y : y ≠ x → actor_rsc (<[x := a]> acts) y = actor_rsc acts y.
Proof. intros. unfold actor_rsc. by rewrite lookup_insert_ne. Qed.

(** The resources of one actor among those held. *)
Lemma held_update acts l x a : NoDup l → x ∈ l →
  held (<[x := a]> acts) l ++ actor_rsc acts x ≡ₚ held acts l ++ a_rsc_list a.
Proof.
  intros Hnd (l1 & l2 & ->)%list_elem_of_split. apply list.NoDup_app in Hnd as (_ & Hx1 & Hx2). inversion Hx2 as [|? ? Hx3 _]; subst.
  unfold held. rewrite !bind_app, !bind_cons. fold (held (<[x := a]> acts) l1) (held (<[x := a]> acts) l2) (held acts l1) (held acts l2).
  rewrite (held_ext (<[x := a]> acts) acts l1), (held_ext (<[x := a]> acts) acts l2).
  - unfold actor_rsc at 1. rewrite lookup_insert_eq. solve_Permutation.
  - intros y Hy. apply actor_rsc_ne. by intros ->.
  - intros y Hy. apply actor_rsc_ne. intros ->. apply (Hx1 x Hy). set_solver.
Qed.

(** Changing one actor and the list of the pool without losing a resource. *)
Lemma exchange_inv s x a a' l : pool_inv s → actors s !! x = Some a → actor_ok a' →
  l ++ a_rsc_list a' ≡ₚ rsc_list (pool s) ++ a_rsc_list a →
  pool_inv (System (with_list (pool s) l) (<[x := a']> (actors s)) (n_constructed s) (destructed s)).
Proof.
  intros H Ha Hok Hp. set (s' := System _ _ _ _).
  assert (live s' ≡ₚ live s) as Hl.
  { unfold live, s'. cbn [pool actors with_list rsc_list actor_list].
    assert (x ∈ actor_list (pool s)) as Hx by (apply (pi_actors H); by exists a).
    pose proof (held_update (actors s) _ x a' (pi_nodup H) Hx) as Hh. unfold actor_rsc in Hh. rewrite Ha in Hh.
    apply (Permutation_app_inv_r (a_rsc_list a)). rewrite <-!app_assoc, Hh, Permutation_app_swap_app, (Permutation_app_comm l), app_assoc.
    rewrite <-app_assoc, (Permutation_app_comm (a_rsc_list a')), Hp. solve_Permutation. }
  split; cbn [s' pool actors n_constructed destructed with_list actor_list n_actors accepted n_available_rsc conf on_before_rebalance]; try apply H.
  - intros y. rewrite (pi_actors H). destruct (decide (y = x)) as [->|Hne].
    + rewrite lookup_insert_eq, Ha. split; eauto.
    + by rewrite lookup_insert_ne.
  - intros y b [[<- <-]|[_ Hb]]%lookup_insert_Some; [done|by apply (pi_actor H y)].
  - fold s'. rewrite Hl. apply H.
  - fold s'. rewrite Hl. apply H.
  - intros r. fold s'. rewrite Hl. apply H.
  - intros k r. fold s'. rewrite Hl. apply (pi_all H).
Qed.

Lemma move_rsc_spec n src dst k :
  move_rsc n src dst k = (drop n src, dst ++ take n src, k + Z.of_nat (n `min` length src)).
Proof.
  revert src dst k. induction n as [|n IH]; intros [|r src] dst k; cbn [move_rsc drop take length Nat.min]; rewrite ?app_nil_r; try (f_equal; lia).
  rewrite IH, <-app_assoc. cbn [app]. f_equal. lia.
Qed.

Lemma live_bound s x a : pool_inv s → actors s !! x = Some a →
  Z.of_nat (length (rsc_list (pool s)) + length (a_rsc_list a)) < 2 ^ 64.
Proof.
  intros H Ha. pose proof (pi_bound H) as Hb. rewrite (pi_size H) in Hb. unfold live in Hb. rewrite length_app in Hb.
  assert (x ∈ actor_list (pool s)) as Hx by (apply (pi_actors H); by exists a).
  assert (length (a_rsc_list a) ≤ length (held (actors s) (actor_list (pool s))))%nat; [|lia].
  apply list_elem_of_split in Hx as (l1 & l2 & ->). unfold held. rewrite bind_app, bind_cons, !length_app.
  unfold actor_rsc at 2. rewrite Ha. lia.
Qed.

Lemma fetch_ok s x a n : pool_inv s → actors s !! x = Some a →
  ∃ s', nvmeib_rsc_pool_fetch_rsc x n s = Ok (s', Z.of_nat (n `min` length (rsc_list (pool s)))) ∧ pool_inv s' ∧
    rsc_list (pool s') = drop n (rsc_list (pool s)) ∧ actor_rsc (actors s') x = a_rsc_list a ++ take n (rsc_list (pool s)).
Proof.
  intros H Ha. pose proof (live_bound s x a H Ha) as Hb. destruct (pi_actor H x a Ha) as (Hn & Hg). unfold nvmeib_rsc_pool_fetch_rsc. rewrite Ha, move_rsc_spec.
  eexists. split; [done|]. cbn [pool actors with_list rsc_list]. split; [|split; [done|unfold actor_rsc; by rewrite lookup_insert_eq]].
  apply (exchange_inv s x a); [done|done| |].
  - split; [|done]. cbn [nbufs a_rsc_list]. rewrite length_app, length_take, wrap_small, Hn; lia.
  - cbn [a_rsc_list]. rewrite <-(take_drop n (rsc_list (pool s))) at 3. solve_Permutation.
Qed.

Lemma return_ok s x a n : pool_inv s → actors s !! x = Some a → (n ≤ length (a_rsc_list a))%nat →
  ∃ s', nvmeib_rsc_pool_return_rsc x n s = Ok s' ∧ pool_inv s' ∧ actor_rsc (actors s') x = drop n (a_rsc_list a) ∧
    rsc_list (pool s') = rsc_list (pool s) ++ take n (a_rsc_list a).
Proof.
  intros H Ha Hle. pose proof (live_bound s x a H Ha) as Hb. destruct (pi_actor H x a Ha) as (Hn & Hg). unfold nvmeib_rsc_pool_return_rsc. rewrite Ha, move_rsc_spec.
  rewrite (proj2 (Z.eqb_eq _ _)) by lia. cbn [negb].
  eexists. split; [done|]. cbn [pool actors with_list rsc_list]. split; [|split; [unfold actor_rsc; by rewrite lookup_insert_eq|done]].
  apply (exchange_inv s x a); [done|done| |].
  - split; [|done]. cbn [nbufs a_rsc_list]. rewrite length_drop, wrap_small, Hn; lia.
  - cbn [a_rsc_list]. rewrite <-(take_drop n (a_rsc_list a)) at 3. solve_Permutation.
Qed.

Lemma with_list_id p : with_list p (rsc_list p) = p.
Proof. by destruct p. Qed.
(** Changes of an actor that leave its resources alone. *)
Lemma touch_inv s x a a' : pool_inv s → actors s !! x = Some a → actor_ok a' → a_rsc_list a' = a_rsc_list a →
  pool_inv (System (pool s) (<[x := a']> (actors s)) (n_constructed s) (destructed s)).
Proof.
  intros H Ha Hok Hl. rewrite <-(with_list_id (pool s)) at 1. apply (exchange_inv s x a); [done|done|done|by rewrite Hl].
Qed.

Lemma register_inv s x c : pool_inv s → actors s !! x = None → 0 ≤ min_greed c ≤ max_greed c →
  pool_inv (System (with_actors (pool s) (actor_list (pool s) ++ [x]) (n_actors (pool s) + 1))
    (<[x := Actor c [] (min_greed c) 0 0 0 false false]> (actors s)) (n_constructed s) (destructed s)).
Proof.
  intros H Hx Hg. assert (x ∉ actor_list (pool s)) as Hnx by (rewrite (pi_actors H), Hx; by intros [? ?]).
  set (s' := System _ _ _ _).
  assert (live s' = live s) as Hl.
  { unfold live, s'. cbn [pool actors with_actors rsc_list actor_list]. f_equal. unfold held at 1. rewrite bind_app, bind_cons.
    unfold actor_rsc at 2. rewrite lookup_insert_eq. cbn [a_rsc_list mbind list_bind app]. rewrite app_nil_r.
    apply held_ext. intros y Hy. apply actor_rsc_ne. by intros ->. }
  split; cbn [s' pool actors n_constructed destructed with_actors actor_list n_actors accepted n_available_rsc conf on_before_rebalance]; fold s'; rewrite ?Hl; try apply H.
  - intros y. rewrite elem_of_app, list_elem_of_singleton, (pi_actors H). destruct (decide (y = x)) as [->|Hne].
    + rewrite lookup_insert_eq. split; eauto.
    + rewrite lookup_insert_ne by done. naive_solver.
  - apply list.NoDup_app. split; [apply H|]. split; [|apply NoDup_singleton]. intros y Hy ->%list_elem_of_singleton. done.
  - rewrite length_app, (pi_n_actors H). cbn [length]. lia.
  - intros y b [[<- <-]|[_ Hb]]%lookup_insert_Some; [|by apply (pi_actor H y)]. split; [done|]. cbn [a_conf greed]. lia.
Qed.

Lemma filter_ne_id (x : Z) (l : list Z) : x ∉ l → filter (.≠ x) l = l.
Proof.
  induction l as [|y l IH]; [done|]. rewrite not_elem_of_cons. intros [Hy Hl]. rewrite list.filter_cons_True by done. by rewrite IH.
Qed.
Lemma unregister_inv s x a : pool_inv s → actors s !! x = Some a → a_rsc_list a = [] →
  pool_inv (System (with_actors (pool s) (filter (.≠ x) (actor_list (pool s))) (n_actors (pool s) - 1))
    (delete x (actors s)) (n_constructed s) (destructed s)).
Proof.
  intros H Ha Hl. assert (x ∈ actor_list (pool s)) as Hx by (apply (pi_actors H); by exists a). set (s' := System _ _ _ _).
  pose proof (pi_nodup H) as Hnd. apply list_elem_of_split in Hx as (l1 & l2 & El). rewrite El in Hnd.
  apply list.NoDup_app in Hnd as (N1 & Hx1 & N2). inversion N2 as [|? ? Hx2 N3]; subst.
  assert (x ∉ l1) as Hx1' by (intros Hi; apply (Hx1 x Hi); set_solver).
  assert (filter (.≠ x) (actor_list (pool s)) = l1 ++ l2) as Ef.
  { rewrite El, list.filter_app, list.filter_cons_False, !filter_ne_id by naive_solver. done. }
  assert (∀ y, y ∈ l1 ++ l2 → actor_rsc (delete x (actors s)) y = actor_rsc (actors s) y) as Hrsc.
  { intros y Hy. unfold actor_rsc. rewrite lookup_delete_ne; [done|]. intros <-. set_solver. }
  assert (live s' = live s) as Hlive.
  { unfold live, s'. cbn [pool actors with_actors rsc_list actor_list]. f_equal. rewrite Ef, El, (held_ext _ (actors s)) by done.
    unfold held. rewrite !bind_app, bind_cons. unfold actor_rsc at 4. by rewrite Ha, Hl. }
  split; cbn [s' pool actors n_constructed destructed with_actors actor_list n_actors accepted n_available_rsc conf on_before_rebalance]; fold s'; rewrite ?Hlive, ?Ef; try apply H.
  - intros y. destruct (decide (y = x)) as [->|Hne].
    + rewrite lookup_delete_eq. split; [set_solver|by intros [? ?]].
    + rewrite lookup_delete_ne, <-(pi_actors H), El by done. set_solver.
  - apply list.NoDup_app. split; [done|]. split; [set_solver|done].
  - rewrite (pi_n_actors H), El, !length_app. cbn [length]. lia.
  - intros y b [_ Hb]%lookup_delete_Some. by apply (pi_actor H y).
Qed.

(** ** Reachable pools *)
Definition steady (s : system) : Prop :=
  pool_inv s ∧ size_pcpu (conf (pool s)) = 0 ∧ reserve_percent (conf (pool s)) = 0.

Inductive pool_step (s : system) : system → Prop :=
| ps_register x c s' : actors s !! x = None → nvmeib_rsc_pool_register_actor cpus construct x c s = Ok s' → pool_step s s'
| ps_close x s' : nvmeib_rsc_pool_actor_start_closing x s = Ok s' → pool_step s s'
| ps_unregister x s' : nvmeib_rsc_pool_unregister_actor x s = Ok (Some s') → pool_step s s'
| ps_quota x s' q : nvmeib_rsc_pool_quota x s = Ok (s', q) → pool_step s s'
| ps_greed x delta s' : nvmeib_rsc_pool_upd_greed cpus construct x delta s = Ok s' → pool_step s s'
| ps_fetch x n s' k : nvmeib_rsc_pool_fetch_rsc x n s = Ok (s', k) → pool_step s s'
| ps_return x n s' : nvmeib_rsc_pool_return_rsc x n s = Ok s' → pool_step s s'
| ps_callback f : (∀ c, conf_ok c → conf_ok (f c)) → pool_step s (nvmeib_rsc_pool_register_callback f s).
Inductive pool_reachable (c : nvmeib_rsc_pool_conf) : system → Prop :=
| pr_init s : nvmeib_rsc_pool_init cpus construct c = Ok s → pool_reachable c s
| pr_step s s' : pool_reachable c s → pool_step s s' → pool_reachable c s'.

Lemma rebalance_steady s s' : pool_inv s → rebalance s = Ok s' → steady s'.
Proof.
  intros H E. pose proof (rebalance_ok s H) as Hr. destruct (validate_conf cpus _ _) as [c|f] eqn:Ev; [|congruence].
  destruct Hr as (s2 & E2 & H2 & _ & _ & C2 & _). rewrite E in E2. injection E2 as <-. split; [done|]. rewrite C2.
  by apply (validate_ok _ _ _ (callbacks_conf _ _ (pi_callbacks H) (pi_conf H)) (proj1 (pi_accepted H)) (proj2 (pi_accepted H)) Ev).
Qed.

Lemma init_steady c s : conf_ok c → nvmeib_rsc_pool_init cpus construct c = Ok s → steady s.
Proof.
  intros Hc. unfold nvmeib_rsc_pool_init. set (s0 := System _ _ _ _).
  assert (pool_inv s0) as H0.
  { split; cbn; try done; try lia.
    - intros x. rewrite lookup_empty. split; [set_solver|by intros [? ?]].
    - constructor.
    - constructor.
    - intros r Hr. set_solver. }
  destruct (rebalance s0) as [s1|] eqn:E; [|done]. cbn [mbind res_bind]. destruct (negb _); [done|]. intros [= <-]. by apply (rebalance_steady s0).
Qed.

Lemma step_steady s s' : steady s → pool_step s s' → steady s'.
Proof.
  intros (H & Hz) Hs. destruct Hs as [x c s' Hx E|x s' E|x s' E|x s' q E|x d s' E|x n s' k E|x n s' E|f Hf].
  - unfold nvmeib_rsc_pool_register_actor in E. destruct (Z.ltb_spec (max_greed c) 0); [done|]. destruct (Z.ltb_spec (min_greed c) 0); [done|].
    destruct (Z.ltb_spec (max_greed c) (min_greed c)); [done|]. apply (rebalance_steady _ _) in E; [done|]. apply register_inv; [done|done|lia].
  - unfold nvmeib_rsc_pool_actor_start_closing, upd_actor in E. destruct (actors s !! x) as [a|] eqn:Ha; [|done]. injection E as <-.
    split; [|done]. apply (touch_inv s x a); [done|done|apply (pi_actor H x a Ha)|done].
  - unfold nvmeib_rsc_pool_unregister_actor in E. destruct (actors s !! x) as [a|] eqn:Ha; [|done]. destruct (negb (closing a)); [done|].
    destruct (_ || _); [|done]. destruct (bool_decide_reflect (a_rsc_list a = [])); [|done]. destruct (negb (bool_decide (x ∈ _))); [done|].
    injection E as <-. split; [|done]. by apply (unregister_inv s x a).
  - unfold nvmeib_rsc_pool_quota in E. destruct (actors s !! x) as [a|] eqn:Ha; [|done]. destruct (quota_of (pool s) a) as [a' q'] eqn:Eq.
    injection E as <- _. assert (a_rsc_list a' = a_rsc_list a ∧ actor_ok a') as [Hl Hok].
    { pose proof (pi_actor H x a Ha). unfold quota_of in Eq. destruct (closing a); [|destruct (_ =? _)]; injection Eq as <- _; done. }
    split; [|done]. by apply (touch_inv s x a).
  - unfold nvmeib_rsc_pool_upd_greed, upd_actor in E. destruct (actors s !! x) as [a|] eqn:Ha; [|done].
    cbv zeta in E. destruct (negb _) in E; [|injection E as <-; done]. apply (rebalance_steady _ _) in E; [done|].
    destruct (pi_actor H x a Ha) as (Hn & Hg1 & Hg2). apply (touch_inv s x a); [done|done| |done]. split; [done|]. cbn [a_conf greed].
    split; [done|]. split; repeat match goal with |- context [?a <? ?b] => destruct (Z.ltb_spec a b) end; lia.
  - destruct (actors s !! x) as [a|] eqn:Ha; [|unfold nvmeib_rsc_pool_fetch_rsc in E; by rewrite Ha in E].
    destruct (fetch_ok s x a n H Ha) as (s2 & E2 & H2 & _). split.
    + rewrite E in E2. injection E2 as -> _. done.
    + unfold nvmeib_rsc_pool_fetch_rsc in E. rewrite Ha, move_rsc_spec in E. injection E as <- _. done.
  - unfold nvmeib_rsc_pool_return_rsc in E. destruct (actors s !! x) as [a|] eqn:Ha; [|done]. pose proof E as E'.
    rewrite move_rsc_spec in E. destruct (Z.eqb_spec (0 + Z.of_nat (n `min` length (a_rsc_list a))) (Z.of_nat n)) as [Hle|]; [|done].
    destruct (return_ok s x a n H Ha ltac:(lia)) as (s2 & E2 & H2 & _). unfold nvmeib_rsc_pool_return_rsc in E2. rewrite Ha in E2.
    rewrite E' in E2. injection E2 as ->. split; [done|]. injection E as <-. done.
  - split; [|done]. split; try apply H. apply Forall_app. split; [apply H|by constructor].
Qed.

Lemma reachable_steady c s : conf_ok c → pool_reachable c s → steady s.
Proof. intros Hc. induction 1; [by apply (init_steady c)|by eapply step_steady]. Qed.
End proof.

(** ** Quotas *)
Fixpoint sum_quota (p : nvmeib_rsc_pool) (l : list nvmeib_rsc_pool_actor) : Z :=
  match l with [] => 0 | a :: l => (quota_of p a).2 + sum_quota p l end.
Fixpoint sum_of (f : nvmeib_rsc_pool_actor → Z) (l : list nvmeib_rsc_pool_actor) : Z :=
  match l with [] => 0 | a :: l => f a + sum_of f l end.

Lemma pressure_range a : 0 ≤ nvmeib_rsc_pool_actor_pressure a < 2 ^ 64.
Proof. unfold nvmeib_rsc_pool_actor_pressure. destruct (closing a); [lia|]. by apply wrap_range. Qed.
Lemma sum_pressure_nonneg l : 0 ≤ sum_of nvmeib_rsc_pool_actor_pressure l.
Proof. induction l as [|a l IH]; cbn [sum_of]; [lia|]. pose proof (pressure_range a). lia. Qed.

Lemma sum_quota_bound p l R : total_pressure p ≠ 0 → 0 ≤ total_pressure p → R = Z.min (size (conf p)) (size (accepted p)) → 0 ≤ R →
  R * sum_of nvmeib_rsc_pool_actor_pressure l < 2 ^ 64 → (∀ a, a ∈ l → 0 ≤ min_rsc (a_conf a)) →
  total_pressure p * sum_quota p l ≤ R * sum_of nvmeib_rsc_pool_actor_pressure l + total_pressure p * sum_of (fun a => min_rsc (a_conf a)) l.
Proof.
  intros Ht Ht0 HR HR0 Hov Hmin. induction l as [|a l IH]; cbn [sum_quota sum_of] in *; [lia|].
  pose proof (pressure_range a) as Hp. pose proof (sum_pressure_nonneg l) as Hs. pose proof (Hmin a ltac:(set_solver)) as Hm.
  specialize (IH ltac:(nia) ltac:(intros; apply Hmin; set_solver)).
  assert (total_pressure p * (quota_of p a).2 ≤ R * nvmeib_rsc_pool_actor_pressure a + total_pressure p * min_rsc (a_conf a)); [|nia].
  unfold quota_of. destruct (closing a); [cbn [snd]; nia|]. rewrite (proj2 (Z.eqb_neq _ _)) by done. cbn [snd]. rewrite <-HR.
  rewrite wrap_small by nia. pose proof (Z.mul_div_le (R * nvmeib_rsc_pool_actor_pressure a) (total_pressure p) ltac:(lia)).
  pose proof (Z.div_pos (R * nvmeib_rsc_pool_actor_pressure a) (total_pressure p) ltac:(nia) ltac:(lia)). nia.
Qed.

Lemma sum_pressure_sum acts l t : t + sum_of nvmeib_rsc_pool_actor_pressure (omap (acts !!.) l) < 2 ^ 64 → 0 ≤ t →
  ∀ t', sum_pressure acts l t = Ok t' → t' = t + sum_of nvmeib_rsc_pool_actor_pressure (omap (acts !!.) l).
Proof.
  revert t. induction l as [|x l IH]; intros t Hb Ht t'; cbn [sum_pressure omap list_omap sum_of] in *; [intros [= <-]; lia|].
  destruct (acts !! x) as [a|]; [|done]. cbn [sum_of] in *. pose proof (pressure_range a). pose proof (sum_pressure_nonneg (omap (acts !!.) l)).
  rewrite wrap_small by lia. intros E. rewrite (IH (t + nvmeib_rsc_pool_actor_pressure a) ltac:(lia) ltac:(lia) t' E). lia.
Qed.


(** After a rebalance the quotas fit the pool: their sum is at most the
    resulting size plus the minima the actors asked for, as long as the products
    of size and pressure stay below 2^64. *)
Theorem quotas_fit cpus construct s s'
    (Hfresh : ∀ i j r, construct i = Some r → construct j = Some r → i = j) (H : pool_inv construct s)
    (E : nvmeib_rsc_pool_force_rebalance_unsafe cpus construct s = Ok s')
    (Hmin : ∀ x a, actors s !! x = Some a → 0 ≤ min_rsc (a_conf a))
    (Hp : sum_of nvmeib_rsc_pool_actor_pressure (omap (actors s !!.) (actor_list (pool s))) < 2 ^ 64)
    (Hov : Z.min (size (conf (pool s'))) (size (accepted (pool s'))) *
           sum_of nvmeib_rsc_pool_actor_pressure (omap (actors s !!.) (actor_list (pool s))) < 2 ^ 64) :
  sum_quota (pool s') (omap (actors s' !!.) (actor_list (pool s'))) ≤
    Z.min (size (conf (pool s'))) (size (accepted (pool s'))) +
    sum_of (fun a => min_rsc (a_conf a)) (omap (actors s' !!.) (actor_list (pool s'))).
Proof.
  pose proof (rebalance_ok cpus construct Hfresh s H) as Hr. destruct (validate_conf cpus _ _) as [c|f]; [|congruence].
  destruct Hr as (s2 & E2 & H2 & A2 & L2 & C2 & _ & T2 & _). rewrite E in E2. injection E2 as <-. rewrite A2, L2.
  apply sum_pressure_sum in T2; [|lia|lia]. rewrite Z.add_0_l in T2. set (l := omap (actors s !!.) (actor_list (pool s))) in *.
  pose proof (pi_conf construct s' H2) as (Hc & _). pose proof (pi_size construct s' H2) as Hsz.
  assert (∀ a, a ∈ l → 0 ≤ min_rsc (a_conf a)) as Hmin'.
  { intros a (x & _ & Hx)%list_elem_of_omap. by apply (Hmin x). }
  assert (0 ≤ sum_of (fun a => min_rsc (a_conf a)) l) as Hm0.
  { clear -Hmin'. induction l as [|a l IH]; cbn [sum_of]; [lia|]. pose proof (Hmin' a ltac:(set_solver)).
    pose proof (IH ltac:(intros; apply Hmin'; set_solver)). lia. }
  pose proof (sum_pressure_nonneg l) as Hpn. destruct (Z.eq_dec (total_pressure (pool s')) 0) as [Hz|Hz].
  - assert (sum_quota (pool s') l = 0) as ->; [|lia]. clear -Hz. induction l as [|a l IH]; [done|]. cbn [sum_quota]. rewrite IH. unfold quota_of.
    destruct (closing a); [done|]. by rewrite Hz.
  - pose proof (sum_quota_bound (pool s') l _ Hz ltac:(lia) eq_refl ltac:(lia) Hov Hmin') as Hb. nia.
Qed.

(** C34: freeing a pool without actors never fails and destructs everything: the
    pool ends empty, and each resource ever constructed was destructed once. *)
Theorem pool_free_destroys_all cpus construct c s
    (Hfresh : ∀ i j r, construct i = Some r → construct j = Some r → i = j)
    (Hc : conf_ok c) (Hs : pool_reachable cpus construct c s) (Ha : actor_list (pool s) = []) :
  ∃ s', nvmeib_rsc_pool_free cpus construct s = Ok s' ∧ rsc_list (pool s') = [] ∧ size (accepted (pool s')) = 0 ∧
    NoDup (destructed s') ∧ ∀ k r, (k < n_constructed s)%nat → construct k = Some r → r ∈ destructed s'.
Proof.
  destruct (reachable_steady cpus construct Hfresh c s Hc Hs) as (H & Hz1 & Hz2). unfold nvmeib_rsc_pool_free. rewrite bool_decide_true by done. cbn [negb].
  set (s0 := with_pool s _). assert (pool_inv construct s0) as H0.
  { pose proof (pi_conf construct s H) as (K1 & K2 & K3 & K4). split; try apply H; [|constructor].
    unfold conf_ok; cbn [s0 with_pool pool conf size size_pcpu reserve reserve_percent]. lia. }
  pose proof (rebalance_ok cpus construct Hfresh s0 H0) as Hr. destruct (pi_accepted construct s H) as [Z1 Z2].
  unfold validate_conf in Hr. cbn [s0 with_pool pool on_before_rebalance fold_left conf accepted size size_pcpu reserve_percent] in Hr.
  rewrite Z1, Z2, Hz1, Hz2 in Hr. cbn [Z.eqb negb orb] in Hr. destruct Hr as (s' & -> & H' & A' & L' & C' & _ & _ & D' & _). rstep.
  cbn [size] in D'. pose proof (pi_size construct s H) as Hsz. unfold live in Hsz. rewrite Ha in Hsz. cbn [held mbind list_bind] in Hsz. rewrite app_nil_r in Hsz.
  destruct (D' ltac:(lia)) as [Hd Hl]. rewrite Z.sub_0_r, Hsz, Nat2Z.id in Hd, Hl. rewrite drop_all in Hl. rewrite firstn_all in Hd.
  cbn [s0 with_pool destructed] in Hd. rewrite bool_decide_true by done. cbn [negb].
  assert (live s' = []) as Hlive by (unfold live; rewrite Hl, L'; cbn [s0 with_pool pool actor_list]; by rewrite Ha).
  assert (size (accepted (pool s')) = 0) as Hs0 by (rewrite (pi_size construct s' H'), Hlive; done). rewrite Hs0. cbn [Z.eqb negb].
  exists s'. split; [done|]. split; [done|]. split; [done|]. split; [pose proof (pi_once construct s' H') as Hn; by rewrite Hlive in Hn|].
  intros k r Hk E. rewrite Hd. pose proof (pi_all construct s H k r Hk E) as Hin. unfold live in Hin. rewrite Ha in Hin.
  cbn [held mbind list_bind] in Hin. rewrite app_nil_r in Hin. set_solver.
Qed.

(** A pool of eight resources on two processors, with one actor. *)
Module OneActor.
Definition construct (k : nat) : option Z := Some (Z.of_nat k + 100).
Definition c : nvmeib_rsc_pool_conf := PoolConf 8 0 2 0.
Definition empty : system := System (Pool c (PoolConf 0 0 0 0) [] 0 0 0 [] [] 0) ∅ 0 [].
Definition get (r : res system) : system := match r with Ok s => s | Fault _ => empty end.
Definition s1 : system := get (nvmeib_rsc_pool_init 2 construct c).
Definition s2 : system := get (nvmeib_rsc_pool_register_actor 2 construct 1 (ActorConf 3 1 0 4) s1).
Definition s3 : system := match nvmeib_rsc_pool_fetch_rsc 1 3 s2 with Ok (s, _) => s | Fault _ => empty end.
Definition s4 : system := get (nvmeib_rsc_pool_force_rebalance_unsafe 2 construct s3).
End OneActor.

Lemma one_actor_fresh i j r : OneActor.construct i = Some r → OneActor.construct j = Some r → i = j.
Proof. unfold OneActor.construct. intros [= <-] [= E]. lia. Qed.
Lemma one_actor_conf : conf_ok OneActor.c.
Proof. unfold conf_ok. cbn. lia. Qed.
Lemma one_actor_s1 : pool_reachable 2 OneActor.construct OneActor.c OneActor.s1.
Proof. apply pr_init. vm_compute. reflexivity. Qed.
Lemma one_actor_s3 : pool_reachable 2 OneActor.construct OneActor.c OneActor.s3.
Proof.
  apply (pr_step _ _ _ OneActor.s2); [apply (pr_step _ _ _ OneActor.s1); [exact one_actor_s1|]|].
  - apply (ps_register _ _ _ 1 (ActorConf 3 1 0 4)); vm_compute; reflexivity.
  - apply (ps_fetch _ _ _ 1 3 _ 3). vm_compute. reflexivity.
Qed.


Lemma quotas_fit_witness :
  sum_quota (pool OneActor.s4) (omap (actors OneActor.s4 !!.) (actor_list (pool OneActor.s4))) ≤
    Z.min (size (conf (pool OneActor.s4))) (size (accepted (pool OneActor.s4))) +
    sum_of (fun a => min_rsc (a_conf a)) (omap (actors OneActor.s4 !!.) (actor_list (pool OneActor.s4))).
Proof.
  apply (quotas_fit 2 OneActor.construct OneActor.s3 OneActor.s4 one_actor_fresh).
  - apply (reachable_steady 2 _ one_actor_fresh OneActor.c _ one_actor_conf one_actor_s3).
  - vm_compute. reflexivity.
  - intros x a Ha. assert (map_Forall (fun _ a => 0 ≤ min_rsc (a_conf a)) (actors OneActor.s3)) as Hall; [|by apply (Hall x)].
    refine (bool_decide_eq_true_1 _ _). vm_compute. reflexivity.
  - vm_compute. reflexivity.
  - vm_compute. reflexivity.
Defined.

Lemma pool_free_destroys_all_witness :
  ∃ s', nvmeib_rsc_pool_free 2 OneActor.construct OneActor.s1 = Ok s' ∧ rsc_list (pool s') = [] ∧ size (accepted (pool s')) = 0 ∧
    NoDup (destructed s') ∧ ∀ k r, (k < n_constructed OneActor.s1)%nat → OneActor.construct k = Some r → r ∈ destructed s'.
Proof.
  apply (pool_free_destroys_all 2 OneActor.construct OneActor.c OneActor.s1 one_actor_fresh one_actor_conf one_actor_s1).
  vm_compute. reflexivity.
Defined.

(** The accepted configuration is never accepted.  Where the code comments
    that it accepts the new configuration it copies the old accepted values over
    it: in every reachable pool the accepted per-cpu size and reserve percentage
    are still zero, the configured ones have been reset to zero, and
    [n_available_rsc] counts also the resources actors hold. *)
Theorem accepted_conf_lost cpus construct c s
    (Hfresh : ∀ i j r, construct i = Some r → construct j = Some r → i = j)
    (Hc : conf_ok c) (Hs : pool_reachable cpus construct c s) :
  size_pcpu (accepted (pool s)) = 0 ∧ reserve_percent (accepted (pool s)) = 0 ∧
  size_pcpu (conf (pool s)) = 0 ∧ reserve_percent (conf (pool s)) = 0 ∧
  n_available_rsc (pool s) = Z.of_nat (length (rsc_list (pool s)) + length (held (actors s) (actor_list (pool s)))).
Proof.
  destruct (reachable_steady cpus construct Hfresh c s Hc Hs) as (H & Hz1 & Hz2). destruct (pi_accepted construct s H) as [Z1 Z2].
  split_and!; try done. rewrite (pi_available construct s H), (pi_size construct s H). unfold live. by rewrite length_app.
Qed.

(** A per-cpu size of four on two processors gives eight resources and is forgotten. *)
Lemma accepted_conf_lost_witness :
  let s := OneActor.get (nvmeib_rsc_pool_init 2 OneActor.construct (PoolConf 0 4 0 25)) in
  size_pcpu (accepted (pool s)) = 0 ∧ reserve_percent (accepted (pool s)) = 0 ∧
  size_pcpu (conf (pool s)) = 0 ∧ reserve_percent (conf (pool s)) = 0 ∧
  n_available_rsc (pool s) = Z.of_nat (length (rsc_list (pool s)) + length (held (actors s) (actor_list (pool s)))).
Proof.
  apply (accepted_conf_lost 2 OneActor.construct (PoolConf 0 4 0 25) _ one_actor_fresh).
  - unfold conf_ok. cbn. lia.
  - apply pr_init. vm_compute. reflexivity.
Defined.
