(* ===== verification/Topology.v ===== *)
(** * The topology of a volume and the walk over an address range

    A volume is an array of chunks, each a range of volume block addresses
    (vlba) striped over the protection raids of the chunk, each raid a group of
    disk segments.  This file holds the data of
    src/clnt/block/nvmeibc_topology.h, the search of the chunk of an address
    (nvmeibc_topology.c), the layout check with the growth of the written range
    of a thin volume, and the iterator that cuts an I/O into pieces of one raid
    or of one blockset (nvmeibc_block_dp_common.c). *)
From stdpp Require Import base list numbers strings.
From Stdlib Require Import ZArith Lia.
From S2P Require Import Prelude CMemory.
Local Open Scope Z_scope.

(** ** Constants of a build with 4 KB blocks *)
Definition NVMEIBC_SECTOR_SHIFT : Z := 12.
Definition LOCK_CHANGE_STRIDE_SHIFT : Z := 1.
Definition LOCKSET_SLICES : Z := Z.shiftl 1 (17 - NVMEIBC_SECTOR_SHIFT).
Definition LOCKSET_SHIFT : Z := 17 - NVMEIBC_SECTOR_SHIFT + LOCK_CHANGE_STRIDE_SHIFT.
Definition LOCKSET_MASK : Z := Z.lnot (LOCKSET_SLICES - 1).
Definition N_MAX_RAID_LOCKS : nat := 4.
Definition N_MAX_RAID_SLICE_LEN : nat := 12.

(** ** Data *)
Inductive ds_mode : Set :=
| DS_MODE_INVALID | DS_MODE_RW | DS_MODE_W | DS_MODE_DEAD | DS_MODE_W_NO_DIRTY | DS_MODE_W_IS_DIRTY.

Inductive owner_mode : Set :=
| OWNER_MODE_INVALID | OWNER_MODE_NO_OWNER | OWNER_MODE_PRIMARY | OWNER_MODE_SECONDARY
| OWNER_MODE_COPY_OWNER | OWNER_MODE_OTHER (m : Z).

Inductive lock_moving : Set := LOCK_MOVING_UNKNOWN | LOCK_MOVING_NO | LOCK_MOVING_YES.

Inductive lock_server_type : Set := OWNER_SCHEME_FIRST_L_INC_A | OWNER_SCHEME_SL_START_DEC_C.

#[export] Instance ds_mode_eq_dec : EqDecision ds_mode.
Proof. solve_decision. Defined.
#[export] Instance owner_mode_eq_dec : EqDecision owner_mode.
Proof. solve_decision. Defined.
#[export] Instance lock_moving_eq_dec : EqDecision lock_moving.
Proof. solve_decision. Defined.
#[export] Instance lock_server_type_eq_dec : EqDecision lock_server_type.
Proof. solve_decision. Defined.

(** Which locks protect the blocksets whose slice starts on a segment. *)
Record lock_ownership_map : Type := Lmap { lm_type : list owner_mode; lm_si : list Z; n_locks : Z }.

Record disk_segment : Type := Segment {
  uuid : string; first_lba : Z; seg_length : Z; lmap : lock_ownership_map;
  sync_safety : lock_moving; is_safe_for_view_lock : bool; toma_acm : ds_mode
}.

Record locks_scheme : Type := LocksScheme { ls_type : lock_server_type; max_n_owners : Z; lockset_shift : Z }.

Record raid1 : Type := Raid1 {
  replicas : Z; slice_size : Z; segments : list disk_segment;
  lock_scheme : locks_scheme; use_rdma_locks : bool
}.

Record chunk : Type := Chunk { first_vlba : Z; stripe_size : Z; raid1s : list raid1 }.

(** The last element of [chunks] is a dummy that carries the end address. *)
Record topology : Type := Topology {
  nchunks : Z; highest_pow2_in_chunk_ind : Z; stripe_width : Z; chunks : list chunk
}.

Definition get_topo_num_chunks (t : topology) : Z := nchunks t - 1.

(** Indexing with a C int. *)
Definition zget {A} (l : list A) (i : Z) : res A := if i <? 0 then Fault OOB else aget l (Z.to_nat i).

(** ** The chunk of an address *)
Fixpoint pow2_from (fuel : nat) (n num : Z) : res Z :=
  match fuel with
  | O => Fault NO_FUEL
  | S f => if n <? num then pow2_from f (s32 (Z.shiftl n 1)) num else Ok n
  end.

Definition topo_calc_chunk_binary_search_start (t : topology) : res topology :=
  n ← pow2_from 31 1 (get_topo_num_chunks t);
  Ok (Topology (nchunks t) (Z.shiftr n 1) (stripe_width t) (chunks t)).

Fixpoint chunk_search (fuel : nat) (t : topology) (lba bit i : Z) : res Z :=
  match fuel with
  | O => Fault NO_FUEL
  | S f =>
      if bit =? 0 then Ok i else
      let next_i := Z.lor i bit in
      if next_i <? get_topo_num_chunks t then
        c ← zget (chunks t) next_i;
        if first_vlba c <=? lba then
          c' ← zget (chunks t) (next_i + 1);
          if lba <? first_vlba c' then Ok next_i
          else chunk_search f t lba (Z.shiftr bit 1) next_i
        else chunk_search f t lba (Z.shiftr bit 1) i
      else chunk_search f t lba (Z.shiftr bit 1) i
  end.

Definition nvmeibc_get_chunk_ind_of_lba (lba : Z) (t : topology) : res Z :=
  chunk_search 32 t lba (highest_pow2_in_chunk_ind t) 0.

(** ** Layout check

    [autoext] is the part of the block device a thin volume uses: the size the
    user sees and the highest address a write has asked for. *)
Record autoext : Type := Autoext { is_api_enabled : bool; dev_size : Z; max_write_lba : Z }.

Inductive layout_rv : Set := LAYOUT_OK | LAYOUT_EIO | LAYOUT_EAGAIN.
#[export] Instance layout_rv_eq_dec : EqDecision layout_rv.
Proof. solve_decision. Defined.

(** The loop that raises [max_write_lba], run without interference: an exchange
    against the value just read succeeds. *)
Definition raise_max_write (a : autoext) (last_lba : Z) : autoext :=
  if max_write_lba a <? last_lba then Autoext (is_api_enabled a) (dev_size a) last_lba else a.

Definition check_layout (nlbas vlba : Z) (t : topology) (a : autoext) (check_max_write : bool) :
    res (layout_rv * autoext) :=
  last ← zget (chunks t) (nchunks t - 1);
  let last_addr := first_vlba last in
  let allow_thin_write := check_max_write && is_api_enabled a in
  let valid :=
    if nchunks t <? 2 then LAYOUT_EIO
    else if nlbas =? 0 then LAYOUT_EIO
    else if (2 ^ 63 <? vlba) || (last_addr <? u64 (vlba + nlbas)) then LAYOUT_EIO
    else LAYOUT_OK in
  if allow_thin_write then
    let last_lba := u64 (vlba + nlbas - 1) in
    if last_lba <? dev_size a then
      Ok (if decide (valid = LAYOUT_OK) then LAYOUT_OK else LAYOUT_EAGAIN, raise_max_write a last_lba)
    else Ok (valid, a)
  else Ok (valid, a).

(** ** The iterator *)
Record iter_res : Type := IterRes { res_r : option (Z * Z); res_rlba : Z; res_nlbas : Z }.

(** The raid of a result is named by its chunk and its place in the stripe. *)
Record iterator : Type := Iter {
  it_vlba : Z; it_nlbas : Z; it_nlbas_chunk : Z; it_ci : Z; it_res : iter_res
}.

Definition get_raid (t : topology) (ci ri : Z) : res raid1 :=
  c ← zget (chunks t) ci; zget (raid1s c) ri.

Definition trunc_nlbas_to_stripe (vlba nlbas : Z) (t : topology) (c : Z) : res iter_res :=
  ch ← zget (chunks t) c;
  let rlba := u64 (vlba - first_vlba ch) in
  if 1 <? stripe_width t then
    let nlbas_in_stripe := stripe_size ch - rlba mod stripe_size ch in
    let stripe_index := (rlba / stripe_size ch) mod stripe_width t in
    let rlba' := u64 ((rlba / s32 (stripe_width t * stripe_size ch)) * stripe_size ch + rlba mod stripe_size ch) in
    Ok (IterRes (Some (c, stripe_index)) rlba' (if nlbas_in_stripe <? nlbas then nlbas_in_stripe else nlbas))
  else Ok (IterRes (Some (c, 0)) rlba nlbas).

Definition trunc_nlabs_to_blockset (pr : raid1) (rlba nlbas : Z) : Z :=
  let n_blks_in_blkset := LOCKSET_SLICES * slice_size pr in
  let n_remaining := n_blks_in_blkset - rlba mod n_blks_in_blkset in
  Z.min nlbas n_remaining.

Definition dp_io_topo_iterator_init (vlba nlbas ci : Z) : iterator :=
  Iter vlba nlbas 0 (ci - 1) (IterRes None 0 0).

Definition dp_io_topo_iterator_consume (it : iterator) : iterator :=
  Iter (u64 (it_vlba it + res_nlbas (it_res it))) (it_nlbas it)
    (u64 (it_nlbas_chunk it - res_nlbas (it_res it))) (it_ci it) (it_res it).

(** [what = 'l'] walks by blocksets, otherwise by raids. *)
Inductive iter_what : Set := BY_LOCK | BY_RAID.

(** From the label [_start] on; each jump back to it moves to the next chunk. *)
Fixpoint iterator_start (fuel : nat) (t : topology) (it : iterator) (what : iter_what) : res (bool * iterator) :=
  match fuel with
  | O => Fault NO_FUEL
  | S f =>
      if negb (it_nlbas_chunk it =? 0) then
        r ← trunc_nlbas_to_stripe (it_vlba it) (it_nlbas_chunk it) t (it_ci it);
        match what with
        | BY_RAID => Ok (true, Iter (it_vlba it) (it_nlbas it) (it_nlbas_chunk it) (it_ci it) r)
        | BY_LOCK =>
            match res_r r with
            | Some (c, s) =>
                pr ← get_raid t c s;
                let r' := IterRes (res_r r) (res_rlba r) (trunc_nlabs_to_blockset pr (res_rlba r) (res_nlbas r)) in
                Ok (true, Iter (it_vlba it) (it_nlbas it) (it_nlbas_chunk it) (it_ci it) r')
            | None => Fault NULL_DEREF
            end
        end
      else if negb (it_nlbas it =? 0) then
        c ← zget (chunks t) (it_ci it + 1 + 1);
        let nlbas_chunk := Z.min (it_nlbas it) (u64 (first_vlba c - it_vlba it)) in
        iterator_start f t
          (Iter (it_vlba it) (u64 (it_nlbas it - nlbas_chunk)) nlbas_chunk (it_ci it + 1) (it_res it)) what
      else Ok (false, it)
  end.

Definition dp_io_topo_iterator_next (t : topology) (it : iterator) (what : iter_what) : res (bool * iterator) :=
  iterator_start (2 + length (chunks t)) t (dp_io_topo_iterator_consume it) what.

(** ** Well-formed topologies *)
Definition vstart (t : topology) (i : Z) : Z :=
  match chunks t !! Z.to_nat i with Some c => first_vlba c | None => 0 end.

Record wf_raid1 (r : raid1) : Prop := {
  wf_slice : 1 ≤ slice_size r;
  wf_replicas : slice_size r ≤ replicas r ≤ Z.of_nat N_MAX_RAID_SLICE_LEN;
  wf_segments : length (segments r) = Z.to_nat (replicas r);
  wf_aligned : Forall (fun s => 0 ≤ first_lba s < 2 ^ 62 ∧ first_lba s mod LOCKSET_SLICES = 0) (segments r)
}.

(** The raids of a chunk; the dummy chunk has none. *)
Record wf_chunk (t : topology) (c : chunk) : Prop := {
  wf_stripe : 1 ≤ stripe_size c ∧ stripe_width t * stripe_size c < 2 ^ 31;
  wf_nraids : length (raid1s c) = Z.to_nat (stripe_width t);
  wf_raids : Forall wf_raid1 (raid1s c)
}.

Record wf_topology (t : topology) : Prop := {
  wf_nchunks : nchunks t = Z.of_nat (length (chunks t)) ∧ 2 ≤ nchunks t ≤ 2 ^ 30;
  wf_width : 1 ≤ stripe_width t;
  wf_first : vstart t 0 = 0;
  wf_sorted : ∀ i, 0 ≤ i < get_topo_num_chunks t → vstart t i < vstart t (i + 1);
  wf_end : vstart t (get_topo_num_chunks t) ≤ 2 ^ 60;
  wf_chunks : ∀ i c, 0 ≤ i < get_topo_num_chunks t → chunks t !! Z.to_nat i = Some c → wf_chunk t c
}.

Lemma zget_ok {A} (l : list A) i x : 0 ≤ i → l !! Z.to_nat i = Some x → zget l i = Ok x.
Proof. intros Hi Hx. unfold zget. rewrite (proj2 (Z.ltb_ge _ _)) by done. by apply aget_ok. Qed.

Lemma zget_is_Some {A} (l : list A) i : 0 ≤ i < Z.of_nat (length l) → ∃ x, l !! Z.to_nat i = Some x ∧ zget l i = Ok x.
Proof.
  intros Hi. destruct (l !! Z.to_nat i) as [x|] eqn:E; [|apply lookup_ge_None in E; lia].
  exists x. split; [done|]. apply zget_ok; [lia|done].
Qed.

Section chunk_of_address.
Context (t : topology) (Hwf : wf_topology t).

Lemma zget_chunk i : 0 ≤ i < nchunks t → ∃ c, zget (chunks t) i = Ok c ∧ first_vlba c = vstart t i.
Proof.
  intros Hi. destruct (wf_nchunks _ Hwf) as [Hn _].
  destruct (zget_is_Some (chunks t) i) as (c & Hc & E); [lia|]. exists c. split; [done|].
  unfold vstart. by rewrite Hc.
Qed.

Lemma vstart_mono i j : 0 ≤ i → i ≤ j → j < nchunks t → vstart t i ≤ vstart t j.
Proof.
  intros Hi Hij Hj. replace j with (i + Z.of_nat (Z.to_nat (j - i))) in * by lia.
  revert Hj. generalize (Z.to_nat (j - i)) as d. clear j Hij. induction d as [|d IH]; intros Hj.
  - by rewrite Z.add_0_r.
  - pose proof (wf_sorted _ Hwf (i + Z.of_nat d)) as Hs. unfold get_topo_num_chunks in Hs.
    replace (i + Z.of_nat (S d)) with (i + Z.of_nat d + 1) in * by lia. lia.
Qed.

Lemma vstart_nonneg i : 0 ≤ i < nchunks t → 0 ≤ vstart t i.
Proof. intros Hi. rewrite <-(wf_first _ Hwf). apply vstart_mono; lia. Qed.

Lemma vstart_end i : 0 ≤ i < nchunks t → vstart t i ≤ 2 ^ 60.
Proof.
  intros Hi. etrans; [|apply (wf_end _ Hwf)]. apply vstart_mono; unfold get_topo_num_chunks; lia.
Qed.

(** Chunk [j] holds the address [lba]. *)
Definition in_chunk (j lba : Z) : Prop :=
  0 ≤ j < get_topo_num_chunks t ∧ vstart t j ≤ lba < vstart t (j + 1).

Lemma in_chunk_le j lba i : in_chunk j lba → 0 ≤ i < nchunks t → vstart t i ≤ lba → i ≤ j.
Proof.
  intros [Hj Hl] Hi Hs. destruct (Z.le_gt_cases i j) as [|Hlt]; [done|].
  pose proof (vstart_mono (j + 1) i). lia.
Qed.

Lemma in_chunk_lt j lba i : in_chunk j lba → 0 ≤ i < nchunks t → lba < vstart t i → j < i.
Proof.
  intros [Hj Hl] Hi Hs. destruct (Z.lt_ge_cases j i) as [|Hge]; [done|].
  unfold get_topo_num_chunks in Hj. pose proof (vstart_mono i j). lia.
Qed.

Lemma in_chunk_unique j j' lba : in_chunk j lba → in_chunk j' lba → j = j'.
Proof.
  intros H H'. pose proof H as [Hj Hl]. pose proof H' as [Hj' Hl']. unfold get_topo_num_chunks in *.
  assert (j ≤ j') by (apply (in_chunk_le j' lba); [done|lia..]).
  assert (j' ≤ j) by (apply (in_chunk_le j lba); [done|lia..]). lia.
Qed.

Lemma in_chunk_exists lba : 0 ≤ lba < vstart t (get_topo_num_chunks t) → ∃ j, in_chunk j lba.
Proof.
  intros Hl. pose proof (wf_nchunks _ Hwf) as [_ Hn]. unfold in_chunk, get_topo_num_chunks in *.
  assert (∀ d, Z.of_nat d < nchunks t → lba < vstart t (Z.of_nat d) →
    ∃ j, 0 ≤ j < Z.of_nat d ∧ vstart t j ≤ lba < vstart t (j + 1)) as H.
  { induction d as [|d IH]; intros Hd Hv; [pose proof (wf_first _ Hwf); change (Z.of_nat 0) with 0 in Hv; lia|].
    destruct (Z.le_gt_cases (vstart t (Z.of_nat d)) lba) as [Hle|Hgt].
    - exists (Z.of_nat d). replace (Z.of_nat (S d)) with (Z.of_nat d + 1) in * by lia. lia.
    - destruct IH as (j & Hj & Hl'); [lia|done|]. exists j. lia. }
  destruct (H (Z.to_nat (nchunks t - 1))) as (j & Hj & Hl'); rewrite ?Z2Nat.id in * by lia; [lia..|].
  by exists j.
Qed.

Lemma lor_bit i k : 0 ≤ k → i mod 2 ^ (k + 1) = 0 → Z.lor i (2 ^ k) = i + 2 ^ k.
Proof.
  intros Hk Hi. symmetry. rewrite Z.add_nocarry_lxor, Z.lxor_lor; [done| |];
  apply Z.bits_inj'; intros n Hn; rewrite Z.land_spec, Z.bits_0, Z.pow2_bits_eqb by done;
  destruct (Z.eqb_spec k n) as [->|]; rewrite ?andb_false_r; try done; rewrite andb_true_r;
  rewrite <-(Z.mod_pow2_bits_low i (n + 1)) by lia; by rewrite Hi, Z.bits_0.
Qed.

Definition bit_of (k : nat) : Z := match k with O => 0 | S k' => 2 ^ Z.of_nat k' end.

Lemma bit_of_shiftr k : Z.shiftr (bit_of (S k)) 1 = bit_of k.
Proof.
  destruct k as [|k]; [done|]. cbn [bit_of]. rewrite Z.shiftr_div_pow2, Z.pow_1_r by lia.
  replace (Z.of_nat (S k)) with (Z.of_nat k + 1) by lia. rewrite Z.pow_add_r, Z.pow_1_r by lia.
  by rewrite Z.div_mul.
Qed.

Lemma chunk_search_ok lba j (Hj : in_chunk j lba) k : ∀ fuel i,
  (k < fuel)%nat → i mod 2 ^ Z.of_nat k = 0 → 0 ≤ i ≤ j → j < i + 2 ^ Z.of_nat k →
  chunk_search fuel t lba (bit_of k) i = Ok j.
Proof.
  pose proof Hj as [Hjr Hl]. unfold get_topo_num_chunks in Hjr.
  induction k as [|k IH]; intros [|fuel] i Hf Hi H0 Hlt; try lia; cbn [chunk_search].
  { cbn [bit_of]. simpl. f_equal. change (2 ^ Z.of_nat 0) with 1 in Hlt. lia. }
  assert (0 < 2 ^ Z.of_nat k) as Hp by (apply Z.pow_pos_nonneg; lia).
  assert (2 ^ Z.of_nat (S k) = 2 * 2 ^ Z.of_nat k) as Hd.
  { replace (Z.of_nat (S k)) with (Z.succ (Z.of_nat k)) by lia. apply Z.pow_succ_r. lia. }
  assert (Z.lor i (bit_of (S k)) = i + 2 ^ Z.of_nat k) as ->.
  { apply lor_bit; [lia|]. by replace (Z.of_nat k + 1) with (Z.of_nat (S k)) by lia. }
  assert (i mod 2 ^ Z.of_nat k = 0 ∧ (i + 2 ^ Z.of_nat k) mod 2 ^ Z.of_nat k = 0) as [Hm1 Hm2].
  { rewrite Hd in Hi. assert ((2 ^ Z.of_nat k | i)) as Hdv.
    { apply Z.mod_divide in Hi; [|lia]. etrans; [|exact Hi]. by exists 2. }
    split; (apply Z.mod_divide; [lia|]); [done|by apply Z.divide_add_r, Z.divide_refl]. }
  rewrite (proj2 (Z.eqb_neq (bit_of (S k)) 0)) by (cbn [bit_of]; lia). rewrite bit_of_shiftr. unfold get_topo_num_chunks.
  destruct (Z.ltb_spec (i + 2 ^ Z.of_nat k) (nchunks t - 1)) as [Hn|]; [|apply IH; lia].
  destruct (zget_chunk (i + 2 ^ Z.of_nat k)) as (c & -> & Hc); [lia|]. rstep. rewrite Hc.
  destruct (Z.leb_spec (vstart t (i + 2 ^ Z.of_nat k)) lba) as [Hle|Hgt].
  - apply (in_chunk_le j) in Hle; [|done|lia].
    destruct (zget_chunk (i + 2 ^ Z.of_nat k + 1)) as (c' & -> & Hc'); [lia|]. rstep. rewrite Hc'.
    destruct (Z.ltb_spec lba (vstart t (i + 2 ^ Z.of_nat k + 1))) as [Hlt'|]; [|apply IH; lia].
    apply (in_chunk_lt j) in Hlt'; [|done|lia]. f_equal. lia.
  - apply (in_chunk_lt j) in Hgt; [|done|lia]. apply IH; lia.
Qed.

Lemma pow2_from_ok num : ∀ d k, num ≤ 2 ^ Z.of_nat (k + d) → (k + d ≤ 30)%nat → 2 ^ Z.of_nat k < 2 * num →
  ∃ k', (k ≤ k' ≤ k + d)%nat ∧ pow2_from (S d) (2 ^ Z.of_nat k) num = Ok (2 ^ Z.of_nat k') ∧ num ≤ 2 ^ Z.of_nat k'.
Proof.
  induction d as [|d IH]; intros k Hn Hd Hk.
  { exists k. rewrite Nat.add_0_r in *. cbn [pow2_from]. by rewrite (proj2 (Z.ltb_ge _ _)) by lia. }
  rewrite Nat.add_succ_r in Hn, Hd. assert (Z.shiftl (2 ^ Z.of_nat k) 1 = 2 ^ Z.of_nat (S k)) as E.
  { rewrite Z.shiftl_mul_pow2, Z.mul_comm, <-Z.pow_add_r by lia. f_equal. lia. }
  cbn [pow2_from]. destruct (Z.ltb_spec (2 ^ Z.of_nat k) num) as [Hlt|Hge]; [|exists k; split_and!; (lia || done)].
  rewrite E. assert (2 ^ Z.of_nat (S k) < 2 ^ 31) by (apply Z.pow_lt_mono_r; lia).
  replace (s32 (2 ^ Z.of_nat (S k))) with (2 ^ Z.of_nat (S k)).
  2:{ unfold s32. rewrite wrap_small; lia. }
  destruct (IH (S k)) as (k' & Hk' & Hr & Hle); [done|lia| |exists k'; split_and!; (lia || done)].
  replace (Z.of_nat (S k)) with (Z.succ (Z.of_nat k)) by lia. rewrite Z.pow_succ_r by lia. lia.
Qed.
End chunk_of_address.

(** A topology whose search start has been set up finds the chunk of any address. *)
Lemma search_start_ok t : wf_topology t → ∃ k, (k ≤ 30)%nat ∧ get_topo_num_chunks t ≤ 2 ^ Z.of_nat k ∧
  topo_calc_chunk_binary_search_start t = Ok (Topology (nchunks t) (bit_of k) (stripe_width t) (chunks t)).
Proof.
  intros Hwf. destruct (wf_nchunks _ Hwf) as [_ Hn]. unfold get_topo_num_chunks.
  destruct (pow2_from_ok (nchunks t - 1) 30 0) as (k & Hk & Hr & Hle); [change (Z.of_nat (0 + 30)) with 30; lia|lia|simpl; lia|].
  exists k. split_and!; [lia|done|]. unfold topo_calc_chunk_binary_search_start, get_topo_num_chunks.
  change (2 ^ Z.of_nat 0) with 1 in Hr. rewrite Hr. rstep. f_equal. f_equal. apply (bit_of_shiftr k).
Qed.
