(* ===== verification/TopoIter.v ===== *)
(** * The iterator covers an I/O exactly

    The loop [while (dp_io_topo_iterator_next(..))] of the datapath, its result
    compared with a block by block reference, and the growth of the written
    range of a thin volume under interleaving. *)
From stdpp Require Import base list numbers strings relations.
From Stdlib Require Import ZArith Lia.
From S2P Require Import Prelude CMemory Topology.
Local Open Scope Z_scope.

Ltac div_lia := Z.to_euclidean_division_equations; lia.

(** ** Loops over an iterator

    The body may shorten the piece it was given: the next call consumes what is
    left in [it_res]. *)
Fixpoint iter_while {St} (fuel : nat) (t : topology) (it : iterator) (what : iter_what)
    (body : iter_res → St → res (iter_res * St)) (s : St) : res St :=
  match fuel with
  | O => Fault NO_FUEL
  | S f =>
      n ← dp_io_topo_iterator_next t it what;
      if (n.1 : bool) then
        let it' := n.2 in
        b ← body (it_res it') s;
        iter_while f t (Iter (it_vlba it') (it_nlbas it') (it_nlbas_chunk it') (it_ci it') b.1) what body b.2
      else Ok s
  end.

(** ** Reference: one block at a time *)
Definition stripe_of (t : topology) (c : Z) : Z :=
  match chunks t !! Z.to_nat c with Some ch => stripe_size ch | None => 1 end.

(** Raid and raid address of the block at volume address [v] of chunk [c]. *)
Definition locate (t : topology) (c v : Z) : Z * Z * Z :=
  let x := v - vstart t c in
  let ss := stripe_of t c in
  (c, (x / ss) mod stripe_width t, x / (stripe_width t * ss) * ss + x mod ss).

Definition located (t : topology) (v : Z) (p : Z * Z * Z) : Prop := ∃ c, in_chunk t c v ∧ p = locate t c v.

(** The blocks of a piece, in order. *)
Definition blocks_of (p : iter_res) : list (Z * Z * Z) :=
  match res_r p with
  | Some (c, s) => (fun k => (c, s, res_rlba p + k)) <$> seqZ 0 (res_nlbas p)
  | None => []
  end.

Definition raid_of (t : topology) (p : iter_res) : res raid1 :=
  match res_r p with Some (c, s) => get_raid t c s | None => Fault NULL_DEREF end.

(** ** Arithmetic of stripes *)
Lemma stripe_step ss x k : 0 < ss → 0 ≤ x → 0 ≤ k → k < ss - x mod ss →
  (x + k) / ss = x / ss ∧ (x + k) mod ss = x mod ss + k.
Proof.
  intros Hs Hx Hk Hlt. pose proof (Z.div_mod x ss). pose proof (Z.mod_pos_bound x ss).
  split; symmetry; [apply (Z.div_unique _ _ _ (x mod ss + k))|apply (Z.mod_unique _ _ (x / ss))]; lia.
Qed.

Lemma blockset_step b x k : 0 < b → 0 ≤ x → 0 ≤ k → k < b - x mod b → (x + k) / b = x / b.
Proof. intros. by apply stripe_step. Qed.

Section walk.
Context (t : topology) (Hwf : wf_topology t) (what : iter_what).

Lemma chunk_wf c : 0 ≤ c < get_topo_num_chunks t →
  ∃ ch, chunks t !! Z.to_nat c = Some ch ∧ zget (chunks t) c = Ok ch ∧ first_vlba ch = vstart t c ∧
    stripe_of t c = stripe_size ch ∧ wf_chunk t ch.
Proof.
  intros Hc. destruct (wf_nchunks _ Hwf) as [Hn _]. unfold get_topo_num_chunks in Hc.
  destruct (zget_is_Some (chunks t) c) as (ch & Hch & E); [lia|]. exists ch.
  split_and!; [done|done| | |]; [by unfold vstart; rewrite Hch|by unfold stripe_of; rewrite Hch|].
  apply (wf_chunks _ Hwf c); [unfold get_topo_num_chunks; lia|done].
Qed.

(** What is left of the I/O when an iteration starts: the range [v, v+nc) in
    chunk [ci] and [n] more blocks in the chunks after it. *)
Record walk_inv (v nc n ci : Z) : Prop := {
  wi_range : 0 ≤ v ∧ 0 ≤ nc ∧ 0 ≤ n ∧ v + nc + n ≤ vstart t (get_topo_num_chunks t);
  wi_cur : 0 < nc → in_chunk t ci v ∧ v + nc ≤ vstart t (ci + 1) ∧ (0 < n → v + nc = vstart t (ci + 1));
  wi_next : nc = 0 → 0 < n → in_chunk t (ci + 1) v
}.

(** A piece lies in one raid, at the addresses of the reference, and a piece
    of a walk by locks in one blockset. *)
Record good_piece (v : Z) (c : Z) (p : iter_res) : Prop := {
  gp_pos : 0 < res_nlbas p;
  gp_end : v + res_nlbas p ≤ vstart t (c + 1);
  gp_blocks : ∃ s r, res_r p = Some (c, s) ∧ get_raid t c s = Ok r ∧ wf_raid1 r ∧ 0 ≤ res_rlba p < 2 ^ 60 ∧
    (∀ k, 0 ≤ k < res_nlbas p → locate t c (v + k) = (c, s, res_rlba p + k)) ∧
    (what = BY_LOCK → ∀ k, 0 ≤ k < res_nlbas p →
       (res_rlba p + k) / (LOCKSET_SLICES * slice_size r) = res_rlba p / (LOCKSET_SLICES * slice_size r))
}.

(** A piece as long as it can be: it ends with the I/O, the chunk, the stripe or, on a
    walk by locks, the blockset. *)
Definition full_piece (e v c : Z) (p : iter_res) : Prop :=
  v + res_nlbas p = e ∨ v + res_nlbas p = vstart t (c + 1) ∨ (v + res_nlbas p - vstart t c) mod stripe_of t c = 0 ∨
  what = BY_LOCK ∧ ∃ r, raid_of t p = Ok r ∧ (res_rlba p + res_nlbas p) mod (LOCKSET_SLICES * slice_size r) = 0.

Lemma get_raid_wf c s : 0 ≤ c < get_topo_num_chunks t → 0 ≤ s < stripe_width t →
  ∃ r, get_raid t c s = Ok r ∧ wf_raid1 r.
Proof.
  intros Hc Hs. destruct (chunk_wf c Hc) as (ch & Hch & E & _ & _ & [_ Hn Hr]).
  destruct (zget_is_Some (raid1s ch) s) as (r & Hr' & Er); [lia|]. exists r. unfold get_raid. rewrite E. rstep.
  split; [done|]. by apply (Forall_lookup_1 _ _ _ _ Hr Hr').
Qed.

Lemma trunc_stripe_ok v nc c : in_chunk t c v → 0 < nc → v + nc ≤ vstart t (c + 1) →
  ∃ s rl m, trunc_nlbas_to_stripe v nc t c = Ok (IterRes (Some (c, s)) rl m) ∧ 0 ≤ s < stripe_width t ∧
    0 < m ≤ nc ∧ 0 ≤ rl < 2 ^ 60 ∧ (∀ k, 0 ≤ k < m → locate t c (v + k) = (c, s, rl + k)) ∧
    (m = nc ∨ (v + m - vstart t c) mod stripe_of t c = 0).
Proof.
  intros [Hc Hv] Hnc Hend. destruct (chunk_wf c Hc) as (ch & Hch & E & Hf & Hs & [[Hss Hw] _ _]).
  assert (vstart t (c + 1) ≤ 2 ^ 60) by (apply vstart_end; [done|unfold get_topo_num_chunks in Hc; lia]).
  assert (0 ≤ vstart t c) by (apply vstart_nonneg; [done|unfold get_topo_num_chunks in Hc; lia]).
  pose proof (wf_width _ Hwf) as Hwd. unfold trunc_nlbas_to_stripe, locate. rewrite E, Hs. rstep. rewrite Hf.
  set (x := v - vstart t c). assert (0 ≤ x ≤ 2 ^ 60) as Hx by (subst x; lia). rewrite (wrap_small 64 x) by lia.
  set (ss := stripe_size ch) in *. set (w := stripe_width t) in *.
  assert (∀ k, v + k - vstart t c = x + k) as Hvk by (intros; subst x; lia).
  destruct (Z.ltb_spec 1 w) as [Hgt|Hle].
  - replace (s32 (w * ss)) with (w * ss) by (unfold s32; rewrite wrap_small; nia).
    assert (0 ≤ x / (w * ss) * ss + x mod ss ≤ x) as Hr.
    { rewrite (Z.mul_comm w), <-Z.div_div by lia. pose proof (Z.div_mod x ss).
      pose proof (Z.mod_pos_bound x ss). pose proof (Z.div_pos x ss). pose proof (Z.div_pos (x / ss) w).
      pose proof (Z.div_le_upper_bound (x / ss) w (x / ss)). nia. }
    eexists _, _, _. rewrite (wrap_small 64) by lia. split; [reflexivity|].
    split; [apply Z.mod_pos_bound; lia|]. pose proof (Z.mod_pos_bound x ss).
    split; [destruct (Z.ltb_spec (ss - x mod ss) nc); lia|]. split; [subst x; lia|].
    split.
    { intros k Hk. rewrite Hvk. destruct (stripe_step ss x k) as [E1 E2]; [lia..| |].
      { destruct (Z.ltb_spec (ss - x mod ss) nc); lia. }
      rewrite (Z.mul_comm w), <-!Z.div_div, E1, E2 by lia. f_equal. lia. }
    rewrite Hvk. destruct (Z.ltb_spec (ss - x mod ss) nc); [right|by left].
    replace (x + (ss - x mod ss)) with ((x / ss + 1) * ss) by (pose proof (Z.div_mod x ss); lia). by apply Z_mod_mult.
  - assert (w = 1) as Hw1 by lia. exists 0, x, nc. split; [done|]. split; [lia|]. split; [lia|]. split; [subst x; lia|].
    split; [|by left]. intros k Hk. rewrite Hvk, Hw1, Z.mod_1_r, Z.mul_1_l. f_equal. pose proof (Z.div_mod (x + k) ss). lia.
Qed.

Lemma start_cur fuel v nc n ci r0 : walk_inv v nc n ci → 0 < nc →
  ∃ p, iterator_start (S fuel) t (Iter v n nc ci r0) what = Ok (true, Iter v n nc ci p) ∧
    good_piece v ci p ∧ res_nlbas p ≤ nc ∧ full_piece (v + nc) v ci p.
Proof.
  intros [_ Hcur _] Hnc. destruct (Hcur Hnc) as (Hin & Hend & _).
  destruct (trunc_stripe_ok v nc ci Hin Hnc Hend) as (s & rl & m & Ht & Hs & Hm & Hrl & Hb & Hmax).
  destruct (get_raid_wf ci s) as (r & Hr & Hwr); [apply Hin|done|].
  cbn [iterator_start it_vlba it_nlbas it_nlbas_chunk it_ci it_res].
  rewrite (proj2 (Z.eqb_neq nc 0)), Ht by lia. rstep. cbn [negb res_r res_rlba res_nlbas].
  destruct what eqn:Ew.
  - rewrite Hr. rstep. eexists. split; [reflexivity|]. cbn [res_nlbas].
    assert (0 < LOCKSET_SLICES * slice_size r) as Hb0 by (pose proof (wf_slice _ Hwr); change LOCKSET_SLICES with 32; lia).
    pose proof (Z.mod_pos_bound rl _ Hb0) as Hmod. unfold trunc_nlabs_to_blockset.
    split; [|split; [lia|]].
    + split; cbn [res_nlbas res_r res_rlba]; [lia|lia|]. exists s, r. do 4 (split; [done|]).
      split; [intros k Hk; apply Hb; lia|]. intros _ k Hk. apply blockset_step; lia.
    + unfold full_piece, raid_of. cbn [res_nlbas res_r res_rlba]. set (b := LOCKSET_SLICES * slice_size r) in *.
      destruct (Z.le_gt_cases m (b - rl mod b)).
      { rewrite Z.min_l by lia. destruct Hmax as [-> |]; auto. }
      rewrite Z.min_r by lia. do 3 right. split; [done|]. exists r. split; [done|]. fold b.
      replace (rl + (b - rl mod b)) with ((rl / b + 1) * b) by (pose proof (Z.div_mod rl b); lia). by apply Z_mod_mult.
  - eexists. split; [reflexivity|]. split; [|split; [simpl; lia|]].
    + split; cbn [res_nlbas res_r res_rlba]; [lia|lia|]. exists s, r. do 4 (split; [done|]). split; [done|congruence].
    + unfold full_piece. cbn [res_nlbas]. destruct Hmax as [-> |]; auto.
Qed.

(** The end of what the chunk has is the end of the chunk, or of the I/O. *)
Lemma full_end v nc n ci p : walk_inv v nc n ci → 0 < nc → full_piece (v + nc) v ci p → full_piece (v + nc + n) v ci p.
Proof.
  intros [Hr Hcur _] Hnc. unfold full_piece. destruct (Hcur Hnc) as (_ & _ & Hend). intros [E|[E|E]]; [|by right; left|by right; right].
  destruct (Z.eq_dec n 0) as [->|]; [left; lia|]. right. left. rewrite E. apply Hend. lia.
Qed.

Lemma start_ok fuel v nc n ci r0 : walk_inv v nc n ci → 0 < nc + n →
  ∃ nc' n' ci' p, iterator_start (S (S fuel)) t (Iter v n nc ci r0) what = Ok (true, Iter v n' nc' ci' p) ∧
    walk_inv v nc' n' ci' ∧ nc' + n' = nc + n ∧ good_piece v ci' p ∧ res_nlbas p ≤ nc' ∧ 0 < nc' ∧ full_piece (v + nc + n) v ci' p.
Proof.
  intros Hi Hpos. pose proof Hi as [Hr Hcur Hnext]. destruct (Z.eq_dec nc 0) as [->|Hnc].
  2:{ destruct (start_cur (S fuel) v nc n ci r0) as (p & E & Hg & Hle & Hfull); [done|lia|].
      exists nc, n, ci, p. split_and!; try (done || lia). apply (full_end v nc n); [done|lia|done]. }
  assert (in_chunk t (ci + 1) v) as Hin by (apply Hnext; lia). pose proof Hin as [Hc Hv].
  destruct (zget_chunk t Hwf (ci + 1 + 1)) as (ch & Ech & Hf); [unfold get_topo_num_chunks in Hc; lia|].
  pose proof (vstart_end t Hwf (get_topo_num_chunks t)) as Hend.
  pose proof (vstart_end t Hwf (ci + 1 + 1)) as Hend'. unfold get_topo_num_chunks in *.
  set (nc' := Z.min n (vstart t (ci + 1 + 1) - v)). assert (nc' = Z.min n (vstart t (ci + 1 + 1) - v)) as Hnc' by done.
  clearbody nc'. assert (walk_inv v nc' (n - nc') (ci + 1)) as Hi'.
  { split; [unfold get_topo_num_chunks; lia| |lia]. intros _. split_and!; [done|lia|lia]. }
  destruct (start_cur fuel v nc' (n - nc') (ci + 1) r0 Hi') as (p & E & Hg & Hle & Hfull); [lia|].
  exists nc', (n - nc'), (ci + 1), p. split_and!; [|done|lia|done|done|lia|].
  2:{ replace (v + 0 + n) with (v + nc' + (n - nc')) by lia. apply full_end; [done|lia|done]. }
  cbn [iterator_start it_vlba it_nlbas it_nlbas_chunk it_ci it_res] in E |- *. cbn [Z.eqb negb].
  rewrite (proj2 (Z.eqb_neq n 0)), Ech by lia. rstep. cbn [negb].
  rewrite Hf, (wrap_small 64 (vstart _ _ - v)) by lia. rewrite <-Hnc', (wrap_small 64) by lia. exact E.
Qed.

Lemma walk_inv_consume v nc n ci m : walk_inv v nc n ci → 0 < m ≤ nc → walk_inv (v + m) (nc - m) n ci.
Proof.
  intros [Hr Hcur Hnext] Hm. destruct Hcur as ([Hc Hv] & Hend & Hn); [lia|]. split; [lia| |].
  - intros Hpos. split; [split; [done|lia]|]. split; [lia|]. intros. rewrite <-Hn by done. lia.
  - intros H0 Hn0. specialize (Hn Hn0). replace (v + m) with (vstart t (ci + 1)) by lia.
    unfold in_chunk, get_topo_num_chunks in *.
    assert (ci + 1 < nchunks t - 1).
    { destruct (Z.eq_dec (ci + 1) (nchunks t - 1)) as [Eq|]; [rewrite Eq in *; lia|lia]. }
    split; [lia|]. split; [lia|]. apply (wf_sorted _ Hwf). unfold get_topo_num_chunks. lia.
Qed.

(** Rule for loops over an iterator: [P v s] holds when the blocks before [v]
    have been dealt with.  The loop ends, without a fault, at the end of the I/O. *)
Lemma iter_while_rule {St} (body : iter_res → St → res (iter_res * St)) (P : Z → St → Prop) e :
  (∀ v c p s, P v s → in_chunk t c v → good_piece v c p → full_piece e v c p → ∃ p' s', body p s = Ok (p', s') ∧
     0 < res_nlbas p' ≤ res_nlbas p ∧ P (v + res_nlbas p') s') →
  ∀ fuel it v nc n ci r0 s, dp_io_topo_iterator_consume it = Iter v n nc ci r0 →
    walk_inv v nc n ci → nc + n < Z.of_nat fuel → v + nc + n = e → P v s →
    ∃ s', iter_while fuel t it what body s = Ok s' ∧ P e s'.
Proof.
  intros Hbody. induction fuel as [|fuel IH]; intros it v nc n ci r0 s Hit Hi Hf He HP.
  { destruct Hi as [Hr _ _]. lia. }
  cbn [iter_while]. unfold dp_io_topo_iterator_next. rewrite Hit. cbn [Nat.add].
  destruct (Z.eq_dec (nc + n) 0) as [Hz|Hnz].
  { destruct Hi as [Hr _ _]. replace nc with 0 by lia. replace n with 0 by lia.
    exists s. replace e with v by lia. split; done. }
  destruct (start_ok (length (chunks t)) v nc n ci r0) as (nc' & n' & ci' & p & -> & Hi' & Hs & Hg & Hle & Hpos & Hfull);
    [done|destruct Hi as [Hr _ _]; lia|].
  rstep. cbn [fst snd it_vlba it_nlbas it_nlbas_chunk it_ci it_res].
  destruct (Hbody v ci' p s) as (p' & s' & -> & Hm & HP'); [done|by apply Hi'|done|by rewrite <-He|]. rstep. cbn [fst snd].
  apply (IH _ (v + res_nlbas p') (nc' - res_nlbas p') n' ci' p'); [| |lia|lia|done].
  - unfold dp_io_topo_iterator_consume. cbn [it_vlba it_nlbas it_nlbas_chunk it_ci it_res].
    destruct Hi' as [Hr' _ _]. pose proof (wf_end _ Hwf). by rewrite !wrap_small by lia.
  - apply walk_inv_consume; [done|lia].
Qed.

Lemma walk_init_inv vlba nlbas ci : in_chunk t ci vlba → 0 ≤ nlbas → vlba + nlbas ≤ vstart t (get_topo_num_chunks t) →
  dp_io_topo_iterator_consume (dp_io_topo_iterator_init vlba nlbas ci) = Iter vlba nlbas 0 (ci - 1) (IterRes None 0 0) ∧
  walk_inv vlba 0 nlbas (ci - 1).
Proof.
  intros [Hc Hv] Hn Hend. assert (0 ≤ vlba) as Hv0.
  { etrans; [|apply Hv]. apply vstart_nonneg; [done|unfold get_topo_num_chunks in Hc; lia]. }
  assert (vstart t (get_topo_num_chunks t) ≤ 2 ^ 60) by apply (wf_end _ Hwf). split.
  - unfold dp_io_topo_iterator_init, dp_io_topo_iterator_consume.
    cbn [it_vlba it_nlbas it_nlbas_chunk it_ci it_res res_nlbas]. rewrite Z.add_0_r. by rewrite !wrap_small by lia.
  - split; [lia|lia|]. intros _ _. replace (ci - 1 + 1) with ci by lia. done.
Qed.

(** The whole loop, from the initialised iterator. *)
Lemma walk_rule {St} (body : iter_res → St → res (iter_res * St)) (P : Z → St → Prop) vlba nlbas ci s :
  in_chunk t ci vlba → 0 ≤ nlbas → vlba + nlbas ≤ vstart t (get_topo_num_chunks t) → P vlba s →
  (∀ v c p s, P v s → in_chunk t c v → good_piece v c p → full_piece (vlba + nlbas) v c p → ∃ p' s', body p s = Ok (p', s') ∧
     0 < res_nlbas p' ≤ res_nlbas p ∧ P (v + res_nlbas p') s') →
  ∃ s', iter_while (S (Z.to_nat nlbas)) t (dp_io_topo_iterator_init vlba nlbas ci) what body s = Ok s' ∧
    P (vlba + nlbas) s'.
Proof.
  intros Hci Hn Hend HP Hbody. destruct (walk_init_inv vlba nlbas ci Hci Hn Hend) as [Hc Hi].
  exact (iter_while_rule body P _ Hbody (S (Z.to_nat nlbas)) _ _ _ _ _ _ s Hc Hi ltac:(lia) ltac:(lia) HP).
Qed.
End walk.

(** ** A sample volume

    Two chunks striped over two raids of 2+1, stripes of one blockset. *)
Definition sample_segment (u : string) (lba : Z) : disk_segment :=
  Segment u lba 128 (Lmap [OWNER_MODE_PRIMARY; OWNER_MODE_INVALID; OWNER_MODE_INVALID; OWNER_MODE_INVALID] [0; 0; 0; 0] 1)
    LOCK_MOVING_NO true DS_MODE_RW.
Definition sample_raid : raid1 :=
  Raid1 3 2 [sample_segment "a" 0; sample_segment "b" 256; sample_segment "c" 4096]
    (LocksScheme OWNER_SCHEME_SL_START_DEC_C 3 6) true.
Definition sample_topology : topology :=
  Topology 3 1 2 [Chunk 0 64 [sample_raid; sample_raid]; Chunk 512 64 [sample_raid; sample_raid]; Chunk 1024 0 []].

Lemma sample_raid_wf : wf_raid1 sample_raid.
Proof. split; [done|done|done|]. repeat constructor; vm_compute; congruence. Qed.

Lemma sample_wf : wf_topology sample_topology.
Proof.
  assert (∀ i, 0 ≤ i < 2 → i = 0 ∨ i = 1) as H2 by lia.
  split; [done|done|done| |done|].
  - intros i Hi. by destruct (H2 i Hi) as [-> | ->].
  - intros i c Hi. destruct (H2 i Hi) as [-> | ->]; intros [= <-];
      (split; [done|done|do 2 (constructor; [apply sample_raid_wf|]); constructor]).
Qed.

(** ** Finding the chunk *)
Lemma search_start_wf t b : wf_topology t → wf_topology (Topology (nchunks t) b (stripe_width t) (chunks t)).
Proof.
  intros [H1 H2 H3 H4 H5 H6]. split; try done. intros i c Hi Hc. destruct (H6 i c Hi Hc). by split.
Qed.

(** After the set-up of the search start, the bitwise search finds, for every
    address below the end of the volume, the one chunk that holds it. *)
Theorem chunk_of_lba_ok t lba (Hwf : wf_topology t) (Hl : 0 ≤ lba < vstart t (get_topo_num_chunks t)) :
  ∃ t' j, topo_calc_chunk_binary_search_start t = Ok t' ∧ nvmeibc_get_chunk_ind_of_lba lba t' = Ok j ∧
    0 ≤ j < get_topo_num_chunks t ∧ vstart t j ≤ lba < vstart t (j + 1) ∧
    ∀ j', 0 ≤ j' < get_topo_num_chunks t → vstart t j' ≤ lba < vstart t (j' + 1) → j' = j.
Proof.
  destruct (in_chunk_exists t Hwf lba Hl) as [j Hj]. destruct (search_start_ok t Hwf) as (k & Hk & Hn & E).
  eexists _, j. split; [exact E|]. destruct Hj as [Hjr Hjv]. split; [|split; [done|split; [done|]]].
  - unfold nvmeibc_get_chunk_ind_of_lba. cbn [highest_pow2_in_chunk_ind].
    apply (chunk_search_ok _ (search_start_wf t _ Hwf));
      [done|lia|by rewrite Z.mod_0_l by (apply Z.pow_nonzero; lia)|lia|lia].
  - intros j' Hj' Hv'. apply (in_chunk_unique t Hwf _ _ lba); done.
Qed.

Lemma chunk_of_lba_ok_witness : ∃ t' j, topo_calc_chunk_binary_search_start sample_topology = Ok t' ∧
  nvmeibc_get_chunk_ind_of_lba 700 t' = Ok j ∧ 0 ≤ j < 2.
Proof.
  destruct (chunk_of_lba_ok sample_topology 700 sample_wf) as (t' & j & H1 & H2 & H3 & _);
    [vm_compute; intuition congruence|]. by exists t', j.
Defined.

(** ** Walking an I/O *)
Definition collect (adj : iter_res → Z) (p : iter_res) (ps : list iter_res) : res (iter_res * list iter_res) :=
  let p' := IterRes (res_r p) (res_rlba p) (adj p) in Ok (p', ps ++ [p']).

(** The pieces of an I/O whose user shortens each piece with [adj]. *)
Definition pieces (t : topology) (vlba nlbas ci : Z) (what : iter_what) (adj : iter_res → Z) : res (list iter_res) :=
  iter_while (S (Z.to_nat nlbas)) t (dp_io_topo_iterator_init vlba nlbas ci) what (collect adj) [].

(** All blocks of a piece are in one blockset of its raid. *)
Definition one_blockset (t : topology) (p : iter_res) : Prop :=
  ∃ r, raid_of t p = Ok r ∧ ∀ k, 0 ≤ k < res_nlbas p →
    (res_rlba p + k) / (LOCKSET_SLICES * slice_size r) = res_rlba p / (LOCKSET_SLICES * slice_size r).

Lemma seqZ_map_shift {A} (f : Z → A) a n : f <$> seqZ a n = (fun k => f (a + k)) <$> seqZ 0 n.
Proof.
  rewrite <-(Z.add_0_r a) at 1. by rewrite <-fmap_add_seqZ, <-list_fmap_compose.
Qed.

(** Pieces that follow each other from [v] to [e], with [F] of each. *)
Inductive tiled (t : topology) (what : iter_what) (F : Z → Z → iter_res → Prop) : Z → Z → list iter_res → Prop :=
  | tiled_nil v : tiled t what F v v []
  | tiled_cons v e c p ps : in_chunk t c v → good_piece t what v c p → F v c p → tiled t what F (v + res_nlbas p) e ps →
      tiled t what F v e (p :: ps).

Lemma tiled_snoc t what F v e c p ps : tiled t what F v e ps → in_chunk t c e → good_piece t what e c p → F e c p →
  tiled t what F v (e + res_nlbas p) (ps ++ [p]).
Proof. induction 1; intros; simpl; econstructor; eauto. constructor. Qed.

Lemma good_shorter t what v c p m : good_piece t what v c p → 0 < m ≤ res_nlbas p →
  good_piece t what v c (IterRes (res_r p) (res_rlba p) m).
Proof.
  intros [Hpos He (s & r & Hr & Hg & Hw & H0 & Hl & Hb)] Hm. split; cbn [res_nlbas res_r res_rlba]; [lia|lia|].
  exists s, r. do 4 (split; [done|]). split; [intros k Hk; apply Hl; lia|]. intros Hbl k Hk. apply Hb; [done|lia].
Qed.

(** The walk gives pieces, however they are shortened. *)
Lemma walk_tiled t vlba nlbas ci what adj (F : Z → Z → iter_res → Prop) : wf_topology t → in_chunk t ci vlba → 0 ≤ nlbas →
  vlba + nlbas ≤ vstart t (get_topo_num_chunks t) → (∀ p, 0 < res_nlbas p → 0 < adj p ≤ res_nlbas p) →
  (∀ v c p, full_piece t what (vlba + nlbas) v c p → F v c (IterRes (res_r p) (res_rlba p) (adj p))) →
  ∃ ps, pieces t vlba nlbas ci what adj = Ok ps ∧ tiled t what F vlba (vlba + nlbas) ps.
Proof.
  intros Hwf Hci Hn Hend Hadj HF.
  destruct (walk_rule t Hwf what (collect adj) (tiled t what F vlba) vlba nlbas ci []) as (ps & E & HP); try done.
  - constructor.
  - intros v c p ps HP Hin Hg Hfull. eexists _, _. split; [reflexivity|]. cbn [res_nlbas].
    specialize (Hadj p (gp_pos _ _ _ _ _ Hg)). split; [done|].
    exact (tiled_snoc _ _ _ _ _ c (IterRes _ _ _) _ HP Hin (good_shorter _ _ _ _ _ _ Hg Hadj) (HF v c p Hfull)).
  - by exists ps.
Qed.

Lemma piece_located t what v c p : in_chunk t c v → good_piece t what v c p →
  Forall2 (located t) (seqZ v (res_nlbas p)) (blocks_of p).
Proof.
  intros [Hc Hv] [Hpos He (s & r & Hr & _ & _ & _ & Hl & _)]. unfold blocks_of. rewrite Hr.
  rewrite <-(list_fmap_id (seqZ v _)) at 1. rewrite seqZ_map_shift.
  apply Forall2_fmap, Forall_Forall2_diag, list.Forall_forall. intros k Hk%elem_of_seqZ.
  exists c. unfold id. split; [split; [done|lia]|]. rewrite Hl by lia. done.
Qed.

Lemma tiled_le t what F v e ps : tiled t what F v e ps → v ≤ e.
Proof. induction 1 as [|v e c p ps _ [Hpos _ _] _]; lia. Qed.

Lemma tiled_located t what F v e ps : tiled t what F v e ps →
  Forall2 (located t) (seqZ v (e - v)) (concat (blocks_of <$> ps)).
Proof.
  induction 1 as [v|v e c p ps Hin Hg _ HT IH]; [rewrite Z.sub_diag; constructor|].
  pose proof (gp_pos _ _ _ _ _ Hg). pose proof (tiled_le _ _ _ _ _ _ HT).
  replace (e - v) with (res_nlbas p + (e - (v + res_nlbas p))) by lia. rewrite seqZ_app by lia.
  cbn [fmap list_fmap concat]. apply Forall2_app; [|done]. by apply (piece_located t what v c).
Qed.

(** The piece a block is in. *)
Lemma tiled_find t what F v e ps x : tiled t what F v e ps → v ≤ x < e →
  ∃ p c k, p ∈ ps ∧ 0 ≤ k < res_nlbas p ∧ in_chunk t c (x - k) ∧ good_piece t what (x - k) c p.
Proof.
  induction 1 as [v|v e c p ps Hin Hg _ HT IH]; intros Hx; [lia|].
  destruct (Z.lt_ge_cases x (v + res_nlbas p)) as [Hlt|Hge].
  - exists p, c, (x - v). replace (x - (x - v)) with v by lia. split; [by left|]. split; [lia|done].
  - destruct IH as (p' & c' & k & Hp & H); [lia|]. exists p', c', k. split; [by right|done].
Qed.

(** What holds of every good piece holds of every piece of a walk. *)
Lemma tiled_Forall t what F v e ps (P : iter_res → Prop) : (∀ v c p, in_chunk t c v → good_piece t what v c p → P p) →
  tiled t what F v e ps → Forall P ps.
Proof. induction 2; constructor; eauto. Qed.

(** C33: the walk over an I/O inside the volume ends, faults nowhere, and its pieces,
    read block after block, are the volume blocks of the I/O in order, each at the
    raid and raid address the reference gives it, however the user shortens the
    pieces; a walk by locks never crosses a blockset. *)
Theorem iterator_covers t vlba nlbas ci what adj (Hwf : wf_topology t) (Hci : in_chunk t ci vlba)
    (Hn : 0 ≤ nlbas) (Hend : vlba + nlbas ≤ vstart t (get_topo_num_chunks t))
    (Hadj : ∀ p, 0 < res_nlbas p → 0 < adj p ≤ res_nlbas p) :
  ∃ ps, pieces t vlba nlbas ci what adj = Ok ps ∧
    Forall2 (located t) (seqZ vlba nlbas) (concat (blocks_of <$> ps)) ∧
    Forall (fun p => 0 < res_nlbas p) ps ∧ (what = BY_LOCK → Forall (one_blockset t) ps).
Proof.
  destruct (walk_tiled t vlba nlbas ci what adj (fun _ _ _ => True) Hwf Hci Hn Hend Hadj) as (ps & Hps & HT); [done|]. exists ps. split; [done|].
  split; [|split].
  - pose proof (tiled_located _ _ _ _ _ _ HT) as HF. by replace (vlba + nlbas - vlba) with nlbas in HF by lia.
  - refine (tiled_Forall _ _ _ _ _ _ _ _ HT). by intros ? ? ? _ [].
  - intros Hw. refine (tiled_Forall _ _ _ _ _ _ _ _ HT).
    intros ? ? p _ [_ _ (s & r & Hr & Hg & _ & _ & _ & Hbl)]. exists r. unfold raid_of. rewrite Hr. auto.
Qed.

Lemma iterator_covers_witness : ∃ ps, pieces sample_topology 500 40 0 BY_LOCK (fun p => Z.min 7 (res_nlbas p)) = Ok ps ∧
  Forall2 (located sample_topology) (seqZ 500 40) (concat (blocks_of <$> ps)) ∧
  Forall (fun p => 0 < res_nlbas p) ps ∧ (BY_LOCK = BY_LOCK → Forall (one_blockset sample_topology) ps).
Proof.
  apply (iterator_covers sample_topology 500 40 0 BY_LOCK); [apply sample_wf| |done| |intros; lia];
    vm_compute; intuition congruence.
Defined.

(** A loop that keeps its pieces whole runs its body over the list of pieces. *)
Fixpoint fold_res {A St} (g : A → St → res St) (l : list A) (s : St) : res St :=
  match l with
  | [] => Ok s
  | p :: l' => s' ← g p s; fold_res g l' s'
  end.

Lemma iter_while_fold {St} (body : iter_res → St → res (iter_res * St)) (g : iter_res → St → res St) what t fuel :
  (∀ p s, body p s = (s' ← g p s; Ok (p, s'))) →
  ∀ it s ps0 ps, iter_while fuel t it what (collect res_nlbas) ps0 = Ok ps →
  ∃ qs, ps = ps0 ++ qs ∧ iter_while fuel t it what body s = fold_res g qs s.
Proof.
  intros Hg. induction fuel as [|fuel IH]; intros it s ps0 ps; cbn [iter_while]; [done|].
  destruct (dp_io_topo_iterator_next t it what) as [[[] it']|] eqn:En; rstep; cbn [fst snd]; [| |done].
  2:{ intros [= <-]. exists []. by rewrite app_nil_r. }
  rewrite Hg. assert (collect res_nlbas (it_res it') ps0 = Ok (it_res it', ps0 ++ [it_res it'])) as ->
    by (unfold collect; by destruct (it_res it')).
  rstep. cbn [fst snd]. intros Hps.
  destruct (g (it_res it') s) as [s1|e] eqn:Eg; rstep; cbn [fst snd].
  - destruct (IH _ s1 _ _ Hps) as (qs & -> & E). exists (it_res it' :: qs). rewrite <-app_assoc. split; [done|].
    cbn [fold_res]. rewrite Eg. rstep. exact E.
  - destruct (IH _ s _ _ Hps) as (qs & -> & _). exists (it_res it' :: qs). rewrite <-app_assoc. split; [done|].
    cbn [fold_res]. by rewrite Eg.
Qed.

Lemma iter_while_pieces {St} (body : iter_res → St → res (iter_res * St)) (g : iter_res → St → res St) t vlba nlbas ci what ps s :
  (∀ p s, body p s = (s' ← g p s; Ok (p, s'))) → pieces t vlba nlbas ci what res_nlbas = Ok ps →
  iter_while (S (Z.to_nat nlbas)) t (dp_io_topo_iterator_init vlba nlbas ci) what body s = fold_res g ps s.
Proof. intros Hg Hps. by destruct (iter_while_fold body g what t _ Hg _ s [] ps Hps) as (qs & -> & ->). Qed.

(** ** The layout check *)

(** An I/O passes the layout check exactly when it is not empty and lies inside
    the allocated volume.  On a thin volume a write inside the size the user sees
    raises the written range to its last block, and is told to try again instead
    of failing. *)
Theorem check_layout_ok t a nlbas vlba thin (Hwf : wf_topology t) (Hv : 0 ≤ vlba < 2 ^ 64) (Hn : 0 ≤ nlbas < 2 ^ 63) :
  let fits := 0 < nlbas ∧ vlba + nlbas ≤ vstart t (get_topo_num_chunks t) in
  let grows := thin && is_api_enabled a && (u64 (vlba + nlbas - 1) <? dev_size a) in
  ∃ rv a', check_layout nlbas vlba t a thin = Ok (rv, a') ∧
    (rv = LAYOUT_OK ↔ fits) ∧
    (¬ fits → rv = if grows then LAYOUT_EAGAIN else LAYOUT_EIO) ∧
    max_write_lba a' = (if grows then Z.max (max_write_lba a) (u64 (vlba + nlbas - 1)) else max_write_lba a) ∧
    is_api_enabled a' = is_api_enabled a ∧ dev_size a' = dev_size a.
Proof.
  intros fits grows. destruct (wf_nchunks _ Hwf) as [_ Hc]. pose proof (wf_end _ Hwf) as He.
  destruct (zget_chunk t Hwf (nchunks t - 1)) as (ch & E & Hf); [lia|]. unfold check_layout. rewrite E. rstep.
  rewrite Hf. fold (get_topo_num_chunks t).
  rewrite (proj2 (Z.ltb_ge (nchunks t) 2)) by lia. set (valid := if nlbas =? 0 then _ else _).
  assert ((valid = LAYOUT_OK ∧ fits) ∨ (valid = LAYOUT_EIO ∧ ¬ fits)) as Hvalid.
  { subst valid fits. destruct (Z.eqb_spec nlbas 0); [right; split; [done|lia]|].
    destruct (Z.ltb_spec (2 ^ 63) vlba); [right; split; [done|lia]|]. cbn [orb].
    rewrite wrap_small by lia. destruct (Z.ltb_spec (vstart t (get_topo_num_chunks t)) (vlba + nlbas));
      [right|left]; (split; [done|lia]). }
  clearbody valid. subst grows. unfold raise_max_write.
  destruct (thin && is_api_enabled a); cbn [andb]; [destruct (Z.ltb_spec (u64 (vlba + nlbas - 1)) (dev_size a))|];
    eexists _, _; (split; [reflexivity|]);
    (destruct Hvalid as [[-> Hfit]|[-> Hfit]]; [rewrite ?decide_True by done|rewrite ?decide_False by done]);
    (split; [by intuition|]); (split; [by intuition|]);
    try (destruct (Z.ltb_spec (max_write_lba a) (u64 (vlba + nlbas - 1))); cbn; split_and!; (done || lia)); done.
Qed.

Lemma check_layout_ok_witness :
  ∃ rv a', check_layout 8 1020 sample_topology (Autoext true 4096 100) true = Ok (rv, a') ∧
    rv = LAYOUT_EAGAIN ∧ max_write_lba a' = 1027.
Proof.
  destruct (check_layout_ok sample_topology (Autoext true 4096 100) 8 1020 true sample_wf)
    as (rv & a' & H1 & _ & H2 & H3 & _); [lia|lia|]. exists rv, a'. split; [done|].
  split; [apply H2; vm_compute; intuition congruence|]. exact H3.
Defined.

(** ** Raising the written range from several CPUs

    One CPU in the loop of the layout check: about to read [max_write_lba], about
    to compare the value it read, or through.  A compare-and-exchange is one step. *)
Inductive raise_pc : Set := RAISE_LOAD | RAISE_TEST (current_last_lba : Z) | RAISE_DONE.
Abbreviation raiser := (Z * raise_pc)%type.

(** One step of a CPU whose write ends at [last] on the shared value [m]. *)
Inductive raise_step (last : Z) : Z * raise_pc → Z * raise_pc → Prop :=
| raise_load m : raise_step last (m, RAISE_LOAD) (m, RAISE_TEST m)
| raise_xchg m cur : cur < last →
    raise_step last (m, RAISE_TEST cur) (if decide (m = cur) then last else m, RAISE_LOAD)
| raise_exit m cur : last ≤ cur → raise_step last (m, RAISE_TEST cur) (m, RAISE_DONE).

(** Any CPU of the system may take the next step. *)
Inductive raise_any : Z * list raiser → Z * list raiser → Prop :=
| raise_any_at m m' i last pc pc' ths : ths !! i = Some (last, pc) → raise_step last (m, pc) (m', pc') →
    raise_any (m, ths) (m', <[i := (last, pc')]> ths).

(** What holds of every reachable state. *)
Record raise_inv (m0 : Z) (lasts : list Z) (st : Z * list raiser) : Prop := {
  ri_lasts : st.2.*1 = lasts;
  ri_low : m0 ≤ st.1;
  ri_from : st.1 = m0 ∨ st.1 ∈ lasts;
  ri_seen : ∀ last cur, (last, RAISE_TEST cur) ∈ st.2 → cur ≤ st.1;
  ri_done : ∀ last, (last, RAISE_DONE) ∈ st.2 → last ≤ st.1
}.

Lemma raise_step_mono last m pc m' pc' : raise_step last (m, pc) (m', pc') → (∀ cur, pc = RAISE_TEST cur → cur ≤ m) →
  m ≤ m' ∧ (m' = m ∨ m' = last) ∧ (∀ cur, pc' = RAISE_TEST cur → cur ≤ m') ∧ (pc' = RAISE_DONE → last ≤ m').
Proof.
  intros Hs Hcur. inversion Hs as [|? cur|? cur]; subst.
  - split_and!; [lia|by left|intros cur [= <-]; lia|done].
  - specialize (Hcur cur eq_refl). case_decide; split_and!; (lia || done || auto).
  - specialize (Hcur cur eq_refl). split_and!; (lia || done || auto).
Qed.

Lemma raise_any_inv m0 lasts st st' : raise_inv m0 lasts st → raise_any st st' → raise_inv m0 lasts st'.
Proof.
  intros [Hl Hm Hf Hs Hd] Hstep. destruct Hstep as [m m' i last pc pc' ths Hi Hstep]. cbn [fst snd] in *.
  destruct (raise_step_mono last m pc m' pc' Hstep) as (Hle & Hcase & Hs' & Hd').
  { intros cur ->. by apply (Hs last), list_elem_of_lookup_2 with i. }
  assert (∀ x, x ∈ <[i := (last, pc')]> ths → x = (last, pc') ∨ x ∈ ths) as Hin.
  { intros x (j & Hj)%list_elem_of_lookup. destruct (decide (i = j)) as [->|].
    - apply lookup_lt_Some in Hi. rewrite list_lookup_insert_eq in Hj by done. left. congruence.
    - rewrite list_lookup_insert_ne in Hj by done. right. by apply list_elem_of_lookup_2 with j. }
  split; cbn [fst snd].
  - rewrite list_fmap_insert. subst lasts. apply list_insert_id. by rewrite list_lookup_fmap, Hi.
  - lia.
  - destruct Hcase as [-> | ->]; [done|]. right. rewrite <-Hl. apply list_elem_of_fmap.
    exists (last, pc). split; [done|]. by apply list_elem_of_lookup_2 with i.
  - intros l cur [[= -> <-]|Hx]%Hin; [by apply Hs'|]. specialize (Hs l cur Hx). lia.
  - intros l [[= -> <-]|Hx]%Hin; [by apply Hd'|]. specialize (Hd l Hx). lia.
Qed.

Lemma foldr_max_spec m0 l m : m0 ≤ m → (m = m0 ∨ m ∈ l) → (∀ x, x ∈ l → x ≤ m) → m = foldr Z.max m0 l.
Proof.
  assert (∀ k, (∀ x, x ∈ l → x ≤ k) → m0 ≤ k → foldr Z.max m0 l ≤ k) as Hub.
  { intros k Hk H0. induction l as [|a l IH]; simpl; [done|].
    apply Z.max_lub; [apply Hk; left|]. apply IH. intros x Hx. apply Hk. by right. }
  assert (m0 ≤ foldr Z.max m0 l ∧ ∀ x, x ∈ l → x ≤ foldr Z.max m0 l) as [H1 H2].
  { clear Hub. induction l as [|a l [IH1 IH2]]; simpl; [split; [done|by intros x Hx%not_elem_of_nil]|].
    split; [lia|]. intros x [->|Hx]%elem_of_cons; [lia|]. specialize (IH2 x Hx). lia. }
  intros H0 Hcase Hall. specialize (Hub m Hall H0). destruct Hcase as [->|Hin]; [lia|]. specialize (H2 m Hin). lia.
Qed.

(** However the CPUs interleave, once all of them have left the loop the written
    range is the maximum of its old value and of all the writes: none is lost. *)
Theorem raise_max_write_concurrent m0 lasts m ths
    (Hrun : rtc raise_any (m0, (fun l => (l, RAISE_LOAD)) <$> lasts) (m, ths))
    (Hdone : Forall (fun th => th.2 = RAISE_DONE) ths) : m = foldr Z.max m0 lasts.
Proof.
  assert (raise_inv m0 lasts (m0, (fun l => (l, RAISE_LOAD)) <$> lasts)) as H0.
  { split; cbn [fst snd]; [|lia|by left| |].
    - rewrite <-list_fmap_compose. apply list_fmap_id.
    - intros l cur (? & ? & ?)%list_elem_of_fmap. done.
    - intros l (? & ? & ?)%list_elem_of_fmap. done. }
  assert (raise_inv m0 lasts (m, ths)) as [Hl Hm Hf _ Hd].
  { revert H0 Hrun. generalize (m0, (fun l => (l, RAISE_LOAD)) <$> lasts) as st. intros st H0 Hrun.
    induction Hrun as [|st st' ? Hs _ IH]; [done|]. by apply IH, (raise_any_inv _ _ st). }
  cbn [fst snd] in *. apply foldr_max_spec; [done..|]. intros x Hx. rewrite <-Hl in Hx.
  apply list_elem_of_fmap in Hx as ([l pc] & -> & Hth). apply Hd. rewrite list.Forall_forall in Hdone.
  by rewrite <-(Hdone _ Hth).
Qed.

(** The first CPU loses the exchange to the second and finds the value high enough. *)
Lemma raise_max_write_concurrent_witness : 20 = foldr Z.max 5 [10; 20].
Proof.
  apply (raise_max_write_concurrent 5 [10; 20] 20 [(10, RAISE_DONE); (20, RAISE_DONE)]); [|by repeat constructor].
  eapply rtc_l; [apply (raise_any_at 5 5 0 10 RAISE_LOAD (RAISE_TEST 5)); [done|constructor]|].
  eapply rtc_l; [apply (raise_any_at 5 5 1 20 RAISE_LOAD (RAISE_TEST 5)); [done|constructor]|].
  eapply rtc_l; [apply (raise_any_at 5 20 1 20 (RAISE_TEST 5) RAISE_LOAD); [done|by apply (raise_xchg 20 5 5)]|].
  eapply rtc_l; [apply (raise_any_at 20 20 0 10 (RAISE_TEST 5) RAISE_LOAD); [done|by apply (raise_xchg 10 20 5)]|].
  eapply rtc_l; [apply (raise_any_at 20 20 0 10 RAISE_LOAD (RAISE_TEST 20)); [done|constructor]|].
  eapply rtc_l; [apply (raise_any_at 20 20 0 10 (RAISE_TEST 20) RAISE_DONE); [done|by constructor]|].
  eapply rtc_l; [apply (raise_any_at 20 20 1 20 RAISE_LOAD (RAISE_TEST 20)); [done|constructor]|].
  eapply rtc_l; [apply (raise_any_at 20 20 1 20 (RAISE_TEST 20) RAISE_DONE); [done|by constructor]|].
  apply rtc_refl.
Defined.
