(* ===== verification/AddrMap.v ===== *)
(** * Addresses inside a protection raid

    Blocks of a raid are laid out in snakes: [snake_size] blocks on the first
    data segment, the next [snake_size] on the second, and so on over the
    [slice_size] data segments; the segment a slice starts on moves every
    [2^LOCKSET_SHIFT] slices.  This file holds the translations of
    nvmeibc_block_dp_common.c between disk, raid, chunk and volume addresses,
    the placement of slices of nvmeibc_block_dp_locks_scheme.c and the map
    geometry of nvmeibc_block_dp_ec.h, with the theorems that they are inverse
    to each other and that a lock covers exactly one blockset. *)
From stdpp Require Import base list numbers strings.
From Stdlib Require Import ZArith Lia.
From S2P Require Import Prelude CMemory Topology TopoIter.
Local Open Scope Z_scope.

(** ** Placement of slices and locks *)
Definition find_zigzag_dst_seg (slba n_members : Z) : Z := Z.shiftr slba LOCKSET_SHIFT mod n_members.

Definition nvmeibc_locks_scheme_find_initial_owner_seg (ls : locks_scheme) (slba replicas : Z) : Z :=
  let max_lock_count := Z.min replicas (max_n_owners ls) in
  let n_members := if decide (ls_type ls = OWNER_SCHEME_FIRST_L_INC_A) then max_lock_count else replicas in
  find_zigzag_dst_seg slba n_members.

Definition nvmeibc_locks_scheme_find_slice_start_seg (slba replicas : Z) : Z := find_zigzag_dst_seg slba replicas.

Definition get_owner_seg_slice_start (r1 : raid1) (rlba : Z) : Z :=
  nvmeibc_locks_scheme_find_slice_start_seg (rlba / slice_size r1) (replicas r1).

Definition find_initial_owner_seg (offset_in_blks : Z) (r1 : raid1) : Z :=
  nvmeibc_locks_scheme_find_initial_owner_seg (lock_scheme r1) offset_in_blks (replicas r1).

Definition get_owner_seg_of_lock (r1 : raid1) (rlba : Z) : res Z :=
  seg ← zget (segments r1) (find_initial_owner_seg (rlba / slice_size r1) r1);
  aget (lm_si (lmap seg)) 0.

Definition nvmeibc_raid1_role2seg (r1 : raid1) (slice_start_seg_ind role : Z) : Z :=
  (slice_start_seg_ind + role) mod replicas r1.
Definition nvmeibc_raid1_seg2role (r1 : raid1) (slice_start_seg_ind seg_ind : Z) : Z :=
  (seg_ind + replicas r1 - slice_start_seg_ind) mod replicas r1.

(** ** Lock addresses *)
Definition dp_io_topo_iterator_conv_rlba_to_phys_lock_addr (r1 : raid1) (si rlba : Z) : res Z :=
  seg ← zget (segments r1) si;
  let phys_offset_in_seg := rlba / slice_size r1 in
  Ok (Z.land (u64 (first_lba seg + phys_offset_in_seg)) (u64 LOCKSET_MASK)).

(** The raid range [(rlba, nlbas)] a lock of a segment protects. *)
Definition dp_io_topo_iterator_conv_seg_lock_addr_to_raid_ofst (r1 : raid1) (phys_offset_in_seg : Z) : Z * Z :=
  (u64 (phys_offset_in_seg * slice_size r1), LOCKSET_SLICES * slice_size r1).

Definition dp_io_topo_iterator_conv_phys_lock_addr_to_raid_ofst (r1 : raid1) (ds : disk_segment) (address : Z) : Z * Z :=
  dp_io_topo_iterator_conv_seg_lock_addr_to_raid_ofst r1 (u64 (address - first_lba ds)).

(** ** Map geometry of the snake analyzer *)
Definition mssa_map_index_to_column (mi ss rep : Z) : Z := (mi / ss) mod rep.
Definition mssa_map_index_to_row (mi ss rep : Z) : Z := mi mod ss + mi / (ss * rep) * ss.
Definition map_rlba_offset (col snk_sz row slc_sz : Z) : Z := ((row / snk_sz) * slc_sz + col) * snk_sz + row mod snk_sz.
Definition rlba_to_row (rlba snk_sz slc_sz : Z) : Z :=
  mssa_map_index_to_row (rlba mod (LOCKSET_SLICES * slc_sz)) snk_sz slc_sz.
Definition get_snake_start_slba (rlba snake_size slice_size : Z) : Z := rlba / (snake_size * slice_size) * snake_size.

(** ** Disk address to raid, chunk and volume address *)
Definition ec_calc_column_within_slice (r1 : raid1) (si slice_start_seg_index : Z) : Z :=
  let seg_offset_within_slice := (replicas r1 + si - slice_start_seg_index) mod replicas r1 in
  if seg_offset_within_slice <? slice_size r1 then seg_offset_within_slice else 0.

Definition nvmeibc_datapath_dlba_to_rlba (snake_size : Z) (r1 : raid1) (si dlba : Z) : res Z :=
  seg ← zget (segments r1) si;
  let slba := u64 (dlba - first_lba seg) in
  if slice_size r1 =? 1 then Ok slba else
  let snake_index := slba / snake_size in
  let n_blks_in_full_snakes := u64 (snake_index * slice_size r1 * snake_size) in
  let d0_si := get_owner_seg_slice_start r1 (u64 (slba * slice_size r1)) in
  let n_blks_in_full_cols_of_partial_snake := u64 (snake_size * ec_calc_column_within_slice r1 si d0_si) in
  let n_blks_in_partial_column := slba mod snake_size in
  Ok (u64 (n_blks_in_full_snakes + n_blks_in_full_cols_of_partial_snake + n_blks_in_partial_column)).

(** [ri] is the place of the raid in its chunk, [r1 - chunk->raid1s]. *)
Definition dp_generic_trans_dlba_to_clba (snake_size : Z) (t : topology) (c : chunk) (ri si dlba : Z) : res Z :=
  r1 ← zget (raid1s c) ri;
  seg ← zget (segments r1) si;
  let slba := u64 (dlba - first_lba seg) in
  let number_of_full_stripes := u64 (slba * slice_size r1) / stripe_size c in
  let n_blks_in_full_stripes := u64 (number_of_full_stripes * (stripe_size c * (stripe_width t - 1))) in
  let n_blks_prev_praids_in_partial_stripe := ri * stripe_size c in
  n_blks_in_cur_praid ← nvmeibc_datapath_dlba_to_rlba snake_size r1 si dlba;
  Ok (u64 (n_blks_in_full_stripes + n_blks_prev_praids_in_partial_stripe + n_blks_in_cur_praid)).

Definition nvmeibc_datapath_dlba_to_vlba (snake_size : Z) (t : topology) (c : chunk) (ri si dlba : Z) : res Z :=
  clba ← dp_generic_trans_dlba_to_clba snake_size t c ri si dlba;
  Ok (u64 (first_vlba c + clba)).

(** ** Translation of an address for the user

    Per segment its disk address and the role shown; [None] stands for the
    error code of a range outside the layout. *)
Inductive trans_descr : Set := DESCR_DATA (index : Z) (is_vlba_segment : bool) | DESCR_P | DESCR_Q | DESCR_PRIMARY | DESCR_MIRROR.
Record trans_output : Type := TransOut { out_ci : Z; out_ri : Z; out_n_cmds : Z; out_offs : list (Z * trans_descr) }.

Definition for_segments (r : raid1) (f : Z → disk_segment → Z * trans_descr) : res (list (Z * trans_descr)) :=
  for_up (Z.to_nat (replicas r)) (fun i l => seg ← zget (segments r) (Z.of_nat i); Ok (l ++ [f (Z.of_nat i) seg])) [].

Definition no_autoext : autoext := Autoext false 0 0.

Definition ec_translate_addr_by_cfg (t : topology) (vlba nlbas : Z) : res (option trans_output) :=
  lay ← check_layout nlbas vlba t no_autoext false;
  if decide (lay.1 = LAYOUT_OK) then
    ci ← nvmeibc_get_chunk_ind_of_lba vlba t;
    n ← dp_io_topo_iterator_next t (dp_io_topo_iterator_init vlba nlbas ci) BY_LOCK;
    match res_r (it_res n.2) with
    | None => Fault NULL_DEREF
    | Some (c, ri) =>
        r ← get_raid t c ri;
        let rlba := res_rlba (it_res n.2) in
        let slba := rlba / slice_size r in
        let start_first_slice := rlba mod slice_size r in
        let d_own_seg := get_owner_seg_slice_start r rlba in
        offs ← for_segments r (fun i segment =>
          let index := nvmeibc_raid1_seg2role r d_own_seg i in
          (u64 (slba + first_lba segment),
           if index <? slice_size r then DESCR_DATA index (index =? start_first_slice)
           else if index =? slice_size r then DESCR_P else DESCR_Q));
        Ok (Some (TransOut ci ri (replicas r) offs))
    end
  else Ok None.

Definition mirror_translate_addr_by_cfg (t : topology) (vlba nlbas : Z) : res (option trans_output) :=
  lay ← check_layout nlbas vlba t no_autoext false;
  if decide (lay.1 ≠ LAYOUT_OK) then Ok None else
  if 1 <? nlbas then Ok None else
  ci ← nvmeibc_get_chunk_ind_of_lba vlba t;
  n ← dp_io_topo_iterator_next t (dp_io_topo_iterator_init vlba nlbas ci) BY_RAID;
  match res_r (it_res n.2) with
  | None => Fault NULL_DEREF
  | Some (c, ri) =>
      pr ← get_raid t c ri;
      let rlba := res_rlba (it_res n.2) in
      if 32 <? replicas pr then Ok None else
      let slice_start_si := get_owner_seg_slice_start pr rlba in
      offs ← for_segments pr (fun i seg =>
        let role := nvmeibc_raid1_seg2role pr slice_start_si i in
        (u64 (first_lba seg + rlba), if role =? 0 then DESCR_PRIMARY else DESCR_MIRROR));
      Ok (Some (TransOut ci ri (replicas pr) offs))
  end.

(** ** The layout, one block at a time

    Column (role), row (slice), segment and disk address of a block of a raid. *)
Definition seg_lba (r : raid1) (si : Z) : Z :=
  match segments r !! Z.to_nat si with Some s => first_lba s | None => 0 end.
Definition data_col (snake : Z) (r : raid1) (rlba : Z) : Z := (rlba / snake) mod slice_size r.
Definition data_row (snake : Z) (r : raid1) (rlba : Z) : Z := rlba / (snake * slice_size r) * snake + rlba mod snake.
Definition data_seg (snake : Z) (r : raid1) (rlba : Z) : Z :=
  nvmeibc_raid1_role2seg r (get_owner_seg_slice_start r rlba) (data_col snake r rlba).
Definition data_dlba (snake : Z) (r : raid1) (rlba : Z) : Z := seg_lba r (data_seg snake r rlba) + data_row snake r rlba.

(** ** Arithmetic of snakes *)
Lemma snake_block snake m q e : 0 < snake → 0 < m → 0 ≤ e < snake → (q * snake + e) / (snake * m) = q / m.
Proof.
  intros Hs Hm He. rewrite <-Z.div_div by lia. f_equal. symmetry. apply (Z.div_unique _ _ _ e); lia.
Qed.

Lemma snake_split snake sl x : 0 < snake → 0 < sl → 0 ≤ x →
  x = x / (snake * sl) * (snake * sl) + snake * ((x / snake) mod sl) + x mod snake ∧
  x / sl = x / (snake * sl) * snake + (x mod (snake * sl)) / sl ∧ 0 ≤ (x mod (snake * sl)) / sl < snake.
Proof.
  intros Hs Hsl Hx. assert (0 < snake * sl) as Hp by nia. pose proof (Z.mod_pos_bound x _ Hp).
  split_and!.
  - rewrite <-Z.div_div by lia. pose proof (Z.div_mod x snake). pose proof (Z.div_mod (x / snake) sl). nia.
  - rewrite (Z.div_mod x (snake * sl)) at 1 by lia.
    replace (snake * sl * (x / (snake * sl)) + x mod (snake * sl)) with
      (x mod (snake * sl) + x / (snake * sl) * snake * sl) by lia.
    rewrite Z.div_add by lia. lia.
  - apply Z.div_pos; lia.
  - apply Z.div_lt_upper_bound; lia.
Qed.

Lemma mod_add_sub n a b : 0 < n → 0 ≤ a < n → 0 ≤ b < n → (n + (a + b) mod n - a) mod n = b.
Proof.
  intros Hn Ha Hb. rewrite Zminus_mod, Zplus_mod, Z.mod_mod, Z_mod_same_full, Z.add_0_l, Z.mod_mod, <-Zminus_mod by lia.
  replace (a + b - a) with b by lia. by apply Z.mod_small.
Qed.

(** Map index, row and column are two views of the same place. *)
Lemma map_index_row_col snk row col rep : 0 < snk → 0 ≤ row → 0 ≤ col < rep →
  mssa_map_index_to_column (map_rlba_offset col snk row rep) snk rep = col ∧
  mssa_map_index_to_row (map_rlba_offset col snk row rep) snk rep = row.
Proof.
  intros Hs Hr Hc. unfold mssa_map_index_to_column, mssa_map_index_to_row, map_rlba_offset.
  pose proof (Z.mod_pos_bound row snk Hs). pose proof (Z.div_mod row snk).
  assert ((((row / snk) * rep + col) * snk + row mod snk) / snk = (row / snk) * rep + col) as E.
  { symmetry. apply (Z.div_unique _ _ _ (row mod snk)); lia. }
  rewrite <-Z.div_div, E by lia. split.
  - rewrite Z.add_comm, Z.mod_add by lia. by apply Z.mod_small.
  - rewrite Z.div_add_l, (Z.div_small col) by lia.
    rewrite (Z.add_comm (_ * snk) (row mod snk)), Z.mod_add, Z.mod_mod by lia. lia.
Qed.

Lemma row_col_map_index snk mi rep : 0 < snk → 0 < rep → 0 ≤ mi →
  map_rlba_offset (mssa_map_index_to_column mi snk rep) snk (mssa_map_index_to_row mi snk rep) rep = mi.
Proof.
  intros Hs Hr Hmi. unfold mssa_map_index_to_column, mssa_map_index_to_row, map_rlba_offset.
  pose proof (Z.mod_pos_bound mi snk Hs). destruct (snake_split snk rep mi) as [E _]; [done..|].
  rewrite Z.div_add, Z.mod_add, Z.mod_mod, (Z.div_small (mi mod snk)) by lia. lia.
Qed.

Section raid.
Context (r : raid1) (Hr : wf_raid1 r) (snake m : Z) (Hs : 0 < snake) (Hm : snake * m = LOCKSET_SLICES).

Lemma snake_bounds : 0 < m ∧ snake ≤ 32 ∧ 1 ≤ slice_size r ≤ replicas r ∧ replicas r ≤ 12 ∧ snake * slice_size r ≤ 384.
Proof.
  pose proof (wf_slice _ Hr). pose proof (wf_replicas _ Hr) as H12. change (Z.of_nat N_MAX_RAID_SLICE_LEN) with 12 in H12.
  change LOCKSET_SLICES with 32 in Hm. assert (0 < m) by nia. assert (snake ≤ 32) by nia. split_and!; nia.
Qed.

Lemma owner_by_row rlba : 0 ≤ rlba →
  get_owner_seg_slice_start r rlba = find_zigzag_dst_seg (data_row snake r rlba) (replicas r).
Proof.
  intros H0. destruct snake_bounds as (Hmp & _ & Hsl & _). unfold get_owner_seg_slice_start,
    nvmeibc_locks_scheme_find_slice_start_seg, find_zigzag_dst_seg, data_row.
  rewrite !Z.shiftr_div_pow2 by done. change (2 ^ LOCKSET_SHIFT) with (LOCKSET_SLICES * 2). rewrite <-Hm.
  destruct (snake_split snake (slice_size r) rlba) as (_ & E & Hb); [lia..|]. rewrite E.
  replace (snake * m * 2) with (snake * (m * 2)) by lia.
  pose proof (Z.mod_pos_bound rlba snake Hs). by rewrite !snake_block by lia.
Qed.

Lemma zigzag_range x : 0 ≤ find_zigzag_dst_seg x (replicas r) < replicas r.
Proof. destruct snake_bounds as (_ & _ & ? & _). apply Z.mod_pos_bound. lia. Qed.

Lemma segment_ok si : 0 ≤ si < replicas r → ∃ seg, zget (segments r) si = Ok seg ∧ first_lba seg = seg_lba r si ∧
  0 ≤ seg_lba r si < 2 ^ 62 ∧ seg_lba r si mod LOCKSET_SLICES = 0.
Proof.
  intros Hsi. destruct (zget_is_Some (segments r) si) as (seg & Hl & E); [rewrite (wf_segments _ Hr); lia|].
  exists seg. unfold seg_lba. rewrite Hl. split; [done|]. split; [done|].
  exact (Forall_lookup_1 _ _ _ _ (wf_aligned _ Hr) Hl).
Qed.

Lemma role2seg_range d role : 0 ≤ nvmeibc_raid1_role2seg r d role < replicas r.
Proof. destruct snake_bounds as (_ & _ & ? & _). apply Z.mod_pos_bound. lia. Qed.

Lemma data_col_range rlba : 0 ≤ data_col snake r rlba < slice_size r.
Proof. destruct snake_bounds as (_ & _ & ? & _). apply Z.mod_pos_bound. lia. Qed.

Lemma data_row_range rlba : 0 ≤ rlba → 0 ≤ data_row snake r rlba ≤ rlba.
Proof.
  intros H0. destruct snake_bounds as (_ & _ & Hsl & _).
  destruct (snake_split snake (slice_size r) rlba) as (E & _ & _); [lia..|]. unfold data_row.
  pose proof (Z.mod_pos_bound rlba snake Hs). pose proof (Z.mod_pos_bound (rlba / snake) (slice_size r)).
  assert (0 ≤ rlba / (snake * slice_size r)) by (apply Z.div_pos; nia). nia.
Qed.

(** Raid address of a place given by its row and column, and back. *)
Lemma data_row_col rlba : 0 ≤ rlba → map_rlba_offset (data_col snake r rlba) snake (data_row snake r rlba) (slice_size r) = rlba.
Proof.
  intros H0. destruct snake_bounds as (_ & _ & Hsl & _).
  pose proof (row_col_map_index snake rlba (slice_size r)) as E. unfold mssa_map_index_to_row in E.
  unfold data_row. rewrite Z.add_comm. apply E; lia.
Qed.

(** The role a segment plays in a row. *)
Definition role_at (row si : Z) : Z :=
  nvmeibc_raid1_seg2role r (find_zigzag_dst_seg row (replicas r)) si.

Lemma role2seg_inv d role : 0 ≤ d < replicas r → 0 ≤ role < replicas r →
  nvmeibc_raid1_seg2role r d (nvmeibc_raid1_role2seg r d role) = role.
Proof.
  intros Hd Hro. unfold nvmeibc_raid1_seg2role, nvmeibc_raid1_role2seg. rewrite (Z.add_comm _ (replicas r)).
  apply mod_add_sub; lia.
Qed.

Lemma seg2role_inv d i : 0 ≤ i < replicas r →
  nvmeibc_raid1_role2seg r d (nvmeibc_raid1_seg2role r d i) = i.
Proof.
  intros Hi. unfold nvmeibc_raid1_seg2role, nvmeibc_raid1_role2seg. rewrite Zplus_mod_idemp_r.
  replace (d + (i + replicas r - d)) with (i + 1 * replicas r) by lia. rewrite Z.mod_add by lia. by apply Z.mod_small.
Qed.

(** The one segment that plays the role of a block. *)
Lemma role_is_data_col rlba i : 0 ≤ i < replicas r →
  nvmeibc_raid1_seg2role r (get_owner_seg_slice_start r rlba) i = data_col snake r rlba ↔ i = data_seg snake r rlba.
Proof.
  intros Hi. pose proof (data_col_range rlba). destruct snake_bounds as (_ & _ & Hsl & _). unfold data_seg.
  split; [intros <-; symmetry; by apply seg2role_inv|intros ->]. apply role2seg_inv; [apply zigzag_range|lia].
Qed.

(** A disk address is the place (row, column) of its segment; parities count as
    column zero. *)
Lemma dlba_to_rlba_run si row : 0 ≤ si < replicas r → 0 ≤ row < 2 ^ 60 →
  nvmeibc_datapath_dlba_to_rlba snake r si (seg_lba r si + row) =
  Ok (map_rlba_offset (if role_at row si <? slice_size r then role_at row si else 0) snake row (slice_size r)).
Proof.
  intros Hsi Hrow. destruct snake_bounds as (_ & Hs32 & Hsl & Hrep & Hprod).
  destruct (segment_ok si Hsi) as (seg & E & Hf & Hb & _). unfold nvmeibc_datapath_dlba_to_rlba. rewrite E. rstep.
  rewrite Hf. replace (seg_lba r si + row - seg_lba r si) with row by lia. rewrite wrap_small by lia.
  pose proof (Z.mod_pos_bound row snake Hs). pose proof (Z.div_mod row snake).
  assert (0 ≤ row / snake) by (apply Z.div_pos; lia).
  assert (0 ≤ role_at row si < replicas r) as Hro by (apply Z.mod_pos_bound; lia).
  destruct (Z.eqb_spec (slice_size r) 1) as [E1|Hne].
  { f_equal. unfold map_rlba_offset. rewrite E1. destruct (Z.ltb_spec (role_at row si) 1); lia. }
  assert (ec_calc_column_within_slice r si (get_owner_seg_slice_start r (u64 (row * slice_size r))) =
    if role_at row si <? slice_size r then role_at row si else 0) as ->.
  { rewrite wrap_small by nia. unfold ec_calc_column_within_slice, get_owner_seg_slice_start,
      nvmeibc_locks_scheme_find_slice_start_seg. rewrite Z.div_mul by lia. unfold role_at, nvmeibc_raid1_seg2role.
    by rewrite (Z.add_comm (replicas r) si). }
  unfold map_rlba_offset. set (col := if _ <? _ then _ else _). assert (0 ≤ col < slice_size r) as Hcol.
  { subst col. destruct (Z.ltb_spec (role_at row si) (slice_size r)); lia. }
  clearbody col. f_equal. assert (0 ≤ row / snake * slice_size r * snake ≤ row * 12) by nia.
  assert (0 ≤ snake * col ≤ 384) by nia. rewrite (wrap_small 64 (_ * _ * _)), (wrap_small 64 (snake * col)), wrap_small by lia. ring.
Qed.

(** The translation from disk to raid address inverts the layout. *)
Lemma dlba_of_rlba rlba : 0 ≤ rlba < 2 ^ 60 →
  nvmeibc_datapath_dlba_to_rlba snake r (data_seg snake r rlba) (data_dlba snake r rlba) = Ok rlba.
Proof.
  intros H0. pose proof (data_row_range rlba). pose proof (data_col_range rlba) as Hc.
  destruct snake_bounds as (_ & _ & Hsl & _). unfold data_dlba.
  rewrite dlba_to_rlba_run by (apply role2seg_range || lia). f_equal.
  assert (role_at (data_row snake r rlba) (data_seg snake r rlba) = data_col snake r rlba) as ->.
  { unfold role_at, data_seg. rewrite owner_by_row by lia. apply role2seg_inv; [apply zigzag_range|lia]. }
  rewrite (proj2 (Z.ltb_lt _ _)) by lia. apply data_row_col. lia.
Qed.

(** Full stripes before a row and before a block of it are the same. *)
Lemma full_stripes rlba k : 0 ≤ rlba → 0 < k →
  (data_row snake r rlba * slice_size r) / (snake * slice_size r * k) = rlba / (snake * slice_size r * k).
Proof.
  intros H0 Hk. destruct snake_bounds as (_ & _ & Hsl & _). assert (0 < snake * slice_size r) as Hp by nia.
  unfold data_row. rewrite (Z.div_mod rlba (snake * slice_size r)) at 3 by lia.
  pose proof (Z.mod_pos_bound rlba _ Hp). pose proof (Z.mod_pos_bound rlba snake Hs).
  replace ((rlba / (snake * slice_size r) * snake + rlba mod snake) * slice_size r) with
    (rlba / (snake * slice_size r) * (snake * slice_size r) + (rlba mod snake) * slice_size r) by ring.
  rewrite (Z.mul_comm (snake * slice_size r) (rlba / _)), !snake_block by nia. done.
Qed.

(** ** Locks of a blockset *)
Definition blockset_of (rlba : Z) : Z := rlba / (LOCKSET_SLICES * slice_size r).

Lemma row_in_blockset rlba : 0 ≤ rlba →
  LOCKSET_SLICES * blockset_of rlba ≤ data_row snake r rlba < LOCKSET_SLICES * blockset_of rlba + LOCKSET_SLICES.
Proof.
  intros H0. destruct snake_bounds as (Hmp & _ & Hsl & _).
  assert (data_row snake r rlba / LOCKSET_SLICES = blockset_of rlba) as E.
  { unfold blockset_of, data_row. rewrite <-Hm. pose proof (Z.mod_pos_bound rlba snake Hs).
    rewrite snake_block by lia. replace (snake * m * slice_size r) with (snake * slice_size r * m) by ring.
    by rewrite <-(Z.div_div rlba (snake * slice_size r)) by nia. }
  rewrite <-E. pose proof (Z.div_mod (data_row snake r rlba) LOCKSET_SLICES).
  pose proof (Z.mod_pos_bound (data_row snake r rlba) LOCKSET_SLICES). change LOCKSET_SLICES with 32 in *. lia.
Qed.

Lemma land_lockset_mask x : 0 ≤ x < 2 ^ 64 → Z.land x (u64 LOCKSET_MASK) = x - x mod LOCKSET_SLICES.
Proof.
  intros Hx. assert (Z.land x (u64 LOCKSET_MASK) = Z.ldiff x (Z.ones 5)) as ->.
  { apply Z.bits_inj'. intros i Hi. rewrite Z.land_spec, Z.ldiff_spec, wrap_testbit by lia.
    change LOCKSET_MASK with (Z.lnot (Z.ones 5)). rewrite Z.lnot_spec by lia.
    destruct (Z.ltb_spec i 64); [done|]. by rewrite (testbit_high 64 x) by lia. }
  rewrite Z.ldiff_ones_r by lia. rewrite Z.shiftl_mul_pow2, Z.shiftr_div_pow2 by lia.
  change LOCKSET_SLICES with (2 ^ 5). pose proof (Z.div_mod x (2 ^ 5)). lia.
Qed.

Lemma lock_addr_run si rlba : 0 ≤ si < replicas r → 0 ≤ rlba < 2 ^ 60 →
  dp_io_topo_iterator_conv_rlba_to_phys_lock_addr r si rlba = Ok (seg_lba r si + LOCKSET_SLICES * blockset_of rlba).
Proof.
  intros Hsi H0. destruct (segment_ok si Hsi) as (seg & E & Hf & Hb & Ha). destruct snake_bounds as (_ & _ & Hsl & _).
  unfold dp_io_topo_iterator_conv_rlba_to_phys_lock_addr. rewrite E. rstep. rewrite Hf.
  assert (0 ≤ rlba / slice_size r ≤ rlba) by (split; [apply Z.div_pos; lia|apply Z.div_le_upper_bound; nia]).
  rewrite (wrap_small 64 (seg_lba r si + _)) by lia. rewrite land_lockset_mask by lia. f_equal.
  unfold blockset_of. rewrite (Z.mul_comm LOCKSET_SLICES (slice_size r)), <-Z.div_div by (change LOCKSET_SLICES with 32; lia).
  rewrite <-(Zplus_mod_idemp_l (seg_lba r si)), Ha, Z.add_0_l.
  pose proof (Z.div_mod (rlba / slice_size r) LOCKSET_SLICES). change LOCKSET_SLICES with 32 in *. lia.
Qed.

(** A slice starts, and its lock is owned, by blockset. *)
Lemma zigzag_blockset rlba n : 0 ≤ rlba → find_zigzag_dst_seg (rlba / slice_size r) n = (blockset_of rlba / 2) mod n.
Proof.
  intros H0. destruct snake_bounds as (_ & _ & Hsl & _). unfold find_zigzag_dst_seg, blockset_of.
  rewrite Z.shiftr_div_pow2 by done. change (2 ^ LOCKSET_SHIFT) with (LOCKSET_SLICES * 2).
  rewrite (Z.mul_comm LOCKSET_SLICES (slice_size r)), <-!Z.div_div by (change LOCKSET_SLICES with 32; lia). done.
Qed.

Lemma owners_by_blockset x y : 0 ≤ x → 0 ≤ y → blockset_of x = blockset_of y →
  get_owner_seg_slice_start r x = get_owner_seg_slice_start r y ∧
  find_initial_owner_seg (x / slice_size r) r = find_initial_owner_seg (y / slice_size r) r.
Proof.
  intros Hx Hy E. unfold get_owner_seg_slice_start, nvmeibc_locks_scheme_find_slice_start_seg, find_initial_owner_seg,
    nvmeibc_locks_scheme_find_initial_owner_seg. by rewrite !zigzag_blockset, E by done.
Qed.

Lemma blockset_range x y : let len := LOCKSET_SLICES * slice_size r in
  y / len * len ≤ x < y / len * len + len ↔ blockset_of x = blockset_of y.
Proof.
  intros len. destruct snake_bounds as (_ & _ & Hsl & _).
  assert (0 < len) as Hlen by (subst len; change LOCKSET_SLICES with 32; lia).
  unfold blockset_of. fold len. split; intros Hx.
  - symmetry. apply (Z.div_unique _ _ _ (x - y / len * len)); lia.
  - rewrite <-Hx. pose proof (Z.div_mod x len). pose proof (Z.mod_pos_bound x len Hlen). lia.
Qed.
End raid.

(** ** Volume addresses *)

(** What the layout needs of a snake: it divides the blockset and, in a striped
    volume, full snakes fill the stripe. *)
Record wf_snake (t : topology) (ch : chunk) (r : raid1) (snake : Z) : Prop := {
  ws_pos : 0 < snake;
  ws_lockset : ∃ m, snake * m = LOCKSET_SLICES;
  ws_stripe : 1 < stripe_width t → ∃ k, 0 < k ∧ stripe_size ch = snake * slice_size r * k
}.

Lemma stripe_arith w ss x : 0 < w → 0 < ss → 0 ≤ x →
  let rlba := x / (w * ss) * ss + x mod ss in
  rlba / ss * (ss * (w - 1)) + (x / ss) mod w * ss + rlba = x ∧ 0 ≤ rlba ≤ x ∧ 0 ≤ rlba / ss * (ss * (w - 1)) ≤ x.
Proof.
  intros Hw Hss Hx rlba. subst rlba. rewrite (Z.mul_comm w), <-Z.div_div by lia.
  pose proof (Z.mod_pos_bound x ss Hss). rewrite Z.div_add_l, (Z.div_small (x mod ss)), Z.add_0_r by lia.
  pose proof (Z.div_mod x ss). pose proof (Z.div_mod (x / ss) w). pose proof (Z.mod_pos_bound (x / ss) w Hw).
  assert (0 ≤ x / ss) by (apply Z.div_pos; lia). assert (0 ≤ x / ss / w) by (apply Z.div_pos; lia).
  set (q := x / ss / w) in *. set (s := (x / ss) mod w) in *. set (e := x mod ss) in *.
  assert (x = ss * (w * q + s) + e) as Hxe by lia. split; [rewrite Hxe at 1; ring|]. split; nia.
Qed.

Lemma clba_of_rlba t ch s rlba r snake m : wf_raid1 r → zget (raid1s ch) s = Ok r → 0 < snake →
  snake * m = LOCKSET_SLICES → wf_snake t ch r snake → 1 ≤ stripe_width t → 1 ≤ stripe_size ch → 0 ≤ s → 0 ≤ rlba →
  let full := rlba / stripe_size ch * (stripe_size ch * (stripe_width t - 1)) in
  0 ≤ full → full + s * stripe_size ch + rlba < 2 ^ 60 →
  dp_generic_trans_dlba_to_clba snake t ch s (data_seg snake r rlba) (data_dlba snake r rlba) =
  Ok (full + s * stripe_size ch + rlba).
Proof.
  intros Hwr Hraid Hs Hm [_ _ Hk] Hw Hss Hs0 H0 full Hfull Hlt. unfold dp_generic_trans_dlba_to_clba. rewrite Hraid. rstep.
  pose proof (role2seg_range r Hwr snake m Hs Hm (get_owner_seg_slice_start r rlba) (data_col snake r rlba)) as Hsi.
  destruct (segment_ok r Hwr _ Hsi) as (seg & Eseg & Hfl & Hlb & _).
  change (nvmeibc_raid1_role2seg r _ _) with (data_seg snake r rlba) in Eseg, Hfl, Hlb. rewrite Eseg. rstep.
  assert (0 ≤ s * stripe_size ch) by (apply Z.mul_nonneg_nonneg; lia).
  rewrite (dlba_of_rlba r Hwr snake m) by (done || lia). rstep. f_equal.
  unfold data_dlba. rewrite Hfl. pose proof (data_row_range r Hwr snake m Hs Hm rlba H0) as Hrow.
  destruct (snake_bounds r Hwr snake m Hs Hm) as (_ & _ & Hsl & Hrep & _).
  replace (seg_lba r (data_seg snake r rlba) + data_row snake r rlba - seg_lba r (data_seg snake r rlba))
    with (data_row snake r rlba) by lia.
  rewrite (wrap_small 64 (data_row snake r rlba)), (wrap_small 64 (data_row snake r rlba * _)) by nia.
  assert (data_row snake r rlba * slice_size r / stripe_size ch * (stripe_size ch * (stripe_width t - 1)) = full) as ->.
  { subst full. destruct (Z.eq_dec (stripe_width t) 1) as [->|Hne]; [lia|].
    destruct Hk as (k & Hk0 & ->); [lia|]. by rewrite (full_stripes r Hwr snake m) by lia. }
  by rewrite (wrap_small 64 full), wrap_small by lia.
Qed.

(** C22: every block of a volume can be named back from its place on disk: the raid
    and raid address the iterator finds for a volume address, laid out on the
    segments of the raid, translate to the volume address again.  So no two blocks
    of a volume share a disk block of a segment. *)
Theorem dlba_vlba_roundtrip t c v ch s rlba r snake (Hwf : wf_topology t) (Hin : in_chunk t c v)
    (Hch : chunks t !! Z.to_nat c = Some ch) (Hloc : locate t c v = (c, s, rlba)) (Hraid : get_raid t c s = Ok r)
    (Hsn : wf_snake t ch r snake) :
  nvmeibc_datapath_dlba_to_vlba snake t ch s (data_seg snake r rlba) (data_dlba snake r rlba) = Ok v.
Proof.
  destruct Hin as [Hc Hv]. pose proof Hsn as [Hs [m Hm] _].
  destruct (chunk_wf t Hwf c Hc) as (ch' & Hch' & E & Hf & Hss & [[Hs1 Hw] _ _]).
  rewrite Hch in Hch'. injection Hch' as <-. pose proof (wf_width _ Hwf) as Hwd.
  assert (0 ≤ vstart t c) by (apply vstart_nonneg; [done|unfold get_topo_num_chunks in Hc; lia]).
  assert (vstart t (c + 1) ≤ 2 ^ 60) by (apply vstart_end; [done|unfold get_topo_num_chunks in Hc; lia]).
  unfold locate in Hloc. rewrite Hss in Hloc. injection Hloc as Es Er.
  destruct (stripe_arith (stripe_width t) (stripe_size ch) (v - vstart t c)) as (Hx & Hb & Hb'); [lia..|].
  rewrite Er, Es in Hx. rewrite Er in Hb, Hb'.
  assert (0 ≤ s < stripe_width t) as Hsw by (rewrite <-Es; apply Z.mod_pos_bound; lia).
  destruct (get_raid_wf t Hwf c s) as (r' & Hr' & Hwr); [done..|]. rewrite Hraid in Hr'. injection Hr' as <-.
  unfold get_raid in Hraid. rewrite E in Hraid. unfold nvmeibc_datapath_dlba_to_vlba.
  rewrite (clba_of_rlba t ch s rlba r snake m) by (done || lia). rstep. f_equal. rewrite Hf, wrap_small; lia.
Qed.

Lemma dlba_vlba_roundtrip_witness :
  nvmeibc_datapath_dlba_to_vlba 2 sample_topology (Chunk 512 64 [sample_raid; sample_raid]) 0
    (data_seg 2 sample_raid 124) (data_dlba 2 sample_raid 124) = Ok 700.
Proof.
  apply (dlba_vlba_roundtrip sample_topology 1 700 (Chunk 512 64 [sample_raid; sample_raid]) 0 124 sample_raid 2);
    [apply sample_wf|vm_compute; intuition congruence|done|done|done|].
  split; [done|by exists 16|]. intros _. exists 16. done.
Defined.

(** C24: the lock of a block on any segment of its raid has the segment address of the
    first row of the block's blockset; converting it back gives exactly the raid
    range of that blockset, and precisely the blocks of the range have this lock.
    All blocks of the range start their slice on the same segment, have the same
    initial owner and lie, on disk, in the rows the lock stands for. *)
Theorem lock_covers_blockset r snake m si rlba (Hr : wf_raid1 r) (Hs : 0 < snake) (Hm : snake * m = LOCKSET_SLICES)
    (Hsi : 0 ≤ si < replicas r) (Hrl : 0 ≤ rlba < 2 ^ 60) :
  ∃ seg a start, zget (segments r) si = Ok seg ∧ dp_io_topo_iterator_conv_rlba_to_phys_lock_addr r si rlba = Ok a ∧
    dp_io_topo_iterator_conv_phys_lock_addr_to_raid_ofst r seg a = (start, LOCKSET_SLICES * slice_size r) ∧
    start ≤ rlba < start + LOCKSET_SLICES * slice_size r ∧
    ∀ rlba', 0 ≤ rlba' < 2 ^ 60 →
      (dp_io_topo_iterator_conv_rlba_to_phys_lock_addr r si rlba' = Ok a ↔
         start ≤ rlba' < start + LOCKSET_SLICES * slice_size r) ∧
      (start ≤ rlba' < start + LOCKSET_SLICES * slice_size r →
         get_owner_seg_slice_start r rlba' = get_owner_seg_slice_start r rlba ∧
         find_initial_owner_seg (rlba' / slice_size r) r = find_initial_owner_seg (rlba / slice_size r) r ∧
         a ≤ seg_lba r si + data_row snake r rlba' < a + LOCKSET_SLICES).
Proof.
  destruct (segment_ok r Hr si Hsi) as (seg & E & Hf & Hb & _).
  destruct (snake_bounds r Hr snake m Hs Hm) as (_ & _ & Hsl & Hrep & _).
  pose proof (fun x => blockset_range r Hr snake m Hs Hm x rlba) as Hin. cbn zeta in Hin.
  exists seg, (seg_lba r si + LOCKSET_SLICES * blockset_of r rlba), (blockset_of r rlba * (LOCKSET_SLICES * slice_size r)).
  assert (0 ≤ blockset_of r rlba ∧ blockset_of r rlba * (32 * slice_size r) ≤ rlba) as Hbs.
  { unfold blockset_of. change LOCKSET_SLICES with 32. split; [apply Z.div_pos; lia|].
    rewrite Z.mul_comm. apply Z.mul_div_le. lia. }
  split; [done|]. split; [by apply (lock_addr_run r Hr snake m Hs Hm); [|lia]|].
  split; [|split; [by apply Hin|]].
  - unfold dp_io_topo_iterator_conv_phys_lock_addr_to_raid_ofst, dp_io_topo_iterator_conv_seg_lock_addr_to_raid_ofst.
    rewrite Hf. replace (seg_lba r si + LOCKSET_SLICES * blockset_of r rlba - seg_lba r si)
      with (LOCKSET_SLICES * blockset_of r rlba) by lia.
    change LOCKSET_SLICES with 32. rewrite (wrap_small 64 (32 * _)) by nia. rewrite wrap_small by lia. f_equal. ring.
  - intros rlba' Hrl'. specialize (Hin rlba'). change (rlba / (LOCKSET_SLICES * slice_size r)) with (blockset_of r rlba) in Hin. split.
    + rewrite Hin, (lock_addr_run r Hr snake m) by (done || lia). change LOCKSET_SLICES with 32.
      split; [intros [= Heq]; lia|by intros ->].
    + intros Hx%Hin. destruct (owners_by_blockset r Hr snake m Hs Hm rlba' rlba) as [-> ->]; [lia..|done|].
      pose proof (row_in_blockset r Hr snake m Hs Hm rlba'). rewrite Hx in *. lia.
Qed.

Lemma lock_covers_blockset_witness : ∃ seg a start, zget (segments sample_raid) 2 = Ok seg ∧
  dp_io_topo_iterator_conv_rlba_to_phys_lock_addr sample_raid 2 70 = Ok a ∧
  dp_io_topo_iterator_conv_phys_lock_addr_to_raid_ofst sample_raid seg a = (start, 64).
Proof.
  destruct (lock_covers_blockset sample_raid 4 8 2 70 sample_raid_wf) as (seg & a & start & H1 & H2 & H3 & _);
    [done..|lia|]. by exists seg, a, start.
Defined.

(** ** Translation for the user *)
Lemma for_segments_ok r f : wf_raid1 r → ∃ l, for_segments r f = Ok l ∧ length l = Z.to_nat (replicas r) ∧
  ∀ i seg, zget (segments r) i = Ok seg → 0 ≤ i < replicas r → l !! Z.to_nat i = Some (f i seg).
Proof.
  intros Hr. destruct (for_up_inv
    (fun i l => seg ← zget (segments r) (Z.of_nat i); Ok (l ++ [f (Z.of_nat i) seg]))
    (fun n l => length l = n ∧ ∀ i seg, zget (segments r) i = Ok seg → 0 ≤ i < Z.of_nat n → l !! Z.to_nat i = Some (f i seg))
    (Z.to_nat (replicas r)) []) as (l & E & Hlen & Hl).
  - split; [done|]. lia.
  - intros k l Hk [Hlen Hl]. destruct (segment_ok r Hr (Z.of_nat k)) as (seg & Es & _); [lia|]. rewrite Es. rstep.
    eexists. split; [reflexivity|]. split; [rewrite length_app; simpl; lia|]. intros i sg Hi Hin.
    destruct (Z.eq_dec i (Z.of_nat k)) as [->|].
    + rewrite lookup_app_r, Nat2Z.id, Hlen, Nat.sub_diag by lia. simpl. congruence.
    + rewrite lookup_app_l by lia. apply Hl; [done|lia].
  - exists l. split; [done|]. split; [done|]. intros i seg Hi Hin. apply Hl; [done|lia].
Qed.

(** A topology on which the search start has been set up. *)
Definition search_ready (t : topology) : Prop := topo_calc_chunk_binary_search_start t = Ok t.

Lemma search_ready_found t c v : wf_topology t → search_ready t → in_chunk t c v → nvmeibc_get_chunk_ind_of_lba v t = Ok c.
Proof.
  intros Hwf Hst Hin. destruct (search_start_ok t Hwf) as (k & Hk & Hnk & E). rewrite Hst in E. injection E as E.
  unfold nvmeibc_get_chunk_ind_of_lba. rewrite E at 2. cbn [highest_pow2_in_chunk_ind]. pose proof Hin as [Hc _].
  apply (chunk_search_ok t Hwf); [done|lia|by rewrite Z.mod_0_l by (apply Z.pow_nonzero; lia)|lia|lia].
Qed.

Lemma layout_inside t v n : wf_topology t → 0 ≤ v → 0 < n → v + n ≤ vstart t (get_topo_num_chunks t) →
  check_layout n v t no_autoext false = Ok (LAYOUT_OK, no_autoext).
Proof.
  intros Hwf Hv Hn Hend. pose proof (wf_nchunks _ Hwf) as [_ Hn2]. pose proof (wf_end _ Hwf). unfold check_layout.
  destruct (zget_chunk _ Hwf (nchunks t - 1)) as (ch & -> & Hf); [lia|]. rstep.
  rewrite Hf, (proj2 (Z.ltb_ge (nchunks t) 2)), (proj2 (Z.eqb_neq n 0)) by lia.
  rewrite (proj2 (Z.ltb_ge (2 ^ 63) v)), (wrap_small 64 (v + n)) by lia. fold (get_topo_num_chunks t). by rewrite (proj2 (Z.ltb_ge _ (v + n)) Hend).
Qed.

(** The first piece of a walk starts at the block asked for. *)
Lemma first_piece t c v n s rlba what : wf_topology t → in_chunk t c v → 0 < n →
  v + n ≤ vstart t (get_topo_num_chunks t) → locate t c v = (c, s, rlba) →
  0 ≤ rlba < 2 ^ 60 ∧
  (∃ it m, dp_io_topo_iterator_next t (dp_io_topo_iterator_init v n c) what = Ok (true, it) ∧
     it_res it = IterRes (Some (c, s)) rlba m) ∧
  ∃ r, get_raid t c s = Ok r ∧ wf_raid1 r.
Proof.
  intros Hwf Hin Hn Hend Hloc. destruct (walk_init_inv t Hwf v n c) as [Hc Hi]; [done|lia|done|].
  destruct (start_ok t Hwf what (length (chunks t)) v 0 n (c - 1) (IterRes None 0 0) Hi)
    as (nc & n' & ci & p & Hrun & Hi' & _ & [Hpos _ (s' & r & Hp & Hg & Hwr & Hb & Hl & _)] & _ & Hnc & _); [lia|].
  assert (ci = c) as -> by (by apply (in_chunk_unique t Hwf _ _ v); [apply Hi'|]).
  specialize (Hl 0 ltac:(lia)). rewrite !Z.add_0_r, Hloc in Hl. injection Hl as <- ->. split; [done|].
  split; [|by exists r]. unfold dp_io_topo_iterator_next. rewrite Hc. eexists _, (res_nlbas p). split; [exact Hrun|].
  destruct p as [pr prl pn]. cbn [it_res res_r res_rlba res_nlbas] in *. by subst pr.
Qed.

(** With single-block snakes, the translation shown to the user for an erasure coded
    address names the raid of the block, lists every segment at the row of the
    block, and marks the one data segment, at its disk address, that holds it. *)
Theorem ec_translate_plain t c v n s rlba r (Hwf : wf_topology t) (Hst : search_ready t) (Hin : in_chunk t c v)
    (Hn : 0 < n) (Hend : v + n ≤ vstart t (get_topo_num_chunks t)) (Hloc : locate t c v = (c, s, rlba))
    (Hraid : get_raid t c s = Ok r) :
  ∃ offs, ec_translate_addr_by_cfg t v n = Ok (Some (TransOut c s (replicas r) offs)) ∧
    length offs = Z.to_nat (replicas r) ∧
    (∀ i, 0 ≤ i < replicas r → ∃ d, offs !! Z.to_nat i = Some (seg_lba r i + rlba / slice_size r, d) ∧
       (∀ index, d = DESCR_DATA index true ↔ i = data_seg 1 r rlba ∧ index = data_col 1 r rlba)) ∧
    seg_lba r (data_seg 1 r rlba) + rlba / slice_size r = data_dlba 1 r rlba.
Proof.
  destruct (first_piece t c v n s rlba BY_LOCK) as (Hb & (it & m & Hnext & Hit) & r' & Hr' & Hwr); [done..|].
  rewrite Hraid in Hr'. injection Hr' as <-. pose proof (wf_slice _ Hwr) as Hsl. pose proof (wf_replicas _ Hwr) as Hrep.
  assert (0 ≤ v) as Hv0 by (destruct Hin as [? ?]; pose proof (vstart_nonneg t Hwf c); unfold get_topo_num_chunks in *; lia).
  unfold ec_translate_addr_by_cfg. rewrite (layout_inside t v n), (search_ready_found t c v) by done. rstep.
  cbn [fst]. rewrite decide_True, Hnext by done. rstep. cbn [snd]. rewrite Hit. cbn [res_r res_rlba]. rewrite Hraid. rstep.
  set (f := fun (i : Z) (segment : disk_segment) => _). destruct (for_segments_ok r f Hwr) as (offs & -> & Hlen & Hoffs). rstep.
  exists offs. split; [done|]. split; [done|].
  assert (rlba / slice_size r = data_row 1 r rlba) as Hrow by (unfold data_row; rewrite Z.mul_1_l, Z.mod_1_r; lia).
  split; [|unfold data_dlba; by rewrite Hrow]. intros i Hi.
  destruct (segment_ok r Hwr i Hi) as (seg & Eseg & Hf & Hfl & _). rewrite (Hoffs i seg Eseg Hi). subst f. cbn beta.
  pose proof (data_row_range r Hwr 1 32 ltac:(lia) eq_refl rlba ltac:(lia)).
  eexists. split; [rewrite Z.add_comm, Hf, wrap_small by lia; reflexivity|]. intros index.
  assert (data_col 1 r rlba = rlba mod slice_size r) as Hcol by (unfold data_col; by rewrite Z.div_1_r).
  pose proof (data_col_range r Hwr 1 32 ltac:(lia) eq_refl rlba) as Hcr. rewrite <-Hcol.
  pose proof (role_is_data_col r Hwr 1 32 ltac:(lia) eq_refl rlba i Hi) as Hiff.
  set (idx := nvmeibc_raid1_seg2role r _ i) in *.
  destruct (Z.ltb_spec idx (slice_size r)) as [Hlt|Hge].
  - rewrite <-Hiff. destruct (Z.eqb_spec idx (data_col 1 r rlba)) as [Heq|Hne]; split; [|intros [_ ->]; by rewrite Heq|done|].
    + intros [= <-]. done.
    + by intros [? _].
  - destruct (Z.eqb_spec idx (slice_size r)); (split; [done|]); intros [Hi' _]; apply Hiff in Hi'; lia.
Qed.

(** The sample volume with its search start set up; block 700 is the first of its slice. *)
Lemma ec_translate_plain_witness : search_ready sample_topology ∧
  ∃ offs, ec_translate_addr_by_cfg sample_topology 700 4 = Ok (Some (TransOut 1 0 3 offs)) ∧ length offs = 3%nat.
Proof.
  split; [done|]. destruct (ec_translate_plain sample_topology 1 700 4 0 124 sample_raid sample_wf)
    as (offs & H1 & H2 & _); [done|vm_compute; intuition congruence|done|vm_compute; congruence|done|done|].
  by exists offs.
Defined.

(** With longer snakes the translation shown to the user is not where the data path
    keeps the block: it divides the raid address by the slice size as if snakes
    had one block. *)
Lemma ec_translate_ignores_snake : ∃ offs,
  ec_translate_addr_by_cfg sample_topology 2 1 = Ok (Some (TransOut 0 0 3 offs)) ∧
  offs !! 0%nat = Some (seg_lba sample_raid 0 + 1, DESCR_DATA 0 true) ∧
  data_seg 2 sample_raid 2 = 1 ∧ data_dlba 2 sample_raid 2 = seg_lba sample_raid 1.
Proof. eexists. split; [reflexivity|]. done. Qed.

(** A mirrored block is at the same row of every segment of its raid, and each of these
    places translates back to it. *)
Lemma mirror_translate_ok t c v s rlba r (Hwf : wf_topology t) (Hst : search_ready t) (Hin : in_chunk t c v)
    (Hend : v + 1 ≤ vstart t (get_topo_num_chunks t)) (Hloc : locate t c v = (c, s, rlba))
    (Hraid : get_raid t c s = Ok r) (Hmir : slice_size r = 1) :
  ∃ offs, mirror_translate_addr_by_cfg t v 1 = Ok (Some (TransOut c s (replicas r) offs)) ∧
    ∀ i, 0 ≤ i < replicas r → ∃ d, offs !! Z.to_nat i = Some (seg_lba r i + rlba, d) ∧
      (d = DESCR_PRIMARY ↔ i = get_owner_seg_slice_start r rlba) ∧
      nvmeibc_datapath_dlba_to_rlba 1 r i (seg_lba r i + rlba) = Ok rlba.
Proof.
  destruct (first_piece t c v 1 s rlba BY_RAID) as (Hb & (it & m & Hnext & Hit) & r' & Hr' & Hwr); [done..|].
  rewrite Hraid in Hr'. injection Hr' as <-. pose proof (wf_replicas _ Hwr) as Hrep.
  change (Z.of_nat N_MAX_RAID_SLICE_LEN) with 12 in Hrep.
  assert (0 ≤ v) as Hv0 by (destruct Hin as [? ?]; pose proof (vstart_nonneg t Hwf c); unfold get_topo_num_chunks in *; lia).
  unfold mirror_translate_addr_by_cfg. rewrite (layout_inside t v 1), (search_ready_found t c v) by done. rstep.
  cbn [fst]. rewrite decide_False, Hnext by auto. rstep. cbn [snd]. rewrite Hit. cbn [res_r res_rlba Z.ltb Z.compare Pos.compare Pos.compare_cont].
  rewrite Hraid. rstep. rewrite (proj2 (Z.ltb_ge 32 _)) by lia.
  set (f := fun (i : Z) (seg : disk_segment) => _). destruct (for_segments_ok r f Hwr) as (offs & -> & _ & Hoffs). rstep.
  exists offs. split; [done|]. intros i Hi. destruct (segment_ok r Hwr i Hi) as (seg & Eseg & Hf & Hfl & _).
  rewrite (Hoffs i seg Eseg Hi). subst f. cbn beta. eexists. split; [rewrite Hf, wrap_small by lia; reflexivity|].
  pose proof (role_is_data_col r Hwr 1 32 ltac:(lia) eq_refl rlba i Hi) as Hiff.
  unfold data_seg, data_col in Hiff. rewrite Hmir, Z.mod_1_r in Hiff. unfold nvmeibc_raid1_role2seg in Hiff.
  pose proof (zigzag_range r Hwr 1 32 ltac:(lia) eq_refl (rlba / slice_size r)) as Hzz.
  change (0 ≤ get_owner_seg_slice_start r rlba < replicas r) in Hzz. rewrite Z.add_0_r, Z.mod_small in Hiff by done.
  split.
  - rewrite <-Hiff. destruct (Z.eqb_spec (nvmeibc_raid1_seg2role r (get_owner_seg_slice_start r rlba) i) 0); done.
  - unfold nvmeibc_datapath_dlba_to_rlba. rewrite Eseg. rstep. rewrite Hmir, Hf. cbn [Z.eqb Pos.eqb].
    by replace (seg_lba r i + rlba - seg_lba r i) with rlba by lia; rewrite wrap_small by lia.
Qed.
