(* ===== verification/Roles.v ===== *)
(** * Roles of the segments of a raid

    The bitmaps by which the data path knows which segments of a protection raid
    it can read or write, as seen from each segment a slice can start on
    (src/clnt/block/controlpath/nvmeibc_b_cp_topo_algorithms.c, the structure
    [nvmeibc_roles_bmps] of nvmeibc_topology.h, the rotations of
    src/common/nvmeib_math.h and nvmeibc_b_cp_blkset_topo.h).  The theorems say
    that the precomputed bitmaps are exactly the access modes of the segments,
    renamed to roles. *)
From stdpp Require Import base list numbers strings.
From Stdlib Require Import ZArith Lia.
From S2P Require Import Prelude CMemory BitFields DirtyBits Topology TopoIter AddrMap.
Local Open Scope Z_scope.

(** ** Rotations *)
Definition ror32_width (bm shift width : Z) : Z :=
  let res := Z.lor (u32 (Z.shiftl bm width)) bm in
  u32 (Z.land (Z.shiftr res shift) (s32 (Z.shiftl 1 width) - 1)).
Definition rol32_width (bm shift width : Z) : Z :=
  let res := Z.lor (u32 (Z.shiftl bm width)) bm in
  u32 (Z.land (Z.shiftr res (u32 (width - shift))) (s32 (Z.shiftl 1 width) - 1)).

(** ** Bitmaps *)
Record roles_bmps : Type := RolesBmps {
  rb_data : Z; rb_pari : Z; rb_all : Z;
  rb_data_sgmnts : Z; rb_pari_sgmnts : Z;
  rb_rw : Z; rb_wp : Z; rb_w : Z; rb_wm : Z; rb_dead : Z;
  rb_readable : Z; rb_readable_sync : Z; rb_dbits_off_mask : Z; rb_dbits_on_mask : Z;
  rb_local_access : Z;
  has_protection : bool; has_rw_pari : bool; has_writable_pari : bool
}.

Definition zero_bmps : roles_bmps := RolesBmps 0 0 0 0 0 0 0 0 0 0 0 0 0 0 0 false false false.

Definition nvmeibc_raid1_get_data_bmp (pr : raid1) : Z := Z.shiftl 1 (slice_size pr) - 1.
Definition nvmeibc_raid1_get_all_bmp (pr : raid1) : Z := Z.shiftl 1 (replicas pr) - 1.
Definition nvmeibc_raid1_get_parities_bmp (pr : raid1) : Z :=
  Z.lxor (nvmeibc_raid1_get_all_bmp pr) (nvmeibc_raid1_get_data_bmp pr).

Definition nvmeibc_is_readable_acm (acm : ds_mode) : bool :=
  bool_decide (acm = DS_MODE_RW) || bool_decide (acm = DS_MODE_W_NO_DIRTY).

(** [bmp |= 1 << si] on a bitmap of sixteen bits. *)
Definition set_role (bmp si : Z) : Z := u16 (Z.lor bmp (Z.shiftl 1 si)).

Definition with_modes (b : roles_bmps) (rw wp w wm dead : Z) : roles_bmps :=
  RolesBmps (rb_data b) (rb_pari b) (rb_all b) (rb_data_sgmnts b) (rb_pari_sgmnts b) rw wp w wm dead
    (rb_readable b) (rb_readable_sync b) (rb_dbits_off_mask b) (rb_dbits_on_mask b) (rb_local_access b)
    (has_protection b) (has_rw_pari b) (has_writable_pari b).

Definition nvmeibc_raid1_acm2bmp (acm : ds_mode) (si : Z) (b : roles_bmps) : roles_bmps :=
  match acm with
  | DS_MODE_RW => with_modes b (set_role (rb_rw b) si) (rb_wp b) (rb_w b) (rb_wm b) (rb_dead b)
  | DS_MODE_W_NO_DIRTY => with_modes b (rb_rw b) (set_role (rb_wp b) si) (rb_w b) (rb_wm b) (rb_dead b)
  | DS_MODE_W_IS_DIRTY => with_modes b (rb_rw b) (rb_wp b) (set_role (rb_w b) si) (set_role (rb_wm b) si) (rb_dead b)
  | DS_MODE_W => with_modes b (rb_rw b) (rb_wp b) (set_role (rb_w b) si) (rb_wm b) (rb_dead b)
  | DS_MODE_DEAD => with_modes b (rb_rw b) (rb_wp b) (rb_w b) (rb_wm b) (set_role (rb_dead b) si)
  | DS_MODE_INVALID => b
  end.

Definition with_local (b : roles_bmps) (local : Z) : roles_bmps :=
  RolesBmps (rb_data b) (rb_pari b) (rb_all b) (rb_data_sgmnts b) (rb_pari_sgmnts b) (rb_rw b) (rb_wp b) (rb_w b) (rb_wm b) (rb_dead b)
    (rb_readable b) (rb_readable_sync b) (rb_dbits_off_mask b) (rb_dbits_on_mask b) local
    (has_protection b) (has_rw_pari b) (has_writable_pari b).

Definition nvmeibc_update_roles_bmps_flags (b : roles_bmps) : roles_bmps :=
  RolesBmps (rb_data b) (rb_pari b) (rb_all b) (rb_data_sgmnts b) (rb_pari_sgmnts b) (rb_rw b) (rb_wp b) (rb_w b) (rb_wm b) (rb_dead b)
    (rb_readable b) (rb_readable_sync b) (rb_dbits_off_mask b) (rb_dbits_on_mask b) (rb_local_access b)
    (hweight 32 (Z.lor (rb_dead b) (rb_w b)) <? hweight 32 (rb_pari b))
    (negb (Z.land (Z.lor (rb_rw b) (rb_wp b)) (rb_pari b) =? 0))
    (negb (Z.land (rb_dead b) (rb_pari b) =? rb_pari b)).

(** The bitmaps for slices that start on segment [shift], from those of segment 0. *)
Definition calc_rotated_bmps (pr : raid1) (base : roles_bmps) (old : roles_bmps) (shift : Z) : roles_bmps :=
  let ror bm := u16 (ror32_width bm shift (replicas pr)) in
  let rol bm := u16 (rol32_width bm shift (replicas pr)) in
  let data := u16 (nvmeibc_raid1_get_data_bmp pr) in
  let pari := u16 (nvmeibc_raid1_get_parities_bmp pr) in
  let all := u16 (nvmeibc_raid1_get_all_bmp pr) in
  nvmeibc_update_roles_bmps_flags
    (if shift =? 0 then
       RolesBmps data pari all (rb_data_sgmnts old) (rb_pari_sgmnts old) (rb_rw old) (rb_wp old) (rb_w old) (rb_wm old)
         (rb_dead old) (rb_readable old) (rb_readable_sync old) (rb_dbits_off_mask old) (rb_dbits_on_mask old)
         (rb_local_access old) (has_protection old) (has_rw_pari old) (has_writable_pari old)
     else
       RolesBmps data pari all (rol (rb_data_sgmnts base)) (rol (rb_pari_sgmnts base)) (ror (rb_rw base)) (ror (rb_wp base))
         (ror (rb_w base)) (rb_wm old) (ror (rb_dead base)) (ror (rb_readable base)) (ror (rb_readable_sync base))
         (ror (rb_dbits_off_mask base)) (ror (rb_dbits_on_mask base)) (ror (rb_local_access base))
         (has_protection old) (has_rw_pari old) (has_writable_pari old)).

(** ** Derived data of a raid *)
Record io_pet_status : Type := IoPet { pet_n_sgmnts : Z; pet_dgrd : list (Z * ds_mode) }.
Record calculated_data : Type := CalcData {
  cd_roles : list roles_bmps; cd_traits : topo_traits; cd_pet : io_pet_status
}.

(** The first two segments that are not in read-write mode. *)
Fixpoint pet_scan (segs : list disk_segment) (idx : Z) (found : list (Z * ds_mode)) : list (Z * ds_mode) :=
  match segs with
  | [] => found
  | s :: segs' =>
      if decide (toma_acm s = DS_MODE_RW) then pet_scan segs' (idx + 1) found
      else let found' := found ++ [(idx, toma_acm s)] in
           if (length found' =? 2)%nat then found' else pet_scan segs' (idx + 1) found'
  end.

Definition nvmeibc_raid1_io_pet_describe_state (r : raid1) : io_pet_status :=
  let found := pet_scan (take (Z.to_nat (u8 (replicas r))) (segments r)) 0 [] in
  IoPet (u8 (replicas r)) (take 2 (found ++ [(0, DS_MODE_RW); (0, DS_MODE_RW)])).

Definition nvmeibc_should_use_view_lock (is_read : bool) (seg : disk_segment) : bool := is_read && is_safe_for_view_lock seg.

Definition calc_should_use_view_lock_on_read (pr : raid1) (seg0 : disk_segment) (roles0 : roles_bmps) : bool :=
  if decide (sync_safety seg0 ≠ LOCK_MOVING_NO) then false
  else if negb (1 <? slice_size pr) then true
  else rb_readable roles0 =? rb_all roles0.

Definition with_view_lock (s : disk_segment) (b : bool) : disk_segment :=
  Segment (uuid s) (first_lba s) (seg_length s) (lmap s) (sync_safety s) b (toma_acm s).

Section fill.
(** Whether the disk of a segment is local: a virtual function of the disk. *)
Context (is_access_local : disk_segment → bool).

Definition scan_segments (r1 : raid1) : res roles_bmps :=
  for_up (Z.to_nat (replicas r1)) (fun si base =>
    seg ← zget (segments r1) (Z.of_nat si);
    let base := nvmeibc_raid1_acm2bmp (toma_acm seg) (Z.of_nat si) base in
    Ok (if is_access_local seg then with_local base (set_role (rb_local_access base) (Z.of_nat si)) else base)) zero_bmps.

Definition derive_base (r1 : raid1) (b : roles_bmps) : roles_bmps :=
  let readable := Z.lor (rb_wp b) (rb_rw b) in
  RolesBmps (rb_data b) (rb_pari b) (rb_all b) (u16 (nvmeibc_raid1_get_data_bmp r1)) (u16 (nvmeibc_raid1_get_parities_bmp r1))
    (rb_rw b) (rb_wp b) (rb_w b) (rb_wm b) (rb_dead b)
    readable (Z.lor readable (Z.ldiff (rb_w b) (rb_wm b))) (rb_w b) (rb_dead b) (rb_local_access b)
    (has_protection b) (has_rw_pari b) (has_writable_pari b).

Definition nvmeibc_raid1_fill_calculated_data (r1 : raid1) : res (calculated_data * raid1) :=
  scanned ← scan_segments r1;
  let base := derive_base r1 scanned in
  roles ← for_up (Z.to_nat (replicas r1)) (fun si roles =>
    base ← aget roles 0;
    old ← aget roles si;
    aset roles si (calc_rotated_bmps r1 base old (Z.of_nat si))) (base :: replicate (N_MAX_RAID_SLICE_LEN - 1) zero_bmps);
  r0 ← aget roles 0;
  let readable := rb_readable r0 in
  let traits := TopoTraits (u8 (replicas r1 - slice_size r1))
    (u8 (hweight 16 (Z.land (Z.lnot readable) (rb_all r0)))) (rb_dbits_on_mask r0) (rb_dbits_off_mask r0) (rb_wm r0) in
  seg0 ← aget (segments r1) 0;
  let can_view_lock := calc_should_use_view_lock_on_read r1 seg0 r0 in
  segs ← for_up (Z.to_nat (replicas r1)) (fun si segs =>
    s ← aget segs si; aset segs si (with_view_lock s can_view_lock)) (segments r1);
  let r1' := Raid1 (replicas r1) (slice_size r1) segs (lock_scheme r1) (use_rdma_locks r1) in
  Ok (CalcData roles traits (nvmeibc_raid1_io_pet_describe_state r1'), r1').
End fill.

(** ** Uses *)
Definition nvmeibc_roles_bmps_get_by_slba (praid : raid1) (cd : calculated_data) (slba : Z) : res roles_bmps :=
  let d0_sgmnt_id := u16 (Z.shiftr slba LOCKSET_SHIFT mod replicas praid) in
  zget (cd_roles cd) d0_sgmnt_id.

Definition nvmeibc_get_nonrw_roles (b : roles_bmps) : Z := Z.lor (rb_w b) (rb_dead b).

(** [__ffs]: index of the lowest set bit of a sixteen-bit map.  The result is
    undefined on zero, which counts as a fault. *)
Fixpoint ffs_from (fuel : nat) (i bm : Z) : res Z :=
  match fuel with
  | O => Fault BUG
  | S f => if Z.testbit bm i then Ok i else ffs_from f (i + 1) bm
  end.

Definition get_owner_seg_of_read (r1 : raid1) (cd : calculated_data) (rlba : Z) : res Z :=
  if replicas r1 <=? max_n_owners (lock_scheme r1) then get_owner_seg_of_lock r1 rlba
  else
    let slice_start_si := get_owner_seg_slice_start r1 rlba in
    b ← zget (cd_roles cd) slice_start_si;
    readable_role ← ffs_from 16 0 (rb_readable b);
    Ok (nvmeibc_raid1_role2seg r1 slice_start_si readable_role).

(** ** Rotations move the bits *)
Lemma mask_bits width i : 0 ≤ width ≤ 16 → 0 ≤ i → Z.testbit (s32 (Z.shiftl 1 width) - 1) i = (i <? width).
Proof.
  intros Hw Hi. rewrite Z.shiftl_1_l. assert (1 ≤ 2 ^ width ≤ 2 ^ 16).
  { split; [apply (Z.pow_le_mono_r 2 0)|apply Z.pow_le_mono_r]; lia. }
  replace (s32 (2 ^ width)) with (2 ^ width) by (unfold s32; rewrite wrap_small; lia).
  replace (2 ^ width - 1) with (Z.ones width) by (rewrite Z.ones_equiv; lia).
  apply ones_testbit; lia.
Qed.

(** The doubled bitmap both rotations shift. *)
Lemma doubled_bits bm width j : 0 < width ≤ 16 → 0 ≤ bm < 2 ^ width → 0 ≤ j < 2 * width →
  Z.testbit (Z.lor (u32 (Z.shiftl bm width)) bm) j = Z.testbit bm (j mod width).
Proof.
  intros Hw Hb Hj. rewrite Z.lor_spec, wrap_testbit, Z.shiftl_spec, (proj2 (Z.ltb_lt j 32)) by lia. cbn [andb].
  destruct (Z.lt_ge_cases j width).
  - rewrite Z.testbit_neg_r, Z.mod_small by lia. done.
  - rewrite (testbit_high width bm j) by lia. rewrite orb_false_r. f_equal.
    apply (Z.mod_unique _ _ 1); lia.
Qed.

Lemma ror_testbit bm d width i : 0 < width ≤ 16 → 0 ≤ bm < 2 ^ width → 0 ≤ d ≤ width → 0 ≤ i →
  Z.testbit (ror32_width bm d width) i = (i <? width) && Z.testbit bm ((i + d) mod width).
Proof.
  intros Hw Hb Hd Hi. unfold ror32_width. rewrite wrap_testbit, Z.land_spec, mask_bits, Z.shiftr_spec by lia.
  destruct (Z.ltb_spec i width) as [Hlt|]; [|by rewrite !andb_false_r].
  rewrite (proj2 (Z.ltb_lt i 32)), doubled_bits by lia. by rewrite andb_true_r.
Qed.

Lemma rol_testbit bm d width i : 0 < width ≤ 16 → 0 ≤ bm < 2 ^ width → 0 ≤ d ≤ width → 0 ≤ i →
  Z.testbit (rol32_width bm d width) i = (i <? width) && Z.testbit bm ((i + width - d) mod width).
Proof.
  intros Hw Hb Hd Hi. unfold rol32_width. rewrite (wrap_small 32 (width - d)) by lia.
  rewrite wrap_testbit, Z.land_spec, mask_bits, Z.shiftr_spec by lia.
  destruct (Z.ltb_spec i width) as [Hlt|]; [|by rewrite !andb_false_r].
  rewrite (proj2 (Z.ltb_lt i 32)), doubled_bits by lia. rewrite andb_true_r. cbn [andb]. do 2 f_equal. lia.
Qed.

Lemma rotate_range bm d width (f : Z → Z → Z → Z) : f = ror32_width ∨ f = rol32_width → 0 < width ≤ 16 → 0 ≤ f bm d width < 2 ^ width.
Proof.
  intros Hf Hw. assert (0 ≤ f bm d width) by (destruct Hf as [-> | ->]; apply wrap_range; lia).
  split; [done|]. apply bits_bound; [lia|done|]. intros i Hi.
  destruct Hf as [-> | ->]; unfold ror32_width, rol32_width;
    rewrite wrap_testbit, Z.land_spec, mask_bits by lia; rewrite (proj2 (Z.ltb_ge i width)) by lia;
    by rewrite !andb_false_r.
Qed.

(** ** Bitmaps of a list of segments *)
Fixpoint seg_bmp (f : disk_segment → bool) (l : list disk_segment) : Z :=
  match l with [] => 0 | s :: l' => (if f s then 1 else 0) + 2 * seg_bmp f l' end.

Lemma seg_bmp_testbit f l i : 0 ≤ i →
  Z.testbit (seg_bmp f l) i = match l !! Z.to_nat i with Some s => f s | None => false end.
Proof.
  revert i. induction l as [|s l IH]; intros i Hi; cbn [seg_bmp]; [by rewrite Z.bits_0|].
  destruct (Z.eq_dec i 0) as [->|Hne].
  - rewrite Z.add_comm. destruct (f s) eqn:E; simpl; rewrite E; [apply Z.testbit_odd_0|]. rewrite Z.add_0_r. apply Z.testbit_even_0.
  - replace i with (Z.succ (i - 1)) at 1 by lia. replace (Z.to_nat i) with (S (Z.to_nat (i - 1))) by lia. simpl.
    rewrite <-IH by lia. rewrite Z.add_comm. destruct (f s); [apply Z.testbit_odd_succ; lia|].
    rewrite Z.add_0_r. apply Z.testbit_even_succ. lia.
Qed.

Lemma seg_bmp_range f l : 0 ≤ seg_bmp f l < 2 ^ Z.of_nat (length l).
Proof.
  induction l as [|s l IH]; cbn [seg_bmp length]; [done|].
  replace (Z.of_nat (S (length l))) with (Z.succ (Z.of_nat (length l))) by lia.
  rewrite Z.pow_succ_r by lia. destruct (f s); lia.
Qed.

Lemma seg_bmp_16 f l : (length l ≤ 12)%nat → 0 ≤ seg_bmp f l < 2 ^ 16.
Proof.
  intros Hl. pose proof (seg_bmp_range f l). assert (2 ^ Z.of_nat (length l) ≤ 2 ^ 16) by (apply Z.pow_le_mono_r; lia). lia.
Qed.

Lemma seg_bmp_or f g l : Z.lor (seg_bmp f l) (seg_bmp g l) = seg_bmp (fun s => f s || g s) l.
Proof.
  apply Z.bits_inj'. intros i Hi. rewrite Z.lor_spec, !seg_bmp_testbit by done. by destruct (l !! Z.to_nat i).
Qed.

Lemma seg_bmp_diff f g l : Z.ldiff (seg_bmp f l) (seg_bmp g l) = seg_bmp (fun s => f s && negb (g s)) l.
Proof.
  apply Z.bits_inj'. intros i Hi. rewrite Z.ldiff_spec, !seg_bmp_testbit by done. by destruct (l !! Z.to_nat i).
Qed.

Lemma seg_bmp_ext f g l : (∀ s, f s = g s) → seg_bmp f l = seg_bmp g l.
Proof. intros H. induction l as [|s l IH]; cbn [seg_bmp]; [done|]. by rewrite H, IH. Qed.

Lemma seg_bmp_snoc f l s : (length l < 12)%nat →
  seg_bmp f (l ++ [s]) = if f s then set_role (seg_bmp f l) (Z.of_nat (length l)) else seg_bmp f l.
Proof.
  intros Hl. assert (seg_bmp f (l ++ [s]) =
    if f s then Z.lor (seg_bmp f l) (Z.shiftl 1 (Z.of_nat (length l))) else seg_bmp f l) as E.
  { apply Z.bits_inj'. intros i Hi. rewrite seg_bmp_testbit by done. destruct (decide (Z.to_nat i < length l)%nat).
    - rewrite lookup_app_l by done. destruct (f s); rewrite ?Z.lor_spec, ?Z.shiftl_spec, seg_bmp_testbit by lia; [|done].
      rewrite (Z.testbit_neg_r 1) by lia. by rewrite orb_false_r.
    - rewrite lookup_app_r by lia. assert (Z.testbit (seg_bmp f l) i = false) as E.
      { rewrite seg_bmp_testbit by done. by rewrite lookup_ge_None_2 by lia. }
      destruct (decide (Z.to_nat i = length l)) as [Heq|Hne].
      + rewrite Heq, Nat.sub_diag. simpl. destruct (f s); rewrite ?Z.lor_spec, E; [|done].
        rewrite Z.shiftl_spec by lia. by replace (i - Z.of_nat (length l)) with 0 by lia.
      + rewrite lookup_ge_None_2 by (simpl; lia). destruct (f s); rewrite ?Z.lor_spec, E; [|done].
        rewrite Z.shiftl_spec by lia. cbn [orb]. symmetry. apply (testbit_high 1); lia. }
  pose proof (seg_bmp_16 f (l ++ [s])) as H16. rewrite E in *. unfold set_role. destruct (f s); [|done].
  rewrite wrap_small; [done|]. apply H16. rewrite length_app. simpl. lia.
Qed.

(** Roles are the segments of the raid listed from the start of the slice. *)
Lemma ror_seg_bmp f l d : (0 < length l ≤ 12)%nat → 0 ≤ d < Z.of_nat (length l) →
  ror32_width (seg_bmp f l) d (Z.of_nat (length l)) = seg_bmp f (rotate (Z.to_nat d) l).
Proof.
  intros Hl Hd. apply Z.bits_inj'. intros i Hi. pose proof (seg_bmp_range f l).
  rewrite ror_testbit, !seg_bmp_testbit by (try apply Z.mod_pos_bound; lia).
  destruct (Z.ltb_spec i (Z.of_nat (length l))); cbn [andb].
  - rewrite lookup_rotate_r by lia. unfold rotate_nat_add. by replace (Z.of_nat (Z.to_nat d) + Z.of_nat (Z.to_nat i)) with (i + d) by lia.
  - rewrite lookup_ge_None_2; [done|]. rewrite length_rotate. lia.
Qed.

(** ** The bitmaps a raid should have *)
Definition in_mode (modes : list ds_mode) (s : disk_segment) : bool := bool_decide (toma_acm s ∈ modes).
Abbreviation is_rw := (in_mode [DS_MODE_RW]).
Abbreviation is_wp := (in_mode [DS_MODE_W_NO_DIRTY]).
Abbreviation is_w := (in_mode [DS_MODE_W; DS_MODE_W_IS_DIRTY]).
Abbreviation is_wm := (in_mode [DS_MODE_W_IS_DIRTY]).
Abbreviation is_dead := (in_mode [DS_MODE_DEAD]).
Abbreviation is_readable := (in_mode [DS_MODE_RW; DS_MODE_W_NO_DIRTY]).
Abbreviation is_readable_sync := (in_mode [DS_MODE_RW; DS_MODE_W_NO_DIRTY; DS_MODE_W]).

Section fill_proof.
Context (is_access_local : disk_segment → bool) (r : raid1) (Hr : wf_raid1 r).

Lemma replicas_bounds : 1 ≤ slice_size r ≤ replicas r ∧ replicas r ≤ 12 ∧ length (segments r) = Z.to_nat (replicas r).
Proof.
  pose proof (wf_slice _ Hr). pose proof (wf_replicas _ Hr) as H12. change (Z.of_nat N_MAX_RAID_SLICE_LEN) with 12 in H12.
  pose proof (wf_segments _ Hr). lia.
Qed.

(** The scan of the first segments [l]. *)
Definition modes_of (l : list disk_segment) : roles_bmps :=
  RolesBmps 0 0 0 0 0 (seg_bmp is_rw l) (seg_bmp is_wp l) (seg_bmp is_w l) (seg_bmp is_wm l) (seg_bmp is_dead l)
    0 0 0 0 (seg_bmp is_access_local l) false false false.

Lemma scan_step l s : (length l < 12)%nat →
  (let b := nvmeibc_raid1_acm2bmp (toma_acm s) (Z.of_nat (length l)) (modes_of l) in
   if is_access_local s then with_local b (set_role (rb_local_access b) (Z.of_nat (length l))) else b) = modes_of (l ++ [s]).
Proof.
  intros Hl. unfold modes_of at 2. rewrite !seg_bmp_snoc by done. unfold in_mode.
  destruct (is_access_local s), (toma_acm s); reflexivity.
Qed.

Lemma scan_ok : scan_segments is_access_local r = Ok (modes_of (segments r)).
Proof.
  destruct replicas_bounds as (Hsl & H12 & Hlen). unfold scan_segments.
  match goal with |- for_up _ ?f _ = _ => destruct (for_up_inv f (fun n b => b = modes_of (take n (segments r)))
    (Z.to_nat (replicas r)) zero_bmps) as (b & -> & ->) end; [done| |].
  - intros k b Hk ->. destruct (zget_is_Some (segments r) (Z.of_nat k)) as (seg & Hs & ->); [lia|]. rstep.
    eexists. split; [reflexivity|]. rewrite Nat2Z.id in Hs. rewrite (take_S_r _ _ _ Hs), <-scan_step;
      rewrite length_take, Nat.min_l by lia; [done|lia].
  - by rewrite firstn_all2 by lia.
Qed.

Abbreviation base := (derive_base r (modes_of (segments r))).

Lemma base_fields : rb_rw base = seg_bmp is_rw (segments r) ∧ rb_wp base = seg_bmp is_wp (segments r) ∧
  rb_w base = seg_bmp is_w (segments r) ∧ rb_dead base = seg_bmp is_dead (segments r) ∧
  rb_readable base = seg_bmp is_readable (segments r) ∧ rb_readable_sync base = seg_bmp is_readable_sync (segments r) ∧
  rb_dbits_on_mask base = seg_bmp is_dead (segments r) ∧ rb_dbits_off_mask base = seg_bmp is_w (segments r) ∧
  rb_local_access base = seg_bmp is_access_local (segments r) ∧ rb_wm base = seg_bmp is_wm (segments r).
Proof.
  unfold derive_base, modes_of. cbn [rb_rw rb_wp rb_w rb_wm rb_dead rb_readable rb_readable_sync rb_dbits_on_mask
    rb_dbits_off_mask rb_local_access]. rewrite !seg_bmp_diff, !seg_bmp_or.
  repeat split; apply seg_bmp_ext; intros s; unfold in_mode; by destruct (toma_acm s).
Qed.

(** The bitmaps of the slices that start on segment [d]. *)
Definition roles_at (d : nat) : roles_bmps :=
  calc_rotated_bmps r base (match d with O => base | _ => zero_bmps end) (Z.of_nat d).

Lemma rotated_base_ext b b' old d : rb_rw b = rb_rw b' → rb_wp b = rb_wp b' → rb_w b = rb_w b' → rb_dead b = rb_dead b' →
  rb_readable b = rb_readable b' → rb_readable_sync b = rb_readable_sync b' → rb_dbits_off_mask b = rb_dbits_off_mask b' →
  rb_dbits_on_mask b = rb_dbits_on_mask b' → rb_local_access b = rb_local_access b' →
  rb_data_sgmnts b = rb_data_sgmnts b' → rb_pari_sgmnts b = rb_pari_sgmnts b' →
  calc_rotated_bmps r b old d = calc_rotated_bmps r b' old d.
Proof.
  intros. unfold calc_rotated_bmps. by repeat match goal with H : _ b = _ b' |- _ => rewrite H; clear H end.
Qed.

Lemma rotated_zero b old : let b' := calc_rotated_bmps r b old 0 in
  rb_rw b' = rb_rw old ∧ rb_wp b' = rb_wp old ∧ rb_w b' = rb_w old ∧ rb_dead b' = rb_dead old ∧
  rb_readable b' = rb_readable old ∧ rb_readable_sync b' = rb_readable_sync old ∧
  rb_dbits_off_mask b' = rb_dbits_off_mask old ∧ rb_dbits_on_mask b' = rb_dbits_on_mask old ∧
  rb_local_access b' = rb_local_access old ∧ rb_data_sgmnts b' = rb_data_sgmnts old ∧ rb_pari_sgmnts b' = rb_pari_sgmnts old ∧
  rb_wm b' = rb_wm old.
Proof. done. Qed.

(** The loop over the shifts. *)
Lemma rotate_loop_ok : ∃ roles,
  for_up (Z.to_nat (replicas r)) (fun si roles =>
    base ← aget roles 0;
    old ← aget roles si;
    aset roles si (calc_rotated_bmps r base old (Z.of_nat si))) (base :: replicate (N_MAX_RAID_SLICE_LEN - 1) zero_bmps) =
  Ok roles ∧ ∀ d, (d < Z.to_nat (replicas r))%nat → roles !! d = Some (roles_at d).
Proof.
  destruct replicas_bounds as (Hsl & H12 & Hlen).
  match goal with |- ∃ roles, for_up _ ?f ?s = _ ∧ _ => destruct (for_up_inv f (fun n roles => length roles = 12%nat ∧
    ∀ d, (d < 12)%nat → roles !! d = Some (if decide (d < n)%nat then roles_at d else match d with O => base | _ => zero_bmps end))
    (Z.to_nat (replicas r)) s) as (roles & E & _ & HI) end.
  - split; [done|]. intros [|d] Hd; [done|]. cbn [decide lookup list_lookup].
    rewrite decide_False by lia. apply lookup_replicate. split; [done|]. change (N_MAX_RAID_SLICE_LEN - 1)%nat with 11%nat. lia.
  - intros k roles Hk [Hl HI]. assert (k < 12)%nat by lia.
    rewrite (proj2 (aget_ok _ _ _) (HI 0%nat ltac:(lia))). rstep.
    rewrite (proj2 (aget_ok _ _ _) (HI k ltac:(lia))). rstep. rewrite (decide_False (P := (k < k)%nat)) by lia.
    rewrite aset_ok by lia. eexists. split; [reflexivity|]. split; [by rewrite length_insert|]. intros d Hd.
    destruct (decide (d = k)) as [->|].
    + rewrite list_lookup_insert_eq, (decide_True (P := (k < S k)%nat)) by lia. f_equal. unfold roles_at. destruct k as [|k]; [done|].
      rewrite decide_True by lia. apply rotated_base_ext; apply rotated_zero.
    + rewrite list_lookup_insert_ne, HI by done. do 2 case_decide; (done || lia).
  - exists roles. split; [exact E|]. intros d Hd. rewrite HI by lia. by rewrite decide_True.
Qed.

Lemma hweight_seg_bmp f (l : list disk_segment) n : hweight n (seg_bmp f l) = Z.of_nat (length (filter (fun s => f s = true) (take n l))).
Proof.
  induction n as [|n IH]; [done|].
  change (hweight (S n) (seg_bmp f l)) with
    (hweight n (seg_bmp f l) + (if Z.testbit (seg_bmp f l) (Z.of_nat n) then 1 else 0)). rewrite IH, seg_bmp_testbit, Nat2Z.id by lia.
  destruct (l !! n) as [s|] eqn:E.
  - rewrite (take_S_r _ _ _ E), list.filter_app, length_app, filter_cons, filter_nil.
    destruct (f s) eqn:Ef; [rewrite decide_True by done|rewrite decide_False by congruence]; simpl; lia.
  - apply lookup_ge_None in E. rewrite !firstn_all2 by lia. lia.
Qed.

Lemma all_bmp_ones : u16 (nvmeibc_raid1_get_all_bmp r) = Z.ones (replicas r) ∧ u16 (nvmeibc_raid1_get_data_bmp r) = Z.ones (slice_size r) ∧
  ∀ i, 0 ≤ i → Z.testbit (u16 (nvmeibc_raid1_get_parities_bmp r)) i = (slice_size r <=? i) && (i <? replicas r).
Proof.
  destruct replicas_bounds as (Hsl & H12 & _).
  assert (∀ n, 1 ≤ n ≤ 12 → Z.shiftl 1 n - 1 = Z.ones n ∧ u16 (Z.ones n) = Z.ones n) as H.
  { intros n Hn. rewrite Z.shiftl_1_l. split; [rewrite Z.ones_equiv; lia|]. apply wrap_small. rewrite Z.ones_equiv.
    assert (1 ≤ 2 ^ n ≤ 2 ^ 12); [|lia]. split; [apply (Z.pow_le_mono_r 2 0)|apply Z.pow_le_mono_r]; lia. }
  unfold nvmeibc_raid1_get_parities_bmp, nvmeibc_raid1_get_all_bmp, nvmeibc_raid1_get_data_bmp.
  destruct (H (replicas r)) as [-> ->]; [lia|]. destruct (H (slice_size r)) as [-> ->]; [lia|]. do 2 (split; [done|]).
  intros i Hi. rewrite wrap_testbit, Z.lxor_spec, !ones_testbit by lia.
  destruct (Z.ltb_spec i 16), (Z.ltb_spec i (replicas r)), (Z.ltb_spec i (slice_size r)), (Z.leb_spec (slice_size r) i); (done || lia).
Qed.

Lemma seg_masks_range : 0 ≤ Z.ones (slice_size r) < 2 ^ replicas r ∧ 0 ≤ u16 (nvmeibc_raid1_get_parities_bmp r) < 2 ^ replicas r.
Proof.
  destruct replicas_bounds as (Hsl & H12 & _). destruct all_bmp_ones as (_ & _ & Hpari). split.
  - rewrite Z.ones_equiv. assert (1 ≤ 2 ^ slice_size r ≤ 2 ^ replicas r); [|lia].
    split; [apply (Z.pow_le_mono_r 2 0)|apply Z.pow_le_mono_r]; lia.
  - assert (0 ≤ u16 (nvmeibc_raid1_get_parities_bmp r)) by (apply wrap_range; lia). split; [done|].
    apply bits_bound; [lia|done|]. intros i Hi. rewrite Hpari, (proj2 (Z.ltb_ge i _)) by lia. apply andb_false_r.
Qed.

(** Bitmaps of roles, and of the segments that play data or parity, for slices that
    start on segment [d]. *)
Record roles_match (d : Z) (b : roles_bmps) : Prop := {
  rm_modes : let l := rotate (Z.to_nat d) (segments r) in
    rb_rw b = seg_bmp is_rw l ∧ rb_wp b = seg_bmp is_wp l ∧ rb_w b = seg_bmp is_w l ∧ rb_dead b = seg_bmp is_dead l ∧
    rb_readable b = seg_bmp is_readable l ∧ rb_readable_sync b = seg_bmp is_readable_sync l ∧
    rb_dbits_on_mask b = seg_bmp is_dead l ∧ rb_dbits_off_mask b = seg_bmp is_w l ∧
    rb_local_access b = seg_bmp is_access_local l;
  rm_raid : rb_all b = Z.ones (replicas r) ∧ rb_data b = Z.ones (slice_size r) ∧
    ∀ i, 0 ≤ i → Z.testbit (rb_pari b) i = (slice_size r <=? i) && (i <? replicas r);
  rm_segments : ∀ i, 0 ≤ i →
    Z.testbit (rb_data_sgmnts b) i = (i <? replicas r) && (nvmeibc_raid1_seg2role r d i <? slice_size r) ∧
    Z.testbit (rb_pari_sgmnts b) i = (i <? replicas r) && (slice_size r <=? nvmeibc_raid1_seg2role r d i)
}.

Lemma ror16 f d : 0 ≤ d < replicas r →
  u16 (ror32_width (seg_bmp f (segments r)) d (replicas r)) = seg_bmp f (rotate (Z.to_nat d) (segments r)).
Proof.
  intros Hd. destruct replicas_bounds as (Hsl & H12 & Hlen).
  replace (replicas r) with (Z.of_nat (length (segments r))) by lia. rewrite ror_seg_bmp by lia.
  apply wrap_small, seg_bmp_16. rewrite length_rotate. lia.
Qed.

Lemma roles_at_match d : 0 ≤ d < replicas r → roles_match d (roles_at (Z.to_nat d)).
Proof.
  intros Hd. destruct replicas_bounds as (Hsl & H12 & Hlen). destruct all_bmp_ones as (Hall & Hdata & Hpari).
  destruct base_fields as (E1 & E2 & E3 & E4 & E5 & E6 & E7 & E8 & E9 & _).
  assert (∀ i, 0 ≤ i → nvmeibc_raid1_seg2role r 0 i = i mod replicas r) as Hz.
  { intros i Hi. unfold nvmeibc_raid1_seg2role. replace (i + replicas r - 0) with (i + 1 * replicas r) by lia. by rewrite Z.mod_add by lia. }
  unfold roles_at, calc_rotated_bmps. rewrite Z2Nat.id by lia. destruct (Z.eqb_spec d 0) as [->|Hne]; split.
  - cbn zeta. assert (rotate (Z.to_nat 0) (segments r) = segments r) as ->.
    { unfold rotate. rewrite Nat.Div0.mod_0_l, drop_0, take_0, app_nil_r. done. }
    repeat split; assumption.
  - repeat split; assumption.
  - intros i Hi. change (Z.to_nat 0) with 0%nat. cbn [nvmeibc_update_roles_bmps_flags rb_data_sgmnts rb_pari_sgmnts derive_base].
    rewrite Hdata, Hpari, ones_testbit, Hz by lia. destruct (Z.ltb_spec i (replicas r)) as [Hlt|Hge].
    + rewrite Z.mod_small, andb_true_r by lia. done.
    + rewrite andb_false_r. destruct (Z.ltb_spec i (slice_size r)); (done || lia).
  - cbn zeta. cbn [nvmeibc_update_roles_bmps_flags rb_rw rb_wp rb_w rb_dead rb_readable rb_readable_sync rb_dbits_on_mask
      rb_dbits_off_mask rb_local_access]. rewrite E1, E2, E3, E4, E5, E6, E7, E8, E9, !ror16 by done. by repeat split.
  - repeat split; assumption.
  - intros i Hi. cbn [nvmeibc_update_roles_bmps_flags rb_data_sgmnts rb_pari_sgmnts derive_base].
    destruct seg_masks_range as [Hr1 Hr2]. pose proof (Z.mod_pos_bound (i + replicas r - d) (replicas r)) as Hmod.
    rewrite Hdata, !wrap_testbit, !rol_testbit, ones_testbit, Hpari by lia.
    fold (nvmeibc_raid1_seg2role r d i) in *. rewrite (proj2 (Z.ltb_lt _ (replicas r)) (proj2 (Hmod ltac:(lia)))).
    destruct (Z.ltb_spec i (replicas r)); [|by rewrite !andb_false_r]. rewrite (proj2 (Z.ltb_lt i 16)) by lia.
    by rewrite andb_true_r.
Qed.

Lemma view_lock_loop b : for_up (Z.to_nat (replicas r)) (fun si segs =>
    s ← aget segs si; aset segs si (with_view_lock s b)) (segments r) = Ok ((fun s => with_view_lock s b) <$> segments r).
Proof.
  destruct replicas_bounds as (Hsl & H12 & Hlen). rewrite for_up_map by lia.
  by rewrite <-Hlen, firstn_all, drop_all, app_nil_r.
Qed.

(** Segments the volume cannot be read from. *)
Definition n_unreadable : Z := Z.of_nat (length (filter (fun s => is_readable s = false) (segments r))).

Lemma inverse_readable b : rb_readable b = seg_bmp is_readable (segments r) → rb_all b = Z.ones (replicas r) →
  hweight 16 (Z.land (Z.lnot (rb_readable b)) (rb_all b)) = n_unreadable.
Proof.
  intros -> ->. destruct replicas_bounds as (Hsl & H12 & Hlen).
  assert (Z.land (Z.lnot (seg_bmp is_readable (segments r))) (Z.ones (replicas r)) = seg_bmp (fun s => negb (is_readable s)) (segments r)) as ->.
  { apply Z.bits_inj'. intros i Hi. rewrite Z.land_spec, Z.lnot_spec, ones_testbit, !seg_bmp_testbit by lia.
    destruct (Z.ltb_spec i (replicas r)).
    - destruct (segments r !! Z.to_nat i) eqn:E; [by rewrite andb_true_r|]. apply lookup_ge_None in E. lia.
    - rewrite andb_false_r. by rewrite lookup_ge_None_2 by lia. }
  rewrite hweight_seg_bmp, firstn_all2 by lia. unfold n_unreadable. do 2 f_equal.
  apply list_filter_iff. intros s. by destruct (is_readable s).
Qed.

(** Reads may look at locks without taking them when the owner is not moving and, in an
    erasure coded raid, every segment can be read. *)
Definition view_lock_ok (seg0 : disk_segment) : bool :=
  bool_decide (sync_safety seg0 = LOCK_MOVING_NO) &&
  ((slice_size r =? 1) || bool_decide (Forall (fun s => is_readable s = true) (segments r))).

Lemma all_readable_iff : seg_bmp is_readable (segments r) = Z.ones (replicas r) ↔
  Forall (fun s => is_readable s = true) (segments r).
Proof.
  destruct replicas_bounds as (Hsl & H12 & Hlen). rewrite Forall_lookup. split.
  - intros E i s Hs. pose proof (lookup_lt_Some _ _ _ Hs).
    assert (Z.testbit (seg_bmp is_readable (segments r)) (Z.of_nat i) = true) as H'.
    { rewrite E, ones_testbit by lia. apply Z.ltb_lt. lia. }
    by rewrite seg_bmp_testbit, Nat2Z.id, Hs in H' by lia.
  - intros HF. apply Z.bits_inj'. intros i Hi. rewrite seg_bmp_testbit, ones_testbit by lia.
    destruct (segments r !! Z.to_nat i) eqn:E.
    + rewrite (HF _ _ E). symmetry. apply Z.ltb_lt. apply lookup_lt_Some in E. lia.
    + symmetry. apply Z.ltb_ge. apply lookup_ge_None in E. lia.
Qed.

Lemma view_lock_calc seg0 b : rb_readable b = seg_bmp is_readable (segments r) → rb_all b = Z.ones (replicas r) →
  calc_should_use_view_lock_on_read r seg0 b = view_lock_ok seg0.
Proof.
  intros Hrd Ha. destruct replicas_bounds as (Hsl & _ & _). unfold calc_should_use_view_lock_on_read, view_lock_ok.
  rewrite Hrd, Ha. destruct (decide (sync_safety seg0 = LOCK_MOVING_NO)) as [E|E].
  2:{ by rewrite decide_True, bool_decide_eq_false_2 by done. }
  rewrite decide_False, bool_decide_eq_true_2 by auto. cbn [andb].
  destruct (Z.ltb_spec 1 (slice_size r)), (Z.eqb_spec (slice_size r) 1); try lia; cbn [negb orb]; [|done].
  destruct (Z.eqb_spec (seg_bmp is_readable (segments r)) (Z.ones (replicas r))) as [E'|E']; rewrite all_readable_iff in E'.
  - by rewrite bool_decide_eq_true_2.
  - by rewrite bool_decide_eq_false_2.
Qed.

Lemma fill_run : ∃ cd r' seg0, nvmeibc_raid1_fill_calculated_data is_access_local r = Ok (cd, r') ∧
  segments r !! 0%nat = Some seg0 ∧
  (∀ d, 0 ≤ d < replicas r → cd_roles cd !! Z.to_nat d = Some (roles_at (Z.to_nat d))) ∧
  cd_traits cd = TopoTraits (replicas r - slice_size r) n_unreadable (seg_bmp is_dead (segments r)) (seg_bmp is_w (segments r))
    (seg_bmp is_wm (segments r)) ∧
  r' = Raid1 (replicas r) (slice_size r) ((fun s => with_view_lock s (view_lock_ok seg0)) <$> segments r) (lock_scheme r) (use_rdma_locks r).
Proof.
  destruct replicas_bounds as (Hsl & H12 & Hlen). unfold nvmeibc_raid1_fill_calculated_data. rewrite scan_ok. rstep.
  destruct rotate_loop_ok as (roles & -> & Hroles). rstep.
  rewrite (proj2 (aget_ok _ _ _) (Hroles 0%nat ltac:(lia))). rstep.
  destruct (segments r !! 0%nat) as [seg0|] eqn:E0; [|apply lookup_ge_None in E0; lia].
  rewrite (proj2 (aget_ok _ _ _) E0). rstep. rewrite view_lock_loop. rstep.
  destruct base_fields as (_ & _ & _ & _ & E5 & _ & E7 & E8 & _ & E10). destruct all_bmp_ones as (Hall & _).
  assert (rb_readable (roles_at 0) = seg_bmp is_readable (segments r)) as Hrd by exact E5.
  assert (rb_all (roles_at 0) = Z.ones (replicas r)) as Ha by exact Hall.
  rewrite (view_lock_calc seg0 _ Hrd Ha). eexists _, _, seg0. split; [reflexivity|]. split; [done|]. split; [|split; [|done]].
  - intros d Hd. cbn [cd_roles]. apply Hroles. lia.
  - cbn [cd_traits]. rewrite inverse_readable by done. assert (0 ≤ n_unreadable < 2 ^ 8).
    { unfold n_unreadable. pose proof (length_filter (fun s => is_readable s = false) (segments r)). lia. }
    rewrite !wrap_small by lia. by repeat f_equal.
Qed.
End fill_proof.


(** Segment 1 of the sample raid is dead. *)
Definition degraded_raid : raid1 :=
  let s := sample_segment in
  Raid1 3 2 [s "a" 0; Segment "b" 256 128 (lmap (s "b" 256)) LOCK_MOVING_NO true DS_MODE_DEAD; s "c" 4096]
    (LocksScheme OWNER_SCHEME_SL_START_DEC_C 2 6) true.

Lemma degraded_raid_wf : wf_raid1 degraded_raid.
Proof. split; [done|done|done|]. repeat constructor; vm_compute; congruence. Qed.


(** The traits the dirty-bit code works with say what the segments are: the number of
    parities, how many segments cannot be read, and which segments are dead, are
    being rebuilt, or have dirty bits that cannot be trusted.  All segments get
    the same verdict on viewing locks: the owner must not be moving and, with
    erasure coding, every segment must be readable. *)
Theorem traits_describe_raid is_access_local r (Hr : wf_raid1 r) :
  ∃ cd r' seg0, nvmeibc_raid1_fill_calculated_data is_access_local r = Ok (cd, r') ∧ segments r !! 0%nat = Some seg0 ∧
    cd_traits cd = TopoTraits (replicas r - slice_size r) (n_unreadable r) (seg_bmp is_dead (segments r))
      (seg_bmp is_w (segments r)) (seg_bmp is_wm (segments r)) ∧
    segments r' = (fun s => with_view_lock s (view_lock_ok r seg0)) <$> segments r.
Proof.
  destruct (fill_run is_access_local r Hr) as (cd & r' & seg0 & E & E0 & _ & Ht & ->). by exists cd, (Raid1 (replicas r) (slice_size r)
    ((fun s => with_view_lock s (view_lock_ok r seg0)) <$> segments r) (lock_scheme r) (use_rdma_locks r)), seg0.
Qed.

Lemma traits_describe_raid_witness : ∃ cd r' seg0,
  nvmeibc_raid1_fill_calculated_data (fun _ => true) degraded_raid = Ok (cd, r') ∧ segments degraded_raid !! 0%nat = Some seg0 ∧
  cd_traits cd = TopoTraits 1 1 0x2 0 0 ∧ segments r' = (fun s => with_view_lock s false) <$> segments degraded_raid.
Proof.
  destruct (traits_describe_raid (fun _ => true) degraded_raid degraded_raid_wf) as (cd & r' & seg0 & H1 & H2 & H3 & H4).
  exists cd, r', seg0. split; [done|]. split; [done|]. split; [exact H3|]. injection H2 as <-. exact H4.
Defined.

(** ** Choosing the segment to read from *)
Lemma ffs_from_ok bm n : ∀ fuel i, Z.testbit bm (i + Z.of_nat n) = true → (∀ k, i ≤ k < i + Z.of_nat n → Z.testbit bm k = false) →
  (n < fuel)%nat → ffs_from fuel i bm = Ok (i + Z.of_nat n).
Proof.
  induction n as [|n IH]; intros [|fuel] i Ht Hlow Hf; try lia; cbn [ffs_from].
  - rewrite Z.add_0_r in *. by rewrite Ht.
  - rewrite Hlow by lia. replace (i + Z.of_nat (S n)) with (i + 1 + Z.of_nat n) in * by lia.
    apply IH; [done| |lia]. intros k Hk. apply Hlow. lia.
Qed.

(** The segment of a role, in the list that starts at the slice. *)
Lemma role_segment r d k : wf_raid1 r → 0 ≤ d < replicas r → 0 ≤ k < replicas r →
  zget (segments r) (nvmeibc_raid1_role2seg r d k) = aget (rotate (Z.to_nat d) (segments r)) (Z.to_nat k).
Proof.
  intros Hr Hd Hk. destruct (replicas_bounds r Hr) as (Hsl & H12 & Hlen).
  unfold zget, nvmeibc_raid1_role2seg. pose proof (Z.mod_pos_bound (d + k) (replicas r)).
  rewrite (proj2 (Z.ltb_ge _ _)) by lia. unfold aget. rewrite lookup_rotate_r by lia. unfold rotate_nat_add.
  replace (Z.of_nat (Z.to_nat d) + Z.of_nat (Z.to_nat k)) with (d + k) by lia. by rewrite Hlen, Z2Nat.id by lia.
Qed.

Lemma rotate_first f d (l : list disk_segment) : Exists (fun s => f s = true) l →
  ∃ i s, rotate d l !! i = Some s ∧ f s = true ∧ ∀ j s', (j < i)%nat → rotate d l !! j = Some s' → f s' = false.
Proof.
  intros (s & Hs & Hf)%Exists_exists. assert (s ∈ rotate d l) as Hs'.
  { unfold rotate. apply elem_of_app. rewrite <-(take_drop (d mod length l) l), elem_of_app in Hs. tauto. }
  destruct (list_find_elem_of (fun s => f s = true) _ _ Hs' Hf) as [[i x] (Hi & Hx & Hlow)%list_find_Some].
  exists i, x. split; [done|]. split; [done|]. intros j s' Hj Hl. apply not_true_iff_false. by apply (Hlow j).
Qed.

(** When the raid has more segments than lock owners, a read goes to a segment that can
    be read: the first one from the start of the slice. *)
Theorem read_owner_readable is_access_local r cd r' rlba (Hr : wf_raid1 r) (Hrl : 0 ≤ rlba)
    (Hfill : nvmeibc_raid1_fill_calculated_data is_access_local r = Ok (cd, r'))
    (Hown : max_n_owners (lock_scheme r) < replicas r)
    (Hex : Exists (fun s => is_readable s = true) (segments r)) :
  ∃ role seg, get_owner_seg_of_read r cd rlba = Ok (nvmeibc_raid1_role2seg r (get_owner_seg_slice_start r rlba) role) ∧
    0 ≤ role < replicas r ∧
    zget (segments r) (nvmeibc_raid1_role2seg r (get_owner_seg_slice_start r rlba) role) = Ok seg ∧ is_readable seg = true ∧
    ∀ k seg', 0 ≤ k < role →
      zget (segments r) (nvmeibc_raid1_role2seg r (get_owner_seg_slice_start r rlba) k) = Ok seg' → is_readable seg' = false.
Proof.
  destruct (fill_run is_access_local r Hr) as (cd' & r'' & seg0 & E & _ & Hroles & _). rewrite Hfill in E. injection E as <- <-.
  destruct (replicas_bounds r Hr) as (Hsl & H12 & Hlen). set (d := get_owner_seg_slice_start r rlba).
  assert (0 ≤ d < replicas r) as Hd by (apply Z.mod_pos_bound; lia).
  destruct (roles_at_match is_access_local r Hr d Hd) as [(_ & _ & _ & _ & Hrd & _) _ _].
  destruct (rotate_first is_readable (Z.to_nat d) _ Hex) as (i & s & Hi & Hs & Hlow).
  assert (i < Z.to_nat (replicas r))%nat as Hir by (apply lookup_lt_Some in Hi; by rewrite length_rotate, Hlen in Hi).
  exists (Z.of_nat i), s. rewrite role_segment, Nat2Z.id by (done || lia). split; [|split; [lia|split; [by apply aget_ok|split; [done|]]]].
  - unfold get_owner_seg_of_read. rewrite (proj2 (Z.leb_gt _ _)) by done. fold d.
    rewrite (zget_ok _ d _ ltac:(lia) (Hroles d Hd)). rstep. rewrite Hrd, (ffs_from_ok _ i 16 0); [done| | |lia].
    + by rewrite seg_bmp_testbit, Z.add_0_l, Nat2Z.id, Hi by lia.
    + intros k Hk. rewrite seg_bmp_testbit by lia. destruct (_ !! Z.to_nat k) as [s'|] eqn:Ek; [|done].
      apply (Hlow (Z.to_nat k)); [lia|done].
  - intros k s' Hk Hs'. rewrite role_segment in Hs' by (done || lia). apply aget_ok in Hs'.
    apply (Hlow (Z.to_nat k)); [lia|done].
Qed.

Lemma read_owner_readable_witness : ∃ cd r' role seg,
  nvmeibc_raid1_fill_calculated_data (fun _ => false) degraded_raid = Ok (cd, r') ∧
  get_owner_seg_of_read degraded_raid cd 130 = Ok (nvmeibc_raid1_role2seg degraded_raid 1 role) ∧
  zget (segments degraded_raid) (nvmeibc_raid1_role2seg degraded_raid 1 role) = Ok seg ∧ is_readable seg = true.
Proof.
  destruct (nvmeibc_raid1_fill_calculated_data (fun _ => false) degraded_raid) as [[cd r']|] eqn:E; [|vm_compute in E; congruence].
  destruct (read_owner_readable (fun _ => false) degraded_raid cd r' 130 degraded_raid_wf) as (role & seg & H1 & _ & H2 & H3 & _);
    [lia|done|done|by repeat constructor|]. by exists cd, r', role, seg.
Defined.

(** ** Convicts *)

(** Marking the segments whose dirty bits cannot be trusted, from the derived data of the
    raid, adds exactly the segments in mode W- to the dirty segments and to the
    convicts of a blockset marker. *)
Theorem convicts_marked is_access_local r cd r' on conv unk (Hr : wf_raid1 r)
    (Hfill : nvmeibc_raid1_fill_calculated_data is_access_local r = Ok (cd, r'))
    (Hl : legal on conv unk) (Hn : n_unreadable r ≤ 2)
    (Hw : hweight 12 (Z.lor on (seg_bmp is_wm (segments r))) ≤ 2) :
  let wm := seg_bmp is_wm (segments r) in
  ∃ e', nvmeibc_dbits_turn_on_convict (encode on conv unk) (cd_traits cd) = Ok e' ∧
    nvmeibc_dbits_action_init_by_entry e' (n_unreadable r) =
    Ok (known (Z.lor on wm) (Z.lor conv wm) (cap (n_unreadable r) (Z.lor on wm) unk) (n_unreadable r)).
Proof.
  intros wm. destruct (fill_run is_access_local r Hr) as (cd' & r'' & seg0 & E & _ & _ & Ht & _).
  rewrite Hfill in E. injection E as <- <-. destruct (replicas_bounds r Hr) as (Hsl & H12 & Hlen).
  assert (0 ≤ wm < 2 ^ 12) as Hwm.
  { pose proof (seg_bmp_range is_wm (segments r)). rewrite Hlen, Z2Nat.id in * by lia.
    assert (2 ^ replicas r ≤ 2 ^ 12) by (apply Z.pow_le_mono_r; lia). subst wm. lia. }
  assert (0 ≤ n_unreadable r) by (unfold n_unreadable; lia).
  destruct (tx_apply_run (cd_traits cd) on conv unk 0 0 wm Hl) as (a & e' & H1 & H2 & H3);
    [rewrite Ht; cbn; lia|lia|lia|done|by rewrite Z.lor_0_l, Z.ldiff_0_r|].
  rewrite Ht in H3. cbn [n_degraded] in H3. rewrite Z.lor_0_l, Z.lor_0_r, Z.ldiff_0_r in H3. exists e'. split.
  - unfold nvmeibc_dbits_turn_on_convict. replace (traits_wm (cd_traits cd)) with wm by (rewrite Ht; done).
    rewrite H1. rstep. done.
  - rewrite H3. do 2 f_equal. destruct Hl as [_ Hc _ _]. rewrite <-Hc at 2. apply Z.bits_inj'. intros i Hi.
    rewrite !Z.land_spec, !Z.lor_spec, Z.land_spec. destruct (Z.testbit conv i) eqn:E; [|by destruct (Z.testbit wm i), (Z.testbit on i)].
    assert (Z.testbit (Z.land conv on) i = true) as E' by (by rewrite Hc). rewrite Z.land_spec, E in E'. cbn in E'. by rewrite E'.
Qed.

(** The third segment of a two-parity raid has just been replaced. *)
Definition replaced_raid : raid1 :=
  let s := sample_segment in
  Raid1 4 2 [s "a" 0; s "b" 256; Segment "c" 4096 128 (lmap (s "c" 4096)) LOCK_MOVING_NO true DS_MODE_W_IS_DIRTY; s "d" 8192]
    (LocksScheme OWNER_SCHEME_SL_START_DEC_C 3 6) true.

Lemma convicts_marked_witness : ∃ cd r' e', nvmeibc_raid1_fill_calculated_data (fun _ => false) replaced_raid = Ok (cd, r') ∧
  nvmeibc_dbits_turn_on_convict (encode 0x1 0 0) (cd_traits cd) = Ok e'.
Proof.
  destruct (nvmeibc_raid1_fill_calculated_data (fun _ => false) replaced_raid) as [[cd r']|] eqn:E; [|vm_compute in E; congruence].
  destruct (convicts_marked (fun _ => false) replaced_raid cd r' 0x1 0 0) as (e' & H & _);
    [split; [done|done|done|repeat constructor; vm_compute; congruence]|done|split; vm_compute; intuition congruence|
     vm_compute; congruence|vm_compute; congruence|]. by exists cd, r', e'.
Defined.

(** ** Wide rotations

    The rotations double the bitmap in 32 bits, so above sixteen segments the upper
    copy is cut off; raids have at most twelve. *)
Lemma ror_wide_loses_bits : ror32_width (Z.shiftl 1 15) 16 17 = 0 ∧ 15 < 17.
Proof. done. Qed.
