(* ===== verification/LockServer.v ===== *)
(** * The lock server of the client

    Which segments of a protection raid hold the locks of a blockset: the maps the
    cluster manager (Toma) sends, their validation, their maintenance when the raid
    gains or loses a mirror (nvmeibc_block_dp_lock_server.c), and the array of locks
    an I/O asks for (nvmeibc_block_dp_io_req_rel_locks.c). *)
From stdpp Require Import base list numbers strings.
From Stdlib Require Import ZArith Lia.
From S2P Require Import Prelude CMemory BitFields DirtyBits BlockMd Topology TopoIter AddrMap Roles.
Local Open Scope Z_scope.

(** ** Ownership maps *)
Definition lock_ownership_map_poison : lock_ownership_map :=
  Lmap (replicate N_MAX_RAID_LOCKS OWNER_MODE_INVALID) (replicate N_MAX_RAID_LOCKS 0) 0.

Definition is_my_owner_lock (lm : lock_ownership_map) (si : Z) : res bool :=
  s0 ← aget (lm_si lm) 0;
  if s0 =? si then Ok true else
  s1 ← aget (lm_si lm) 1;
  if s1 =? si then t1 ← aget (lm_type lm) 1; Ok (bool_decide (t1 = OWNER_MODE_SECONDARY)) else Ok false.

Definition is_not_lockable (r1 : raid1) (si : Z) : bool :=
  bool_decide (ls_type (lock_scheme r1) = OWNER_SCHEME_FIRST_L_INC_A) && (max_n_owners (lock_scheme r1) <=? si).

Definition is_seg_dead (r1 : raid1) (i : Z) : res bool :=
  s ← zget (segments r1) i; Ok (bool_decide (toma_acm s = DS_MODE_DEAD)).

(** An owner as Toma names it: the uuid of the segment, empty when unused, and the mode. *)
Abbreviation toma_owner := (string * owner_mode)%type.

(** The first segment of the raid with the uuid; [None] when the loop runs off the raid. *)
Fixpoint find_uuid (u : string) (segs : list disk_segment) (si : Z) : option Z :=
  match segs with
  | [] => None
  | s :: segs' => if decide (uuid s = u) then Some si else find_uuid u segs' (si + 1)
  end.

(** The loop over the owners, from entry [l] on. *)
Fixpoint import_owners (r1 : raid1) (owners : list toma_owner) (l : nat) (lm : lock_ownership_map) : res lock_ownership_map :=
  match owners with
  | [] => Ok lm
  | (u, mode) :: owners' =>
      if decide (u = EmptyString) then
        ty ← aset (lm_type lm) l OWNER_MODE_NO_OWNER;
        si ← aset (lm_si lm) l (-1);
        Ok (Lmap ty si (n_locks lm))
      else
        match find_uuid u (segments r1) 0 with
        | Some i =>
            ty ← aset (lm_type lm) l mode;
            si ← aset (lm_si lm) l i;
            import_owners r1 owners' (S l) (Lmap ty si (n_locks lm + 1))
        | None =>
            si ← aset (lm_si lm) l (-3);
            Ok (Lmap (lm_type lm) si (n_locks lm + 1))
        end
  end.

Definition import_seg_map_from_toma (r1 : raid1) (my_si : Z) (owners : list toma_owner) : res lock_ownership_map :=
  lm ← import_owners r1 (take N_MAX_RAID_LOCKS owners) 0 lock_ownership_map_poison;
  if is_not_lockable r1 my_si then
    dead ← is_seg_dead r1 my_si;
    if (n_locks lm =? 0) && negb dead then
      ty ← aset (lm_type lm) 0 OWNER_MODE_PRIMARY;
      si ← aset (lm_si lm) 0 my_si;
      Ok (Lmap ty si 1)
    else Ok lm
  else Ok lm.

(** [check_all n f]: do the checks [f 0 .. f (n-1)] pass; the first failure ends them. *)
Fixpoint check_from (i n : nat) (f : nat → res bool) : res bool :=
  match n with
  | O => Ok true
  | S n' => b ← f i; if (b : bool) then check_from (S i) n' f else Ok false
  end.

(** One round of the loop over the locks of a map. *)
Definition lock_entry_ok (r1 : raid1) (lm : lock_ownership_map) (l : nat) : res bool :=
  si ← aget (lm_si lm) l;
  if (si <? 0) || (replicas r1 <=? si) then Ok false else
  dead ← is_seg_dead r1 si;
  if (dead : bool) then Ok false else
  if (1 <? l)%nat then t ← aget (lm_type lm) l; Ok (bool_decide (t = OWNER_MODE_COPY_OWNER)) else Ok true.

(** The dual lock: a second owner is a copy, or the secondary owner on a recovered segment. *)
Definition dual_lock_ok (r1 : raid1) (lm : lock_ownership_map) : res bool :=
  if 1 <? n_locks lm then
    t1 ← aget (lm_type lm) 1;
    if decide (t1 = OWNER_MODE_SECONDARY) then
      s1 ← aget (lm_si lm) 1;
      seg1 ← zget (segments r1) s1;
      Ok (bool_decide (toma_acm seg1 = DS_MODE_W_NO_DIRTY))
    else Ok (bool_decide (t1 = OWNER_MODE_COPY_OWNER))
  else Ok true.

(** Does a map pass the checks; [false] is the jump to [_err]. *)
Definition lock_ownership_map_valid (r1 : raid1) (lm : lock_ownership_map) : res bool :=
  if n_locks lm <? 1 then Ok false else
  t0 ← aget (lm_type lm) 0;
  if decide (t0 ≠ OWNER_MODE_PRIMARY) then Ok false else
  s0 ← aget (lm_si lm) 0;
  seg0 ← zget (segments r1) s0;
  if decide (toma_acm seg0 ≠ DS_MODE_RW) then Ok false else
  if replicas r1 <? n_locks lm then Ok false else
  ok ← check_from 0 (Z.to_nat (n_locks lm)) (lock_entry_ok r1 lm);
  if negb ok then Ok false else
  dual ← dual_lock_ok r1 lm;
  if negb dual then Ok false else
  Ok (n_locks lm <=? max_n_owners (lock_scheme r1)).

Definition lock_ownership_map_assert_valid (r1 : raid1) (lm : lock_ownership_map) : res lock_ownership_map :=
  ok ← lock_ownership_map_valid r1 lm;
  if (ok : bool) then Ok lm else
  si ← aset (lm_si lm) 0 (-13);
  Ok (Lmap (lm_type lm) si (n_locks lm)).

Definition with_lmap (s : disk_segment) (lm : lock_ownership_map) : disk_segment :=
  Segment (uuid s) (first_lba s) (seg_length s) lm (sync_safety s) (is_safe_for_view_lock s) (toma_acm s).

Definition with_segments (r1 : raid1) (segs : list disk_segment) : raid1 :=
  Raid1 (replicas r1) (slice_size r1) segs (lock_scheme r1) (use_rdma_locks r1).

Definition zset {A} (l : list A) (i : Z) (x : A) : res (list A) :=
  if i <? 0 then Fault OOB else aset l (Z.to_nat i) x.

Definition lock_ownership_update_seg_map (r1 : raid1) (my_si : Z) (owners : list toma_owner) : res raid1 :=
  seg ← zget (segments r1) my_si;
  lm ← import_seg_map_from_toma r1 my_si owners;
  if decide (ls_type (lock_scheme r1) ≠ OWNER_SCHEME_SL_START_DEC_C) then Fault BUG else
  lm' ← lock_ownership_map_assert_valid r1 lm;
  segs ← zset (segments r1) my_si (with_lmap seg lm');
  Ok (with_segments r1 segs).

(** ** A mirror leaves or joins the raid *)
Inductive raid_action : Set := RAID_DOWNGRADE | RAID_UPGRADE.

Definition shift_si (action : raid_action) (si x : Z) : Z :=
  match action with
  | RAID_DOWNGRADE => if si <? x then x - 1 else x
  | RAID_UPGRADE => if si <=? x then x + 1 else x
  end.

Definition shift_map (action : raid_action) (si : Z) (lm : lock_ownership_map) : res lock_ownership_map :=
  l ← for_up (Z.to_nat (n_locks lm)) (fun l sis => x ← aget sis l; aset sis l (shift_si action si x)) (lm_si lm);
  Ok (Lmap (lm_type lm) l (n_locks lm)).

Definition lock_ownership_update_raid_map (r1 : raid1) (si : Z) (action : raid_action) : res raid1 :=
  dead ← (match action with RAID_UPGRADE => is_seg_dead r1 si | RAID_DOWNGRADE => Ok true end);
  if negb dead then Fault BUG else
  segs ← for_up (Z.to_nat (replicas r1)) (fun i segs =>
    seg ← aget segs i;
    mine ← (match action with
            | RAID_DOWNGRADE => if Z.of_nat i =? si then Ok false else is_my_owner_lock (lmap seg) si
            | RAID_UPGRADE => Ok false
            end);
    if (mine : bool) then Fault BUG else
    lm ← shift_map action si (lmap seg);
    aset segs i (with_lmap seg lm)) (segments r1);
  Ok (with_segments r1 segs).

(** ** The locks of an I/O *)
Inductive block_op : Set := IO_OP_READ | IO_OP_WRITE | IO_OP_DISCARD | IO_OP_OTHER.
#[export] Instance block_op_eq_dec : EqDecision block_op.
Proof. solve_decision. Defined.

Definition lock_ownership_build_raid_map (r1 : raid1) (rlba : Z) (op : block_op) (raid_l : lock_ownership_map) :
    res lock_ownership_map :=
  if negb (use_rdma_locks r1) then Ok (Lmap (lm_type raid_l) (lm_si raid_l) 0)
  else
    seg ← zget (segments r1) (find_initial_owner_seg (rlba / slice_size r1) r1);
    seg0 ← aget (segments r1) 0;
    let lm := lmap seg in
    if nvmeibc_should_use_view_lock (bool_decide (op = IO_OP_READ)) seg0 then Ok (Lmap (lm_type lm) (lm_si lm) 1) else Ok lm.

Inductive rdma_intent : Set := CMD_LOCK_UNLOCK | CMD_LOCK_OWNER | CMD_PREDISCARD | CMD_LOCK_COPY_OWNER.
Inductive lock_status : Set := NCL_STATUS_INVALID | NCL_STATUS_NOTISSUED.

(** A lock request; its segment is named by chunk, raid and index.  The counters of
    the first lock of the array serve the whole array. *)
Record cmd_lock : Type := CmdLock {
  lk_nlocks : Z; lk_address : Z; lk_ds : option (Z * Z * Z); lk_type : rdma_intent; lk_status : lock_status;
  lk_owner_idx : Z; lk_n_siblings : Z; lk_secondary_id : Z; lk_pending : Z; lk_prediscards : Z
}.
Definition zero_lock : cmd_lock := CmdLock 0 0 None CMD_LOCK_UNLOCK NCL_STATUS_INVALID 0 0 0 0 0.

Definition lock_header (l : cmd_lock) (owner_i n_sib : Z) (ds : Z * Z * Z) (addr : Z) : cmd_lock :=
  CmdLock (lk_nlocks l) addr (Some ds) (lk_type l) (lk_status l) owner_i n_sib (lk_secondary_id l) (lk_pending l) (lk_prediscards l).
Definition lock_kind (l : cmd_lock) (ty : rdma_intent) (st : lock_status) : cmd_lock :=
  CmdLock (lk_nlocks l) (lk_address l) (lk_ds l) ty st (lk_owner_idx l) (lk_n_siblings l) (lk_secondary_id l) (lk_pending l) (lk_prediscards l).
Definition lock_secondary (l : cmd_lock) (id : Z) : cmd_lock :=
  CmdLock (lk_nlocks l) (lk_address l) (lk_ds l) (lk_type l) (lk_status l) (lk_owner_idx l) (lk_n_siblings l) id (lk_pending l) (lk_prediscards l).
Definition lock_pending (l : cmd_lock) (n : Z) : cmd_lock :=
  CmdLock (lk_nlocks l) (lk_address l) (lk_ds l) (lk_type l) (lk_status l) (lk_owner_idx l) (lk_n_siblings l) (lk_secondary_id l) n (lk_prediscards l).
Definition lock_prediscards (l : cmd_lock) (n : Z) : cmd_lock :=
  CmdLock (lk_nlocks l) (lk_address l) (lk_ds l) (lk_type l) (lk_status l) (lk_owner_idx l) (lk_n_siblings l) (lk_secondary_id l) (lk_pending l) n.
Definition lock_nlocks (l : cmd_lock) (n : Z) : cmd_lock :=
  CmdLock n (lk_address l) (lk_ds l) (lk_type l) (lk_status l) (lk_owner_idx l) (lk_n_siblings l) (lk_secondary_id l) (lk_pending l) (lk_prediscards l).

(** [locksets[i] = f(locksets[i])]. *)
Definition amod {A} (l : list A) (i : nat) (f : A → A) : res (list A) := x ← aget l i; aset l i (f x).

(** Lock [li] of the blockset of [rlba], at place [owner_i + li] of the array. *)
Definition add_lock (cr : Z * Z) (r1 : raid1) (op : block_op) (rlba : Z) (rlmap : lock_ownership_map) (owner_i : nat)
    (li : nat) (locksets : list cmd_lock) : res (list cmd_lock) :=
  si ← aget (lm_si rlmap) li;
  let my_ind := (owner_i + li)%nat in
  dlba ← dp_io_topo_iterator_conv_rlba_to_phys_lock_addr r1 si rlba;
  locksets ← amod locksets my_ind (fun l => lock_header l (Z.of_nat owner_i) (n_locks rlmap) (cr.1, cr.2, si) dlba);
  ty ← aget (lm_type rlmap) li;
  match ty with
  | OWNER_MODE_SECONDARY =>
      locksets ← amod locksets my_ind (fun l => lock_kind l CMD_LOCK_OWNER NCL_STATUS_NOTISSUED);
      amod locksets owner_i (fun l => lock_secondary l (Z.of_nat my_ind + 1))
  | OWNER_MODE_COPY_OWNER =>
      locksets ← amod locksets my_ind (fun l => lock_kind l CMD_LOCK_COPY_OWNER NCL_STATUS_NOTISSUED);
      amod locksets owner_i (fun l => lock_secondary l (-1))
  | OWNER_MODE_PRIMARY =>
      locksets ← amod locksets my_ind (fun l =>
        lock_pending (lock_kind l CMD_LOCK_OWNER (if n_locks rlmap =? 0 then NCL_STATUS_INVALID else NCL_STATUS_NOTISSUED))
          (lk_n_siblings l));
      if decide (op = IO_OP_DISCARD) then
        locksets ← amod locksets my_ind (fun l => lock_kind l CMD_PREDISCARD (lk_status l));
        amod locksets 0 (fun l => lock_prediscards l (lk_prediscards l + 1))
      else Ok locksets
  | _ => Fault BUG
  end.

(** [raid_l0] is the uninitialised map on the stack. *)
Definition add_locks_for_raid (raid_l0 : lock_ownership_map) (cr : Z * Z) (r1 : raid1) (op : block_op) (rlba : Z)
    (locksets : list cmd_lock) (owner_i : nat) : res (nat * list cmd_lock) :=
  rlmap ← lock_ownership_build_raid_map r1 rlba op raid_l0;
  locksets ← for_up (Z.to_nat (n_locks rlmap)) (add_lock cr r1 op rlba rlmap owner_i) locksets;
  Ok (Z.to_nat (n_locks rlmap), locksets).

Definition dp_fill_locks_for_io (raid_l0 : lock_ownership_map) (op : block_op) (nlbas vlba c_i : Z) (t : topology)
    (locksets : list cmd_lock) (locksets_len : Z) : res (Z * list cmd_lock) :=
  if locksets_len <=? 0 then Ok (locksets_len, locksets) else
  l0 ← aget locksets 0;
  if negb (lk_nlocks l0 =? 0) then Fault BUG else
  st ← iter_while (S (Z.to_nat nlbas)) t (dp_io_topo_iterator_init vlba nlbas c_i) BY_LOCK
    (fun p (st : nat * list cmd_lock) =>
       match res_r p with
       | None => Fault NULL_DEREF
       | Some cr =>
           r ← get_raid t cr.1 cr.2;
           a ← add_locks_for_raid raid_l0 cr r op (res_rlba p) st.2 st.1;
           Ok (p, ((st.1 + a.1)%nat, a.2))
       end) (0%nat, locksets);
  locksets ← amod st.2 0 (fun l => lock_nlocks l (Z.of_nat st.1));
  Ok (Z.of_nat st.1, locksets).

(** ** Dirty bits of an erasure coded write *)
Definition nvmeibc_calc_db_on_parities_segs (cd : calculated_data) (slice_start : Z) : res Z :=
  b ← zget (cd_roles cd) slice_start;
  b0 ← zget (cd_roles cd) 0;
  Ok (Z.land (rb_pari_sgmnts b) (rb_dbits_on_mask b0)).

Definition nvmeibc_calc_db_on_parities_roles (cd : calculated_data) (slice_start : Z) : res Z :=
  b ← zget (cd_roles cd) slice_start;
  Ok (Z.land (rb_pari b) (rb_dbits_on_mask b)).

Definition dp_ec_can_fix_dbits (cd : calculated_data) (dbits_pre : entry) : res bool :=
  b0 ← zget (cd_roles cd) 0;
  let db_turn_off := rb_dbits_off_mask b0 in
  let ind := nvmeibc_dbits_entry_get_ind dbits_pre in
  let fixable i := negb (i =? 0) && negb (Z.land (Z.shiftl 1 (i - 1)) db_turn_off =? 0) in
  Ok (fixable ind.1 || fixable ind.2).

(** ** Maps from Toma *)

(** What the data path relies on: a primary owner that can be read and written, and
    live owners of the right kind after it. *)
Record valid_lmap (r : raid1) (lm : lock_ownership_map) : Prop := {
  vl_count : 1 ≤ n_locks lm ≤ replicas r ∧ n_locks lm ≤ max_n_owners (lock_scheme r);
  vl_primary : lm_type lm !! 0%nat = Some OWNER_MODE_PRIMARY;
  vl_owner : ∃ s0 seg, lm_si lm !! 0%nat = Some s0 ∧ zget (segments r) s0 = Ok seg ∧ toma_acm seg = DS_MODE_RW;
  vl_entries : ∀ l, (l < Z.to_nat (n_locks lm))%nat → ∃ si seg ty, lm_si lm !! l = Some si ∧ lm_type lm !! l = Some ty ∧
    0 ≤ si < replicas r ∧ zget (segments r) si = Ok seg ∧ toma_acm seg ≠ DS_MODE_DEAD ∧
    (l = 1%nat → ty = OWNER_MODE_COPY_OWNER ∨ ty = OWNER_MODE_SECONDARY ∧ toma_acm seg = DS_MODE_W_NO_DIRTY) ∧
    ((1 < l)%nat → ty = OWNER_MODE_COPY_OWNER)
}.

(** Shape of a map: the arrays have their size, and an entry with a mode has a segment. *)
Record sized_lmap (r : raid1) (lm : lock_ownership_map) : Prop := {
  sl_type : length (lm_type lm) = 4%nat;
  sl_si : length (lm_si lm) = 4%nat;
  sl_count : 0 ≤ n_locks lm ≤ 4;
  sl_primary : 1 ≤ n_locks lm → lm_type lm !! 0%nat = Some OWNER_MODE_PRIMARY →
    ∃ s0, lm_si lm !! 0%nat = Some s0 ∧ 0 ≤ s0 < replicas r
}.

Lemma find_uuid_range u segs i k : find_uuid u segs i = Some k → i ≤ k < i + Z.of_nat (length segs).
Proof.
  revert i. induction segs as [|s segs IH]; intros i Hf; simpl in Hf; [done|].
  case_decide; [injection Hf as <-; simpl; lia|]. apply IH in Hf. simpl. lia.
Qed.

Section maps.
Context (r : raid1) (Hr : wf_raid1 r).

Lemma import_owners_ok owners : ∀ l lm, sized_lmap r lm → n_locks lm = Z.of_nat l → (l + length owners ≤ 4)%nat →
  (l = 0%nat → lm = lock_ownership_map_poison) → ∃ lm', import_owners r owners l lm = Ok lm' ∧ sized_lmap r lm'.
Proof.
  destruct (replicas_bounds r Hr) as (Hsl & H12 & Hlen).
  induction owners as [|[u mode] owners IH]; intros l lm Hs Hn Hl H0; cbn [import_owners]; [by exists lm|].
  pose proof Hs as [Ht Hsi Hc Hp]. simpl in Hl.
  assert (∀ (v : owner_mode) (x : Z), aset (lm_type lm) l v = Ok (<[l:=v]> (lm_type lm)) ∧ aset (lm_si lm) l x = Ok (<[l:=x]> (lm_si lm))) as Hset.
  { intros v x. rewrite !aset_ok by lia. done. }
  case_decide as Hu.
  - destruct (Hset OWNER_MODE_NO_OWNER (-1)) as [-> ->]. rstep. eexists. split; [reflexivity|].
    split; cbn [lm_type lm_si n_locks]; rewrite ?length_insert; try done.
    intros H1 Hty. rewrite list_lookup_insert_ne in Hty by lia. rewrite list_lookup_insert_ne by lia. auto.
  - destruct (find_uuid u (segments r) 0) as [i|] eqn:Ef.
    + apply find_uuid_range in Ef. destruct (Hset mode i) as [-> ->]. rstep. apply IH; cbn [lm_type lm_si n_locks]; try lia.
      split; cbn [lm_type lm_si n_locks]; rewrite ?length_insert; try (done || lia). intros _ Hty.
      destruct l as [|l].
      * exists i. rewrite list_lookup_insert_eq by lia. split; [done|lia].
      * rewrite list_lookup_insert_ne in Hty by lia. rewrite list_lookup_insert_ne by lia. apply Hp; [lia|done].
    + destruct (Hset mode (-3)) as [_ ->]. rstep. eexists. split; [reflexivity|].
      split; cbn [lm_type lm_si n_locks]; rewrite ?length_insert; try (done || lia). intros _ Hty.
      destruct l as [|l]; [by rewrite (H0 eq_refl) in Hty|]. rewrite list_lookup_insert_ne by lia. apply Hp; [lia|done].
Qed.

Lemma poison_sized : sized_lmap r lock_ownership_map_poison.
Proof. split; done. Qed.

Lemma import_ok my_si owners : 0 ≤ my_si < replicas r → ls_type (lock_scheme r) = OWNER_SCHEME_SL_START_DEC_C →
  ∃ lm, import_seg_map_from_toma r my_si owners = Ok lm ∧ sized_lmap r lm.
Proof.
  intros Hsi Hls. unfold import_seg_map_from_toma.
  destruct (import_owners_ok (take N_MAX_RAID_LOCKS owners) 0 _ poison_sized) as (lm & -> & Hs); [done| |done|].
  { rewrite length_take. unfold N_MAX_RAID_LOCKS. lia. }
  rstep. unfold is_not_lockable. rewrite Hls, bool_decide_eq_false_2 by done. by exists lm.
Qed.

Lemma check_from_ok (f : nat → res bool) (P : nat → Prop) n : ∀ i,
  (∀ k, (i ≤ k < i + n)%nat → ∃ b, f k = Ok b ∧ (b = true ↔ P k)) →
  ∃ b, check_from i n f = Ok b ∧ (b = true ↔ ∀ k, (i ≤ k < i + n)%nat → P k).
Proof.
  induction n as [|n IH]; intros i Hf; cbn [check_from].
  { exists true. split; [done|]. split; [intros _ k; lia|done]. }
  destruct (Hf i) as (b & -> & Hb); [lia|]. rstep. destruct b.
  - destruct (IH (S i)) as (b & -> & Hb'); [intros k Hk; apply Hf; lia|]. exists b. split; [done|]. rewrite Hb'.
    split; intros H k Hk; [|apply H; lia]. destruct (decide (k = i)) as [->|]; [by apply Hb|apply H; lia].
  - exists false. split; [done|]. split; [done|]. intros H. apply Hb, H. lia.
Qed.

(** One entry of a map, as the loop checks it. *)
Definition entry_ok (lm : lock_ownership_map) (l : nat) : Prop :=
  ∃ si seg ty, lm_si lm !! l = Some si ∧ lm_type lm !! l = Some ty ∧ 0 ≤ si < replicas r ∧
    zget (segments r) si = Ok seg ∧ toma_acm seg ≠ DS_MODE_DEAD ∧ ((1 < l)%nat → ty = OWNER_MODE_COPY_OWNER).

Lemma segment_get si : 0 ≤ si < replicas r → ∃ seg, zget (segments r) si = Ok seg.
Proof.
  intros Hsi. destruct (replicas_bounds r Hr) as (_ & _ & Hlen).
  destruct (zget_is_Some (segments r) si) as (seg & _ & E); [lia|]. by exists seg.
Qed.

Lemma lock_entry_run lm l : sized_lmap r lm → (l < 4)%nat → ∃ b, lock_entry_ok r lm l = Ok b ∧ (b = true ↔ entry_ok lm l).
Proof.
  intros [Ht Hs _ _] Hl. unfold lock_entry_ok, entry_ok.
  destruct (lookup_lt_is_Some_2 (lm_si lm) l) as [si Esi]; [lia|].
  destruct (lookup_lt_is_Some_2 (lm_type lm) l) as [ty Ety]; [lia|].
  rewrite (proj2 (aget_ok _ _ _) Esi). rstep.
  destruct (Z.ltb_spec si 0) as [Hn|Hn], (Z.leb_spec (replicas r) si) as [Hm|Hm]; cbn [orb];
    try (exists false; split; [done|]; split; [done|]; intros (si' & ? & ? & ? & ? & ? & ?); simplify_eq; lia).
  destruct (segment_get si) as [seg Eseg]; [lia|]. unfold is_seg_dead. rewrite Eseg. rstep.
  destruct (decide (toma_acm seg = DS_MODE_DEAD)) as [Hd|Hd].
  { rewrite bool_decide_eq_true_2 by done. exists false. split; [done|]. split; [done|].
    intros (si' & seg' & ? & ? & ? & ? & ? & ? & ?). simplify_eq. congruence. }
  rewrite bool_decide_eq_false_2 by done. destruct (Nat.ltb_spec 1 l) as [H1|H1].
  - rewrite (proj2 (aget_ok _ _ _) Ety). rstep. eexists. split; [reflexivity|]. rewrite bool_decide_eq_true. split.
    + intros ->. by exists si, seg, OWNER_MODE_COPY_OWNER.
    + intros (? & ? & ty' & ? & ? & ? & ? & ? & Hc). simplify_eq. by apply Hc.
  - exists true. split; [done|]. split; [intros _|done]. exists si, seg, ty. split_and!; (done || lia).
Qed.

(** The dual lock check. *)
Definition dual_ok (lm : lock_ownership_map) : Prop :=
  1 < n_locks lm → ∃ si seg ty, lm_si lm !! 1%nat = Some si ∧ lm_type lm !! 1%nat = Some ty ∧ zget (segments r) si = Ok seg ∧
    (ty = OWNER_MODE_COPY_OWNER ∨ ty = OWNER_MODE_SECONDARY ∧ toma_acm seg = DS_MODE_W_NO_DIRTY).

Lemma valid_lmap_iff lm : sized_lmap r lm → valid_lmap r lm ↔
  (1 ≤ n_locks lm ≤ replicas r ∧ n_locks lm ≤ max_n_owners (lock_scheme r)) ∧
  lm_type lm !! 0%nat = Some OWNER_MODE_PRIMARY ∧
  (∃ s0 seg, lm_si lm !! 0%nat = Some s0 ∧ zget (segments r) s0 = Ok seg ∧ toma_acm seg = DS_MODE_RW) ∧
  (∀ l, (l < Z.to_nat (n_locks lm))%nat → entry_ok lm l) ∧ dual_ok lm.
Proof.
  intros Hs. split.
  - intros [H1 H2 H3 H4]. do 3 (split; [done|]). split.
    + intros l Hl. destruct (H4 l Hl) as (si & seg & ty & ? & ? & ? & ? & ? & _ & ?). by exists si, seg, ty.
    + intros Hn. destruct (H4 1%nat) as (si & seg & ty & ? & ? & ? & ? & ? & Hd & _); [lia|].
      exists si, seg, ty. auto.
  - intros (H1 & H2 & H3 & H4 & H5). split; [done..|]. intros l Hl.
    destruct (H4 l Hl) as (si & seg & ty & ? & ? & ? & ? & ? & ?). exists si, seg, ty. do 5 (split; [done|]). split; [|done].
    intros ->. destruct H5 as (si' & seg' & ty' & ? & ? & ? & ?); [lia|]. simplify_eq. assert (seg' = seg) as -> by congruence. done.
Qed.

Lemma dual_run lm : sized_lmap r lm → (1 < n_locks lm → entry_ok lm 1) →
  ∃ b, dual_lock_ok r lm = Ok b ∧ (b = true ↔ dual_ok lm).
Proof.
  intros Hs He. unfold dual_lock_ok, dual_ok. destruct (Z.ltb_spec 1 (n_locks lm)) as [H1|H1].
  2:{ exists true. split; [done|]. split; [lia|done]. }
  destruct (He H1) as (si & seg & ty & Esi & Ety & _ & Eseg & _). rewrite (proj2 (aget_ok _ _ _) Ety). rstep.
  case_decide as Hsec.
  - subst ty. rewrite (proj2 (aget_ok _ _ _) Esi). rstep. rewrite Eseg. rstep. eexists. split; [reflexivity|].
    rewrite bool_decide_eq_true. split.
    + intros Hw _. exists si, seg, OWNER_MODE_SECONDARY. do 3 (split; [done|]). by right.
    + intros H. destruct (H H1) as (? & ? & ? & ? & ? & ? & [?|[_ ?]]); simplify_eq; congruence.
  - eexists. split; [reflexivity|]. rewrite bool_decide_eq_true. split.
    + intros Hc _. exists si, seg, ty. do 3 (split; [done|]). by left.
    + intros H. destruct (H H1) as (? & ? & ? & ? & ? & ? & [?|[? ?]]); simplify_eq; done.
Qed.

(** The checks accept exactly the valid maps, and fault on none. *)
Lemma valid_run lm : sized_lmap r lm → ∃ b, lock_ownership_map_valid r lm = Ok b ∧ (b = true ↔ valid_lmap r lm).
Proof.
  intros Hs. pose proof Hs as [Ht Hsi Hc Hp]. setoid_rewrite (valid_lmap_iff lm Hs). unfold lock_ownership_map_valid.
  destruct (Z.ltb_spec (n_locks lm) 1); [exists false; split; [done|]; split; [done|]; lia|].
  destruct (lookup_lt_is_Some_2 (lm_type lm) 0) as [t0 Et0]; [lia|]. rewrite (proj2 (aget_ok _ _ _) Et0). rstep.
  case_decide as Hprim; [exists false; split; [done|]; split; [done|]; intros (_ & ? & _); simplify_eq|].
  subst t0. destruct (Hp ltac:(lia) Et0) as (s0 & Es0 & Hs0).
  rewrite (proj2 (aget_ok _ _ _) Es0). rstep. destruct (segment_get s0 Hs0) as [seg0 Eseg0]. rewrite Eseg0. rstep.
  case_decide as Hrw.
  { exists false. split; [done|]. split; [done|]. intros (_ & _ & (? & ? & ? & ? & ?) & _). simplify_eq. congruence. }
  destruct (Z.ltb_spec (replicas r) (n_locks lm)); [exists false; split; [done|]; split; [done|]; lia|].
  destruct (check_from_ok (lock_entry_ok r lm) (entry_ok lm) (Z.to_nat (n_locks lm)) 0) as (ok & -> & Hok).
  { intros k Hk. apply lock_entry_run; [done|lia]. }
  rstep. destruct ok; cbn [negb].
  2:{ exists false. split; [done|]. split; [done|]. intros (_ & _ & _ & He & _). apply Hok. intros k Hk. apply He. lia. }
  destruct (dual_run lm Hs) as (dual & -> & Hdual); [intros H1; apply (proj1 Hok eq_refl); lia|].
  rstep. destruct dual; cbn [negb].
  2:{ exists false. split; [done|]. split; [done|]. intros (_ & _ & _ & _ & He). by apply Hdual. }
  eexists. split; [reflexivity|]. rewrite Z.leb_le. split; [intros Hmax|intros ((_ & ?) & _); done].
  split; [lia|]. split; [done|]. split; [by exists s0, seg0|]. split; [|by apply Hdual].
  intros l Hl. apply (proj1 Hok eq_refl). lia.
Qed.
End maps.

Lemma zset_ok {A} (l : list A) i x : 0 ≤ i < Z.of_nat (length l) → zset l i x = Ok (<[Z.to_nat i := x]> l).
Proof. intros Hi. unfold zset. rewrite (proj2 (Z.ltb_ge _ _)) by lia. apply aset_ok. lia. Qed.

(** C28: whatever owners Toma names, updating the map of a segment never faults and changes
    nothing else; afterwards the map is valid, or its owner is the mark that
    disables I/O to the raid. *)
Theorem update_seg_map_ok r my_si owners (Hr : wf_raid1 r) (Hsi : 0 ≤ my_si < replicas r)
    (Hls : ls_type (lock_scheme r) = OWNER_SCHEME_SL_START_DEC_C) :
  ∃ seg lm, zget (segments r) my_si = Ok seg ∧
    lock_ownership_update_seg_map r my_si owners = Ok (with_segments r (<[Z.to_nat my_si := with_lmap seg lm]> (segments r))) ∧
    (valid_lmap r lm ∨ lm_si lm !! 0%nat = Some (-13)).
Proof.
  destruct (segment_get r Hr my_si Hsi) as [seg Eseg]. destruct (import_ok r Hr my_si owners Hsi Hls) as (lm & Elm & Hs).
  destruct (replicas_bounds r Hr) as (_ & _ & Hlen). unfold lock_ownership_update_seg_map. rewrite Eseg. rstep.
  rewrite Elm. rstep. rewrite decide_False by auto. unfold lock_ownership_map_assert_valid.
  destruct (valid_run r Hr lm Hs) as (ok & -> & Hok). rstep. destruct ok.
  - rstep. rewrite zset_ok by lia. rstep. exists seg, lm. split; [done|]. split; [done|]. left. by apply Hok.
  - destruct Hs as [_ Hl4 _ _]. rewrite aset_ok by lia. rstep. rewrite zset_ok by lia. rstep. eexists seg, _.
    split; [done|]. split; [reflexivity|]. right. cbn [lm_si]. by rewrite list_lookup_insert_eq by lia.
Qed.

Lemma update_seg_map_ok_witness : ∃ seg lm, zget (segments sample_raid) 1 = Ok seg ∧
  lock_ownership_update_seg_map sample_raid 1 [("b", OWNER_MODE_PRIMARY); ("a", OWNER_MODE_COPY_OWNER)] =
    Ok (with_segments sample_raid (<[1%nat := with_lmap seg lm]> (segments sample_raid))) ∧
  (valid_lmap sample_raid lm ∨ lm_si lm !! 0%nat = Some (-13)).
Proof. exact (update_seg_map_ok sample_raid 1 _ sample_raid_wf ltac:(done) eq_refl). Defined.

(** ** A mirror leaves or joins *)
Section shifts.
Context (r : raid1) (action : raid_action) (si : Z).

(** The first [n_locks] entries shifted. *)
Definition shifted (lm : lock_ownership_map) : lock_ownership_map :=
  Lmap (lm_type lm) ((shift_si action si <$> take (Z.to_nat (n_locks lm)) (lm_si lm)) ++ drop (Z.to_nat (n_locks lm)) (lm_si lm))
    (n_locks lm).

Lemma shift_map_ok lm : sized_lmap r lm → shift_map action si lm = Ok (shifted lm).
Proof. intros [_ Hl Hc _]. unfold shift_map. rewrite for_up_map by lia. done. Qed.

(** No segment but [si] itself names [si] as an owner. *)
Definition owner_clear : Prop := ∀ i seg, segments r !! i = Some seg → Z.of_nat i ≠ si → is_my_owner_lock (lmap seg) si = Ok false.

Lemma update_raid_map_run : wf_raid1 r → Forall (fun s => sized_lmap r (lmap s)) (segments r) →
  (match action with RAID_DOWNGRADE => owner_clear | RAID_UPGRADE => is_seg_dead r si = Ok true end) →
  lock_ownership_update_raid_map r si action =
  Ok (with_segments r ((fun s => with_lmap s (shifted (lmap s))) <$> segments r)).
Proof.
  intros Hr Hs Hact. destruct (replicas_bounds r Hr) as (_ & _ & Hlen). unfold lock_ownership_update_raid_map.
  assert ((match action with RAID_UPGRADE => is_seg_dead r si | RAID_DOWNGRADE => Ok true end) = Ok true) as -> by (by destruct action).
  rstep. cbn [negb]. rewrite (for_up_map_gen _ (fun s => with_lmap s (shifted (lmap s)))); [|lia|].
  - rstep. by rewrite <-Hlen, firstn_all, drop_all, app_nil_r.
  - intros k x l Hk Hx Hl. rewrite (proj2 (aget_ok _ _ _) Hl). rstep.
    assert ((match action with
            | RAID_DOWNGRADE => if Z.of_nat k =? si then Ok false else is_my_owner_lock (lmap x) si
            | RAID_UPGRADE => Ok false
            end) = Ok false) as ->.
    { destruct action; [|done]. destruct (Z.eqb_spec (Z.of_nat k) si); [done|]. by apply (Hact k x). }
    rstep. rewrite shift_map_ok by (by apply (Forall_lookup_1 _ _ _ _ Hs Hx)). done.
Qed.
End shifts.

(** Segments before and after the change of a raid whose array is [segs]: a removed
    segment is still in the array, a new one already. *)
Definition segs_before (action : raid_action) (si : Z) (segs : list disk_segment) : list disk_segment :=
  match action with RAID_DOWNGRADE => segs | RAID_UPGRADE => delete (Z.to_nat si) segs end.
Definition segs_after (action : raid_action) (si : Z) (segs : list disk_segment) : list disk_segment :=
  match action with RAID_DOWNGRADE => delete (Z.to_nat si) segs | RAID_UPGRADE => segs end.

Lemma shift_si_lookup action si x (segs : list disk_segment) : 0 ≤ si → 0 ≤ x → (action = RAID_DOWNGRADE → x ≠ si) →
  0 ≤ shift_si action si x ∧ segs_after action si segs !! Z.to_nat (shift_si action si x) = segs_before action si segs !! Z.to_nat x.
Proof.
  intros Hsi Hx Hne. destruct action; cbn [shift_si segs_after segs_before].
  - specialize (Hne eq_refl). destruct (Z.ltb_spec si x); (split; [lia|]).
    + rewrite list_lookup_delete_ge by lia. f_equal. lia.
    + by rewrite list_lookup_delete_lt by lia.
  - destruct (Z.leb_spec si x); (split; [lia|]).
    + rewrite list_lookup_delete_ge by lia. f_equal. lia.
    + by rewrite list_lookup_delete_lt by lia.
Qed.

(** When a mirror leaves or joins a raid, every lock of every map goes on naming the
    segment it named, at its index in the array without, or with, the mirror.
    The mirror leaves when no other segment names it as owner. *)
Theorem raid_map_follows_segments r action si (Hr : wf_raid1 r) (Hsi : 0 ≤ si < replicas r)
    (Hs : Forall (fun s => sized_lmap r (lmap s)) (segments r))
    (Hact : match action with RAID_DOWNGRADE => owner_clear r si | RAID_UPGRADE => is_seg_dead r si = Ok true end) :
  ∃ r', lock_ownership_update_raid_map r si action = Ok r' ∧
    ∀ i seg l x, segments r !! i = Some seg → (l < Z.to_nat (n_locks (lmap seg)))%nat → lm_si (lmap seg) !! l = Some x →
      0 ≤ x → (action = RAID_DOWNGRADE → x ≠ si) →
      ∃ lm' x', segments r' !! i = Some (with_lmap seg lm') ∧ lm_si lm' !! l = Some x' ∧ 0 ≤ x' ∧
        n_locks lm' = n_locks (lmap seg) ∧ lm_type lm' = lm_type (lmap seg) ∧
        segs_after action si (segments r) !! Z.to_nat x' = segs_before action si (segments r) !! Z.to_nat x.
Proof.
  rewrite (update_raid_map_run r action si) by done. eexists. split; [reflexivity|].
  intros i seg l x Hi Hl Hx Hx0 Hne. destruct (shift_si_lookup action si x (segments r)) as [H0 Hlook]; [lia|done..|].
  exists (shifted action si (lmap seg)), (shift_si action si x). cbn [with_segments segments].
  rewrite list_lookup_fmap, Hi. split; [done|]. split; [|done]. unfold shifted. cbn [lm_si].
  pose proof (lookup_lt_Some _ _ _ Hx). rewrite lookup_app_l by (rewrite length_fmap, length_take; lia).
  by rewrite list_lookup_fmap, lookup_take_lt, Hx by lia.
Qed.

(** A pair of mirrors whose first, which owns no lock, leaves. *)
Definition mirror_pair : raid1 :=
  let lm := Lmap [OWNER_MODE_PRIMARY; OWNER_MODE_INVALID; OWNER_MODE_INVALID; OWNER_MODE_INVALID] [1; 0; 0; 0] 1 in
  Raid1 2 1 [Segment "a" 0 128 lm LOCK_MOVING_NO true DS_MODE_W; Segment "b" 256 128 lm LOCK_MOVING_NO true DS_MODE_RW]
    (LocksScheme OWNER_SCHEME_SL_START_DEC_C 2 6) true.

Lemma raid_map_follows_segments_witness : ∃ r' lm' x', lock_ownership_update_raid_map mirror_pair 0 RAID_DOWNGRADE = Ok r' ∧
  segments r' !! 1%nat = Some (with_lmap (Segment "b" 256 128
    (Lmap [OWNER_MODE_PRIMARY; OWNER_MODE_INVALID; OWNER_MODE_INVALID; OWNER_MODE_INVALID] [1; 0; 0; 0] 1)
    LOCK_MOVING_NO true DS_MODE_RW) lm') ∧
  lm_si lm' !! 0%nat = Some x' ∧ delete 0%nat (segments mirror_pair) !! Z.to_nat x' = segments mirror_pair !! 1%nat.
Proof.
  destruct (raid_map_follows_segments mirror_pair RAID_DOWNGRADE 0) as (r' & E & H).
  - split; [done|done|done|]. repeat constructor; vm_compute; congruence.
  - done.
  - repeat constructor; try (vm_compute; congruence); intros _ _; exists 1; done.
  - intros [|[|i]] seg [= <-]; done.
  - destruct (H 1%nat _ 0%nat 1 eq_refl) as (lm' & x' & H1 & H2 & _ & _ & _ & H3); [cbn; lia|done|lia|lia|].
    exists r', lm', x'. done.
Defined.
