(* ===== verification/LockPlan.v ===== *)
(** The locks of an I/O.

    Models how many locks an I/O allocates (the lock count of
    [__prepare_alloc_counts_calc] of the erasure coded data path, and
    [__calc_alloc_counts_for_prepare_op] of the mirrored one, over the volume
    totals of [nvmeibc_topology_fill_all_topo_raids_calculated_data]) and proves of
    [dp_fill_locks_for_io] (LockServer.v) that these arrays are large enough and
    that every block of the I/O gets an owner lock of its blockset. *)
From stdpp Require Import base list numbers strings.
From Stdlib Require Import ZArith Lia.
From S2P Require Import Prelude CMemory BitFields DirtyBits Topology TopoIter AddrMap Roles LockServer.
Local Open Scope Z_scope.

(** ** Volume totals *)
Record topo_totals : Set := Totals { max_n_segs_in_praid : Z; is_safe_for_view_lock_all : bool }.

(** One round of the loop over the raids of all chunks. *)
Definition add_raid_totals (is_access_local : disk_segment → bool) (r1 : raid1) (a : list raid1 * topo_totals) :
    res (list raid1 * topo_totals) :=
  f ← nvmeibc_raid1_fill_calculated_data is_access_local r1;
  seg0 ← aget (segments f.2) 0;
  Ok (a.1 ++ [f.2],
      Totals (Z.max (max_n_segs_in_praid a.2) (replicas f.2)) (is_safe_for_view_lock_all a.2 && is_safe_for_view_lock seg0)).

Definition add_chunk_totals (is_access_local : disk_segment → bool) (c : chunk) (a : list chunk * topo_totals) :
    res (list chunk * topo_totals) :=
  rs ← fold_res (add_raid_totals is_access_local) (raid1s c) ([], a.2);
  Ok (a.1 ++ [Chunk (first_vlba c) (stripe_size c) rs.1], rs.2).

Definition nvmeibc_topology_fill_all_topo_raids_calculated_data (is_access_local : disk_segment → bool) (t : topology) :
    res (topology * topo_totals) :=
  a ← fold_res (add_chunk_totals is_access_local) (take (Z.to_nat (get_topo_num_chunks t)) (chunks t)) ([], Totals 0 true);
  Ok (Topology (nchunks t) (highest_pow2_in_chunk_ind t) (stripe_width t)
        (a.1 ++ drop (Z.to_nat (get_topo_num_chunks t)) (chunks t)), a.2).

(** ** How many locks *)

(** Locks of one piece of an I/O. *)
Definition piece_nlocks (raid_l0 : lock_ownership_map) (t : topology) (op : block_op) (p : iter_res) : res Z :=
  r ← raid_of t p;
  m ← lock_ownership_build_raid_map r (res_rlba p) op raid_l0;
  Ok (n_locks m).

(** The lock count of [__prepare_alloc_counts_calc]. *)
Definition prepare_nlocks (raid_l0 : lock_ownership_map) (op : block_op) (nlbas start_lba c_i : Z) (t : topology) : res Z :=
  iter_while (S (Z.to_nat nlbas)) t (dp_io_topo_iterator_init start_lba nlbas c_i) BY_LOCK
    (fun p nlocks => n ← piece_nlocks raid_l0 t op p; Ok (p, nlocks + n)) 0.

(** Mirrors: an upper bound from the size of the I/O. *)
Definition calc_max_locks_per_blockset (max_replicas : Z) (op : block_op) (t : topology) (tt : topo_totals) : res Z :=
  first_pr ← get_raid t 0 0;
  if negb (use_rdma_locks first_pr) then Ok 0
  else if bool_decide (op = IO_OP_READ) && is_safe_for_view_lock_all tt then Ok 1
  else Ok (Z.min max_replicas (max_n_owners (lock_scheme first_pr))).

Record alloc_counts : Set := AllocCounts { max_locks : Z; max_cmds : Z; max_trim_split_cmds : Z }.

Definition calc_alloc_counts_for_prepare_op (op : block_op) (nlbas : Z) (t : topology)
    (tt : topo_totals) (is_trim_continous : bool) : res alloc_counts :=
  let max_replicas := max_n_segs_in_praid tt in
  let max_blocksets := s32 (if nlbas =? 1 then 1 else u64 (nlbas / LOCKSET_SLICES + 2)) in
  per_blockset ← calc_max_locks_per_blockset max_replicas op t tt;
  let pmax_locks := s32 (per_blockset * max_blocksets) in
  let max_mirrored_cmds := s32 (max_replicas * max_blocksets) in
  if decide (op = IO_OP_DISCARD) then
    let max_merged_cmds := s32 (stripe_width t * max_replicas * get_topo_num_chunks t + 1) in
    Ok (AllocCounts pmax_locks (if is_trim_continous then Z.min max_mirrored_cmds max_merged_cmds else max_mirrored_cmds)
          (if 1 <? max_replicas then max_mirrored_cmds else 0))
  else if decide (op = IO_OP_WRITE) then Ok (AllocCounts pmax_locks max_mirrored_cmds 0)
  else Ok (AllocCounts pmax_locks max_blocksets 0).

(** ** Taking the locks of a piece *)

(** A raid the data path may lock: its maps passed the checks (LockServer.v). *)
Record lockable (r : raid1) : Prop := {
  lk_use : use_rdma_locks r = true;
  lk_owners : 1 ≤ max_n_owners (lock_scheme r);
  lk_maps : ∀ i seg, segments r !! i = Some seg → valid_lmap r (lmap seg)
}.

Lemma initial_owner_range r x : wf_raid1 r → 1 ≤ max_n_owners (lock_scheme r) → 0 ≤ find_initial_owner_seg x r < replicas r.
Proof.
  intros Hr Ho. destruct (replicas_bounds r Hr) as (Hsl & _ & _). pose proof (wf_replicas _ Hr).
  unfold find_initial_owner_seg, nvmeibc_locks_scheme_find_initial_owner_seg, find_zigzag_dst_seg.
  case_decide; (eapply (Z.mod_pos_bound (Z.shiftr x LOCKSET_SHIFT)) || (pose proof (Z.mod_pos_bound (Z.shiftr x LOCKSET_SHIFT)
    (Z.min (replicas r) (max_n_owners (lock_scheme r)))))); lia.
Qed.

(** The map the locks of a piece are taken from: that of the initial owner, cut to
    its owner when a read may just view the lock. *)
Lemma build_map_ok r rlba op raid_l0 : wf_raid1 r → lockable r →
  ∃ i seg seg0 n, i = find_initial_owner_seg (rlba / slice_size r) r ∧ zget (segments r) i = Ok seg ∧ segments r !! 0%nat = Some seg0 ∧
    lock_ownership_build_raid_map r rlba op raid_l0 = Ok (Lmap (lm_type (lmap seg)) (lm_si (lmap seg)) n) ∧
    n = (if nvmeibc_should_use_view_lock (bool_decide (op = IO_OP_READ)) seg0 then 1 else n_locks (lmap seg)) ∧
    1 ≤ n ≤ n_locks (lmap seg) ∧ valid_lmap r (lmap seg).
Proof.
  intros Hr [Huse Ho Hm]. destruct (replicas_bounds r Hr) as (Hsl & _ & Hlen). unfold lock_ownership_build_raid_map.
  rewrite Huse. cbn [negb]. pose proof (initial_owner_range r (rlba / slice_size r) Hr Ho) as Hown.
  set (i := find_initial_owner_seg _ r) in *. clearbody i.
  destruct (zget_is_Some (segments r) i) as (seg & Hseg & Eseg); [lia|]. rewrite Eseg. rstep.
  destruct (lookup_lt_is_Some_2 (segments r) 0) as [seg0 E0]; [lia|]. rewrite (proj2 (aget_ok _ _ _) E0). rstep.
  pose proof (Hm _ _ Hseg) as Hv. pose proof (vl_count _ _ Hv). eexists i, seg, seg0, _. do 3 (split; [done|]).
  split; [|split; [reflexivity|]]; destruct (nvmeibc_should_use_view_lock _ _); try (split; [lia|done]); [done|].
  by destruct (lmap seg).
Qed.

(** What a lock is apart from the counters kept in the first of its siblings or of
    the array. *)
Definition lock_core (l : cmd_lock) : cmd_lock :=
  CmdLock 0 (lk_address l) (lk_ds l) (lk_type l) (lk_status l) (lk_owner_idx l) (lk_n_siblings l) 0 (lk_pending l) 0.

Lemma amod_ok {A} (l : list A) i f : (i < length l)%nat → amod l i f = Ok (alter f i l).
Proof.
  intros Hi. destruct (lookup_lt_is_Some_2 l i Hi) as [x Hx]. unfold amod. rewrite (proj2 (aget_ok _ _ _) Hx). rstep.
  rewrite aset_ok by done. f_equal. apply list_eq. intros j. destruct (decide (j = i)) as [->|].
  - by rewrite list_lookup_insert_eq, list_lookup_alter_eq, Hx by done.
  - by rewrite list_lookup_insert_ne, list_lookup_alter_ne by done.
Qed.

(** Cores of an array of locks, by index. *)
Definition core_at (ls : list cmd_lock) (j : nat) : option cmd_lock := lock_core <$> ls !! j.

Lemma core_alter_ne f i j ls : j ≠ i → core_at (alter f i ls) j = core_at ls j.
Proof. intros Hj. unfold core_at. by rewrite list_lookup_alter_ne. Qed.

Lemma core_alter_same f i j ls : (∀ l, lock_core (f l) = lock_core l) → core_at (alter f i ls) j = core_at ls j.
Proof.
  intros Hf. unfold core_at. destruct (decide (j = i)) as [->|]; [|by rewrite list_lookup_alter_ne].
  rewrite list_lookup_alter_eq. destruct (ls !! i); [|done]. cbn. by rewrite Hf.
Qed.

Lemma core_alter_eq f i ls l : ls !! i = Some l → core_at (alter f i ls) i = Some (lock_core (f l)).
Proof. intros Hl. unfold core_at. by rewrite list_lookup_alter_eq, Hl. Qed.

Definition owner_intent (op : block_op) : rdma_intent := if decide (op = IO_OP_DISCARD) then CMD_PREDISCARD else CMD_LOCK_OWNER.
Definition copy_intent (ty : owner_mode) : rdma_intent :=
  if decide (ty = OWNER_MODE_SECONDARY) then CMD_LOCK_OWNER else CMD_LOCK_COPY_OWNER.

(** Lock [lk] is sibling [k] of the [n] locks that start at place [o] and protect the
    blockset of [rlba] in raid [r], the raid [cr] names. *)
Definition sibling (cr : Z * Z) (r : raid1) (op : block_op) (rlba : Z) (lm : lock_ownership_map) (o k : nat) (lk : cmd_lock) : Prop :=
  ∃ si ty, lm_si lm !! k = Some si ∧ lm_type lm !! k = Some ty ∧ lk_ds lk = Some (cr.1, cr.2, si) ∧
    dp_io_topo_iterator_conv_rlba_to_phys_lock_addr r si rlba = Ok (lk_address lk) ∧
    lk_owner_idx lk = Z.of_nat o ∧ lk_n_siblings lk = n_locks lm ∧ lk_status lk = NCL_STATUS_NOTISSUED ∧
    if decide (k = 0%nat) then lk_type lk = owner_intent op ∧ lk_pending lk = n_locks lm else lk_type lk = copy_intent ty.

Section one_raid.
Context (cr : Z * Z) (r : raid1) (op : block_op) (rlba : Z) (lm : lock_ownership_map) (o : nat).
Hypothesis (Hr : wf_raid1 r).
(** A map with the entries of a valid one. *)
Hypothesis (Hn : 1 ≤ n_locks lm).
Hypothesis (Hprim : lm_type lm !! 0%nat = Some OWNER_MODE_PRIMARY).
Hypothesis (Hent : ∀ k, (k < Z.to_nat (n_locks lm))%nat → ∃ si ty, lm_si lm !! k = Some si ∧ lm_type lm !! k = Some ty ∧
  0 ≤ si < replicas r ∧ ((0 < k)%nat → ty = OWNER_MODE_COPY_OWNER ∨ ty = OWNER_MODE_SECONDARY)).

Definition lock_added (k : nat) (ls ls' : list cmd_lock) : Prop :=
  length ls' = length ls ∧ (∀ j, j ≠ (o + k)%nat → core_at ls' j = core_at ls j) ∧
  ∃ lk, core_at ls' (o + k) = Some (lock_core lk) ∧ sibling cr r op rlba lm o k lk.

Lemma add_lock_ok k ls : (k < Z.to_nat (n_locks lm))%nat → (o + k < length ls)%nat →
  ∃ ls', add_lock cr r op rlba lm o k ls = Ok ls' ∧ lock_added k ls ls'.
Proof.
  intros Hk Hlen. destruct (Hent k Hk) as (si & ty & Esi & Ety & Hsi & Hty). unfold add_lock.
  rewrite (proj2 (aget_ok _ _ _) Esi). rstep.
  assert (∃ a, dp_io_topo_iterator_conv_rlba_to_phys_lock_addr r si rlba = Ok a) as [a Ea].
  { unfold dp_io_topo_iterator_conv_rlba_to_phys_lock_addr. destruct (segment_get r Hr si Hsi) as [seg ->]. rstep. eauto. }
  rewrite Ea. rstep. rewrite amod_ok by done. rstep. rewrite (proj2 (aget_ok _ _ _) Ety). rstep.
  destruct (lookup_lt_is_Some_2 ls (o + k)) as [l0 E0]; [done|].
  destruct (decide (k = 0%nat)) as [->|Hk0].
  - assert (ty = OWNER_MODE_PRIMARY) as -> by congruence. rewrite amod_ok by (rewrite length_alter; done). rstep.
    rewrite (proj2 (Z.eqb_neq (n_locks lm) 0)) by lia. unfold lock_added, sibling.
    case_decide as Hop; [rewrite amod_ok by (rewrite !length_alter; done); rstep; rewrite amod_ok by (rewrite !length_alter; lia)|];
      (eexists; split; [reflexivity|]; rewrite !length_alter; split; [done|]; split;
       [intros j Hj; rewrite ?(core_alter_same _ 0) by done; by rewrite !core_alter_ne by done|]);
      rewrite ?(core_alter_same _ 0) by done.
    + erewrite core_alter_eq by (rewrite !list_lookup_alter_eq, E0; reflexivity).
      eexists. split; [reflexivity|]. exists si, OWNER_MODE_PRIMARY. unfold owner_intent. by rewrite !decide_True by done.
    + erewrite core_alter_eq by (rewrite !list_lookup_alter_eq, E0; reflexivity).
      eexists. split; [reflexivity|]. exists si, OWNER_MODE_PRIMARY. unfold owner_intent. by rewrite decide_True, decide_False by done.
  - unfold lock_added, sibling.
    destruct Hty as [-> | ->]; [lia| |]; rewrite amod_ok by (rewrite !length_alter; done); rstep;
      rewrite amod_ok by (rewrite !length_alter; lia);
      (eexists; split; [reflexivity|]; rewrite !length_alter; split; [done|]; split;
       [intros j Hj; rewrite (core_alter_same _ o) by done; by rewrite !core_alter_ne by done|]);
      rewrite (core_alter_same _ o) by done; erewrite core_alter_eq by (rewrite !list_lookup_alter_eq, E0; reflexivity);
      (eexists; split; [reflexivity|]; eexists si, _; rewrite decide_False by done; by do 2 (split; [eassumption|])).
Qed.

Definition locked_at (ls : list cmd_lock) : Prop :=
  ∀ k, (k < Z.to_nat (n_locks lm))%nat → ∃ lk, core_at ls (o + k) = Some (lock_core lk) ∧ sibling cr r op rlba lm o k lk.

Lemma add_locks_ok ls : (o + Z.to_nat (n_locks lm) ≤ length ls)%nat →
  ∃ ls', for_up (Z.to_nat (n_locks lm)) (add_lock cr r op rlba lm o) ls = Ok ls' ∧ length ls' = length ls ∧
    (∀ j, (j < o)%nat → core_at ls' j = core_at ls j) ∧ locked_at ls'.
Proof.
  intros Hlen. destruct (for_up_inv (add_lock cr r op rlba lm o) (fun k ls' => length ls' = length ls ∧
    (∀ j, (j < o)%nat → core_at ls' j = core_at ls j) ∧
    ∀ i, (i < k)%nat → ∃ lk, core_at ls' (o + i) = Some (lock_core lk) ∧ sibling cr r op rlba lm o i lk)
    (Z.to_nat (n_locks lm)) ls) as (ls' & E & HI).
  - split; [done|]. split; [done|]. lia.
  - intros k ls1 Hk (Hl1 & Hlow & Hdone). destruct (add_lock_ok k ls1) as (ls2 & E & Hl2 & Hne & Hnew); [done|lia|].
    exists ls2. split; [done|]. split; [lia|]. split; [intros j Hj; rewrite Hne by lia; by apply Hlow|].
    intros i Hi. destruct (decide (i = k)) as [->|]; [done|]. rewrite Hne by lia. apply Hdone. lia.
  - exists ls'. done.
Qed.
End one_raid.

(** The locks of one raid, and how many there are. *)
Lemma add_locks_for_raid_ok raid_l0 cr r op rlba ls o : wf_raid1 r → lockable r →
  ∃ lm, lock_ownership_build_raid_map r rlba op raid_l0 = Ok lm ∧ 1 ≤ n_locks lm ∧
    ((o + Z.to_nat (n_locks lm) ≤ length ls)%nat →
     ∃ ls', add_locks_for_raid raid_l0 cr r op rlba ls o = Ok (Z.to_nat (n_locks lm), ls') ∧ length ls' = length ls ∧
       (∀ j, (j < o)%nat → core_at ls' j = core_at ls j) ∧ locked_at cr r op rlba lm o ls').
Proof.
  intros Hr Hlk. destruct (build_map_ok r rlba op raid_l0 Hr Hlk) as (i & seg & seg0 & n & _ & _ & _ & E & _ & Hn & Hv).
  eexists. split; [exact E|]. cbn [n_locks]. split; [lia|]. intros Hlen.
  destruct (add_locks_ok cr r op rlba (Lmap (lm_type (lmap seg)) (lm_si (lmap seg)) n) o Hr) with (ls := ls)
    as (ls' & E' & Hl & Hlow & Hat); cbn [n_locks lm_type lm_si]; [lia|apply Hv| |done|].
  - intros k Hk. destruct (vl_entries _ _ Hv k) as (si & sg & ty & ? & ? & ? & _ & _ & H1 & H2); [lia|].
    exists si, ty. do 3 (split; [done|]). intros Hk0. destruct (decide (k = 1%nat)) as [->|]; [|left; apply H2; lia].
    destruct (H1 eq_refl) as [|[? _]]; auto.
  - exists ls'. unfold add_locks_for_raid. rewrite E. rstep. cbn [n_locks] in *. rewrite E'. rstep. done.
Qed.

(** ** Taking the locks of an I/O *)
Section whole_io.
Context (raid_l0 : lock_ownership_map) (t : topology) (op : block_op).
Hypothesis (Hlk : ∀ c s r, get_raid t c s = Ok r → lockable r).

(** The body of the loop of [dp_fill_locks_for_io], and of the count. *)
Definition fill_piece (p : iter_res) (st : nat * list cmd_lock) : res (nat * list cmd_lock) :=
  match res_r p with
  | None => Fault NULL_DEREF
  | Some cr =>
      r ← get_raid t cr.1 cr.2;
      a ← add_locks_for_raid raid_l0 cr r op (res_rlba p) st.2 st.1;
      Ok ((st.1 + a.1)%nat, a.2)
  end.
Definition count_piece (p : iter_res) (nlocks : Z) : res Z := n ← piece_nlocks raid_l0 t op p; Ok (nlocks + n).

(** The locks of piece [p] are at place [o]. *)
Definition piece_locked (ls : list cmd_lock) (o : nat) (p : iter_res) : Prop :=
  ∃ cr r lm, res_r p = Some cr ∧ get_raid t cr.1 cr.2 = Ok r ∧
    lock_ownership_build_raid_map r (res_rlba p) op raid_l0 = Ok lm ∧ 1 ≤ n_locks lm ∧
    (o + Z.to_nat (n_locks lm) ≤ length ls)%nat ∧ locked_at cr r op (res_rlba p) lm o ls.

Lemma locked_at_core cr r rlba lm o ls ls' : (∀ j, (j < o + Z.to_nat (n_locks lm))%nat → core_at ls' j = core_at ls j) →
  locked_at cr r op rlba lm o ls → locked_at cr r op rlba lm o ls'.
Proof. intros Hc H k Hk. rewrite Hc by lia. by apply H. Qed.

Definition known_piece (p : iter_res) : Prop := ∃ cr r, res_r p = Some cr ∧ get_raid t cr.1 cr.2 = Ok r ∧ wf_raid1 r.

Lemma count_piece_run p cr r lm n : res_r p = Some cr → get_raid t cr.1 cr.2 = Ok r →
  lock_ownership_build_raid_map r (res_rlba p) op raid_l0 = Ok lm → count_piece p n = Ok (n + n_locks lm).
Proof. intros Hr Hg Em. unfold count_piece, piece_nlocks, raid_of. rewrite Hr. destruct cr. cbn [fst snd] in Hg. rewrite Hg. rstep. by rewrite Em. Qed.

Lemma count_ok ps n : Forall known_piece ps → ∃ N, fold_res count_piece ps n = Ok N ∧ n + Z.of_nat (length ps) ≤ N.
Proof.
  revert n. induction ps as [|p ps IH]; intros n Hk; cbn [fold_res length]; [exists n; split; [done|lia]|].
  apply Forall_cons in Hk as [(cr & r & Hr & Hg & Hw) Hk].
  destruct (add_locks_for_raid_ok raid_l0 cr r op (res_rlba p) [] 0 Hw (Hlk _ _ _ Hg)) as (lm & Em & Hn & _).
  rewrite (count_piece_run p cr r lm) by done. rstep. destruct (IH (n + n_locks lm) Hk) as (N & -> & HN). exists N.
  split; [done|lia].
Qed.

Lemma fill_pieces_ok ps : ∀ o ls N, Forall known_piece ps → fold_res count_piece ps (Z.of_nat o) = Ok N → N ≤ Z.of_nat (length ls) →
  ∃ ls', fold_res fill_piece ps (o, ls) = Ok (Z.to_nat N, ls') ∧ length ls' = length ls ∧
    (∀ j, (j < o)%nat → core_at ls' j = core_at ls j) ∧ Forall (fun p => ∃ j, piece_locked ls' j p) ps.
Proof.
  induction ps as [|p ps IH]; intros o ls N Hk; cbn [fold_res].
  { intros [= <-] HN. exists ls. by rewrite Nat2Z.id. }
  apply Forall_cons in Hk as [(cr & r & Hr & Hg & Hw) Hk].
  destruct (add_locks_for_raid_ok raid_l0 cr r op (res_rlba p) ls o Hw (Hlk _ _ _ Hg)) as (lm & Elm & Hn & Hadd).
  rewrite (count_piece_run p cr r lm) by done. rstep. intros Hf HN. assert (Z.of_nat o + n_locks lm ≤ N) as Hle.
  { destruct (count_ok ps (Z.of_nat o + n_locks lm) Hk) as (N' & EN' & HN'). rewrite Hf in EN'. injection EN' as <-. lia. }
 
  destruct Hadd as (ls1 & Ea & Hl1 & Hlow1 & Hat); [lia|].
  assert (fill_piece p (o, ls) = Ok ((o + Z.to_nat (n_locks lm))%nat, ls1)) as ->.
  { unfold fill_piece. rewrite Hr, Hg. rstep. cbn [fst snd]. by rewrite Ea. }
  rstep.
  destruct (IH (o + Z.to_nat (n_locks lm))%nat ls1 N Hk) as (ls2 & -> & Hl2 & Hlow2 & HF); [|lia|].
  { rewrite <-Hf. f_equal. lia. }
  exists ls2. split; [done|]. split; [lia|]. split; [intros j Hj; rewrite Hlow2 by lia; by apply Hlow1|].
  constructor; [|done]. exists o, cr, r, lm. do 4 (split; [done|]). split; [lia|]. by apply (locked_at_core _ _ _ _ _ ls1).
Qed.
End whole_io.

(** The lock of a block is the lock of its piece. *)
Lemma same_blockset_lock r rlba x si : wf_raid1 r → 0 ≤ rlba < 2 ^ 60 → 0 ≤ x < 2 ^ 60 → 0 ≤ si < replicas r →
  x / (LOCKSET_SLICES * slice_size r) = rlba / (LOCKSET_SLICES * slice_size r) →
  dp_io_topo_iterator_conv_rlba_to_phys_lock_addr r si x = dp_io_topo_iterator_conv_rlba_to_phys_lock_addr r si rlba ∧
  get_owner_seg_of_lock r x = get_owner_seg_of_lock r rlba.
Proof.
  intros Hr H0 Hx Hsi E. split.
  - rewrite !(lock_addr_run r Hr 32 1) by done. unfold blockset_of. by rewrite E.
  - unfold get_owner_seg_of_lock. destruct (owners_by_blockset r Hr 32 1 eq_refl eq_refl x rlba) as [_ ->]; [lia|lia|done|done].
Qed.

(** Block [(c, s, rlba)] is protected: its owner lock is in the array, about to be
    issued to the segment that owns the blockset, and followed by its siblings. *)
Definition protected (t : topology) (op : block_op) (ls : list cmd_lock) (b : Z * Z * Z) : Prop :=
  let '(c, s, rlba) := b in
  ∃ r own j lk, get_raid t c s = Ok r ∧ get_owner_seg_of_lock r rlba = Ok own ∧ ls !! j = Some lk ∧
    lk_ds lk = Some (c, s, own) ∧ dp_io_topo_iterator_conv_rlba_to_phys_lock_addr r own rlba = Ok (lk_address lk) ∧
    lk_type lk = owner_intent op ∧ lk_status lk = NCL_STATUS_NOTISSUED ∧ lk_owner_idx lk = Z.of_nat j ∧
    1 ≤ lk_n_siblings lk ∧ lk_pending lk = lk_n_siblings lk ∧
    ∀ k, (0 < k < Z.to_nat (lk_n_siblings lk))%nat → ∃ lk' si, ls !! (j + k)%nat = Some lk' ∧ lk_ds lk' = Some (c, s, si) ∧
      dp_io_topo_iterator_conv_rlba_to_phys_lock_addr r si rlba = Ok (lk_address lk') ∧ lk_owner_idx lk' = Z.of_nat j ∧
      lk_n_siblings lk' = lk_n_siblings lk ∧ lk_status lk' = NCL_STATUS_NOTISSUED.

Lemma core_at_inv ls j lk : core_at ls j = Some (lock_core lk) → ∃ l, ls !! j = Some l ∧ lock_core l = lock_core lk.
Proof.
  unfold core_at. destruct (ls !! j) as [l|]; [|done]. intros H%(inj Some). by exists l.
Qed.

(** A property of cores read through [lock_core]. *)
Lemma sibling_core cr r op rlba lm o k l lk : lock_core l = lock_core lk → sibling cr r op rlba lm o k lk → sibling cr r op rlba lm o k l.
Proof.
  intros E. change (sibling cr r op rlba lm o k (lock_core lk) → sibling cr r op rlba lm o k (lock_core l)). by rewrite E.
Qed.

Lemma locked_sibling cr r op rlba lm o ls k : locked_at cr r op rlba lm o ls → (k < Z.to_nat (n_locks lm))%nat →
  ∃ l, ls !! (o + k)%nat = Some l ∧ sibling cr r op rlba lm o k l.
Proof.
  intros H Hk. destruct (H k Hk) as (lk & Hc & Hs). destruct (core_at_inv _ _ _ Hc) as (l & Hl & E).
  exists l. split; [done|]. by apply (sibling_core _ _ _ _ _ _ _ l lk).
Qed.

Lemma piece_protects raid_l0 t op ls o v c p k : (∀ c s r, get_raid t c s = Ok r → lockable r) →
  good_piece t BY_LOCK v c p → 0 ≤ k < res_nlbas p → (∀ k, 0 ≤ k < res_nlbas p → res_rlba p + k < 2 ^ 60) →
  piece_locked raid_l0 t op ls o p → protected t op ls (locate t c (v + k)).
Proof.
  intros Hlk [_ _ (s & r & Hr & Hg & Hw & H0 & Hl & Hb)] Hk Hbig (cr & r' & lm & Hr' & Hg' & Em & Hn & Hlen & Hat).
  rewrite Hr in Hr'. injection Hr' as <-. cbn [fst snd] in Hg'. assert (r' = r) as -> by congruence. rewrite Hl by done.
  specialize (Hlk _ _ _ Hg). destruct (build_map_ok r (res_rlba p) op raid_l0 Hw Hlk) as (i & seg & seg0 & n & Ei & Eseg & _ & Em' & _ & Hnn & Hv).
  rewrite Em in Em'. injection Em' as ->. cbn [n_locks] in Hn, Hlen.
  assert (∀ j si, lm_si (lmap seg) !! j = Some si → (j < Z.to_nat n)%nat → 0 ≤ si < replicas r) as Hsi.
  { intros j si Hj Hlt. destruct (vl_entries _ _ Hv j) as (? & ? & ? & ? & ? & ? & _); [lia|]. by simplify_eq. }
  assert (∀ si, 0 ≤ si < replicas r →
    dp_io_topo_iterator_conv_rlba_to_phys_lock_addr r si (res_rlba p + k) = dp_io_topo_iterator_conv_rlba_to_phys_lock_addr r si (res_rlba p) ∧
    get_owner_seg_of_lock r (res_rlba p + k) = get_owner_seg_of_lock r (res_rlba p)) as Hsame.
  { intros si Hs. apply same_blockset_lock; [done|done|specialize (Hbig k Hk); lia|done|by apply Hb]. }
  destruct (locked_sibling _ _ _ _ _ _ _ 0 Hat) as (lk & Hlk0 & si & ty & Esi & _ & Hds & Ha & Ho & Hsib & Hst & Hty); [cbn; lia|].
  rewrite Nat.add_0_r in Hlk0. rewrite decide_True in Hty by done. cbn [n_locks lm_si fst snd] in *.
  destruct (Hsame si) as [Haddr Hown]; [apply (Hsi 0%nat); [done|lia]|].
  exists r, si, o, lk. split; [done|]. rewrite Hown, Haddr. split.
  { unfold get_owner_seg_of_lock. rewrite <-Ei, Eseg. rstep. by apply aget_ok. }
  destruct Hty as [Hty Hpend]. do 6 (split; [done|]). split; [lia|]. split; [congruence|]. intros k' Hk'.
  destruct (locked_sibling _ _ _ _ _ _ _ k' Hat) as (lk' & Hlk' & si' & ty' & Esi' & _ & Hds' & Ha' & Ho' & Hsib' & Hst' & _); [cbn; lia|].
  exists lk', si'. cbn [n_locks lm_si fst snd] in *. destruct (Hsame si') as [-> _]; [apply (Hsi k'); [done|lia]|].
  do 4 (split; [done|]). split; [congruence|done].
Qed.

Lemma locate_small t c v : wf_topology t → in_chunk t c v → (locate t c v).2 < 2 ^ 60.
Proof.
  intros Hwf Hin. pose proof Hin as [Hc Hv]. destruct (chunk_wf t Hwf c Hc) as (ch & Hch & _ & _ & Hss & [[Hs _] _ _]).
  pose proof (wf_width _ Hwf). pose proof (vstart_nonneg t Hwf c). pose proof (vstart_end t Hwf (c + 1)).
  unfold get_topo_num_chunks in Hc. unfold locate. cbn [snd]. rewrite Hss. set (x := v - vstart t c). assert (0 ≤ x < 2 ^ 60) by lia.
  clearbody x. rewrite (Z.mul_comm (stripe_width t)), <-Z.div_div by lia.
  pose proof (Z.div_mod x (stripe_size ch) ltac:(lia)). pose proof (Z.div_pos x (stripe_size ch) ltac:(lia) ltac:(lia)).
  assert (x / stripe_size ch / stripe_width t ≤ x / stripe_size ch) as Hle by (apply Z.div_le_upper_bound; nia).
  apply (Z.mul_le_mono_nonneg_r _ _ (stripe_size ch)) in Hle; lia.
Qed.

Lemma tiled_known t F v e ps : tiled t BY_LOCK F v e ps → Forall (known_piece t) ps.
Proof.
  apply tiled_Forall. intros ? c p _ [_ _ (s & r & Hr & Hg & Hw & _)]. by exists (c, s), r.
Qed.

Lemma fill_piece_body raid_l0 t op p (st : nat * list cmd_lock) :
  match res_r p with
  | None => Fault NULL_DEREF
  | Some cr =>
      r ← get_raid t cr.1 cr.2;
      a ← add_locks_for_raid raid_l0 cr r op (res_rlba p) st.2 st.1;
      Ok (p, ((st.1 + a.1)%nat, a.2))
  end = (st' ← fill_piece raid_l0 t op p st; Ok (p, st')).
Proof.
  unfold fill_piece. destruct (res_r p) as [cr|]; [|done]. destruct (get_raid t cr.1 cr.2); rstep; [|done].
  by destruct (add_locks_for_raid _ _ _ _ _ _ _).
Qed.

(** The number of locks is written into the first lock. *)
Lemma piece_locked_nlocks raid_l0 t op ls o p N : piece_locked raid_l0 t op ls o p →
  piece_locked raid_l0 t op (alter (fun l => lock_nlocks l N) 0%nat ls) o p.
Proof.
  intros (cr & r & lm & H1 & H2 & H3 & H4 & H5 & H6). exists cr, r, lm. rewrite length_alter. do 5 (split; [done|]).
  eapply locked_at_core; [|exact H6]. intros j _. by apply core_alter_same.
Qed.

(** Counting and filling run over the same pieces. *)
Lemma locks_fill_run raid_l0 t op vlba nlbas ci F ps (Hlk : ∀ c s r, get_raid t c s = Ok r → lockable r) :
  pieces t vlba nlbas ci BY_LOCK res_nlbas = Ok ps → tiled t BY_LOCK F vlba (vlba + nlbas) ps → 0 < nlbas →
  ∃ N, prepare_nlocks raid_l0 op nlbas vlba ci t = Ok N ∧ fold_res (count_piece raid_l0 t op) ps 0 = Ok N ∧ 1 ≤ N ∧
    ∀ ls len l0, N ≤ Z.of_nat (length ls) → 0 < len → ls !! 0%nat = Some l0 → lk_nlocks l0 = 0 →
      ∃ ls', dp_fill_locks_for_io raid_l0 op nlbas vlba ci t ls len = Ok (N, ls') ∧ lk_nlocks <$> ls' !! 0%nat = Some N ∧
        Forall (fun p => ∃ j, piece_locked raid_l0 t op ls' j p) ps.
Proof.
  intros Eps HT Hn. pose proof (tiled_known t _ _ _ _ HT) as Hk. destruct (count_ok raid_l0 t op Hlk ps 0 Hk) as (N & EN & HN).
  assert (1 ≤ Z.of_nat (length ps)) by (inversion HT; subst; simpl; lia).
  exists N. split.
  { unfold prepare_nlocks. rewrite (iter_while_pieces _ (count_piece raid_l0 t op) t vlba nlbas ci BY_LOCK ps); [done| |done].
    intros p n. unfold count_piece. by destruct (piece_nlocks raid_l0 t op p). }
  split; [done|]. split; [lia|]. intros ls len l0 Hlen Hpos E0 Hz.
  destruct (fill_pieces_ok raid_l0 t op Hlk ps 0 ls N Hk EN Hlen) as (ls' & Ef & Hl & _ & HF).
  exists (alter (fun l => lock_nlocks l N) 0%nat ls'). unfold dp_fill_locks_for_io.
  rewrite (proj2 (Z.leb_gt len 0)) by lia. rewrite (proj2 (aget_ok _ _ _) E0). rstep. rewrite Hz. cbn [negb Z.eqb].
  rewrite (iter_while_pieces _ (fill_piece raid_l0 t op) t vlba nlbas ci BY_LOCK ps); [|intros p st; apply fill_piece_body|done].
  rewrite Ef. rstep. cbn [fst snd]. rewrite Z2Nat.id by lia. rewrite amod_ok by lia. rstep. split; [done|]. split.
  - rewrite list_lookup_alter_eq. destruct (lookup_lt_is_Some_2 ls' 0) as [l1 ->]; [lia|done].
  - eapply Forall_impl; [exact HF|]. intros p [j Hj]. exists j. by apply piece_locked_nlocks.
Qed.

(** C9: for every I/O inside the volume the count of its locks succeeds.  Filling any
    array of at least that many places faults nowhere and takes exactly that
    many, and then every block of the I/O is protected: its owner lock, about to be
    issued to the segment that owns its blockset, waits for all its siblings,
    which follow it. *)
Theorem io_locks_cover raid_l0 t op vlba nlbas ci (Hwf : wf_topology t) (Hlk : ∀ c s r, get_raid t c s = Ok r → lockable r)
    (Hci : in_chunk t ci vlba) (Hn : 0 < nlbas) (Hend : vlba + nlbas ≤ vstart t (get_topo_num_chunks t)) :
  ∃ N, prepare_nlocks raid_l0 op nlbas vlba ci t = Ok N ∧ 1 ≤ N ∧
    ∀ ls len l0, N ≤ Z.of_nat (length ls) → 0 < len → ls !! 0%nat = Some l0 → lk_nlocks l0 = 0 →
      ∃ ls', dp_fill_locks_for_io raid_l0 op nlbas vlba ci t ls len = Ok (N, ls') ∧ lk_nlocks <$> ls' !! 0%nat = Some N ∧
        ∀ v, vlba ≤ v < vlba + nlbas → ∃ b, located t v b ∧ protected t op ls' b.
Proof.
  destruct (walk_tiled t vlba nlbas ci BY_LOCK res_nlbas (fun _ _ _ => True)) as (ps & Eps & HT); [done|done|lia|done|intros; lia|done|].
  destruct (locks_fill_run raid_l0 t op vlba nlbas ci _ ps Hlk Eps HT Hn) as (N & EN & _ & H1 & Hfill). exists N. do 2 (split; [done|]).
  intros ls len l0 Hlen Hpos E0 Hz. destruct (Hfill ls len l0 Hlen Hpos E0 Hz) as (ls' & Ef & Hh & HF). exists ls'.
  do 2 (split; [done|]). intros v Hv. destruct (tiled_find _ _ _ _ _ _ v HT Hv) as (p & c & k & Hp & Hkk & Hin & Hg).
  destruct (proj1 (list.Forall_forall _ _) HF p Hp) as (j & Hj). exists (locate t c v).
  assert (in_chunk t c v) as Hinv by (destruct Hin; destruct Hg; split; [done|lia]).
  split; [by exists c|]. replace v with (v - k + k) by lia.
  apply (piece_protects raid_l0 t op _ j (v - k) c p k); try done.
  intros k' Hk'. pose proof (locate_small t c (v - k + k') Hwf) as Hs. destruct Hg as [_ He (s & r & _ & _ & _ & _ & Hloc & _)].
  rewrite Hloc in Hs by done. apply Hs. destruct Hin. split; [done|lia].
Qed.

(** Every raid of the sample volume is the sample raid. *)
Lemma sample_raids c s r : get_raid sample_topology c s = Ok r → r = sample_raid.
Proof.
  unfold get_raid, zget. destruct (c <? 0); [done|]. destruct (Z.to_nat c) as [|[|[|c']]]; rstep; try done;
  (destruct (s <? 0); [done|]; destruct (Z.to_nat s) as [|[|[|s']]]; rstep; try done; by intros [= <-]).
Qed.

Lemma sample_lockable : lockable sample_raid.
Proof.
  split; [done|done|]. intros i seg Hi.
  assert (lmap seg = Lmap [OWNER_MODE_PRIMARY; OWNER_MODE_INVALID; OWNER_MODE_INVALID; OWNER_MODE_INVALID] [0; 0; 0; 0] 1) as ->
    by (destruct i as [|[|[|i]]]; [by injection Hi as <-..|done]).
  split; [done|done|by exists 0, (sample_segment "a" 0)|]. intros [|l] Hl; [|cbn in Hl; lia].
  exists 0, (sample_segment "a" 0), OWNER_MODE_PRIMARY. split_and!; (done || lia).
Qed.

Lemma io_locks_cover_witness : ∃ N ls', prepare_nlocks lock_ownership_map_poison IO_OP_WRITE 100 500 0 sample_topology = Ok N ∧
  dp_fill_locks_for_io lock_ownership_map_poison IO_OP_WRITE 100 500 0 sample_topology (replicate 8 zero_lock) 8 = Ok (N, ls') ∧
  ∀ v, 500 ≤ v < 600 → ∃ b, located sample_topology v b ∧ protected sample_topology IO_OP_WRITE ls' b.
Proof.
  destruct (io_locks_cover lock_ownership_map_poison sample_topology IO_OP_WRITE 500 100 0 sample_wf) as (N & E & _ & H).
  - intros c s r ->%sample_raids. apply sample_lockable.
  - vm_compute. intuition congruence.
  - lia.
  - vm_compute. congruence.
  - assert (N = 3) as -> by (vm_compute in E; congruence).
    destruct (H (replicate 8 zero_lock) 8 zero_lock) as (ls' & E' & _ & Hp); [vm_compute; congruence|lia|done|done|].
    exists 3, ls'. split; [exact E|]. split; [exact E'|exact Hp].
Defined.

(** ** Volume totals bound every raid *)
Definition within (tt : topo_totals) (r : raid1) : Prop :=
  replicas r ≤ max_n_segs_in_praid tt ∧
  (is_safe_for_view_lock_all tt = true → ∃ seg0, segments r !! 0%nat = Some seg0 ∧ is_safe_for_view_lock seg0 = true).

(** Totals only grow, and only get less safe. *)
Definition totals_le (a b : topo_totals) : Prop :=
  max_n_segs_in_praid a ≤ max_n_segs_in_praid b ∧ (is_safe_for_view_lock_all b = true → is_safe_for_view_lock_all a = true).

#[export] Instance totals_le_preorder : PreOrder totals_le.
Proof.
  split; [by intros a|]. intros a b c [H1 H2] [H3 H4]. split; [lia|auto].
Qed.

Lemma within_mono a b r : totals_le a b → within a r → within b r.
Proof. intros [H1 H2] [H3 H4]. split; [lia|auto]. Qed.

Lemma fold_res_inv {A St} (g : A → St → res St) (I : St → Prop) l : (∀ a s s', g a s = Ok s' → I s → I s') →
  ∀ s s', fold_res g l s = Ok s' → I s → I s'.
Proof.
  intros Hg. induction l as [|a l IH]; intros s s'; cbn [fold_res]; [by intros [= ->]|].
  destruct (g a s) as [s1|] eqn:E; rstep; [|done]. intros Hf HI. apply (IH s1); [done|]. by apply (Hg a s).
Qed.

Lemma raids_within il rs a a' : fold_res (add_raid_totals il) rs a = Ok a' → Forall (within a.2) a.1 →
  totals_le a.2 a'.2 ∧ Forall (within a'.2) a'.1.
Proof.
  intros Hf Ha. refine (fold_res_inv _ (fun b => totals_le a.2 b.2 ∧ Forall (within b.2) b.1) rs _ a a' Hf _); [|by split].
  intros r b b'. unfold add_raid_totals. destruct (nvmeibc_raid1_fill_calculated_data il r) as [[cd r']|] eqn:E; rstep; [|done].
  cbn [snd]. destruct (aget (segments r') 0) as [seg0|] eqn:E0; rstep; [|done]. intros [= <-] [Hle HF]. cbn [fst snd].
  assert (totals_le b.2 (Totals (Z.max (max_n_segs_in_praid b.2) (replicas r')) (is_safe_for_view_lock_all b.2 && is_safe_for_view_lock seg0))) as Hb.
  { split; cbn; [lia|]. by intros [? _]%andb_true_iff. }
  split; [by etrans|]. apply Forall_app. split; [eapply Forall_impl; [exact HF|]; intros x; by apply within_mono|].
  apply Forall_singleton. split; cbn; [lia|]. intros [_ Hs]%andb_true_iff. exists seg0. by apply aget_ok in E0.
Qed.

Lemma chunks_within il cs a a' : fold_res (add_chunk_totals il) cs a = Ok a' → Forall (fun c => Forall (within a.2) (raid1s c)) a.1 →
  length a'.1 = (length a.1 + length cs)%nat ∧ Forall (fun c => Forall (within a'.2) (raid1s c)) a'.1.
Proof.
  revert a. induction cs as [|c cs IH]; intros a; cbn [fold_res length]; [intros [= ->]; by rewrite Nat.add_0_r|].
  destruct (add_chunk_totals il c a) as [a1|] eqn:E1; rstep; [|done]. unfold add_chunk_totals in E1.
  destruct (fold_res (add_raid_totals il) (raid1s c) ([], a.2)) as [rs|] eqn:E; rstep; [|done]. injection E1 as <-.
  apply raids_within in E as [Hle HF]; [|constructor]. intros Hf Ha. apply IH in Hf.
  - cbn [fst] in Hf. rewrite length_app in Hf. cbn [length] in Hf. split; [lia|apply Hf].
  - cbn [fst snd] in *. apply Forall_app. split; [|by apply Forall_singleton].
    eapply Forall_impl; [exact Ha|]. intros x Hx. eapply Forall_impl; [exact Hx|]. intros y. by apply within_mono.
Qed.

Lemma fill_all_within il t0 t tt c s r : nvmeibc_topology_fill_all_topo_raids_calculated_data il t0 = Ok (t, tt) → wf_topology t →
  0 ≤ c < get_topo_num_chunks t → get_raid t c s = Ok r → within tt r.
Proof.
  unfold nvmeibc_topology_fill_all_topo_raids_calculated_data.
  destruct (fold_res _ _ _) as [[cs tt']|] eqn:E; rstep; [|done]. intros [= <- <-] Hwf Hc. cbn [fst snd] in *.
  apply chunks_within in E as [Hlen HF]; [|constructor]. cbn [fst snd length Nat.add] in *. rewrite length_take in Hlen.
  destruct (wf_nchunks _ Hwf) as [Hn _]. unfold get_topo_num_chunks in *. cbn [nchunks chunks] in *.
  rewrite length_app, length_drop in Hn. unfold get_raid. cbn [chunks].
  destruct (zget_is_Some (cs ++ drop (Z.to_nat (nchunks t0 - 1)) (chunks t0)) c) as (ch & Hch & ->);
    [rewrite length_app, length_drop; lia|]. rstep. rewrite lookup_app_l in Hch by lia.
  pose proof (Forall_lookup_1 _ _ _ _ HF Hch) as Hrs. unfold zget. destruct (s <? 0); [done|].
  intros Hs%aget_ok. exact (Forall_lookup_1 _ _ _ _ Hrs Hs).
Qed.

(** ** Blocksets of an I/O to mirrors *)

(** Chunks and stripes of whole blocksets. *)
Definition aligned (t : topology) : Prop := ∀ c, 0 ≤ c < get_topo_num_chunks t →
  (LOCKSET_SLICES | stripe_of t c) ∧ (LOCKSET_SLICES | vstart t c) ∧ (LOCKSET_SLICES | vstart t (c + 1)).

Lemma locate_congr t c v : wf_topology t → aligned t → in_chunk t c v → (LOCKSET_SLICES | (locate t c v).2 - v).
Proof.
  intros Hwf Ha [Hc Hv]. destruct (Ha c Hc) as ([q Hq] & [a Hva] & _). destruct (chunk_wf t Hwf c Hc) as (ch & _ & _ & _ & Hss & [[Hs _] _ _]).
  unfold locate. cbn [snd]. set (x := v - vstart t c). set (ss := stripe_of t c) in *.
  exists (q * (x / (stripe_width t * ss) - x / ss) - a). pose proof (Z.div_mod x ss ltac:(lia)).
  assert (v = x + a * LOCKSET_SLICES) as Hx by (subst x; lia).
  rewrite Z.mul_sub_distr_r, Z.mul_sub_distr_l, Z.mul_sub_distr_r. rewrite <-!(Z.mul_shuffle0 _ LOCKSET_SLICES), <-Hq. lia.
Qed.

Section mirrors.
Context (t : topology) (Hwf : wf_topology t) (Ha : aligned t).
Hypothesis (Hmir : ∀ c s r, get_raid t c s = Ok r → slice_size r = 1).

Lemma piece_end e v c p : in_chunk t c v → good_piece t BY_LOCK v c p → full_piece t BY_LOCK e v c p →
  v + res_nlbas p = e ∨ (LOCKSET_SLICES | v + res_nlbas p).
Proof.
  intros Hin [Hpos _ (s & r & Hr & Hg & _ & _ & Hl & _)] Hf. pose proof Hin as [Hc _]. destruct (Ha c Hc) as (Hq & Hv & Hv').
  destruct Hf as [|[->|[Hm|[_ (r' & Hr' & Hm)]]]]; [by left|by right|right..].
  - assert (stripe_of t c ≠ 0) by (destruct (chunk_wf t Hwf c Hc) as (ch & _ & _ & _ & -> & [[? _] _ _]); lia).
    apply Z.mod_divide in Hm; [|done]. replace (v + res_nlbas p) with (v + res_nlbas p - vstart t c + vstart t c) by lia.
    apply Z.divide_add_r; [|done]. by apply (Z.divide_trans _ (stripe_of t c)).
  - unfold raid_of in Hr'. rewrite Hr, Hg in Hr'. injection Hr' as <-. rewrite (Hmir _ _ _ Hg), Z.mul_1_r in Hm.
    apply Z.mod_divide in Hm; [|done]. pose proof (locate_congr t c v Hwf Ha Hin) as Hd.
    specialize (Hl 0 ltac:(lia)). rewrite !Z.add_0_r in Hl. rewrite Hl in Hd. cbn [snd] in Hd.
    replace (v + res_nlbas p) with (res_rlba p + res_nlbas p - (res_rlba p - v)) by lia. by apply Z.divide_sub_r.
Qed.

Lemma tiled_end F v ps : tiled t BY_LOCK F v v ps → ps = [].
Proof.
  inversion 1 as [|? ? c p ps' _ Hg _ HT]; [done|]. pose proof (tiled_le _ _ _ _ _ _ HT). pose proof (gp_pos _ _ _ _ _ Hg). lia.
Qed.

Lemma aligned_count e v ps : tiled t BY_LOCK (full_piece t BY_LOCK e) v e ps → (LOCKSET_SLICES | v) →
  LOCKSET_SLICES * Z.of_nat (length ps) ≤ e - v + (LOCKSET_SLICES - 1).
Proof.
  revert v. induction ps as [|p ps IH]; intros v HT Hv; inversion HT as [|? ? c ? ? Hin Hg Hf HT']; subst; cbn [length].
  { change LOCKSET_SLICES with 32. lia. }
  pose proof (gp_pos _ _ _ _ _ Hg). destruct (piece_end e v c p Hin Hg Hf) as [E|Hd].
  - rewrite E in HT'. rewrite (tiled_end _ _ _ HT') in *. change LOCKSET_SLICES with 32. simpl. lia.
  - specialize (IH _ HT' Hd). destruct Hv as [a ->], Hd as [b Hb]. change LOCKSET_SLICES with 32 in *. nia.
Qed.

(** An I/O of [nlbas] blocks touches at most so many blocksets. *)
Lemma piece_count v n ps : tiled t BY_LOCK (full_piece t BY_LOCK (v + n)) v (v + n) ps → 0 < n →
  Z.of_nat (length ps) ≤ if n =? 1 then 1 else n / LOCKSET_SLICES + 2.
Proof.
  intros HT Hn. inversion HT as [|? ? c p ps' Hin Hg Hf HT']; subst; [lia|]. cbn [length].
  pose proof (gp_pos _ _ _ _ _ Hg). pose proof (Z.div_pos n 32). destruct (piece_end _ v c p Hin Hg Hf) as [E|Hd].
  - rewrite E in HT'. rewrite (tiled_end _ _ _ HT') in *. change LOCKSET_SLICES with 32. simpl. destruct (n =? 1); lia.
  - pose proof (aligned_count _ _ _ HT' Hd) as Hc. change LOCKSET_SLICES with 32 in *.
    destruct (Z.eqb_spec n 1); [lia|]. pose proof (Z.div_mod n 32). pose proof (Z.mod_pos_bound n 32). lia.
Qed.
End mirrors.

Lemma count_bound raid_l0 t op K ps : ∀ n N,
  Forall (fun p => ∃ m, piece_nlocks raid_l0 t op p = Ok m ∧ m ≤ K) ps →
  fold_res (count_piece raid_l0 t op) ps n = Ok N → N ≤ n + K * Z.of_nat (length ps).
Proof.
  induction ps as [|p ps IH]; intros n N HF; cbn [fold_res length]; [intros [= ->]; lia|].
  apply Forall_cons in HF as [(m & Em & Hm) HF]. destruct (count_piece raid_l0 t op p n) as [n1|] eqn:E; rstep; [|done].
  unfold count_piece in E. rewrite Em in E. injection E as <-. intros Hf. apply IH in Hf; [lia|done].
Qed.

(** The locks of a piece stay within what [calc_max_locks_per_blockset] allows. *)
Lemma piece_within raid_l0 t op tt r0 v c p : get_raid t 0 0 = Ok r0 → (∀ c s r, get_raid t c s = Ok r → lockable r) →
  (∀ c s r, get_raid t c s = Ok r → max_n_owners (lock_scheme r) = max_n_owners (lock_scheme r0)) →
  (∀ c s r, 0 ≤ c < get_topo_num_chunks t → get_raid t c s = Ok r → within tt r) →
  in_chunk t c v → good_piece t BY_LOCK v c p →
  ∃ K m, calc_max_locks_per_blockset (max_n_segs_in_praid tt) op t tt = Ok K ∧ piece_nlocks raid_l0 t op p = Ok m ∧ 1 ≤ m ≤ K.
Proof.
  intros H0 Hlk Hown Htt [Hc _] [_ _ (s & r & Hr & Hg & Hw & _)]. unfold calc_max_locks_per_blockset. rewrite H0. rstep.
  rewrite (lk_use _ (Hlk _ _ _ H0)). cbn [negb]. destruct (Htt _ _ _ Hc Hg) as [Hrep Hsafe].
  destruct (build_map_ok r (res_rlba p) op raid_l0 Hw (Hlk _ _ _ Hg)) as (i & seg & seg0 & n & _ & _ & E0 & Em & Hn & Hnn & Hv).
  exists (if bool_decide (op = IO_OP_READ) && is_safe_for_view_lock_all tt then 1
    else Z.min (max_n_segs_in_praid tt) (max_n_owners (lock_scheme r0))), n.
  split; [by destruct (_ && _)|]. split; [unfold piece_nlocks, raid_of; rewrite Hr, Hg; rstep; by rewrite Em|].
  pose proof (vl_count _ _ Hv). rewrite (Hown _ _ _ Hg) in *.
  destruct (bool_decide _ && is_safe_for_view_lock_all tt) eqn:Eb; [|lia]. apply andb_true_iff in Eb as [Eop Esafe].
  destruct (Hsafe Esafe) as (seg0' & E0' & Hs0). simplify_eq. unfold nvmeibc_should_use_view_lock in *.
  rewrite Eop, Hs0 in *. cbn [andb] in *. lia.
Qed.

Lemma s32_small x : - 2 ^ 31 ≤ x < 2 ^ 31 → s32 x = x.
Proof. intros Hx. unfold s32. rewrite wrap_small; lia. Qed.

Lemma max_blocksets_range n : 0 < n < 2 ^ 31 → 1 ≤ (if n =? 1 then 1 else n / LOCKSET_SLICES + 2) ≤ 2 ^ 27.
Proof.
  intros Hn. change LOCKSET_SLICES with 32. pose proof (Z.div_pos n 32). pose proof (Z.div_le_upper_bound n 32 (2 ^ 26)).
  destruct (n =? 1); lia.
Qed.

Lemma max_blocksets_small n : 0 < n < 2 ^ 31 →
  s32 (if n =? 1 then 1 else u64 (n / LOCKSET_SLICES + 2)) = if n =? 1 then 1 else n / LOCKSET_SLICES + 2.
Proof.
  intros Hn. pose proof (max_blocksets_range n Hn). destruct (n =? 1); [done|]. rewrite wrap_small by lia. apply s32_small. lia.
Qed.

Lemma max_locks_small t op tt r0 K : get_raid t 0 0 = Ok r0 → calc_max_locks_per_blockset (max_n_segs_in_praid tt) op t tt = Ok K →
  max_n_segs_in_praid tt ≤ 12 → K ≤ 12.
Proof.
  intros H0. unfold calc_max_locks_per_blockset. rewrite H0. rstep. destruct (use_rdma_locks r0); cbn [negb]; [|intros [= <-]; lia].
  destruct (bool_decide _ && _); intros [= <-] Htt; lia.
Qed.

(** C27: on a volume of mirrors whose chunks and stripes hold whole blocksets, the array of
    locks allocated from the size of an I/O alone is large enough for the locks the
    I/O takes, wherever it starts. *)
Theorem mirror_locks_fit il t0 t tt raid_l0 op vlba nlbas ci trim r0
    (Hfill : nvmeibc_topology_fill_all_topo_raids_calculated_data il t0 = Ok (t, tt)) (Hwf : wf_topology t)
    (Hlk : ∀ c s r, get_raid t c s = Ok r → lockable r) (Ha : aligned t) (H0 : get_raid t 0 0 = Ok r0)
    (Hmir : ∀ c s r, get_raid t c s = Ok r → slice_size r = 1 ∧ max_n_owners (lock_scheme r) = max_n_owners (lock_scheme r0))
    (Htt : max_n_segs_in_praid tt ≤ Z.of_nat N_MAX_RAID_SLICE_LEN)
    (Hci : in_chunk t ci vlba) (Hn : 0 < nlbas < 2 ^ 31) (Hend : vlba + nlbas ≤ vstart t (get_topo_num_chunks t)) :
  ∃ a, calc_alloc_counts_for_prepare_op op nlbas t tt trim = Ok a ∧
    ∀ ls l0, Z.of_nat (length ls) = max_locks a → ls !! 0%nat = Some l0 → lk_nlocks l0 = 0 →
      ∃ N ls', dp_fill_locks_for_io raid_l0 op nlbas vlba ci t ls (max_locks a) = Ok (N, ls') ∧ 1 ≤ N ≤ max_locks a.
Proof.
  destruct (walk_tiled t vlba nlbas ci BY_LOCK res_nlbas (full_piece t BY_LOCK (vlba + nlbas))) as (ps & Eps & HT);
    [done|done|lia|done|intros; lia|by intros v c []|].
  destruct (locks_fill_run raid_l0 t op vlba nlbas ci _ ps Hlk Eps HT) as (N & _ & EN & H1 & Hrun); [lia|].
  pose proof (piece_count t Hwf Ha (fun c s r H => proj1 (Hmir c s r H)) vlba nlbas ps HT ltac:(lia)) as Hcount.
  pose proof (fun v c p => piece_within raid_l0 t op tt r0 v c p H0 Hlk (fun c s r H => proj2 (Hmir c s r H))
    (fun c s r => fill_all_within il t0 t tt c s r Hfill Hwf)) as Hpiece.
  assert (∃ K, calc_max_locks_per_blockset (max_n_segs_in_praid tt) op t tt = Ok K) as [K EK].
  { inversion HT as [|? ? c p ? Hin Hg]; subst; [lia|]. destruct (Hpiece _ _ _ Hin Hg) as (K & _ & EK & _). by exists K. }
  assert (Forall (fun p => ∃ m, piece_nlocks raid_l0 t op p = Ok m ∧ m ≤ K) ps) as HF.
  { refine (tiled_Forall _ _ _ _ _ _ _ _ HT). intros v c p Hin Hg. destruct (Hpiece _ _ _ Hin Hg) as (K' & m & EK' & Em & Hm).
    exists m. split; [done|]. rewrite EK in EK'. injection EK' as <-. lia. }
  assert (1 ≤ K ≤ 12) as HK.
  { inversion HT as [|? ? c p ? Hin Hg]; subst; [lia|]. destruct (Hpiece _ _ _ Hin Hg) as (K' & m & EK' & _ & Hm).
    rewrite EK in EK'. injection EK' as <-. split; [lia|]. apply (max_locks_small t op tt r0 K H0 EK). done. }
  pose proof (count_bound raid_l0 t op K ps 0 N HF EN) as HN. unfold calc_alloc_counts_for_prepare_op. rewrite EK. rstep.
  rewrite max_blocksets_small by lia. set (nb := if nlbas =? 1 then 1 else nlbas / LOCKSET_SLICES + 2) in *.
  assert (1 ≤ nb ≤ 2 ^ 27) as Hnb by (apply max_blocksets_range; lia). clearbody nb.
  rewrite (s32_small (K * nb)) by nia.
  match goal with |- ∃ a, ?x = Ok a ∧ _ => assert (∃ a, x = Ok a ∧ max_locks a = K * nb) as (a & Ea & Hml) end.
  { case_decide; [|case_decide]; (eexists; split; [reflexivity|done]). }
  exists a. split; [exact Ea|]. intros ls l0 Hlen E0 Hz. destruct (Hrun ls (max_locks a) l0) as (ls' & Ef & _); [nia|nia|done|done|].
  exists N, ls'. split; [done|]. nia.
Qed.

(** A volume of one pair of mirrors with a copy of the lock on the second. *)
Definition mirror_raid : raid1 :=
  let lm := Lmap [OWNER_MODE_PRIMARY; OWNER_MODE_COPY_OWNER; OWNER_MODE_INVALID; OWNER_MODE_INVALID] [0; 1; 0; 0] 2 in
  Raid1 2 1 [Segment "a" 0 128 lm LOCK_MOVING_NO true DS_MODE_RW; Segment "b" 256 128 lm LOCK_MOVING_NO true DS_MODE_RW]
    (LocksScheme OWNER_SCHEME_SL_START_DEC_C 2 6) true.
Definition mirror_topology : topology := Topology 2 1 1 [Chunk 0 64 [mirror_raid]; Chunk 128 0 []].

Lemma mirror_topology_wf : wf_topology mirror_topology.
Proof.
  assert (∀ i, 0 ≤ i < 1 → i = 0) as H1 by lia. unfold get_topo_num_chunks. cbn [nchunks mirror_topology Z.sub].
  split; [done|done|done| |done|].
  - intros i ->%H1. done.
  - intros i c ->%H1 [= <-]. split; [done|done|]. constructor; [|constructor].
    split; [done|done|done|]. repeat constructor; vm_compute; congruence.
Qed.

Lemma mirror_raids c s r : get_raid mirror_topology c s = Ok r → r = mirror_raid.
Proof.
  unfold get_raid, zget. destruct (c <? 0); [done|]. destruct (Z.to_nat c) as [|[|c']]; rstep; try done;
  (destruct (s <? 0); [done|]; destruct (Z.to_nat s) as [|[|s']]; rstep; try done; by intros [= <-]).
Qed.

Lemma mirror_lockable : lockable mirror_raid.
Proof.
  split; [done|done|]. intros i seg Hi.
  assert (lmap seg = Lmap [OWNER_MODE_PRIMARY; OWNER_MODE_COPY_OWNER; OWNER_MODE_INVALID; OWNER_MODE_INVALID] [0; 1; 0; 0] 2) as ->
    by (destruct i as [|[|i]]; [by injection Hi as <-..|done]).
  split; [done|done|eexists 0, _; done|]. intros [|[|l]] Hl; [| |cbn in Hl; lia].
  - eexists 0, _, _. do 2 (split; [reflexivity|]). split; [cbn; lia|]. split; [reflexivity|]. split; [done|]. split; lia.
  - eexists 1, _, _. do 2 (split; [reflexivity|]). split; [cbn; lia|]. split; [reflexivity|]. split; [done|]. split; [auto|lia].
Qed.

Lemma mirror_locks_fit_witness : ∃ a N ls',
  calc_alloc_counts_for_prepare_op IO_OP_WRITE 40 mirror_topology (Totals 2 true) true = Ok a ∧ max_locks a = 6 ∧
  dp_fill_locks_for_io lock_ownership_map_poison IO_OP_WRITE 40 20 0 mirror_topology (replicate 6 zero_lock) 6 = Ok (N, ls') ∧ N ≤ 6.
Proof.
  destruct (mirror_locks_fit (fun _ => true) mirror_topology mirror_topology (Totals 2 true) lock_ownership_map_poison IO_OP_WRITE 20 40 0
    true mirror_raid) as (a & Ea & H); [vm_compute; reflexivity|apply mirror_topology_wf| | |done| | | |lia| |].
  - intros c s r ->%mirror_raids. apply mirror_lockable.
  - intros c Hc. assert (c = 0) as -> by (unfold get_topo_num_chunks in Hc; cbn in Hc; lia). split; [by exists 2|]. split; [by exists 0|by exists 4].
  - intros c s r ->%mirror_raids. done.
  - done.
  - vm_compute. intuition congruence.
  - vm_compute. congruence.
  - assert (max_locks a = 6) as Hm by (vm_compute in Ea; injection Ea as <-; reflexivity).
    destruct (H (replicate 6 zero_lock) zero_lock) as (N & ls' & E & HN); [by rewrite Hm|done|done|]. rewrite Hm in *.
    exists a, N, ls'. split; [exact Ea|]. split; [exact Hm|]. split; [exact E|]. lia.
Defined.
