(* ===== verification/Mssa.v ===== *)
(** The slice analyser of an erasure coded I/O.

    Models [mssa_init] of [nvmeibc_block_dp_ec.c]: which blocks of the slices an I/O
    touches are written, which must be read before, and by which strategy the
    parities of each slice are made; with the counters derived from it
    ([__prepare_alloc_counts_mssa], [__prepare_alloc_counts_calc]) and the walk over
    the strategies of [nvmeibc_block_dp_ec_reed_solomon.c].

    The two bitmaps have a bit per block of the matrix of rows (slices) and columns
    (roles); they are integers, and [set_bit] and [test_bit] fault outside the
    [MAP_BITS] bits of the arrays.  Pointers to buffers and metadata are left out. *)
From stdpp Require Import base list numbers strings.
From Stdlib Require Import ZArith Lia.
From S2P Require Import Prelude CMemory BitFields DirtyBits JournalMd Topology TopoIter AddrMap Roles LockServer LockPlan.
Local Open Scope Z_scope.

Definition N_MAX_MULTI_SLICE_LEN : nat := 32.
Definition N_MAX_STRATEGIES : nat := 5.
Definition MAP_BITS : Z := Z.of_nat (Topology.N_MAX_RAID_SLICE_LEN * N_MAX_MULTI_SLICE_LEN).
Definition KERNEL_SECTORS_IN_NVMEIBC_SECTOR : Z := 8.

(** [enum slice_strategy]. *)
Definition INVALID_STRATEGY : Z := 0.
Definition COMPLEMENT_STRATEGY : Z := 1.
Definition UPDATE_STRATEGY : Z := 2.
Definition RESTORE_STRATEGY : Z := 3.
Definition NO_ACTION_STRATEGY : Z := 4.

(** ** Bitmaps *)
Definition test_bit (i map : Z) : res bool :=
  if (0 <=? i) && (i <? MAP_BITS) then Ok (Z.testbit map i) else Fault OOB.
Definition set_bit (i map : Z) : res Z :=
  if (0 <=? i) && (i <? MAP_BITS) then Ok (Z.setbit map i) else Fault OOB.
Definition bitmap_set (map start n : Z) : res Z :=
  if (0 <=? start) && (0 <=? n) && (start + n <=? MAP_BITS) then Ok (Z.lor map (Z.shiftl (Z.ones n) start)) else Fault OOB.
Definition find_last_bit (map size : Z) : Z :=
  let m := Z.land map (Z.ones size) in if m =? 0 then size else Z.log2 m.
Definition find_first_bit (map size : Z) : Z :=
  let m := Z.land map (Z.ones size) in if m =? 0 then size else Z.log2 (Z.land m (- m)).

(** The union of [enum slice_strategy strategies[5]] and [s8 n_parities[5]]: twenty
    bytes, little endian. *)
Definition strategies_get (u : list Z) (i : nat) : res Z :=
  b0 ← aget u (4 * i); b1 ← aget u (4 * i + 1); b2 ← aget u (4 * i + 2); b3 ← aget u (4 * i + 3);
  Ok (b0 + 2 ^ 8 * b1 + 2 ^ 16 * b2 + 2 ^ 24 * b3).
Definition strategies_set (u : list Z) (i : nat) (v : Z) : res (list Z) :=
  u ← aset u (4 * i) (u8 v); u ← aset u (4 * i + 1) (u8 (Z.shiftr v 8));
  u ← aset u (4 * i + 2) (u8 (Z.shiftr v 16)); aset u (4 * i + 3) (u8 (Z.shiftr v 24)).
Definition n_parities_get (u : list Z) (i : nat) : res Z :=
  b ← aget u i; Ok (if b <? 128 then b else b - 256).
Definition n_parities_set (u : list Z) (i : nat) (v : Z) : res (list Z) := aset u i (u8 v).

(** ** The analyser *)
Record mssa : Type := Mssa {
  ms_slice_size : Z; ms_snake_size : Z; ms_replicas : Z; ms_owner_seg : Z; ms_map_size : Z; ms_n_reads : Z; ms_n_writes : Z;
  ms_pre_read : Z; ms_bio_map : Z;
  ms_cmd_read : list Z; ms_cmd_write : list Z; ms_cmd_jour : list Z;
  ms_single_strat : bool; ms_no_jour : bool; ms_no_rw_p : bool;
  ms_union : list Z; ms_change : list Z; ms_tx_bms : list Z;
  ms_col_prd : list Z; ms_col_bio : list Z; ms_row_prd : list Z; ms_row_bio : list Z
}.

Definition zero_mssa : mssa :=
  Mssa 0 0 0 0 0 0 0 0 0 (replicate 32 0) (replicate 32 0) (replicate 32 0) false false false (replicate 20 0) (replicate 4 0)
    (replicate 5 0) (replicate 12 0) (replicate 12 0) (replicate 32 0) (replicate 32 0).

Record alloc_count : Type := Pac {
  pac_nlocks : Z; pac_ncmds : Z; pac_n_extra_blocks : Z; pac_mssa_bio_size : Z; pac_mssa_prd_size : Z; pac_mssa_md_block_size : Z;
  pac_has_dgrd_topology : bool
}.
Definition zero_pac : alloc_count := Pac 0 0 0 0 0 0 false.

(** What [mssa_init] changes while it goes over the rows, with its counters
    [strategy_index], [txbm_index], [n_lbas] and [preread_512_map]. *)
Record work : Type := Work {
  w_bio : Z; w_pre : Z; w_row_bio : list Z; w_row_prd : list Z; w_union : list Z; w_change : list Z; w_tx : list Z;
  w_extra : Z; w_si : nat; w_ti : nat; w_nlbas : Z; w_512 : Z
}.
Definition with_bio (w : work) (m : Z) (rows : list Z) : work :=
  Work m (w_pre w) rows (w_row_prd w) (w_union w) (w_change w) (w_tx w) (w_extra w) (w_si w) (w_ti w) (w_nlbas w) (w_512 w).
Definition with_pre (w : work) (m : Z) (rows : list Z) : work :=
  Work (w_bio w) m (w_row_bio w) rows (w_union w) (w_change w) (w_tx w) (w_extra w) (w_si w) (w_ti w) (w_nlbas w) (w_512 w).
Definition with_extra (w : work) (n : Z) : work :=
  Work (w_bio w) (w_pre w) (w_row_bio w) (w_row_prd w) (w_union w) (w_change w) (w_tx w) n (w_si w) (w_ti w) (w_nlbas w) (w_512 w).
Definition with_strat (w : work) (u change : list Z) (si : nat) : work :=
  Work (w_bio w) (w_pre w) (w_row_bio w) (w_row_prd w) u change (w_tx w) (w_extra w) si (w_ti w) (w_nlbas w) (w_512 w).
Definition with_tx (w : work) (tx : list Z) (ti : nat) : work :=
  Work (w_bio w) (w_pre w) (w_row_bio w) (w_row_prd w) (w_union w) (w_change w) tx (w_extra w) (w_si w) ti (w_nlbas w) (w_512 w).
Definition with_left (w : work) (n m512 : Z) : work :=
  Work (w_bio w) (w_pre w) (w_row_bio w) (w_row_prd w) (w_union w) (w_change w) (w_tx w) (w_extra w) (w_si w) (w_ti w) n m512.

(** [__extract_rmw_first_block_map], [__extract_rmw_last_block_map] and what clears them. *)
Definition extract_rmw_first_block_map (m : Z) : Z := Z.land m (Z.ones KERNEL_SECTORS_IN_NVMEIBC_SECTOR).
Definition extract_rmw_last_block_map (m : Z) : Z := Z.shiftr m KERNEL_SECTORS_IN_NVMEIBC_SECTOR.
Definition clear_rmw_first (m : Z) : Z :=
  Z.land m (Z.shiftl (Z.ones KERNEL_SECTORS_IN_NVMEIBC_SECTOR) KERNEL_SECTORS_IN_NVMEIBC_SECTOR).
Definition clear_rmw_last (m : Z) : Z := Z.land m (Z.ones KERNEL_SECTORS_IN_NVMEIBC_SECTOR).

(** ** One row *)
Section rows.
Context (slice_size snake_size replicas : Z) (no_read_map no_write_map : Z) (has_rw_parity : bool).

Definition mssa_map_index (column row : Z) : Z := map_rlba_offset column snake_size row replicas.

(** [mask |= member] for the mask of a row. *)
Definition row_or (rows : list Z) (row : Z) (member : Z) : res (list Z) :=
  x ← zget rows row; zset rows row (u32 (Z.lor x member)).

Definition add_bio (row column : Z) (w : work) : res work :=
  m ← set_bit (mssa_map_index column row) (w_bio w);
  rows ← row_or (w_row_bio w) row (Z.shiftl 1 column);
  Ok (with_bio w m rows).
Definition add_pre (row column : Z) (w : work) : res work :=
  m ← set_bit (mssa_map_index column row) (w_pre w);
  rows ← row_or (w_row_prd w) row (Z.shiftl 1 column);
  Ok (with_pre w m rows).
Definition more (n : Z) (w : work) : work := with_extra w (w_extra w + n).

(** The loop over the columns of a row of a map. *)
Definition row_mask_of (map row : Z) : res Z :=
  for_up (Z.to_nat replicas) (fun column mask =>
    b ← test_bit (mssa_map_index (Z.of_nat column) row) map;
    Ok (if (b : bool) then Z.lor mask (Z.shiftl 1 (Z.of_nat column)) else mask)) 0.

(** [nvmeibc_mssa_get_row_map_or_set] for the map of the I/O, with [set]. *)
Definition row_map_set (map_size row : Z) (w : work) : res (Z * work) :=
  if map_size =? replicas then Ok (u16 (w_bio w), w)
  else
    mask ← row_mask_of (w_bio w) row;
    rows ← zset (w_row_bio w) row (u32 mask);
    Ok (u16 mask, with_bio w (w_bio w) rows).

(** A row without blocks of the I/O. *)
Definition empty_row (row : Z) (w : work) : res work :=
  w ← (match w_ti w with
       | O => Ok w
       | S ti =>
           tx ← aget (w_tx w) ti;
           if tx =? 0 then Ok w else tx ← aset (w_tx w) (w_ti w) 0; Ok (with_tx w tx (S (w_ti w)))
       end);
  if (3 <=? w_si w)%nat then Fault BUG else
  match w_si w with
  | O => Ok w
  | S si =>
      s ← strategies_get (w_union w) si;
      if s =? NO_ACTION_STRATEGY then Ok w else
      ch ← aset (w_change w) si row;
      u ← strategies_set (w_union w) (w_si w) NO_ACTION_STRATEGY;
      Ok (with_strat w u ch (S (w_si w)))
  end.

(** *** A row of a write *)
Definition note_txbm (slice_txbm : Z) (w : work) : res work :=
  same ← (match w_ti w with O => Ok false | S ti => tx ← aget (w_tx w) ti; Ok (tx =? slice_txbm) end);
  if (same : bool) then Ok w else tx ← aset (w_tx w) (w_ti w) slice_txbm; Ok (with_tx w tx (S (w_ti w))).

Definition add_write_parities (row : Z) (w : work) : res work :=
  for_up (Z.to_nat (replicas - slice_size)) (fun i w =>
    let column := slice_size + Z.of_nat i in
    if Z.testbit no_write_map column then Ok w else w ← add_bio row column w; Ok (more 1 w)) w.

(** Does a read-modify-write of the first or last block force an update. *)
Definition rmw_forces (row first_row last_row : Z) (w : work) : res (bool * work) :=
  if w_512 w =? 0 then Ok (false, w) else
  if last_row <? 0 then Fault BUG else
  let first := (row =? first_row) && negb (extract_rmw_first_block_map (w_512 w) =? 0) in
  let m := if first then clear_rmw_first (w_512 w) else w_512 w in
  let last := (row =? last_row) && negb (extract_rmw_last_block_map m =? 0) in
  let m := if last then clear_rmw_last m else m in
  Ok (first || last, with_left w (w_nlbas w) m).

(** Do unreadable segments force a strategy: [(must_complement, must_update)]. *)
Definition degraded_forces (row : Z) (w : work) (must_update : bool) : res (bool * bool) :=
  for_up (Z.to_nat replicas) (fun i must =>
    let column := Z.of_nat i in
    if negb (Z.testbit no_read_map column) then Ok must
    else if column <? slice_size then
      b ← test_bit (mssa_map_index column row) (w_bio w);
      Ok (if (b : bool) then (true, must.2) else (must.1, true))
    else Ok (if Z.testbit no_write_map column then must else (true, must.2))) (false, must_update).

Definition set_prereads (row : Z) (read_all complement : bool) (w : work) : res work :=
  for_up (Z.to_nat replicas) (fun i w =>
    let column := Z.of_nat i in
    let dead := Z.testbit no_write_map column in
    if negb read_all && dead then
      if (slice_size <=? column) && negb complement then
        w ← add_pre row column w;
        b ← test_bit (mssa_map_index column row) (w_bio w);
        if (b : bool) then Fault BUG else Ok (more 1 w)
      else Ok w
    else
      has_write ← test_bit (mssa_map_index column row) (w_bio w);
      if read_all || xorb has_write complement then
        if (slice_size <=? column) && dead && read_all then Ok w else
        w ← add_pre row column w;
        Ok (if column <? slice_size then more 1 w else w)
      else Ok w) w.

(** Record the strategy of a row unless it is that of the row before. *)
Definition note_strategy (row : Z) (change : bool) (strat : Z) (w : work) : res work :=
  match w_si w with
  | O => u ← strategies_set (w_union w) 0 strat; Ok (with_strat w u (w_change w) 1)
  | S si =>
      s ← strategies_get (w_union w) si;
      if s =? strat then Ok w else
      ch ← (if change then aset (w_change w) si row else Ok (w_change w));
      u ← strategies_set (w_union w) (w_si w) strat;
      Ok (with_strat w u ch (S (w_si w)))
  end.

(** The choice of a strategy where parities can be written. *)
Definition choose_strategy (n_blocks_in_row : Z) (must_complement must_update : bool) : bool * bool * Z :=
  let read_all := must_complement && must_update in
  let protect_level := replicas - slice_size in
  let n_unreadable_parities := hweight 16 (Z.land no_read_map (Z.lxor (Z.ones replicas) (Z.ones slice_size))) in
  let n_bio_and_parity_cmds := protect_level + n_blocks_in_row - n_unreadable_parities in
  let n_complement_cmds := slice_size - n_blocks_in_row in
  let complement := (n_complement_cmds <=? n_bio_and_parity_cmds) && negb must_update || must_complement in
  (read_all, complement, if read_all then RESTORE_STRATEGY else if complement then COMPLEMENT_STRATEGY else UPDATE_STRATEGY).

(** No parity can be written: only the first and last block of a read-modify-write are
    read before. *)
Definition no_parity_row (map_size first_column first_row : Z) (w : work) : res (Z * work) :=
  if w_512 w =? 0 then Ok (COMPLEMENT_STRATEGY, w) else
  r ← (if extract_rmw_first_block_map (w_512 w) =? 0 then Ok (COMPLEMENT_STRATEGY, w)
       else
         let first_block_index := mssa_map_index first_column first_row in
         if negb (first_block_index =? find_first_bit (w_bio w) map_size) then Fault BUG else
         m ← set_bit first_block_index (w_pre w);
         let w := more 1 (with_pre w m (w_row_prd w)) in
         Ok (UPDATE_STRATEGY, with_left w (w_nlbas w) (clear_rmw_first (w_512 w))));
  let '(strat, w) := r in
  if extract_rmw_last_block_map (w_512 w) =? 0 then Ok (strat, w)
  else
    let last_block_index := find_last_bit (w_bio w) (map_size - (replicas - slice_size) * snake_size) in
    m ← set_bit last_block_index (w_pre w);
    let w := more 1 (with_pre w m (w_row_prd w)) in
    Ok (UPDATE_STRATEGY, with_left w (w_nlbas w) (clear_rmw_last (w_512 w))).

Definition write_row (map_size row first_column first_row last_row slice_map : Z) (w : work) : res work :=
  let slice_txbm := Z.land slice_map (Z.ones slice_size) in
  if negb (slice_map =? slice_txbm) then Fault BUG else
  w ← note_txbm slice_txbm w;
  rmw ← (if has_rw_parity then w ← add_write_parities row w; rmw_forces row first_row last_row w else Ok (false, w));
  let '(must_update, w) := rmw in
  must ← (if no_read_map =? 0 then Ok (false, must_update) else degraded_forces row w must_update);
  if has_rw_parity then
    let '(read_all, complement, strat) := choose_strategy (hweight 16 slice_map) must.1 must.2 in
    w ← set_prereads row read_all complement w;
    note_strategy row true strat w
  else
    r ← no_parity_row map_size first_column first_row w;
    note_strategy row false r.1 r.2.

(** *** A row of a degraded read *)

(** [while ((1 << column) & map) column++]. *)
Fixpoint skip_set (fuel : nat) (map column : Z) : res Z :=
  match fuel with
  | O => Fault NO_FUEL
  | S f => if Z.testbit map column then skip_set f map (column + 1) else Ok column
  end.

(** Unreadable data columns of the row: [(n_parities, n_unavailable_segs)]. *)
Definition count_unreadable (row : Z) (w : work) : res (Z * Z) :=
  for_up (Z.to_nat slice_size) (fun i n =>
    let column := Z.of_nat i in
    if negb (Z.testbit no_read_map column) then Ok n else
    b ← test_bit (mssa_map_index column row) (w_bio w);
    Ok (if (b : bool) then (n.1 + 1, n.2) else (n.1, n.2 + 1))) (0, 0).

Definition read_rest_of_slice (row : Z) (w : work) : res work :=
  for_up (Z.to_nat slice_size) (fun i w =>
    let column := Z.of_nat i in
    if Z.testbit no_read_map column then Ok w else
    b ← test_bit (mssa_map_index column row) (w_bio w);
    if (b : bool) then Ok w else w ← add_pre row column w; Ok (more 1 w)) w.

Definition note_n_parities (row n_parities : Z) (w : work) : res work :=
  match w_si w with
  | O => u ← n_parities_set (w_union w) 0 n_parities; Ok (with_strat w u (w_change w) 1)
  | S si =>
      n ← n_parities_get (w_union w) si;
      if n =? n_parities then Ok w else
      ch ← aset (w_change w) si row;
      u ← n_parities_set (w_union w) (w_si w) n_parities;
      Ok (with_strat w u ch (S (w_si w)))
  end.

(** [do ... while (--n_parities)], from column [column]; [n] is not zero. *)
Fixpoint read_parities (n : nat) (row column : Z) (w : work) : res work :=
  match n with
  | O => Ok w
  | S n' =>
      column ← skip_set 32 no_read_map column;
      w ← add_pre row column w;
      read_parities n' row (column + 1) (more 1 w)
  end.

Definition read_row (row : Z) (w : work) : res work :=
  n ← count_unreadable row w;
  if n.1 =? 0 then Ok w else
  let n_parities := n.1 + n.2 in
  w ← read_rest_of_slice row w;
  w ← note_n_parities row n_parities w;
  read_parities (Z.to_nat n_parities) row slice_size w.

(** *** The loop over the rows *)
Fixpoint rows_from (n : nat) (read_op : bool) (map_size nlbas first_column first_row last_row row : Z) (w : work) : res work :=
  match n with
  | O => Ok w
  | S n' =>
      r ← row_map_set map_size row w;
      let '(slice_map, w) := r in
      if slice_map =? 0 then
        w ← empty_row row w;
        rows_from n' read_op map_size nlbas first_column first_row last_row (row + 1) w
      else
        w ← (if read_op then read_row row w else write_row map_size row first_column first_row last_row slice_map w);
        if nlbas <? snake_size then
          let w := with_left w (w_nlbas w - 1) (w_512 w) in
          if w_nlbas w =? 0 then Ok w
          else rows_from n' read_op map_size nlbas first_column first_row last_row (row + 1) w
        else rows_from n' read_op map_size nlbas first_column first_row last_row (row + 1) w
  end.

(** Parities of the rows between the two ends of a short write. *)
Definition fill_holes (nlbas : Z) (w : work) : res work :=
  if negb ((nlbas <? snake_size) && (1 <? nlbas) && (w_si w =? 3)%nat) then Ok w else
  first_slice ← aget (w_change w) 0;
  last_slice ← aget (w_change w) 1;
  s0 ← strategies_get (w_union w) 0; s1 ← strategies_get (w_union w) 1; s2 ← strategies_get (w_union w) 2;
  if (s0 =? INVALID_STRATEGY) || (s2 =? INVALID_STRATEGY) || negb (s1 =? NO_ACTION_STRATEGY) then Fault BUG else
  if (first_slice =? 0) || (last_slice =? 0) then Fault BUG else
  if first_slice =? last_slice then Fault BUG else
  t1 ← aget (w_tx w) 1;
  if negb (t1 =? 0) then Fault BUG else
  for_up (Z.to_nat (replicas - slice_size)) (fun i w =>
    let column := slice_size + Z.of_nat i in
    if Z.testbit no_write_map column then Ok w else
    for_up (Z.to_nat (last_slice - first_slice)) (fun j w =>
      let map_index := mssa_map_index column (first_slice + Z.of_nat j) in
      b ← test_bit map_index (w_bio w);
      if (b : bool) then Fault BUG else
      m ← set_bit map_index (w_bio w);
      p ← test_bit map_index (w_pre w);
      if (p : bool) then Fault BUG else
      q ← set_bit map_index (w_pre w);
      Ok (more 1 (with_pre (with_bio w m (w_row_bio w)) q (w_row_prd w)))) w) w.

(** *** The blocks of the I/O *)

(** The [do ... while (n_lbas)] loop: the map and the number of snakes. *)
Fixpoint set_bio_blocks (fuel : nat) (n_slices one_snake data_snake n_lbas row column snake map : Z) : res (Z * Z) :=
  match fuel with
  | O => Fault NO_FUEL
  | S f =>
      let start := column * snake_size + row in
      let max_nlbas := Z.min n_lbas (data_snake - start) in
      if data_snake <=? start then Fault BUG else
      if n_slices <? snake * snake_size then Fault BUG else
      map ← bitmap_set map (one_snake * snake + start) max_nlbas;
      if n_lbas - max_nlbas =? 0 then Ok (map, snake + 1)
      else set_bio_blocks f n_slices one_snake data_snake (n_lbas - max_nlbas) 0 0 (snake + 1) map
  end.

(** Whole snakes: every parity that is not dead is written. *)
Fixpoint aligned_parities (n : nat) (one_snake last_snake column : Z) (w : work) : res (Z * work) :=
  match n with
  | O => Ok (column, w)
  | S n' =>
      column ← skip_set 32 no_write_map (column + 1);
      w ← for_up (Z.to_nat last_snake) (fun snake w =>
        m ← bitmap_set (w_bio w) (Z.of_nat snake * one_snake + column * snake_size) snake_size;
        Ok (more snake_size (with_bio w m (w_row_bio w)))) w;
      aligned_parities n' one_snake last_snake column w
  end.

Definition nvmeibc_mssa_set_all_row_maps (map_size : Z) (w : work) : res work :=
  let n_slices := map_size / replicas in
  if n_slices <=? 1 then Fault BUG else
  for_up (Z.to_nat n_slices) (fun row w =>
    b ← aget (w_row_bio w) row;
    if negb (b =? 0) then Fault BUG else
    p ← aget (w_row_prd w) row;
    if negb (p =? 0) then Fault BUG else
    rows ← aset (w_row_bio w) row (Z.ones replicas);
    Ok (with_bio w (w_bio w) rows)) w.

Definition aligned_write (map_size one_snake last_snake : Z) (w : work) : res work :=
  let n_parities := replicas - slice_size in
  let parity_map := GENMASK (replicas - 1) slice_size in
  let n_parities := if no_write_map =? 0 then n_parities else n_parities - hweight 32 (Z.land parity_map no_write_map) in
  u ← strategies_set (w_union w) (w_si w) COMPLEMENT_STRATEGY;
  tx ← aset (w_tx w) 0 (Z.ones slice_size);
  let w := with_tx (with_strat w u (w_change w) (w_si w)) tx (w_ti w) in
  r ← aligned_parities (Z.to_nat n_parities) one_snake last_snake (slice_size - 1) w;
  let '(column, w) := r in
  w ← (if 1 <? map_size / replicas then nvmeibc_mssa_set_all_row_maps map_size w else Ok w);
  if replicas <=? column then Fault BUG else Ok w.
End rows.

(** [memset(a, -1, n)] of an array of bytes. *)
Definition memset_m1 (l : list Z) (n : Z) : res (list Z) :=
  if Z.of_nat (length l) <? n then Fault OOB else Ok (replicate (Z.to_nat n) (-1) ++ drop (Z.to_nat n) l).

Definition mssa_init (m0 : mssa) (pac : alloc_count) (start_lba nlbas : Z) (read_op : bool) (binje snake_size preread_512_map : Z)
    (pr : raid1) (cd : calculated_data) (rlba : Z) : res (mssa * alloc_count) :=
  let owner_seg := get_owner_seg_slice_start pr rlba in
  let replicas := replicas pr in
  let slice_size := slice_size pr in
  b ← zget (cd_roles cd) owner_seg;
  let no_read_map := Z.land (Z.lnot (rb_readable b)) (rb_all b) in
  let no_write_map := rb_dead b in
  let has_rw_parity := has_writable_pari b in
  let n_slices := if read_op then LOCKSET_SLICES else binje in
  let one_snake := replicas * snake_size in
  let data_snake := slice_size * snake_size in
  let snake_start := start_lba mod data_snake in
  let first_column := snake_start / snake_size in
  let first_row := snake_start mod snake_size in
  let no_rw_p := negb has_rw_parity in
  let no_jour := no_rw_p || read_op in
  blocks ← set_bio_blocks snake_size (S (Z.to_nat nlbas)) n_slices one_snake data_snake nlbas first_row first_column 0 (ms_bio_map m0);
  let '(map, last_snake_index) := blocks in
  let map_size := one_snake * last_snake_index in
  let last_row := if preread_512_map =? 0 then -1 else mssa_map_index_to_row (find_last_bit map map_size) snake_size replicas in
  let w := Work map (ms_pre_read m0) (ms_row_bio m0) (ms_row_prd m0) (ms_union m0) (ms_change m0) (ms_tx_bms m0)
             (pac_n_extra_blocks pac) 0 0 nlbas preread_512_map in
  w ← (if negb read_op && (snake_start =? 0) && (nlbas mod data_snake =? 0) && (preread_512_map =? 0) then
         aligned_write slice_size snake_size replicas no_write_map map_size one_snake last_snake_index w
       else if negb read_op || negb (no_read_map =? 0) then
         w ← rows_from slice_size snake_size replicas no_read_map no_write_map has_rw_parity (Z.to_nat (map_size / replicas))
               read_op map_size nlbas first_column first_row last_row 0 w;
         if read_op then Ok w else fill_holes slice_size snake_size replicas no_write_map nlbas w
       else Ok w);
  let pre_read := if read_op then Z.lor (w_pre w) (Z.land (w_bio w) (Z.ones (64 * ((map_size + 63) / 64)))) else w_pre w in
  cr ← memset_m1 (ms_cmd_read m0) replicas;
  cw ← (if read_op then Ok (ms_cmd_write m0) else memset_m1 (ms_cmd_write m0) replicas);
  cj ← (if read_op || no_jour then Ok (ms_cmd_jour m0) else memset_m1 (ms_cmd_jour m0) replicas);
  c0 ← aget (w_change w) 0; c1 ← aget (w_change w) 1;
  if (w_si w <=? 1)%nat && negb ((c0 =? 0) && (c1 =? 0)) then Fault BUG else
  if (3 <? w_si w)%nat then Fault BUG else
  Ok (Mssa slice_size snake_size replicas owner_seg map_size (ms_n_reads m0) (ms_n_writes m0) pre_read (w_bio w) cr cw cj
        (if (w_si w <=? 1)%nat then true else ms_single_strat m0) no_jour no_rw_p (w_union w) (w_change w) (w_tx w)
        (replicate 12 (Z.ones 32)) (replicate 12 (Z.ones 32)) (w_row_prd w) (w_row_bio w),
      Pac (pac_nlocks pac) (pac_ncmds pac) (w_extra w) (pac_mssa_bio_size pac) (pac_mssa_prd_size pac) (pac_mssa_md_block_size pac)
        (pac_has_dgrd_topology pac)).

(** ** Uses of the maps *)
Definition nvmeibc_mssa_get_row_map (m : mssa) (row : Z) (is_bio : bool) : res Z :=
  if ms_map_size m =? ms_replicas m then Ok (u16 (if is_bio then ms_bio_map m else ms_pre_read m))
  else x ← zget (if is_bio then ms_row_bio m else ms_row_prd m) row; Ok (u16 x).

(** [nvmeibc_mssa_get_column_map_or_set] with [set]: the mask of a column of a map. *)
Definition column_mask (m : mssa) (map column : Z) : res Z :=
  for_up (Z.to_nat (ms_map_size m / ms_replicas m)) (fun row mask =>
    b ← test_bit (map_rlba_offset column (ms_snake_size m) (Z.of_nat row) (ms_replicas m)) map;
    Ok (if (b : bool) then Z.lor mask (u32 (Z.shiftl 1 (Z.of_nat row))) else mask)) 0.

Definition calc_n_cmds_in_column (col_bmp : Z) (size : nat) : Z := hweight size (Z.ldiff col_bmp (Z.shiftr col_bmp 1)).

Definition with_counts (m : mssa) (prd bio : list Z) (n_reads n_writes : Z) : mssa :=
  Mssa (ms_slice_size m) (ms_snake_size m) (ms_replicas m) (ms_owner_seg m) (ms_map_size m) n_reads n_writes (ms_pre_read m)
    (ms_bio_map m) (ms_cmd_read m) (ms_cmd_write m) (ms_cmd_jour m) (ms_single_strat m) (ms_no_jour m) (ms_no_rw_p m)
    (ms_union m) (ms_change m) (ms_tx_bms m) prd bio (ms_row_prd m) (ms_row_bio m).

Definition mssa_count_number_of_required_bio_cmds (m : mssa) (op : block_op) : res (Z * mssa) :=
  let max_slices := Z.to_nat (ms_map_size m / ms_replicas m) in
  c ← for_up (Z.to_nat (ms_replicas m)) (fun column (c : list Z * list Z * Z * Z) =>
    let '(prd, bio, n_reads, n_writes) := c in
    column_mask0 ← column_mask m (ms_pre_read m) (Z.of_nat column);
    prd ← aset prd column column_mask0;
    bio_mask ← column_mask m (ms_bio_map m) (Z.of_nat column);
    bio ← aset bio column bio_mask;
    let n_writes := if bool_decide (op = IO_OP_WRITE) && negb (bio_mask =? 0)
                    then n_writes + calc_n_cmds_in_column bio_mask max_slices else n_writes in
    Ok (prd, bio, n_reads + calc_n_cmds_in_column column_mask0 max_slices, n_writes))
    (ms_col_prd m, ms_col_bio m, 0, 0);
  let '(prd, bio, n_reads, n_writes) := c in
  if n_reads + n_writes =? 0 then Fault BUG else
  let n_writes := n_writes * (1 + (if ms_no_jour m then 0 else 1)) in
  Ok (n_reads + n_writes, with_counts m prd bio n_reads n_writes).

(** The check that is compiled out: blocks to allocate besides those of the I/O. *)
Definition mssa_count_additional_blocks (m : mssa) (nlbas : Z) (op : block_op) : res Z :=
  let size := Z.to_nat (ms_map_size m) in
  let rv := hweight size (ms_pre_read m) - nlbas in
  if decide (op = IO_OP_READ) then Ok rv else
  for_up (Z.to_nat (ms_map_size m / ms_replicas m)) (fun row rv =>
    for_up (Z.to_nat (ms_replicas m - ms_slice_size m)) (fun i rv =>
      let index := map_rlba_offset (ms_slice_size m + Z.of_nat i) (ms_snake_size m) (Z.of_nat row) (ms_replicas m) in
      p ← test_bit index (ms_pre_read m);
      b ← test_bit index (ms_bio_map m);
      Ok (if p && b then rv - 1 else rv)) rv) (rv + hweight size (ms_bio_map m)).

(** Does a write with strategies [i], [i + 1], ... need a second map of buffers. *)
Fixpoint needs_preread_buffers (n : nat) (u : list Z) (i : nat) : res bool :=
  match n with
  | O => Ok false
  | S n' =>
      s ← strategies_get u i;
      if s =? INVALID_STRATEGY then Ok false
      else if negb (s =? COMPLEMENT_STRATEGY) && negb (s =? NO_ACTION_STRATEGY) then Ok true
      else needs_preread_buffers n' u (S i)
  end.

Definition count_gf_blocks_and_md_for_bio (m : mssa) (op : block_op) (pac : alloc_count) : res alloc_count :=
  s0 ← strategies_get (ms_union m) 0;
  if s0 =? INVALID_STRATEGY then Ok pac else
  update ← (if decide (op = IO_OP_READ) then Ok false else needs_preread_buffers N_MAX_STRATEGIES (ms_union m) 0);
  let size := 8 * ms_map_size m in
  Ok (Pac (pac_nlocks pac) (pac_ncmds pac) (pac_n_extra_blocks pac) size (if (update : bool) then size else pac_mssa_prd_size pac)
        (if decide (op = IO_OP_READ) then pac_mssa_md_block_size pac else size) (pac_has_dgrd_topology pac)).

Definition prepare_alloc_counts_mssa (pac : alloc_count) (m : mssa) (op : block_op) : res (alloc_count * mssa) :=
  c ← mssa_count_number_of_required_bio_cmds m op;
  let '(ncmds, m) := c in
  if ncmds =? 0 then Fault BUG else
  pac ← count_gf_blocks_and_md_for_bio m op
    (Pac (pac_nlocks pac) ncmds (pac_n_extra_blocks pac) (pac_mssa_bio_size pac) (pac_mssa_prd_size pac) (pac_mssa_md_block_size pac)
       (pac_has_dgrd_topology pac));
  Ok (pac, m).

(** [cd_of c s] is the derived data of raid [s] of chunk [c], [maps_512] what
    [get_valid_wrapper_block_maps] says of the I/O. *)
Definition prepare_alloc_piece (raid_l0 : lock_ownership_map) (t : topology) (cd_of : Z → Z → calculated_data) (op : block_op)
    (snake_size binje nlbas maps_512 : Z) (p : iter_res) (st : alloc_count * mssa) : res (alloc_count * mssa) :=
  match res_r p with
  | None => Fault NULL_DEREF
  | Some cr =>
      praid ← get_raid t cr.1 cr.2;
      let cd := cd_of cr.1 cr.2 in
      rlmap ← lock_ownership_build_raid_map praid (res_rlba p) op raid_l0;
      let pac := Pac (pac_nlocks st.1 + n_locks rlmap) (pac_ncmds st.1) (pac_n_extra_blocks st.1) (pac_mssa_bio_size st.1)
                   (pac_mssa_prd_size st.1) (pac_mssa_md_block_size st.1) (pac_has_dgrd_topology st.1) in
      let alignment_sectors := snake_size * slice_size praid in
      r ← mssa_init st.2 pac (res_rlba p mod alignment_sectors) nlbas (bool_decide (op = IO_OP_READ)) binje snake_size maps_512
            praid cd (res_rlba p);
      r ← prepare_alloc_counts_mssa r.2 r.1 op;
      r0 ← zget (cd_roles cd) 0;
      Ok (Pac (pac_nlocks r.1) (pac_ncmds r.1) (pac_n_extra_blocks r.1) (pac_mssa_bio_size r.1) (pac_mssa_prd_size r.1)
            (pac_mssa_md_block_size r.1) (pac_has_dgrd_topology r.1 || negb (rb_readable r0 =? rb_all r0)), r.2)
  end.

Definition prepare_alloc_counts_calc (raid_l0 : lock_ownership_map) (t : topology) (cd_of : Z → Z → calculated_data) (op : block_op)
    (snake_size binje nlbas start_lba c_i maps_512 : Z) (pac : alloc_count) (m : mssa) : res (alloc_count * mssa) :=
  iter_while (S (Z.to_nat nlbas)) t (dp_io_topo_iterator_init start_lba nlbas c_i) BY_LOCK
    (fun p st => st ← prepare_alloc_piece raid_l0 t cd_of op snake_size binje nlbas maps_512 p st; Ok (p, st)) (pac, m).

(** Segments an I/O writes. *)
Definition nvmeibc_mssa_calc_write_bmp (m : mssa) : res Z :=
  t0 ← aget (ms_tx_bms m) 0; t1 ← aget (ms_tx_bms m) 1; t2 ← aget (ms_tx_bms m) 2; t3 ← aget (ms_tx_bms m) 3;
  t4 ← aget (ms_tx_bms m) 4;
  let write_bmp := Z.lor (GENMASK (ms_replicas m - 1) (ms_slice_size m)) (Z.lor (Z.lor (Z.lor (Z.lor t0 t1) t2) t3) t4) in
  Ok (u16 (rol32_width (u16 write_bmp) (ms_owner_seg m) (ms_replicas m))).

Definition get_row_tx_bm (m : mssa) (row : Z) : res Z :=
  x ← nvmeibc_mssa_get_row_map m row true; Ok (Z.land (GENMASK (ms_slice_size m - 1) 0) x).

Definition nvmeibc_mssa_calc_full_blockset_write_bmp (m : mssa) : res Z :=
  if ms_map_size m <? ms_replicas m * LOCKSET_SLICES then Ok 0 else
  first ← get_row_tx_bm m 0;
  last ← get_row_tx_bm m (LOCKSET_SLICES - 1);
  let full := Z.lor (Z.land first last) (GENMASK (ms_replicas m - 1) (ms_slice_size m)) in
  Ok (u16 (rol32_width (u16 full) (ms_owner_seg m) (ms_replicas m))).

(** ** The strategy of each row, as the parity calculation follows it *)
Record strat_changer : Set := Changer { sc_cur_i : nat; sc_change_row : Z; sc_strat : Z }.
Definition changer_start (m : mssa) : res strat_changer :=
  c ← aget (ms_change m) 0; s ← strategies_get (ms_union m) 0; Ok (Changer 0 c s).
Definition changer_row (m : mssa) (row : Z) (s : strat_changer) : res strat_changer :=
  if negb (ms_single_strat m) && (sc_change_row s =? row) then
    c ← aget (ms_change m) (S (sc_cur_i s));
    st ← strategies_get (ms_union m) (S (sc_cur_i s));
    Ok (Changer (S (sc_cur_i s)) c st)
  else Ok s.

(** Strategies of rows [0 .. n-1]. *)
Definition strategies_of_rows (m : mssa) (n : nat) : res (list Z) :=
  s ← changer_start m;
  r ← for_up n (fun row (r : strat_changer * list Z) => s ← changer_row m (Z.of_nat row) r.1; Ok (s, r.2 ++ [sc_strat s])) (s, []);
  Ok r.2.
