(* ===== verification/MssaProof.v ===== *)
(** Proofs about the slice analyser (Mssa.v).

    Rows are independent: each step of the analyser changes the cells of one row of
    the two maps ([touches]).  [row_plan] says, as a function of the columns a row
    writes, what the row reads before, and that this is enough to make the
    parities. *)
From stdpp Require Import base list numbers strings.
From Stdlib Require Import ZArith Lia.
From S2P Require Import Prelude CMemory BitFields DirtyBits JournalMd Topology TopoIter AddrMap Roles LockServer LockPlan Mssa.
Local Open Scope Z_scope.

(** ** Lists of strategies *)
Lemma strategies_set_ok u i v : length u = 20%nat → (i < 5)%nat → 0 ≤ v < 2 ^ 8 → ∃ u', strategies_set u i v = Ok u' ∧ length u' = 20%nat ∧
  strategies_get u' i = Ok v ∧ ∀ j, j ≠ i → strategies_get u' j = strategies_get u j.
Proof.
  intros Hu Hi Hv. unfold strategies_set. rewrite aset_ok by lia. rstep. rewrite aset_ok by (rewrite ?length_insert; lia). rstep.
  rewrite aset_ok by (rewrite ?length_insert; lia). rstep. rewrite aset_ok by (rewrite ?length_insert; lia).
  eexists. split; [reflexivity|]. split; [by rewrite !length_insert|].
  assert (∀ k, 8 ≤ k → Z.shiftr v k = 0) as Hz. { intros k Hk. apply Z.shiftr_eq_0; [lia|]. destruct (decide (v = 0)) as [->|]; [cbn; lia|].
    assert (Z.log2 v < 8) by (apply Z.log2_lt_pow2; lia). lia. }
  rewrite !Hz, (wrap_small 8 v), (wrap_small 8 0) by lia. split.
  - unfold strategies_get, aget.
    repeat first [rewrite list_lookup_insert_eq by (rewrite ?length_insert; lia)|rewrite list_lookup_insert_ne by lia]. rstep. f_equal. lia.
  - intros j Hj. unfold strategies_get, aget. by rewrite !list_lookup_insert_ne by lia.
Qed.

(** Number of runs of equal values among [f 0 .. f (n - 1)]. *)
Fixpoint runs_of (f : nat → Z) (n : nat) : nat :=
  match n with
  | O => 0%nat
  | S m => match m with O => 1%nat | S k => (runs_of f m + (if (f m =? f k)%Z then 0 else 1))%nat end
  end.

Lemma runs_of_S f n : runs_of f (S (S n)) = (runs_of f (S n) + (if (f (S n) =? f n)%Z then 0 else 1))%nat.
Proof. done. Qed.
Lemma runs_of_pos f n : (1 ≤ runs_of f (S n))%nat.
Proof. induction n as [|n IH]; [done|]. rewrite runs_of_S. lia. Qed.
Lemma runs_of_mono f m n : (m ≤ n)%nat → (runs_of f m ≤ runs_of f n)%nat.
Proof. induction 1 as [|n _ IH]; [done|]. destruct n; [cbn in *; lia|]. rewrite runs_of_S. lia. Qed.
Lemma runs_of_1 f : runs_of f 1 = 1%nat.
Proof. done. Qed.
#[local] Opaque runs_of.

(** [u] and [ch] describe the strategies [f] of the first [n] rows. *)
Record noted (f : nat → Z) (n : nat) (u ch : list Z) : Prop := {
  nt_union : length u = 20%nat; nt_change : length ch = 4%nat;
  nt_get : ∀ r, (r < n)%nat → strategies_get u (runs_of f (S r) - 1) = Ok (f r);
  nt_set : ∀ r, (S r < n)%nat → f (S r) ≠ f r → ch !! (runs_of f (S r) - 1)%nat = Some (Z.of_nat (S r));
  nt_zero : ∀ j x, ch !! j = Some x → x = 0 ∨ ∃ r, (S r < n)%nat ∧ f (S r) ≠ f r ∧ j = (runs_of f (S r) - 1)%nat ∧ x = Z.of_nat (S r)
}.

Lemma noted_nil f : noted f 0 (replicate 20 0) (replicate 4 0).
Proof. split; try done; try lia. intros j x [-> _]%lookup_replicate. by left. Qed.

Lemma with_strat_id w : with_strat w (w_union w) (w_change w) (w_si w) = w.
Proof. by destruct w. Qed.

Lemma note_strategy_ok f n w : noted f n (w_union w) (w_change w) → w_si w = runs_of f n → (runs_of f (S n) ≤ 5)%nat → 0 ≤ f n < 2 ^ 8 →
  ∃ u ch, note_strategy (Z.of_nat n) true (f n) w = Ok (with_strat w u ch (runs_of f (S n))) ∧ noted f (S n) u ch.
Proof.
  intros [Hu Hc Hget Hset Hzero] Hsi Hruns Hv. unfold note_strategy. destruct n as [|n].
  { rewrite Hsi. destruct (strategies_set_ok (w_union w) 0 (f 0%nat) Hu ltac:(lia) Hv) as (u & Eu & Lu & G0 & _). rewrite Eu.
    eexists _, _. split; [reflexivity|]. split; try done; try lia.
    - intros r Hr. by replace r with 0%nat by lia.
    - intros j x Hx. destruct (Hzero j x Hx) as [|(r & Hr & _)]; [by left|lia]. }
  pose proof (runs_of_pos f n) as Hp. pose proof (Hget n ltac:(lia)) as Hg. rewrite runs_of_S in *.
  destruct (w_si w) as [|k] eqn:Ek; [lia|]. rewrite <- Hsi in *. replace (S k - 1)%nat with k in Hg by lia. rewrite Hg. rstep.
  rewrite (Z.eqb_sym (f n)). destruct (Z.eqb_spec (f (S n)) (f n)) as [E|E].
  - eexists _, _. split; [rewrite Nat.add_0_r, <- Ek; by rewrite with_strat_id|]. split; try done.
    + intros r Hr. destruct (decide (r = S n)) as [->|]; [|apply Hget; lia]. rewrite runs_of_S, (proj2 (Z.eqb_eq _ _) E), E, <- Hsi.
      by replace (S k + 0 - 1)%nat with k by lia.
    + intros r Hr Hne. apply Hset; [|done]. destruct (decide (r = n)) as [->|]; [done|lia].
    + intros j x Hx. destruct (Hzero j x Hx) as [|(r & Hr & H)]; [by left|right; exists r; split; [lia|done]].
  - rewrite aset_ok by lia. rstep. destruct (strategies_set_ok (w_union w) (S k) (f (S n)) Hu ltac:(lia) Hv) as (u & -> & Lu & G & Gne).
    rstep. eexists _, _. split; [by replace (S k + 1)%nat with (S (S k)) by lia|]. split; [done|by rewrite length_insert|..].
    + intros r Hr. destruct (decide (r = S n)) as [->|].
      * rewrite runs_of_S, (proj2 (Z.eqb_neq _ _) E), <- Hsi. by replace (S k + 1 - 1)%nat with (S k) by lia.
      * pose proof (runs_of_mono f (S r) (S n) ltac:(lia)). rewrite Gne by lia. apply Hget. lia.
    + intros r Hr Hne. destruct (decide (r = n)) as [->|]; [rewrite <- Hsi; replace (S k - 1)%nat with k by lia; by rewrite list_lookup_insert_eq by lia|].
      assert (runs_of f (S (S r)) ≤ runs_of f (S n))%nat by (apply runs_of_mono; lia). rewrite runs_of_S in H. destruct (Z.eqb_spec (f (S r)) (f r)); [done|].
      pose proof (runs_of_pos f r). rewrite list_lookup_insert_ne by lia. apply Hset; [lia|done].
    + intros j x Hx. apply list_lookup_insert_Some in Hx as [(<- & <- & _)|(Hj & Hx)].
      * right. exists n. split_and!; [lia|done|lia|done].
      * destruct (Hzero j x Hx) as [|(r & Hr & H)]; [by left|right; exists r; split; [lia|done]].
Qed.

Lemma first_change f n : (2 ≤ runs_of f n)%nat → ∃ r, (S r < n)%nat ∧ f (S r) ≠ f r ∧ runs_of f (S r) = 1%nat.
Proof.
  induction n as [|n IH]; [by intros ?%Nat.nle_succ_0|]. destruct n as [|n]; [rewrite runs_of_1; lia|]. rewrite runs_of_S. intros H.
  destruct (decide (2 ≤ runs_of f (S n))%nat) as [H2|H2]; [destruct (IH H2) as (r & Hr & ?); exists r; split; [lia|done]|].
  pose proof (runs_of_pos f n). exists n. destruct (Z.eqb_spec (f (S n)) (f n)); [lia|]. split_and!; [lia|done|lia].
Qed.

Lemma strategies_of_rows_ok m f n : noted f n (ms_union m) (ms_change m) → (1 ≤ n)%nat → (runs_of f n ≤ 4)%nat →
  ms_single_strat m = (runs_of f n <=? 1)%nat → strategies_of_rows m n = Ok (f <$> seq 0 n).
Proof.
  intros [_ Hc Hget Hset Hzero] Hn Hruns Hsingle. unfold strategies_of_rows, changer_start.
  destruct (lookup_lt_is_Some_2 (ms_change m) 0) as [c0 Ec0]; [lia|]. rewrite (proj2 (aget_ok _ _ _) Ec0). rstep.
  rewrite (Hget 0%nat Hn : strategies_get _ 0 = _). rstep.
  set (I := fun (k : nat) (r : strat_changer * list Z) => r.2 = f <$> seq 0 k ∧ sc_cur_i r.1 = (runs_of f (Nat.max k 1) - 1)%nat ∧
    ms_change m !! sc_cur_i r.1 = Some (sc_change_row r.1) ∧ sc_strat r.1 = f (k - 1)%nat).
  match goal with |- (for_up n ?b ?s ≫= _) = _ => destruct (for_up_inv b I n s) as (s' & -> & E & _) end; [done| |rstep; by rewrite E].
  intros k [[cur ch st] l] Hk (El & Ecur & Ech & Est). cbn [fst snd sc_cur_i sc_change_row sc_strat] in *. subst l st.
  unfold I. rewrite seq_S, fmap_app. cbn [fmap list_fmap]. unfold changer_row. cbn [sc_change_row sc_cur_i].
  destruct (decide (k = 0%nat ∨ f k = f (k - 1)%nat)) as [Hsame|Hdiff].
  - assert (negb (ms_single_strat m) && (ch =? Z.of_nat k) = false) as ->.
    { apply andb_false_iff. rewrite Hsingle. destruct (Nat.leb_spec (runs_of f n) 1) as [|H2]; [by left|right]. apply Z.eqb_neq. intros ->.
      destruct k as [|k].
      - destruct (first_change f n H2) as (r & Hr & Hne & H1). pose proof (Hset r Hr Hne) as Hx. rewrite H1 in Hx.
        rewrite Ecur in Ech. change (Nat.max 0 1) with 1%nat in Ech. rewrite runs_of_1 in Ech. rewrite Ech in Hx. injection Hx as Hx. lia.
      - destruct (Hzero _ _ Ech) as [|(r & Hr & Hne & _ & Ex)]; [lia|]. assert (r = k) as -> by lia. destruct Hsame as [|Hs]; [lia|].
        by replace (S k - 1)%nat with k in Hs by lia. }
    rstep. eexists. split; [reflexivity|]. split_and!; cbn [fst snd sc_cur_i sc_change_row sc_strat]; try done.
    + f_equal. f_equal. destruct k; [done|]. destruct Hsame as [|Hs]; [lia|]. by rewrite <- Hs.
    + rewrite Ecur. destruct k as [|k]; [done|]. destruct Hsame as [|Hs]; [lia|]. replace (S k - 1)%nat with k in Hs by lia.
      replace (Nat.max (S k) 1) with (S k) by lia. replace (Nat.max (S (S k)) 1) with (S (S k)) by lia. rewrite runs_of_S, Hs, Z.eqb_refl. lia.
    + replace (S k - 1)%nat with k by lia. destruct Hsame as [->|Hs]; [done|by rewrite Hs].
  - destruct k as [|k]; [naive_solver|]. replace (S k - 1)%nat with k in * by lia. assert (f (S k) ≠ f k) as Hne by naive_solver.
    pose proof (Hset k Hk Hne) as Hx. replace (Nat.max (S k) 1) with (S k) in Ecur by lia. rewrite <- Ecur in Hx. rewrite Hx in Ech. injection Ech as <-.
    pose proof (runs_of_mono f (S (S k)) n ltac:(lia)) as Hm. pose proof (runs_of_pos f k). pose proof (Hget (S k) Hk) as Hg.
    rewrite runs_of_S, (proj2 (Z.eqb_neq _ _) Hne) in Hm, Hg. rewrite Hsingle, (proj2 (Nat.leb_gt _ _)), Z.eqb_refl by lia. cbn [negb andb].
    destruct (lookup_lt_is_Some_2 (ms_change m) (S cur)) as [c Ec]; [lia|]. rewrite (proj2 (aget_ok _ _ _) Ec). rstep.
    replace (runs_of f (S k) + 1 - 1)%nat with (S cur) in Hg by lia. rewrite Hg. rstep. eexists. split; [reflexivity|].
    split_and!; cbn [fst snd sc_cur_i sc_change_row sc_strat]; try done.
    replace (Nat.max (S (S k)) 1) with (S (S k)) by lia. rewrite runs_of_S, (proj2 (Z.eqb_neq _ _) Hne). lia.
Qed.

(** [tx] holds the masks [t] of the first [n] rows. *)
Record noted_tx (t : nat → Z) (n : nat) (tx : list Z) : Prop := {
  nx_len : length tx = 5%nat;
  nx_last : ∀ k, n = S k → tx !! (runs_of t n - 1)%nat = Some (t k);
  nx_zero : ∀ j x, (runs_of t n ≤ j)%nat → tx !! j = Some x → x = 0;
  nx_bits : ∀ c, (∃ j x, tx !! j = Some x ∧ Z.testbit x c = true) ↔ ∃ r, (r < n)%nat ∧ Z.testbit (t r) c = true
}.

Lemma noted_tx_nil t : noted_tx t 0 (replicate 5 0).
Proof.
  split; try done; [by intros j x _ [-> _]%lookup_replicate|]. intros c. split; [|intros (r & Hr & _); lia].
  intros (j & x & [-> _]%lookup_replicate & Hb). by rewrite Z.bits_0 in Hb.
Qed.

Lemma with_tx_id w : with_tx w (w_tx w) (w_ti w) = w.
Proof. by destruct w. Qed.

Lemma noted_tx_snoc t n tx : noted_tx t n tx → (runs_of t n < 5)%nat → runs_of t (S n) = S (runs_of t n) →
  noted_tx t (S n) (<[runs_of t n := t n]> tx).
Proof.
  intros [Hl _ Hz Hb] Hr E. split.
  - by rewrite length_insert.
  - intros k [= <-]. rewrite E. replace (S (runs_of t n) - 1)%nat with (runs_of t n) by lia. by rewrite list_lookup_insert_eq by lia.
  - intros j x Hj. rewrite E in Hj. rewrite list_lookup_insert_ne by lia. apply Hz. lia.
  - intros c. split.
    + intros (j & x & [(<- & <- & _)|(Hj & Hx)]%list_lookup_insert_Some & Hc); [by exists n; split; [lia|]|].
      destruct (proj1 (Hb c)) as (r & Hr' & Hc'); [by exists j, x|]. exists r. split; [lia|done].
    + intros (r & Hr' & Hc). destruct (decide (r = n)) as [->|].
      * exists (runs_of t n), (t n). split; [by apply list_lookup_insert_eq; lia|done].
      * destruct (proj2 (Hb c)) as (j & x & Hx & Hc'); [exists r; split; [lia|done]|]. exists j, x. split; [|done].
        rewrite list_lookup_insert_ne; [done|]. intros <-. by rewrite (Hz _ _ (le_n _) Hx), Z.bits_0 in Hc'.
Qed.

Lemma note_txbm_ok t n w : noted_tx t n (w_tx w) → w_ti w = runs_of t n → (runs_of t (S n) ≤ 5)%nat →
  ∃ tx, note_txbm (t n) w = Ok (with_tx w tx (runs_of t (S n))) ∧ noted_tx t (S n) tx.
Proof.
  intros Ht Hti Hr. unfold note_txbm. destruct n as [|n].
  { rewrite Hti. change (runs_of t 0) with 0%nat. rstep. rewrite aset_ok by (rewrite (nx_len _ _ _ Ht); lia). rstep.
    eexists. split; [reflexivity|]. by apply (noted_tx_snoc t 0). }
  pose proof (nx_last _ _ _ Ht n eq_refl) as Hlast. pose proof (runs_of_pos t n). destruct (w_ti w) as [|k] eqn:Ek; [lia|].
  replace (runs_of t (S n) - 1)%nat with k in Hlast by lia. rewrite (proj2 (aget_ok _ _ _) Hlast). rstep. pose proof (runs_of_S t n) as Hs.
  rewrite Z.eqb_sym. destruct (Z.eqb_spec (t (S n)) (t n)) as [E|E].
  - exists (w_tx w). split; [rewrite Hs, Nat.add_0_r, <- Hti, <- Ek; by rewrite with_tx_id|]. destruct Ht as [Hl _ Hz Hb]. split; [done|..].
    + intros ? [= <-]. rewrite Hs, E. replace (runs_of t (S n) + 0 - 1)%nat with k by lia. done.
    + intros j x Hj. apply Hz. lia.
    + intros c. rewrite Hb. split; intros (r & Hr' & Hc); [exists r; split; [lia|done]|].
      destruct (decide (r = S n)) as [->|]; [exists n; rewrite <- E|exists r]; split; done || lia.
  - rewrite aset_ok by (rewrite (nx_len _ _ _ Ht); lia). rstep. exists (<[S k := t (S n)]> (w_tx w)). split; [do 2 f_equal; lia|].
    rewrite Hti. apply noted_tx_snoc; [done|lia|lia].
Qed.

(** ** Sums and masks over columns *)
Fixpoint total (n : nat) (e : Z → Z) : Z := match n with O => 0 | S n' => total n' e + e (Z.of_nat n') end.

(** Is there a column below [n] with [f]. *)
Fixpoint some (n : nat) (f : Z → bool) : bool := match n with O => false | S n' => some n' f || f (Z.of_nat n') end.

Lemma some_spec n f : some n f = true ↔ ∃ c, 0 ≤ c < Z.of_nat n ∧ f c = true.
Proof.
  induction n as [|n IH]; cbn [some]; [split; [done|intros (c & Hc & _); lia]|]. rewrite orb_true_iff, IH. split.
  - intros [(c & Hc & Hf)|Hf]; [exists c|exists (Z.of_nat n)]; split; done || lia.
  - intros (c & Hc & Hf). destruct (decide (c = Z.of_nat n)) as [->|]; [by right|left; exists c; split; [lia|done]].
Qed.

Lemma some_none n f c : some n f = false → 0 ≤ c < Z.of_nat n → f c = false.
Proof. intros Hs Hc. destruct (f c) eqn:E; [|done]. rewrite (proj2 (some_spec n f)) in Hs; [done|by exists c]. Qed.

Lemma some_ext n f g : (∀ c, 0 ≤ c < Z.of_nat n → f c = g c) → some n f = some n g.
Proof. induction n as [|n IH]; intros H; cbn; [done|]. rewrite H by lia. f_equal. apply IH. intros; apply H; lia. Qed.

Lemma total_le n f g : (∀ c, 0 ≤ c < Z.of_nat n → f c ≤ g c) → total n f ≤ total n g.
Proof. induction n as [|n IH]; intros H; cbn; [lia|]. pose proof (H (Z.of_nat n) ltac:(lia)). pose proof (IH ltac:(intros; apply H; lia)). lia. Qed.

Lemma total_ext n f g : (∀ c, 0 ≤ c < Z.of_nat n → f c = g c) → total n f = total n g.
Proof. intros H. apply Z.le_antisymm; apply total_le; intros c Hc; rewrite H by done; lia. Qed.

Lemma total_pos n f : 0 < total n f → ∃ c, 0 ≤ c < Z.of_nat n ∧ 0 < f c.
Proof.
  induction n as [|n IH]; cbn [total]; [lia|]. intros H. destruct (decide (0 < f (Z.of_nat n))) as [Hf|Hf]; [exists (Z.of_nat n); split; lia|].
  destruct IH as (c & Hc & Hp); [lia|]. exists c. split; [lia|done].
Qed.

Lemma total_add n f g : total n (fun c => f c + g c) = total n f + total n g.
Proof. induction n as [|n IH]; cbn [total]; [done|]. rewrite IH. lia. Qed.

Lemma total_one n f c0 : 0 ≤ c0 < Z.of_nat n → f c0 = 1 → (∀ c, 0 ≤ c < Z.of_nat n → c ≠ c0 → f c = 0) → total n f = 1.
Proof.
  induction n as [|n IH]; intros Hc H1 H0; [lia|]. cbn [total]. destruct (decide (c0 = Z.of_nat n)) as [->|Hne].
  - rewrite H1. rewrite (total_ext n f (fun _ => 0)) by (intros c Hc'; apply H0; lia). assert (total n (fun _ => 0) = 0) as ->; [|done].
    clear. induction n as [|n IH]; cbn [total]; [done|by rewrite IH].
  - rewrite IH, H0 by (done || lia || (intros; apply H0; lia)). done.
Qed.

Lemma hweight_total n x : hweight n x = total n (fun i => if Z.testbit x i then 1 else 0).
Proof. induction n as [|n IH]; [done|]. unfold hweight; fold hweight. by rewrite IH. Qed.

Lemma total_nonneg n f : (∀ c, 0 ≤ f c) → 0 ≤ total n f.
Proof. intros H. induction n as [|n IH]; cbn [total]; [done|]. pose proof (H (Z.of_nat n)). lia. Qed.

Lemma total_more n m f : (n ≤ m)%nat → (∀ c, Z.of_nat n ≤ c → f c = 0) → total m f = total n f.
Proof. intros Hle H. induction Hle as [|m Hle IH]; [done|]. cbn [total]. rewrite IH, H by lia. lia. Qed.

Lemma total_from n a : 0 ≤ a → total n (fun c => if a <=? c then 1 else 0) = Z.max 0 (Z.of_nat n - a).
Proof. intros Ha. induction n as [|n IH]; cbn [total]; [lia|]. rewrite IH. destruct (Z.leb_spec a (Z.of_nat n)); lia. Qed.

Lemma skip_set_ok fuel map c d : c ≤ d → d - c < Z.of_nat fuel → Z.testbit map d = false →
  ∃ c', skip_set fuel map c = Ok c' ∧ c ≤ c' ≤ d ∧ Z.testbit map c' = false ∧ ∀ x, c ≤ x < c' → Z.testbit map x = true.
Proof.
  revert c. induction fuel as [|fuel IH]; intros c Hc Hf Hd; [lia|]. cbn [skip_set]. destruct (Z.testbit map c) eqn:E.
  - assert (c ≠ d) by congruence. destruct (IH (c + 1)) as (c' & -> & Hc' & Hb & Hall); [lia..|done|]. exists c'. split_and!; try done; try lia.
    intros x Hx. destruct (decide (x = c)) as [->|]; [done|apply Hall; lia].
  - exists c. split_and!; try done; try lia.
Qed.

(** The mask of the columns below [n] with [f]. *)
Fixpoint mask_of (n : nat) (f : Z → bool) : Z :=
  match n with O => 0 | S n' => if f (Z.of_nat n') then Z.lor (mask_of n' f) (Z.shiftl 1 (Z.of_nat n')) else mask_of n' f end.

Lemma mask_of_testbit n f i : 0 ≤ i → Z.testbit (mask_of n f) i = (i <? Z.of_nat n) && f i.
Proof.
  intros Hi. induction n as [|n IH]; cbn [mask_of]; [rewrite Z.bits_0; by rewrite (proj2 (Z.ltb_ge _ _)) by lia|].
  destruct (f (Z.of_nat n)) eqn:E; rewrite ?Z.lor_spec, ?Z.shiftl_1_l, ?Z.pow2_bits_eqb, IH by lia.
  - destruct (Z.eqb_spec (Z.of_nat n) i) as [<-|]; [rewrite (proj2 (Z.ltb_lt _ (Z.of_nat (S n)))), E by lia; by rewrite orb_true_r|].
    rewrite orb_false_r. f_equal. destruct (Z.ltb_spec i (Z.of_nat n)), (Z.ltb_spec i (Z.of_nat (S n))); lia.
  - destruct (decide (i = Z.of_nat n)) as [->|]; [by rewrite E, !andb_false_r|].
    f_equal. destruct (Z.ltb_spec i (Z.of_nat n)), (Z.ltb_spec i (Z.of_nat (S n))); lia.
Qed.

Lemma mask_of_ext n f g : (∀ c, 0 ≤ c < Z.of_nat n → f c = g c) → mask_of n f = mask_of n g.
Proof.
  intros H. apply Z.bits_inj'. intros i Hi. rewrite !mask_of_testbit by done. destruct (Z.ltb_spec i (Z.of_nat n)); [|done]. by rewrite H by lia.
Qed.

Lemma mask_of_range n f : 0 ≤ mask_of n f < 2 ^ Z.of_nat n.
Proof.
  assert (wrap (Z.of_nat n) (mask_of n f) = mask_of n f) as <-; [|apply Z.mod_pos_bound; lia].
  apply Z.bits_inj'. intros i Hi. rewrite wrap_testbit, mask_of_testbit by lia. by destruct (i <? Z.of_nat n).
Qed.

(** ** Cells *)
Section cells.
Context (ss sn rep rows : Z).
Hypothesis (Hsn : 1 ≤ sn).
Hypothesis (Hss : 1 ≤ ss ≤ rep).
Hypothesis (Hrep : rep ≤ 12).
Hypothesis (Hrows : (sn | rows)).
Hypothesis (Hsize : 0 ≤ rows ≤ 32).

Definition cell (map c r : Z) : bool := Z.testbit map (map_rlba_offset c sn r rep).
Definition in_map (c r : Z) : Prop := 0 ≤ c < rep ∧ 0 ≤ r < rows.

Lemma index_range c r : in_map c r → 0 ≤ map_rlba_offset c sn r rep < rep * rows.
Proof.
  intros [Hc Hr]. unfold map_rlba_offset. destruct Hrows as [q ->].
  pose proof (Z.div_mod r sn ltac:(lia)). pose proof (Z.mod_pos_bound r sn ltac:(lia)).
  assert (0 ≤ r / sn) by (apply Z.div_pos; lia). assert (r / sn < q) by (apply Z.div_lt_upper_bound; lia). nia.
Qed.

Lemma index_inj c r c' r' : in_map c r → in_map c' r' → map_rlba_offset c sn r rep = map_rlba_offset c' sn r' rep → c = c' ∧ r = r'.
Proof.
  intros [Hc Hr] [Hc' Hr'] E. destruct (map_index_row_col sn r c rep) as [E1 E2]; [lia..|].
  destruct (map_index_row_col sn r' c' rep) as [E1' E2']; [lia..|]. rewrite E in E1, E2. lia.
Qed.

Lemma test_cell map c r : in_map c r → test_bit (map_rlba_offset c sn r rep) map = Ok (cell map c r).
Proof.
  intros H. pose proof (index_range c r H). unfold test_bit, MAP_BITS, cell. cbn.
  rewrite (proj2 (Z.leb_le _ _)), (proj2 (Z.ltb_lt _ _)) by nia. done.
Qed.

Lemma set_cell map c r : in_map c r → ∃ m, set_bit (map_rlba_offset c sn r rep) map = Ok m ∧
  ∀ c' r', in_map c' r' → cell m c' r' = cell map c' r' || ((c' =? c) && (r' =? r)).
Proof.
  intros H. pose proof (index_range c r H). unfold set_bit, MAP_BITS. cbn.
  rewrite (proj2 (Z.leb_le _ _)), (proj2 (Z.ltb_lt _ _)) by nia. eexists. split; [reflexivity|]. intros c' r' H'.
  unfold cell. rewrite Z.setbit_eqb by lia. rewrite orb_comm. f_equal.
  destruct (Z.eqb_spec (map_rlba_offset c sn r rep) (map_rlba_offset c' sn r' rep)) as [E|E].
  - apply index_inj in E as [-> ->]; [|done..]. by rewrite !Z.eqb_refl.
  - destruct (Z.eqb_spec c' c) as [->|]; [|done]. destruct (Z.eqb_spec r' r) as [->|]; done.
Qed.

(** ** The blocks of the I/O *)

(** Is bit [i] of the map one of blocks [lo .. hi - 1], counted from the first snake. *)
Definition in_io (lo hi i : Z) : bool :=
  (i mod (rep * sn) <? ss * sn) && (lo <=? i / (rep * sn) * (ss * sn) + i mod (rep * sn)) && (i / (rep * sn) * (ss * sn) + i mod (rep * sn) <? hi).

Lemma in_io_piece k s m hi i : 0 ≤ k → 0 ≤ s → 1 ≤ m → s + m ≤ ss * sn → k * (ss * sn) + s + m ≤ hi → (s + m < ss * sn → hi = k * (ss * sn) + s + m) → 0 ≤ i →
  (rep * sn * k + s <=? i) && (i <? rep * sn * k + s + m) || in_io ((k + 1) * (ss * sn)) hi i = in_io (k * (ss * sn) + s) hi i.
Proof.
  intros Hk Hs Hm Hle Hhi Hlast Hi. unfold in_io. pose proof (Z.div_mod i (rep * sn) ltac:(nia)) as Hd. pose proof (Z.mod_pos_bound i (rep * sn) ltac:(nia)) as Hmod.
  set (q := i / (rep * sn)) in *. set (x := i mod (rep * sn)) in *. clearbody q x. set (one := rep * sn) in *. set (d := ss * sn) in *.
  assert (d ≤ one) by (unfold d, one; nia). assert (1 ≤ d) by (unfold d; nia). clearbody one d.
  assert (q ≤ k - 1 ∧ q * d + d ≤ k * d ∧ one * q + one ≤ one * k ∨ q = k ∨ k + 1 ≤ q ∧ (k + 1) * d ≤ q * d ∧ one * k + one ≤ one * q) as Hq.
  { destruct (Z.lt_trichotomy q k) as [|[]]; [left|right; left|right; right]; split_and?; try lia; nia. }
  destruct Hq as [(? & ? & ?)|[->|(? & ? & ?)]];
    destruct (Z.ltb_spec x d), (Z.leb_spec (one * k + s) i), (Z.ltb_spec i (one * k + s + m)); cbn [andb orb]; try (exfalso; lia);
    repeat match goal with |- context [?a <=? ?b] => destruct (Z.leb_spec a b) | |- context [?a <? ?b] => destruct (Z.ltb_spec a b) end;
    cbn [andb]; try done; exfalso; lia.
Qed.

Lemma bitmap_set_ok map start n : 0 ≤ start → 0 ≤ n → start + n ≤ rep * rows → ∃ m, bitmap_set map start n = Ok m ∧
  ∀ i, 0 ≤ i → Z.testbit m i = Z.testbit map i || ((start <=? i) && (i <? start + n)).
Proof.
  intros Hs Hn Hle. unfold bitmap_set, MAP_BITS. cbn [Topology.N_MAX_RAID_SLICE_LEN N_MAX_MULTI_SLICE_LEN Nat.mul Nat.add Z.of_nat Pos.of_succ_nat].
  assert (rep * rows ≤ 12 * 32) by nia.
  rewrite (proj2 (Z.leb_le 0 start)), (proj2 (Z.leb_le 0 n)), (proj2 (Z.leb_le (start + n) _)) by (cbn; lia). cbn [andb].
  eexists. split; [reflexivity|]. intros i Hi. rewrite Z.lor_spec, Z.shiftl_spec by done. f_equal. destruct (Z.leb_spec start i); cbn [andb].
  - rewrite ones_testbit by lia. destruct (Z.ltb_spec (i - start) n), (Z.ltb_spec i (start + n)); lia.
  - apply Z.testbit_neg_r. lia.
Qed.

Lemma in_io_empty lo hi i : hi ≤ lo → in_io lo hi i = false.
Proof.
  intros H. unfold in_io. destruct (Z.leb_spec lo (i / (rep * sn) * (ss * sn) + i mod (rep * sn))), (Z.ltb_spec (i / (rep * sn) * (ss * sn) + i mod (rep * sn)) hi);
    rewrite ?andb_false_r; lia || done.
Qed.

Lemma set_bio_blocks_ok fuel k col row n map : 0 ≤ k → 0 ≤ row → 0 ≤ col → col * sn + row < ss * sn → 1 ≤ n < Z.of_nat fuel →
  k * (ss * sn) + (col * sn + row) + n ≤ ss * rows →
  ∃ m, set_bio_blocks sn fuel rows (rep * sn) (ss * sn) n row col k map = Ok (m, (k * (ss * sn) + (col * sn + row) + n - 1) / (ss * sn) + 1) ∧
    ∀ i, 0 ≤ i → Z.testbit m i = Z.testbit map i || in_io (k * (ss * sn) + (col * sn + row)) (k * (ss * sn) + (col * sn + row) + n) i.
Proof.
  revert k col row n map. induction fuel as [|fuel IH]; intros k col row n map Hk Hrow Hcol Hs Hn Hend; [lia|]. cbn [set_bio_blocks]. cbn zeta.
  rewrite (proj2 (Z.leb_gt (ss * sn) _)) by lia. set (s := col * sn + row) in *. assert (0 ≤ s) by (unfold s; nia). clearbody s. assert (1 ≤ ss * sn) by nia.
  assert (k * sn < rows) by (apply (Z.mul_lt_mono_pos_l ss); lia). rewrite (proj2 (Z.ltb_ge rows (k * sn))) by lia. destruct Hrows as [q Eq].
  assert (k + 1 ≤ q) by nia. assert (rep * sn * (k + 1) ≤ rep * rows) by (rewrite Eq; replace (rep * (q * sn)) with (rep * sn * q) by lia; apply Z.mul_le_mono_nonneg_l; nia). assert (ss * sn ≤ rep * sn) by nia.
  set (m1 := Z.min n (ss * sn - s)) in *. assert (1 ≤ m1 ∧ m1 ≤ n ∧ s + m1 ≤ ss * sn ∧ (s + m1 < ss * sn → m1 = n)) as (? & ? & ? & Hm) by (unfold m1; lia). clearbody m1.
  destruct (bitmap_set_ok map (rep * sn * k + s) m1) as (m & -> & Hbits); [nia|lia|nia|]. rstep. destruct (Z.eqb_spec (n - m1) 0) as [E|E].
  - assert (m1 = n) as -> by lia. exists m. split.
    + f_equal. f_equal. f_equal. apply (Z.div_unique_pos _ _ _ (s + n - 1)); lia.
    + intros i Hi. rewrite Hbits by done. rewrite <- (in_io_piece k s n) by lia. by rewrite in_io_empty, orb_false_r by lia.
  - assert (s + m1 = ss * sn) by lia. destruct (IH (k + 1) 0 0 (n - m1) m) as (m' & E' & Hbits'); [lia..|]. rewrite E'. exists m'. split.
    + f_equal. f_equal. f_equal. f_equal. lia.
    + intros i Hi. rewrite Hbits', Hbits, <- orb_assoc by done. f_equal. rewrite <- (in_io_piece k s m1) by lia. do 2 f_equal; lia.
Qed.

(** ** Steps that change one row *)
Record sized (w : work) : Prop := {
  sz_bio : length (w_row_bio w) = 32%nat; sz_prd : length (w_row_prd w) = 32%nat;
  sz_union : length (w_union w) = 20%nat; sz_change : length (w_change w) = 4%nat; sz_tx : length (w_tx w) = 5%nat
}.

(** The mask of a row. *)
Definition mask_at (l : list Z) (r : Z) : Z := default 0 (l !! Z.to_nat r).

(** Columns [B] of row [row] join the blocks to write, columns [P] the blocks to read. *)
Record touches (row : Z) (B P : Z → bool) (n : Z) (w w' : work) : Prop := {
  to_sized : sized w';
  to_bio : ∀ c r, in_map c r → cell (w_bio w') c r = cell (w_bio w) c r || ((r =? row) && B c);
  to_pre : ∀ c r, in_map c r → cell (w_pre w') c r = cell (w_pre w) c r || ((r =? row) && P c);
  to_mbio : ∀ c r, in_map c r → Z.testbit (mask_at (w_row_bio w') r) c = Z.testbit (mask_at (w_row_bio w) r) c || ((r =? row) && B c);
  to_mpre : ∀ c r, in_map c r → Z.testbit (mask_at (w_row_prd w') r) c = Z.testbit (mask_at (w_row_prd w) r) c || ((r =? row) && P c);
  to_rest : w_union w' = w_union w ∧ w_change w' = w_change w ∧ w_tx w' = w_tx w ∧ w_si w' = w_si w ∧ w_ti w' = w_ti w ∧
    w_nlbas w' = w_nlbas w ∧ w_512 w' = w_512 w;
  to_extra : w_extra w' = w_extra w + n
}.

Definition none (c : Z) : bool := false.

Lemma touches_ext row B P n w w' B' P' : (∀ c, 0 ≤ c < rep → B c = B' c) → (∀ c, 0 ≤ c < rep → P c = P' c) →
  touches row B P n w w' → touches row B' P' n w w'.
Proof.
  intros HB HP [H1 H2 H3 H4 H5 H6 H7].
  split; try done; intros c r Hin; (rewrite H2 || rewrite H3 || rewrite H4 || rewrite H5); try done; f_equal; f_equal; apply HB || apply HP;
    apply Hin.
Qed.

Lemma touches_refl row w : sized w → touches row none none 0 w w.
Proof. intros Hs. split; try done; try (intros c r _; by rewrite andb_false_r, orb_false_r). lia. Qed.

Lemma touches_trans row B P n B' P' n' w w1 w2 : touches row B P n w w1 → touches row B' P' n' w1 w2 →
  touches row (fun c => B c || B' c) (fun c => P c || P' c) (n + n') w w2.
Proof.
  intros [H1 H2 H3 H4 H5 H6 H7] [K1 K2 K3 K4 K5 K6 K7]. split; try done; try (intros c r Hin).
  - rewrite K2, H2 by done. rewrite andb_orb_distrib_r. by rewrite orb_assoc.
  - rewrite K3, H3 by done. rewrite andb_orb_distrib_r. by rewrite orb_assoc.
  - rewrite K4, H4 by done. rewrite andb_orb_distrib_r. by rewrite orb_assoc.
  - rewrite K5, H5 by done. rewrite andb_orb_distrib_r. by rewrite orb_assoc.
  - destruct H6 as (?&?&?&?&?&?&?), K6 as (?&?&?&?&?&?&?). split_and!; congruence.
  - lia.
Qed.

Lemma row_or_ok l row c : length l = 32%nat → in_map c row → ∃ l', row_or l row (Z.shiftl 1 c) = Ok l' ∧ length l' = 32%nat ∧
  ∀ c' r', in_map c' r' → Z.testbit (mask_at l' r') c' = Z.testbit (mask_at l r') c' || ((c' =? c) && (r' =? row)).
Proof.
  intros Hl [Hc Hr]. unfold row_or. destruct (zget_is_Some l row) as (x & Hx & ->); [lia|]. rstep.
  rewrite zset_ok by lia. eexists. split; [reflexivity|]. split; [by rewrite length_insert|]. intros c' r' [Hc' Hr'].
  unfold mask_at. destruct (Z.eqb_spec r' row) as [->|Hne].
  - rewrite list_lookup_insert_eq, Hx by lia. cbn [from_option id]. rewrite wrap_testbit, Z.lor_spec, Z.shiftl_1_l, Z.pow2_bits_eqb by lia.
    rewrite (proj2 (Z.ltb_lt c' 32)) by lia. rewrite andb_true_l, andb_true_r. f_equal. apply Z.eqb_sym.
  - rewrite list_lookup_insert_ne by lia. by rewrite andb_false_r, orb_false_r.
Qed.

Definition just (c : Z) : Z → bool := fun c' => c' =? c.

Lemma add_bio_ok row c w : sized w → in_map c row → ∃ w', add_bio sn rep row c w = Ok w' ∧ touches row (just c) none 0 w w'.
Proof.
  intros Hs Hin. unfold add_bio, mssa_map_index. destruct (set_cell (w_bio w) c row Hin) as (m & -> & Hm). rstep.
  destruct (row_or_ok (w_row_bio w) row c) as (l & -> & Hl & Hmask); [apply Hs|done|]. rstep. eexists. split; [reflexivity|].
  unfold just, none. destruct Hs. split; cbn [with_bio w_bio w_pre w_row_bio w_row_prd w_union w_change w_tx w_extra w_si w_ti w_nlbas w_512];
    try done; try (intros c' r' H'; rewrite ?Hm, ?Hmask by done; by rewrite ?andb_false_r, ?orb_false_r, 1?(andb_comm (_ =? row))); try lia.
Qed.

Lemma add_pre_ok row c w : sized w → in_map c row → ∃ w', add_pre sn rep row c w = Ok w' ∧ touches row none (just c) 0 w w'.
Proof.
  intros Hs Hin. unfold add_pre, mssa_map_index. destruct (set_cell (w_pre w) c row Hin) as (m & -> & Hm). rstep.
  destruct (row_or_ok (w_row_prd w) row c) as (l & -> & Hl & Hmask); [apply Hs|done|]. rstep. eexists. split; [reflexivity|].
  unfold just, none. destruct Hs. split; cbn [with_pre w_bio w_pre w_row_bio w_row_prd w_union w_change w_tx w_extra w_si w_ti w_nlbas w_512];
    try done; try (intros c' r' H'; rewrite ?Hm, ?Hmask by done; by rewrite ?andb_false_r, ?orb_false_r, 1?(andb_comm (_ =? row))); try lia.
Qed.

Lemma touches_more row B P n k w w' : touches row B P n w w' → touches row B P (n + k) w (more k w').
Proof. intros [[]]. split; try done. cbn. lia. Qed.

(** *** Loops over columns *)
Definition within (b : Z) (n : nat) (B : Z → bool) (c : Z) : bool := (b <=? c) && (c <? b + Z.of_nat n) && B c.
Definition at_col (b : bool) (c0 : Z) (c : Z) : bool := b && (c =? c0).

Lemma within_S b n B c : within b n B c || at_col (B (b + Z.of_nat n)) (b + Z.of_nat n) c = within b (S n) B c.
Proof.
  unfold within, at_col. destruct (Z.eqb_spec c (b + Z.of_nat n)) as [->|Hne].
  - rewrite (proj2 (Z.ltb_ge _ _)), (proj2 (Z.leb_le _ _)), (proj2 (Z.ltb_lt _ _)) by lia. cbn. by rewrite andb_true_r.
  - rewrite andb_false_r, orb_false_r. f_equal. f_equal. destruct (Z.ltb_spec c (b + Z.of_nat n)), (Z.ltb_spec c (b + Z.of_nat (S n))); lia.
Qed.

Lemma touch_loop body row b n B P e w : sized w →
  (∀ i w', (i < n)%nat → touches row (within b i B) (within b i P) (total i e) w w' →
     ∃ w'', body i w' = Ok w'' ∧ touches row (at_col (B (b + Z.of_nat i)) (b + Z.of_nat i)) (at_col (P (b + Z.of_nat i)) (b + Z.of_nat i)) (e (Z.of_nat i)) w' w'') →
  ∃ w', for_up n body w = Ok w' ∧ touches row (within b n B) (within b n P) (total n e) w w'.
Proof.
  intros Hs Hb. apply (for_up_inv body (fun i w' => touches row (within b i B) (within b i P) (total i e) w w')).
  - eapply touches_ext, touches_refl; [..|done]; intros c Hc; unfold within, none; destruct (Z.leb_spec b c), (Z.ltb_spec c (b + Z.of_nat 0)); cbn; lia || done.
  - intros i w' Hi Ht. destruct (Hb i w' Hi Ht) as (w'' & -> & Ht'). eexists. split; [reflexivity|].
    eapply touches_ext; [| |exact (touches_trans _ _ _ _ _ _ _ _ _ _ Ht Ht')]; intros c _; apply within_S.
Qed.

(** The mask of a row of a map. *)
Lemma row_mask_of_ok map row : 0 ≤ row < rows → row_mask_of sn rep map row = Ok (mask_of (Z.to_nat rep) (fun c => cell map c row)).
Proof.
  intros Hr. unfold row_mask_of. match goal with |- for_up ?n ?b ?s = _ =>
    destruct (for_up_inv b (fun k m => m = mask_of k (fun c => cell map c row)) n s) as (m & -> & ->) end; [done| |done].
  intros k m Hk ->. unfold mssa_map_index. rewrite test_cell by (split; lia). rstep. eexists. split; [reflexivity|]. cbn [mask_of]. by destruct (cell _ _ _).
Qed.

(** The map of a row, which [nvmeibc_mssa_get_row_map_or_set] also stores unless there is only one row. *)
Definition row_stored (row : Z) (w : work) : work :=
  if rep * rows =? rep then w
  else with_bio w (w_bio w) (<[Z.to_nat row := mask_of (Z.to_nat rep) (fun c => cell (w_bio w) c row)]> (w_row_bio w)).

Lemma row_map_set_ok row w : sized w → 0 ≤ row < rows → (rows = 1 → 0 ≤ w_bio w < 2 ^ rep) →
  row_map_set sn rep (rep * rows) row w = Ok (mask_of (Z.to_nat rep) (fun c => cell (w_bio w) c row), row_stored row w).
Proof.
  intros Hs Hr Hone. unfold row_map_set, row_stored. pose proof (mask_of_range (Z.to_nat rep) (fun c => cell (w_bio w) c row)) as Hm. rewrite Z2Nat.id in Hm by lia.
  assert (2 ^ rep ≤ 2 ^ 12) by (apply Z.pow_le_mono_r; lia).
  destruct (Z.eqb_spec (rep * rows) rep) as [E|E].
  - assert (rows = 1) as E1 by nia. specialize (Hone E1). f_equal. f_equal. rewrite wrap_small by lia. apply Z.bits_inj'. intros i Hi.
    rewrite mask_of_testbit, Z2Nat.id by lia. destruct (Z.ltb_spec i rep); [|by rewrite (testbit_high rep) by lia]. cbn.
    unfold cell, map_rlba_offset. replace row with 0 by lia. rewrite Z.div_0_l, Z.mod_0_l by lia. f_equal.
    assert (sn = 1) as -> by (apply Z.divide_1_r_nonneg; [lia|by rewrite <- E1]). lia.
  - rewrite row_mask_of_ok by done. rstep. rewrite wrap_small, zset_ok by (rewrite ?(sz_bio _ Hs); lia). rstep. by rewrite wrap_small by lia.
Qed.

(** ** Writes of whole snakes *)
Lemma same_slot a b x : 0 ≤ x < sn → a * sn ≤ b * sn + x → b * sn + x < a * sn + sn → a = b.
Proof. intros Hx H1 H2. assert (a < b + 1) by nia. assert (b < a + 1) by nia. lia. Qed.

Lemma column_bits k col c r : in_map c r → 0 ≤ col < rep → 0 ≤ k →
  (k * (rep * sn) + col * sn <=? map_rlba_offset c sn r rep) && (map_rlba_offset c sn r rep <? k * (rep * sn) + col * sn + sn) = (c =? col) && (r / sn =? k).
Proof.
  intros [Hc Hr] Hcol Hk. unfold map_rlba_offset. pose proof (Z.mod_pos_bound r sn ltac:(lia)). set (x := r mod sn) in *. set (q := r / sn) in *. clearbody x q.
  replace (k * (rep * sn) + col * sn) with ((k * rep + col) * sn) by lia.
  destruct (Z.leb_spec ((k * rep + col) * sn) ((q * rep + c) * sn + x)), (Z.ltb_spec ((q * rep + c) * sn + x) ((k * rep + col) * sn + sn)); cbn [andb].
  2-4: destruct (Z.eqb_spec c col) as [->|]; [|done]; destruct (Z.eqb_spec q k) as [->|]; [lia|done].
  pose proof (same_slot (k * rep + col) (q * rep + c) x ltac:(lia) ltac:(lia) ltac:(lia)) as E.
  assert (k = q) as -> by (destruct (Z.lt_total q k) as [|[]]; [nia|done|nia]). by rewrite Z.eqb_refl, (proj2 (Z.eqb_eq c col)) by lia.
Qed.

(** The maps of [w'] are those of [w] with columns [B]; the masks of rows are kept. *)
Record columns (B : Z → bool) (n : Z) (w w' : work) : Prop := {
  co_bio : ∀ c r, in_map c r → cell (w_bio w') c r = cell (w_bio w) c r || B c;
  co_rest : w' = with_bio (with_extra w (w_extra w + n)) (w_bio w') (w_row_bio w)
}.

Lemma aligned_column_ok col w : 0 ≤ col < rep → ∃ w',
  for_up (Z.to_nat (rows / sn)) (fun snake w => m ← bitmap_set (w_bio w) (Z.of_nat snake * (rep * sn) + col * sn) sn;
    Ok (more sn (with_bio w m (w_row_bio w)))) w = Ok w' ∧ columns (just col) rows w w'.
Proof.
  intros Hcol. destruct Hrows as [q Eq]. assert (rows / sn = q) as Ed by (rewrite Eq; apply Z.div_mul; lia). assert (0 ≤ q) by nia.
  set (I := fun (k : nat) (w' : work) => (∀ c r, in_map c r → cell (w_bio w') c r = cell (w_bio w) c r || (just col c && (r / sn <? Z.of_nat k))) ∧
    w' = with_bio (with_extra w (w_extra w + sn * Z.of_nat k)) (w_bio w') (w_row_bio w)).
  match goal with |- ∃ w', for_up ?n ?b ?s = _ ∧ _ => destruct (for_up_inv b I n s) as (w' & -> & HI1 & HI2) end.
  - split; [|destruct w; unfold with_bio, with_extra; cbn; f_equal; lia]. intros c r [Hc Hr].
    rewrite (proj2 (Z.ltb_ge (r / sn) _)) by (apply Z.div_pos; lia). by rewrite andb_false_r, orb_false_r.
  - intros k w' Hk [HI1 HI2]. assert (Z.of_nat k * rep + col + 1 ≤ rep * q) by nia. destruct (bitmap_set_ok (w_bio w') (Z.of_nat k * (rep * sn) + col * sn) sn) as (m & -> & Hm); [apply Z.add_nonneg_nonneg; repeat apply Z.mul_nonneg_nonneg; lia|lia|rewrite Eq; replace (_ + sn) with ((Z.of_nat k * rep + col + 1) * sn) by lia; rewrite Z.mul_assoc; apply Z.mul_le_mono_nonneg_r; lia|].
    rstep. eexists. split; [reflexivity|]. split; [|rewrite HI2; unfold more, with_bio, with_extra; cbn [w_extra w_bio w_pre w_row_bio w_row_prd w_union w_change w_tx w_si w_ti w_nlbas w_512]; f_equal; lia].
    intros c r Hin. pose proof (index_range c r Hin). change (w_bio (more _ _)) with m. unfold cell in *. rewrite Hm, HI1, column_bits by (done || lia).
    unfold just. rewrite <- orb_assoc. f_equal. destruct (c =? col); cbn [andb]; [|done].
    destruct (Z.ltb_spec (r / sn) (Z.of_nat k)), (Z.eqb_spec (r / sn) (Z.of_nat k)), (Z.ltb_spec (r / sn) (Z.of_nat (S k))); lia || done.
  - eexists. split; [reflexivity|]. split.
    + intros c r Hin. rewrite HI1 by done. pose proof Hin as [_ Hr]. assert (r / sn < q) by (apply Z.div_lt_upper_bound; lia).
      rewrite (proj2 (Z.ltb_lt _ _)) by lia. by rewrite andb_true_r.
    + rewrite HI2 at 1. f_equal. f_equal. lia.
Qed.

Lemma columns_refl w : columns none 0 w w.
Proof. split; [intros c r _; by rewrite orb_false_r|]. rewrite Z.add_0_r. by destruct w. Qed.

Lemma columns_ext B B' n w w' : (∀ c, 0 ≤ c < rep → B c = B' c) → columns B n w w' → columns B' n w w'.
Proof. intros HB [H1 H2]. split; [|done]. intros c r Hin. rewrite H1 by done. f_equal. apply HB, Hin. Qed.

Lemma columns_trans B n B' n' w w1 w2 : columns B n w w1 → columns B' n' w1 w2 → columns (fun c => B c || B' c) (n + n') w w2.
Proof.
  intros [H1 H2] [K1 K2]. split; [intros c r Hin; rewrite K1, H1 by done; by rewrite orb_assoc|].
  rewrite K2 at 1. rewrite H2 at 1 2 3. unfold with_bio, with_extra.
  cbn [w_extra w_bio w_pre w_row_bio w_row_prd w_union w_change w_tx w_si w_ti w_nlbas w_512]. f_equal. lia.
Qed.

(** ** The plan of a row *)
Section plan.
Context (nr nw : Z).

(** Parities that can be written. *)
Definition live (c : Z) : bool := (ss <=? c) && negb (Z.testbit nw c).

Lemma add_write_parities_ok row w : sized w → 0 ≤ row < rows → ∃ w', add_write_parities ss sn rep nw row w = Ok w' ∧
  touches row live none (total (Z.to_nat (rep - ss)) (fun i => if Z.testbit nw (ss + i) then 0 else 1)) w w'.
Proof.
  intros Hs Hr. unfold add_write_parities.
  match goal with |- ∃ w', for_up _ ?b _ = _ ∧ _ => destruct (touch_loop b row ss (Z.to_nat (rep - ss))
    (fun c => negb (Z.testbit nw c)) none (fun i => if Z.testbit nw (ss + i) then 0 else 1) w Hs) as (w' & -> & Ht) end.
  - intros i w' Hi Ht. cbn zeta. destruct (Z.testbit nw (ss + Z.of_nat i)); cbn [negb].
    + eexists. split; [reflexivity|]. apply touches_refl, Ht.
    + destruct (add_bio_ok row (ss + Z.of_nat i) w') as (w'' & -> & Ht'); [apply Ht|split; lia|]. rstep. eexists. split; [reflexivity|].
      apply (touches_more _ _ _ 0), Ht'.
  - eexists. split; [reflexivity|]. eapply touches_ext; [| |exact Ht]; intros c Hc; unfold within, live, none; [|by rewrite andb_false_r].
    rewrite (proj2 (Z.ltb_lt c _)) by lia. by rewrite andb_true_r.
Qed.

(** Unreadable columns that force a slice to be read whole, or its parities to be updated;
    [W] are the columns written. *)
Definition must_complement_at (W : Z → bool) (c : Z) : bool :=
  Z.testbit nr c && (if c <? ss then W c else negb (Z.testbit nw c)).
Definition must_update_at (W : Z → bool) (c : Z) : bool := Z.testbit nr c && (c <? ss) && negb (W c).

Lemma degraded_forces_ok row w mu : 0 ≤ row < rows → degraded_forces ss sn rep nr nw row w mu =
  Ok (some (Z.to_nat rep) (must_complement_at (fun c => cell (w_bio w) c row)),
      mu || some (Z.to_nat rep) (must_update_at (fun c => cell (w_bio w) c row))).
Proof.
  intros Hr. unfold degraded_forces. set (W := fun c => cell (w_bio w) c row).
  match goal with |- for_up _ ?b _ = _ => destruct (for_up_inv b (fun k s => s = (some k (must_complement_at W), mu || some k (must_update_at W)))
    (Z.to_nat rep) (false, mu)) as (? & -> & ->) end; [cbn; by rewrite orb_false_r| |done].
  intros k s Hk ->. cbn [some fst snd]. set (fc := some k _). set (fu := some k _). unfold must_complement_at, must_update_at.
  destruct (Z.testbit nr (Z.of_nat k)) eqn:Er; cbn [negb andb orb]; [|eexists; split; [reflexivity|by rewrite !orb_false_r]].
  destruct (Z.of_nat k <? ss) eqn:Ek; cbn [andb negb orb].
  - unfold mssa_map_index. rewrite test_cell by (split; lia). rstep. fold (W (Z.of_nat k)). eexists. split; [reflexivity|].
    destruct (W (Z.of_nat k)); cbn; by rewrite ?orb_false_r, ?orb_true_r, ?orb_assoc.
  - eexists. split; [reflexivity|]. destruct (Z.testbit nw (Z.of_nat k)); cbn; by rewrite ?orb_false_r, ?orb_true_r, ?orb_assoc.
Qed.

(** What a row reads before, and the blocks this needs; [W] are the columns written, parities included. *)
Definition pre_of (W : Z → bool) (read_all complement : bool) (c : Z) : bool :=
  if negb read_all && Z.testbit nw c then (ss <=? c) && negb complement
  else (read_all || xorb (W c) complement) && negb ((ss <=? c) && Z.testbit nw c && read_all).
Definition extra_of (W : Z → bool) (read_all complement : bool) (c : Z) : Z :=
  if pre_of W read_all complement c && ((c <? ss) || negb read_all && Z.testbit nw c) then 1 else 0.

Lemma set_prereads_ok row ra co w : sized w → 0 ≤ row < rows →
  (∀ c, ss ≤ c < rep → Z.testbit nw c = true → cell (w_bio w) c row = false) →
  ∃ w', set_prereads ss sn rep nw row ra co w = Ok w' ∧
    touches row none (pre_of (fun c => cell (w_bio w) c row) ra co) (total (Z.to_nat rep) (extra_of (fun c => cell (w_bio w) c row) ra co)) w w'.
Proof.
  intros Hs Hr Hdead. unfold set_prereads. set (W := fun c => cell (w_bio w) c row).
  match goal with |- ∃ w', for_up _ ?b _ = _ ∧ _ => destruct (touch_loop b row 0 (Z.to_nat rep) none (pre_of W ra co) (extra_of W ra co) w Hs) as (w' & -> & Ht) end.
  - intros i w' Hi Ht. cbn zeta. rewrite Z.add_0_l. set (c := Z.of_nat i). assert (in_map c row) as Hin by (split; lia).
    assert (cell (w_bio w') c row = W c) as EW. { rewrite (to_bio _ _ _ _ _ _ Ht c row Hin). unfold within, none. by rewrite !andb_false_r, orb_false_r. }
    unfold mssa_map_index. rewrite test_cell, EW by done. rstep. unfold extra_of, pre_of.
    destruct (add_pre_ok row c w') as (w1 & E1 & T1); [apply Ht|done|].
    assert (cell (w_bio w1) c row = W c) as EW1. { rewrite (to_bio _ _ _ _ _ _ T1 c row Hin). unfold none. by rewrite !andb_false_r, orb_false_r. }
    pose proof (Hdead c) as Hd. fold (W c) in Hd. rewrite E1. rstep.
    destruct (negb ra && Z.testbit nw c) eqn:Ed.
    + destruct (Z.leb_spec ss c), co; cbn [andb negb]; try (eexists; split; [reflexivity|]; by apply touches_refl, Ht).
      rewrite test_cell, EW1 by done. rstep. rewrite Hd by (lia || by destruct ra, (Z.testbit nw c)). rewrite orb_true_r.
      eexists. split; [reflexivity|]. apply (touches_more _ _ _ 0), T1.
    + destruct (ra || xorb (W c) co) eqn:Ep; cbn [andb]; [|eexists; split; [reflexivity|]; by apply touches_refl, Ht].
      destruct ((ss <=? c) && Z.testbit nw c && ra) eqn:Es; cbn [negb andb]; [eexists; split; [reflexivity|]; by apply touches_refl, Ht|].
      eexists. split; [reflexivity|]. rewrite orb_false_r. destruct (c <? ss); [apply (touches_more _ _ _ 0), T1|exact T1].
  - eexists. split; [reflexivity|]. eapply touches_ext; [| |exact Ht]; intros c Hc; unfold within, none; [by rewrite andb_false_r|].
    by rewrite (proj2 (Z.leb_le 0 c)), (proj2 (Z.ltb_lt c _)) by lia.
Qed.

(** *** Soundness of the plan *)
Hypothesis (Hdead : ∀ c, Z.testbit nw c = true → Z.testbit nr c = true).

Definition unreadable (c : Z) : Z := if Z.testbit nr c then 1 else 0.
Definition read_ok (P : Z → bool) (c : Z) : Z := if P c && negb (Z.testbit nr c) then 1 else 0.

(** The columns [W] written and [P] read before make the parities by [strat]: the rest of
    the slice is read; or what is written and every live parity; or all that is left of the
    slice, and it is enough to restore it. *)
Definition row_sound (W P : Z → bool) (strat : Z) : Prop :=
  (∀ c, ss ≤ c < rep → W c = negb (Z.testbit nw c)) ∧
  ((strat = COMPLEMENT_STRATEGY ∧ ∀ c, 0 ≤ c < rep → P c = (c <? ss) && negb (W c) ∧ (P c = true → Z.testbit nr c = false)) ∨
   (strat = UPDATE_STRATEGY ∧ ∀ c, 0 ≤ c < rep → P c = W c || (ss <=? c) ∧ (W c = true → Z.testbit nr c = false)) ∨
   (strat = RESTORE_STRATEGY ∧ (∀ c, 0 ≤ c < rep → P c = (c <? ss) || W c) ∧ ss ≤ total (Z.to_nat rep) (read_ok P))).

Lemma total_readable n : total n (fun c => 1 - unreadable c) = Z.of_nat n - total n unreadable.
Proof. induction n as [|n IH]; cbn [total]; [done|]. rewrite IH. lia. Qed.

Section choice.
Context (W : Z → bool).
Hypothesis (HW : ∀ c, ss ≤ c < rep → W c = negb (Z.testbit nw c)).

Lemma complement_sound : some (Z.to_nat rep) (must_update_at W) = false → row_sound W (pre_of W false true) COMPLEMENT_STRATEGY.
Proof.
  intros Hu. split; [done|]. left. split; [done|]. intros c Hc. pose proof (some_none _ _ c Hu ltac:(lia)) as H. unfold must_update_at in H.
  pose proof (Hdead c) as Hd. unfold pre_of. cbn [negb orb andb]. rewrite !andb_false_r, xorb_true_r. cbn [negb]. rewrite andb_true_r.
  destruct (Z.ltb_spec c ss); [|rewrite HW by lia; by destruct (Z.testbit nw c)].
  destruct (Z.testbit nw c), (Z.testbit nr c), (W c); cbn in *; split; intuition congruence.
Qed.

Lemma update_sound : some (Z.to_nat rep) (must_complement_at W) = false → row_sound W (pre_of W false false) UPDATE_STRATEGY.
Proof.
  intros Hm. split; [done|]. right; left. split; [done|]. intros c Hc. pose proof (some_none _ _ c Hm ltac:(lia)) as H. unfold must_complement_at in H.
  pose proof (Hdead c) as Hd. unfold pre_of. cbn [negb orb andb]. rewrite !andb_false_r, !andb_true_r, xorb_false_r. cbn [negb]. rewrite ?andb_true_r.
  destruct (Z.ltb_spec c ss), (Z.leb_spec ss c); try lia.
  - destruct (Z.testbit nw c), (Z.testbit nr c), (W c); cbn in *; split; intuition congruence.
  - rewrite HW by lia. destruct (Z.testbit nw c), (Z.testbit nr c); cbn in *; split; intuition congruence.
Qed.

Lemma restore_sound co : total (Z.to_nat rep) unreadable ≤ rep - ss → row_sound W (pre_of W true co) RESTORE_STRATEGY.
Proof.
  intros Hcount. split; [done|]. right; right. split; [done|].
  assert (∀ c, 0 ≤ c < rep → pre_of W true co c = (c <? ss) || W c) as HP.
  { intros c Hc. unfold pre_of. cbn. rewrite andb_true_r. destruct (Z.ltb_spec c ss), (Z.leb_spec ss c); try lia; cbn; rewrite ?HW by lia; done. }
  split; [apply HP|]. etrans; [|apply (total_le _ (fun c => 1 - unreadable c))]; [rewrite total_readable; lia|].
  intros c Hc. unfold read_ok, unreadable. rewrite HP by lia. destruct (Z.testbit nr c) eqn:En; [by destruct (_ || _)|].
  destruct (Z.ltb_spec c ss); [done|]. rewrite HW by lia. destruct (Z.testbit nw c) eqn:E; [by rewrite (Hdead c E) in En|done].
Qed.

Lemma plan_sound n mu : total (Z.to_nat rep) unreadable ≤ rep - ss →
  let p := choose_strategy ss rep nr n (some (Z.to_nat rep) (must_complement_at W)) (mu || some (Z.to_nat rep) (must_update_at W)) in
  row_sound W (pre_of W p.1.1 p.1.2) p.2.
Proof.
  intros Hcount. unfold choose_strategy. cbn zeta. pose proof complement_sound as Hc. pose proof update_sound as Hu.
  destruct (some _ (must_complement_at W)), (some _ (must_update_at W)), mu; cbn [orb andb negb fst snd]; rewrite ?andb_false_r, ?orb_true_r, ?andb_true_r, ?orb_false_r;
    auto using restore_sound.
  destruct (_ <=? _); auto.
Qed.
End choice.

(** The plan of a row whose data columns [V] are written. *)
Definition row_bio (V : Z → bool) (c : Z) : bool := V c || live c.
Definition row_choice (V : Z → bool) : bool * bool * Z :=
  choose_strategy ss rep nr (hweight 16 (mask_of (Z.to_nat rep) V)) (some (Z.to_nat rep) (must_complement_at (row_bio V)))
    (some (Z.to_nat rep) (must_update_at (row_bio V))).
Definition row_pre (V : Z → bool) : Z → bool := pre_of (row_bio V) (row_choice V).1.1 (row_choice V).1.2.
Definition row_strat (V : Z → bool) : Z := (row_choice V).2.
Definition row_extra (V : Z → bool) : Z :=
  total (Z.to_nat (rep - ss)) (fun i => if Z.testbit nw (ss + i) then 0 else 1) +
  total (Z.to_nat rep) (extra_of (row_bio V) (row_choice V).1.1 (row_choice V).1.2).

Lemma row_plan_sound V : (∀ c, ss ≤ c < rep → V c = false) → total (Z.to_nat rep) unreadable ≤ rep - ss →
  row_sound (row_bio V) (row_pre V) (row_strat V).
Proof.
  intros HV Hc. apply (plan_sound (row_bio V)) with (mu := false); [|done]. intros c Hc'. unfold row_bio, live.
  rewrite HV, (proj2 (Z.leb_le _ _)) by lia. done.
Qed.

Lemma no_force W n : nr = 0 → some n (must_complement_at W) = false ∧ some n (must_update_at W) = false.
Proof. intros E. split; apply not_true_is_false; rewrite some_spec; intros (c & _ & Hb); unfold must_complement_at, must_update_at in Hb; by rewrite E, Z.bits_0 in Hb. Qed.

Lemma row_strat_range V : 0 ≤ row_strat V < 2 ^ 8.
Proof. unfold row_strat, row_choice, choose_strategy. cbn zeta. destruct (_ && _); [done|]. by destruct (_ || _). Qed.

Lemma mask_of_data V : (∀ c, ss ≤ c < rep → V c = false) → Z.land (mask_of (Z.to_nat rep) V) (Z.ones ss) = mask_of (Z.to_nat rep) V.
Proof.
  intros HV. apply Z.bits_inj'. intros i Hi. rewrite Z.land_spec, mask_of_testbit, ones_testbit by lia.
  destruct (Z.ltb_spec i ss), (Z.ltb_spec i (Z.of_nat (Z.to_nat rep))); rewrite ?andb_true_r, ?andb_false_r; try done. by rewrite HV by lia.
Qed.

Lemma must_ok row w V mu : 0 ≤ row < rows → (∀ c, 0 ≤ c < rep → cell (w_bio w) c row = V c) →
  (if nr =? 0 then Ok (false, mu) else degraded_forces ss sn rep nr nw row w mu) =
  Ok (some (Z.to_nat rep) (must_complement_at V), mu || some (Z.to_nat rep) (must_update_at V)).
Proof.
  intros Hr HV. destruct (Z.eqb_spec nr 0) as [E|_]; [destruct (no_force V (Z.to_nat rep) E) as [-> ->]; by rewrite orb_false_r|].
  rewrite degraded_forces_ok by done. f_equal. f_equal; [|f_equal]; apply some_ext; intros c Hc; unfold must_complement_at, must_update_at; by rewrite HV by lia.
Qed.

Lemma write_row_ok ms row fcl fr lr V w w1 : 0 ≤ row < rows → (∀ c, ss ≤ c < rep → V c = false) →
  note_txbm (mask_of (Z.to_nat rep) V) w = Ok w1 → sized w1 → w_512 w1 = 0 → (∀ c, 0 ≤ c < rep → cell (w_bio w1) c row = V c) →
  ∃ w2, touches row live (row_pre V) (row_extra V) w1 w2 ∧
    write_row ss sn rep nr nw true ms row fcl fr lr (mask_of (Z.to_nat rep) V) w = note_strategy row true (row_strat V) w2.
Proof.
  intros Hr HV E1 Hs H512 Hcell. unfold write_row. cbn zeta. rewrite mask_of_data, Z.eqb_refl, E1 by done. cbn [negb]. rstep.
  destruct (add_write_parities_ok row w1 Hs Hr) as (w2 & -> & T1). rstep. unfold rmw_forces.
  destruct (to_rest _ _ _ _ _ _ T1) as (_ & _ & _ & _ & _ & _ & E512). rewrite E512, H512. cbn [Z.eqb]. rstep.
  assert (∀ c, 0 ≤ c < rep → cell (w_bio w2) c row = row_bio V c) as Hcell2.
  { intros c Hc. rewrite (to_bio _ _ _ _ _ _ T1), Hcell, Z.eqb_refl by (done || split; lia). done. }
  rewrite (must_ok row w2 (row_bio V) false Hr Hcell2). rstep. cbn [fst snd orb].
  unfold row_strat, row_pre, row_extra. unfold row_choice. destruct (choose_strategy _ _ _ _ _ _) as [[ra co] st]. cbn [fst snd].
  destruct (set_prereads_ok row ra co w2) as (w3 & -> & T2); [apply T1|done| |].
  { intros c Hc Hd. rewrite Hcell2 by lia. unfold row_bio, live. by rewrite HV, Hd, andb_false_r by lia. }
  rstep. exists w3. split; [|done].
  assert (∀ c, 0 ≤ c < rep → pre_of (fun c => cell (w_bio w2) c row) ra co c = pre_of (row_bio V) ra co c) as Hp.
  { intros c Hc. unfold pre_of. by rewrite Hcell2 by done. }
  rewrite (total_ext _ (extra_of (fun c => cell (w_bio w2) c row) ra co) (extra_of (row_bio V) ra co)) in T2
    by (intros c Hc; unfold extra_of; by rewrite Hp by lia).
  eapply touches_ext; [| |exact (touches_trans _ _ _ _ _ _ _ _ _ _ T1 T2)]; [|exact Hp].
  intros c Hc. unfold none. by rewrite orb_false_r.
Qed.

(** Parities after [col] that can be written. *)
Definition live_after (col c : Z) : bool := (col <? c) && live c.
Definition n_live (col : Z) : Z := total (Z.to_nat rep) (fun c => if live_after col c then 1 else 0).

Lemma aligned_parities_ok n col w : ss - 1 ≤ col < rep → Z.of_nat n = n_live col →
  ∃ col' w', aligned_parities sn nw n (rep * sn) (rows / sn) col w = Ok (col', w') ∧ col' < rep ∧ columns (live_after col) (rows * Z.of_nat n) w w'.
Proof.
  revert col w. induction n as [|n IH]; intros col w Hcol Hn; cbn [aligned_parities].
  - exists col, w. split_and!; [done|lia|]. rewrite Z.mul_0_r. eapply columns_ext, columns_refl. intros c Hc. unfold none.
    destruct (live_after col c) eqn:E; [|done]. assert (n_live col ≠ 0); [|lia]. unfold n_live.
    pose proof (total_le (Z.to_nat rep) (fun x => if x =? c then 1 else 0) (fun x => if live_after col x then 1 else 0)) as Hle.
    rewrite (total_one _ (fun x => if x =? c then 1 else 0) c) in Hle by (lia || by rewrite Z.eqb_refl || (intros x _ Hx; by rewrite (proj2 (Z.eqb_neq _ _) Hx))).
    enough (1 ≤ total (Z.to_nat rep) (fun x => if live_after col x then 1 else 0)) by lia. apply Hle. intros x _.
    destruct (Z.eqb_spec x c) as [->|]; [by rewrite E|by destruct (live_after col x)].
  - destruct (total_pos (Z.to_nat rep) (fun c => if live_after col c then 1 else 0)) as (d & Hd & Hlive); [unfold n_live in Hn; lia|].
    unfold live_after, live in Hlive. destruct (Z.ltb_spec col d), (Z.leb_spec ss d), (Z.testbit nw d) eqn:Ed; cbn in Hlive; try lia.
    destruct (skip_set_ok 32 nw (col + 1) d) as (c' & -> & Hc' & Hb & Hskip); [lia..|done|]. rstep.
    destruct (aligned_column_ok c' w ltac:(lia)) as (w1 & -> & C1). rstep.
    assert (∀ c, live_after col c = just c' c || live_after c' c) as Hsplit.
    { intros c. unfold live_after, live, just. destruct (Z.eqb_spec c c') as [->|Hne]; cbn [orb].
      - by rewrite (proj2 (Z.ltb_lt _ _)), (proj2 (Z.leb_le _ _)), Hb by lia.
      - destruct (Z.ltb_spec col c), (Z.ltb_spec c' c); try lia; try done. by rewrite Hskip, andb_false_r by lia. }
    destruct (IH c' w1) as (col' & w2 & -> & Hcol' & C2); [lia| |].
    { unfold n_live in *. rewrite (total_ext _ _ (fun c => (if just c' c then 1 else 0) + (if live_after c' c then 1 else 0))), total_add in Hn.
      - rewrite (total_one _ (fun c => if just c' c then 1 else 0) c') in Hn; [lia|lia|unfold just; by rewrite Z.eqb_refl|].
        intros c _ Hne. unfold just. by rewrite (proj2 (Z.eqb_neq _ _) Hne).
      - intros c _. rewrite Hsplit. unfold just. destruct (Z.eqb_spec c c') as [->|]; cbn [orb]; [|by destruct (live_after c' c)].
        unfold live_after. by rewrite Z.ltb_irrefl. }
    exists col', w2. split_and!; [done|done|]. replace (rows * Z.of_nat (S n)) with (rows + rows * Z.of_nat n) by lia.
    eapply columns_ext, (columns_trans _ _ _ _ _ _ _ C1 C2). intros c _. by rewrite Hsplit.
Qed.

Lemma n_parities_ok : (if nw =? 0 then rep - ss else rep - ss - hweight 32 (Z.land (GENMASK (rep - 1) ss) nw)) = n_live (ss - 1).
Proof.
  set (dead := fun c => if (ss <=? c) && Z.testbit nw c then 1 else 0).
  assert (n_live (ss - 1) + total (Z.to_nat rep) dead = rep - ss) as Hsum.
  { unfold n_live. rewrite <- total_add. rewrite (total_ext _ _ (fun c => if ss <=? c then 1 else 0)); [rewrite total_from by lia; lia|].
    intros c Hc. unfold live_after, live, dead. destruct (Z.ltb_spec (ss - 1) c), (Z.leb_spec ss c), (Z.testbit nw c); cbn; lia. }
  destruct (Z.eqb_spec nw 0) as [E|_].
  - enough (total (Z.to_nat rep) dead = 0) by lia. rewrite (total_ext _ _ (fun _ => 0)); [|intros c _; unfold dead; by rewrite E, Z.bits_0, andb_false_r].
    by rewrite (total_more 0) by (done || lia).
  - enough (hweight 32 (Z.land (GENMASK (rep - 1) ss) nw) = total (Z.to_nat rep) dead) by lia. rewrite hweight_total.
    assert (∀ c, 0 ≤ c → (if Z.testbit (Z.land (GENMASK (rep - 1) ss) nw) c then 1 else 0) = if c <? rep then dead c else 0) as Hbit.
    { intros c Hc. unfold GENMASK, dead. rewrite Z.land_spec, Z.ldiff_spec, !ones_testbit by lia. replace (rep - 1 + 1) with rep by lia.
      destruct (Z.ltb_spec c rep), (Z.ltb_spec c ss), (Z.leb_spec ss c); cbn; lia || done. }
    rewrite (total_more (Z.to_nat rep)) by (lia || (intros c Hc; rewrite Hbit by lia; by rewrite (proj2 (Z.ltb_ge _ _)) by lia)).
    apply total_ext. intros c Hc. rewrite Hbit by lia. by rewrite (proj2 (Z.ltb_lt _ _)) by lia.
Qed.

Lemma set_all_row_maps_ok w : 1 < rows → w_row_bio w = replicate 32 0 → w_row_prd w = replicate 32 0 →
  nvmeibc_mssa_set_all_row_maps rep (rep * rows) w =
  Ok (with_bio w (w_bio w) (replicate (Z.to_nat rows) (Z.ones rep) ++ replicate (32 - Z.to_nat rows) 0)).
Proof.
  intros Hr Hb Hp. unfold nvmeibc_mssa_set_all_row_maps. rewrite (Z.mul_comm rep), Z.div_mul by lia. rewrite (proj2 (Z.leb_gt _ _)) by lia.
  set (I := fun (k : nat) w' => w' = with_bio w (w_bio w) (replicate k (Z.ones rep) ++ replicate (32 - k) 0)).
  match goal with |- for_up ?n ?b ?s = _ => destruct (for_up_inv b I n s) as (w' & -> & ->) end; [unfold I; change (_ ++ _) with (replicate 32 0); rewrite <- Hb; by destruct w| |done].
  intros k w' Hk ->. cbn [with_bio w_row_bio w_row_prd w_bio]. replace (32 - k)%nat with (S (32 - S k)) by lia. cbn [replicate].
  assert (∀ x, (replicate k (Z.ones rep) ++ x :: replicate (32 - S k) 0) !! k = Some x) as Hl by (intros x; apply list_lookup_middle; by rewrite length_replicate).
  rewrite (proj2 (aget_ok _ _ _) (Hl 0)). rstep. rewrite Hp, (proj2 (aget_ok _ k 0)) by (apply lookup_replicate; lia). rstep.
  rewrite aset_ok by (rewrite length_app, length_replicate; cbn; lia). rstep. eexists. split; [reflexivity|]. unfold I.
  rewrite insert_app_r_alt by (rewrite length_replicate; lia). rewrite length_replicate, Nat.sub_diag. cbn [list_insert insert]. by rewrite replicate_S_end, <- app_assoc.
Qed.

Lemma aligned_write_ok w : 1 ≤ rows → sized w → w_si w = 0%nat → w_row_bio w = replicate 32 0 → w_row_prd w = replicate 32 0 →
  ∃ w', aligned_write ss sn rep nw (rep * rows) (rep * sn) (rows / sn) w = Ok w' ∧
    (∀ c r, in_map c r → cell (w_bio w') c r = cell (w_bio w) c r || live c) ∧ w_pre w' = w_pre w ∧ w_si w' = 0%nat ∧
    w_change w' = w_change w ∧ strategies_get (w_union w') 0 = Ok COMPLEMENT_STRATEGY ∧ w_tx w' = <[0%nat := Z.ones ss]> (w_tx w) ∧
    w_row_prd w' = w_row_prd w ∧ (rows ≠ 1 → ∀ r, 0 ≤ r < rows → mask_at (w_row_bio w') r = Z.ones rep) ∧
    w_extra w' = w_extra w + rows * n_live (ss - 1).
Proof.
  intros Hr1 Hs Hsi Hb Hp. unfold aligned_write. cbn zeta. rewrite n_parities_ok, Hsi.
  destruct (strategies_set_ok (w_union w) 0 COMPLEMENT_STRATEGY) as (u & -> & Lu & Hu & _); [apply Hs|lia|done|]. rstep.
  rewrite aset_ok by (rewrite (sz_tx _ Hs); lia). rstep. assert (0 ≤ n_live (ss - 1)) as Hn0.
  { apply total_nonneg. intros c. by destruct (live_after _ _). }
  set (w0 := with_tx _ _ _). destruct (aligned_parities_ok (Z.to_nat (n_live (ss - 1))) (ss - 1) w0) as (col' & w1 & -> & Hcol & [C1 C2]); [lia|lia|]. rstep.
  rewrite (Z.mul_comm rep rows), Z.div_mul by lia. rewrite (Z.mul_comm rows rep).
  assert (∀ c, live_after (ss - 1) c = live c) as Hl by (intros c; unfold live_after, live; destruct (Z.ltb_spec (ss - 1) c), (Z.leb_spec ss c); lia || done).
  rewrite Z2Nat.id in C2 by done.
  assert (∀ w2, (if 1 <? rows then nvmeibc_mssa_set_all_row_maps rep (rep * rows) w1 else Ok w1) = Ok w2 →
    ∃ l, w2 = with_bio w1 (w_bio w1) l ∧ (rows ≠ 1 → ∀ r, 0 ≤ r < rows → mask_at l r = Z.ones rep)) as Hmaps.
  { intros w2. destruct (Z.ltb_spec 1 rows).
    - rewrite set_all_row_maps_ok by (done || by rewrite C2). intros [= <-]. eexists. split; [reflexivity|]. intros _ r Hr. unfold mask_at.
      rewrite lookup_app_l, (proj2 (lookup_replicate _ _ _ _)) by (rewrite ?length_replicate; split_and?; lia || done). done.
    - intros [= <-]. exists (w_row_bio w1). split; [by destruct w1|lia]. }
  destruct (if 1 <? rows then _ else _) as [w2|e] eqn:E2.
  - destruct (Hmaps w2 eq_refl) as (l & -> & Hl2). rstep. rewrite (proj2 (Z.leb_gt _ _)) by lia. eexists. split; [reflexivity|].
    rewrite C2. cbn [with_bio with_extra w_bio w_pre w_si w_change w_union w_tx w_row_prd w_row_bio w_extra]. split_and!; try done.
    intros c r Hin. rewrite C1, Hl by done. done.
  - destruct (Z.ltb_spec 1 rows); [|done]. rewrite set_all_row_maps_ok in E2 by (done || by rewrite C2). done.
Qed.

(** ** Writes that touch every row *)
Section all_rows.
Context (V : Z → Z → bool) (x0 : Z).
Hypothesis (HV : ∀ c r, ss ≤ c < rep → V c r = false).
Hypothesis (Hall : ∀ r, 0 ≤ r < rows → ∃ c, 0 ≤ c < rep ∧ V c r = true).
Definition at_row (r : Z) (c : Z) : bool := V c r.
Definition strat_at (r : nat) : Z := row_strat (at_row (Z.of_nat r)).
Definition txbm_at (r : nat) : Z := mask_of (Z.to_nat rep) (at_row (Z.of_nat r)).

Lemma txbm_nonzero r : (Z.of_nat r < rows) → txbm_at r ≠ 0.
Proof.
  intros Hr E. destruct (Hall (Z.of_nat r) ltac:(lia)) as (c & Hc & Hb). assert (Z.testbit (txbm_at r) c = true) as H.
  { unfold txbm_at, at_row. rewrite mask_of_testbit by lia. by rewrite (proj2 (Z.ltb_lt _ _)) by lia. }
  by rewrite E, Z.bits_0 in H.
Qed.

Hypothesis (Hstrats : (runs_of strat_at (Z.to_nat rows) ≤ 5)%nat).
Hypothesis (Htxbms : (runs_of txbm_at (Z.to_nat rows) ≤ 5)%nat).

(** The first [n] rows are planned. *)
Record planned (n : nat) (w : work) : Prop := {
  pl_sized : sized w;
  pl_bio : ∀ c r, in_map c r → cell (w_bio w) c r = if r <? Z.of_nat n then row_bio (at_row r) c else V c r;
  pl_pre : ∀ c r, in_map c r → cell (w_pre w) c r = (r <? Z.of_nat n) && row_pre (at_row r) c;
  pl_mbio : rows ≠ 1 → ∀ c r, in_map c r → Z.testbit (mask_at (w_row_bio w) r) c = (r <? Z.of_nat n) && row_bio (at_row r) c;
  pl_mpre : ∀ c r, in_map c r → Z.testbit (mask_at (w_row_prd w) r) c = (r <? Z.of_nat n) && row_pre (at_row r) c;
  pl_strat : noted strat_at n (w_union w) (w_change w) ∧ w_si w = runs_of strat_at n;
  pl_tx : noted_tx txbm_at n (w_tx w) ∧ w_ti w = runs_of txbm_at n;
  pl_extra : w_512 w = 0 ∧ w_extra w = x0 + total n (fun r => row_extra (at_row r));
  pl_one : n = 0%nat → rows = 1 → 0 ≤ w_bio w < 2 ^ rep
}.

Lemma row_stored_rest row w : 0 ≤ row < rows → sized w →
  sized (row_stored row w) ∧ w_bio (row_stored row w) = w_bio w ∧ w_pre (row_stored row w) = w_pre w ∧ w_row_prd (row_stored row w) = w_row_prd w ∧
  w_union (row_stored row w) = w_union w ∧ w_change (row_stored row w) = w_change w ∧ w_tx (row_stored row w) = w_tx w ∧
  w_si (row_stored row w) = w_si w ∧ w_ti (row_stored row w) = w_ti w ∧ w_512 (row_stored row w) = w_512 w ∧ w_extra (row_stored row w) = w_extra w.
Proof.
  intros Hr Hs. unfold row_stored. destruct (_ =? _); [by split_and!|]. split_and!; try done. destruct Hs. split; try done. cbn. by rewrite length_insert.
Qed.

Lemma row_stored_mask row w c r : rows ≠ 1 → 0 ≤ row < rows → sized w → in_map c r →
  Z.testbit (mask_at (w_row_bio (row_stored row w)) r) c = if r =? row then cell (w_bio w) c row else Z.testbit (mask_at (w_row_bio w) r) c.
Proof.
  intros Hne Hr Hs [Hc Hr']. unfold row_stored. rewrite (proj2 (Z.eqb_neq (rep * rows) rep)) by nia. cbn [with_bio w_row_bio]. unfold mask_at.
  destruct (Z.eqb_spec r row) as [->|].
  - rewrite list_lookup_insert_eq by (rewrite (sz_bio _ Hs); lia). cbn [from_option id]. rewrite mask_of_testbit by lia. by rewrite (proj2 (Z.ltb_lt _ _)) by lia.
  - by rewrite list_lookup_insert_ne by lia.
Qed.

Lemma row_of_next n r : 0 ≤ r → (r <? Z.of_nat (S n)) = (r <? Z.of_nat n) || (r =? Z.of_nat n).
Proof. intros Hr. destruct (Z.ltb_spec r (Z.of_nat (S n))), (Z.ltb_spec r (Z.of_nat n)), (Z.eqb_spec r (Z.of_nat n)); lia || done. Qed.

(** The cells and masks after a row was added to those of [n] rows. *)
Lemma planned_touch n w w0 w1 w2 : Z.of_nat n < rows → planned n w → w0 = row_stored (Z.of_nat n) w →
  w_bio w1 = w_bio w0 → w_pre w1 = w_pre w0 → w_row_bio w1 = w_row_bio w0 → w_row_prd w1 = w_row_prd w0 →
  touches (Z.of_nat n) live (row_pre (at_row (Z.of_nat n))) (row_extra (at_row (Z.of_nat n))) w1 w2 →
  (∀ c r, in_map c r → cell (w_bio w2) c r = if r <? Z.of_nat (S n) then row_bio (at_row r) c else V c r) ∧
  (∀ c r, in_map c r → cell (w_pre w2) c r = (r <? Z.of_nat (S n)) && row_pre (at_row r) c) ∧
  (rows ≠ 1 → ∀ c r, in_map c r → Z.testbit (mask_at (w_row_bio w2) r) c = (r <? Z.of_nat (S n)) && row_bio (at_row r) c) ∧
  (∀ c r, in_map c r → Z.testbit (mask_at (w_row_prd w2) r) c = (r <? Z.of_nat (S n)) && row_pre (at_row r) c).
Proof.
  intros Hn Hp -> E1 E2 E3 E4 T. destruct (row_stored_rest (Z.of_nat n) w ltac:(lia) (pl_sized _ _ Hp)) as (_ & F1 & F2 & F3 & _).
  split_and!; [| |intros Hne|]; intros c r Hin; pose proof Hin as [Hc Hr]; rewrite row_of_next by lia.
  - rewrite (to_bio _ _ _ _ _ _ T), E1, F1, (pl_bio _ _ Hp) by done. destruct (Z.ltb_spec r (Z.of_nat n)), (Z.eqb_spec r (Z.of_nat n)); try lia; cbn; rewrite ?orb_false_r; done.
  - rewrite (to_pre _ _ _ _ _ _ T), E2, F2, (pl_pre _ _ Hp) by done.
    destruct (Z.ltb_spec r (Z.of_nat n)), (Z.eqb_spec r (Z.of_nat n)) as [->|]; try lia; cbn; rewrite ?orb_false_r; done.
  - rewrite (to_mbio _ _ _ _ _ _ T), E3, row_stored_mask, (pl_bio _ _ Hp) by (done || lia || apply Hp || split; lia).
    destruct (Z.eqb_spec r (Z.of_nat n)) as [->|]; [by rewrite Z.ltb_irrefl|]. rewrite (pl_mbio _ _ Hp Hne) by done. by rewrite !orb_false_r.
  - rewrite (to_mpre _ _ _ _ _ _ T), E4, F3, (pl_mpre _ _ Hp) by done.
    destruct (Z.ltb_spec r (Z.of_nat n)), (Z.eqb_spec r (Z.of_nat n)) as [->|]; try lia; cbn; rewrite ?orb_false_r; done.
Qed.

Lemma plan_row n fcl fr lr w : Z.of_nat n < rows → planned n w →
  row_map_set sn rep (rep * rows) (Z.of_nat n) w = Ok (txbm_at n, row_stored (Z.of_nat n) w) ∧
  ∃ w', write_row ss sn rep nr nw true (rep * rows) (Z.of_nat n) fcl fr lr (txbm_at n) (row_stored (Z.of_nat n) w) = Ok w' ∧ planned (S n) w'.
Proof.
  intros Hn Hp. pose proof (pl_sized _ _ Hp) as Hs. split.
  { rewrite row_map_set_ok; [|done|lia|intros E; apply (pl_one _ _ Hp); lia]. f_equal. f_equal. apply mask_of_ext. intros c Hc.
    rewrite (pl_bio _ _ Hp), Z.ltb_irrefl by (split; lia). done. }
  destruct (row_stored_rest (Z.of_nat n) w ltac:(lia) Hs) as (Hs0 & F1 & F2 & F3 & F4 & F5 & F6 & F7 & F8 & F9 & F10).
  set (w0 := row_stored (Z.of_nat n) w) in *. destruct (pl_strat _ _ Hp) as [Hnoted Hsi]. destruct (pl_tx _ _ Hp) as [Htx Hti]. destruct (pl_extra _ _ Hp) as [H512 Hx].
  assert (runs_of txbm_at (S n) ≤ runs_of txbm_at (Z.to_nat rows))%nat by (apply runs_of_mono; lia).
  assert (runs_of strat_at (S n) ≤ runs_of strat_at (Z.to_nat rows))%nat by (apply runs_of_mono; lia).
  destruct (note_txbm_ok txbm_at n w0) as (tx & E1 & Htx'); [congruence..|lia|]. set (w1 := with_tx w0 tx (runs_of txbm_at (S n))) in *.
  destruct (write_row_ok (rep * rows) (Z.of_nat n) fcl fr lr (at_row (Z.of_nat n)) w0 w1) as (w2 & T & Ew); [lia|intros c; apply HV|done| |cbn; congruence| |].
  { destruct Hs0. split; try done. apply Htx'. }
  { intros c Hc. cbn. rewrite F1, (pl_bio _ _ Hp), Z.ltb_irrefl by (split; lia). done. }
  destruct (to_rest _ _ _ _ _ _ T) as (R1 & R2 & R3 & R4 & R5 & R6 & R7). cbn in R1, R2, R3, R4, R5, R7.
  destruct (note_strategy_ok strat_at n w2) as (u & ch & E2 & Hnoted'); [congruence..|lia|apply row_strat_range|].
  exists (with_strat w2 u ch (runs_of strat_at (S n))). split; [exact (eq_trans Ew E2)|].
  destruct (planned_touch n w w0 w1 w2) as (P1 & P2 & P3 & P4); [done..|].
  destruct (to_sized _ _ _ _ _ _ T). split; try done.
  - split; try done; apply Hnoted'.
  - split; [|done]. cbn. by rewrite R3.
  - split; [cbn; congruence|]. cbn [with_strat w_extra total]. rewrite (to_extra _ _ _ _ _ _ T). cbn [w1 with_tx w_extra]. rewrite F10, Hx. lia.
Qed.

Lemma rows_planned n fcl fr lr nlbas w : sn ≤ nlbas → Z.of_nat n ≤ rows → planned n w →
  ∃ w', rows_from ss sn rep nr nw true (Z.to_nat rows - n) false (rep * rows) nlbas fcl fr lr (Z.of_nat n) w = Ok w' ∧ planned (Z.to_nat rows) w'.
Proof.
  intros Hnl. remember (Z.to_nat rows - n)%nat as k eqn:Ek. revert n w Ek. induction k as [|k IH]; intros n w Ek Hn Hp.
  - exists w. split; [done|]. by replace (Z.to_nat rows) with n by lia.
  - cbn [rows_from]. destruct (plan_row n fcl fr lr w ltac:(lia) Hp) as (-> & w1 & E1 & Hp1). rstep.
    rewrite (proj2 (Z.eqb_neq _ _)) by (apply txbm_nonzero; lia). rewrite E1. rstep. rewrite (proj2 (Z.ltb_ge nlbas sn)) by lia.
    replace (Z.of_nat n + 1) with (Z.of_nat (S n)) by lia. apply IH; [lia|lia|done].
Qed.
End all_rows.
End plan.
End cells.
