(* ===== verification/MssaPlan.v ===== *)
(** What the slice analyser promises (Mssa.v), for volumes whose snakes are one block
    high: the data path library opens every volume so.

    A write never faults, its slices have at most three strategies, the parity
    calculation finds the strategy of each slice, and each slice reads before what its
    strategy needs. *)
From stdpp Require Import base list numbers strings.
From Stdlib Require Import ZArith Lia.
From S2P Require Import Prelude CMemory BitFields DirtyBits JournalMd Topology TopoIter AddrMap Roles LockServer LockPlan Mssa MssaProof.
Local Open Scope Z_scope.

(** ** Roles of the segments *)

(** Columns that cannot be read: [nvmeibc_raid1_get_inverse_roles_bmp(readable)]. *)
Definition no_read (b : roles_bmps) : Z := Z.land (Z.lnot (rb_readable b)) (rb_all b).

Record roles_fit (r : raid1) (b : roles_bmps) : Prop := {
  rf_dead : ∀ c, Z.testbit (rb_dead b) c = true → Z.testbit (no_read b) c = true;
  rf_high : ∀ c, replicas r ≤ c → Z.testbit (no_read b) c = false;
  rf_count : hweight 16 (no_read b) = n_unreadable r
}.

Lemma rotated_wf r d : wf_raid1 r → wf_raid1 (Raid1 (replicas r) (slice_size r) (rotate d (segments r)) (lock_scheme r) (use_rdma_locks r)).
Proof.
  intros [H1 H2 H3 H4]. split; cbn; [done|done|by rewrite length_rotate|]. unfold rotate. rewrite Forall_app. split; [by apply Forall_drop|by apply Forall_take].
Qed.

Lemma derived_roles_fit is_access_local r d b : wf_raid1 r → roles_match is_access_local r d b → roles_fit r b.
Proof.
  intros Hwf [(_ & _ & _ & Hdead & Hread & _) (Hall & _) _]. assert (0 ≤ replicas r) by (destruct Hwf; lia).
  assert (length (rotate (Z.to_nat d) (segments r)) = Z.to_nat (replicas r)) as Hlen by (rewrite length_rotate; apply Hwf). split.
  - intros c Hc. destruct (Z.ltb_spec c 0); [by rewrite Z.testbit_neg_r in Hc|]. unfold no_read.
    rewrite Z.land_spec, Z.lnot_spec, Hread, Hall, ones_testbit, seg_bmp_testbit by lia. rewrite Hdead, seg_bmp_testbit in Hc by lia.
    destruct (_ !! Z.to_nat c) as [s|] eqn:E; [|done]. apply lookup_lt_Some in E. rewrite (proj2 (Z.ltb_lt _ _)), andb_true_r by lia.
    by destruct (toma_acm s) eqn:Es; unfold in_mode in *; rewrite Es in *.
  - intros c Hc. unfold no_read. rewrite Z.land_spec, Hall, ones_testbit, (proj2 (Z.ltb_ge _ _)) by lia. apply andb_false_r.
  - unfold no_read. rewrite (inverse_readable _ (rotated_wf r (Z.to_nat d) Hwf)) by done. unfold n_unreadable. cbn [segments].
    f_equal. unfold rotate. set (k := (_ `mod` _)%nat). rewrite list.filter_app, length_app, Nat.add_comm, <- length_app, <- list.filter_app.
    by rewrite take_drop.
Qed.

Lemma owner_range r rlba : wf_raid1 r → 0 ≤ get_owner_seg_slice_start r rlba < replicas r.
Proof. intros []. apply Z.mod_pos_bound. lia. Qed.

Lemma filled_roles_fit is_access_local r cd r' rlba b : wf_raid1 r → nvmeibc_raid1_fill_calculated_data is_access_local r = Ok (cd, r') →
  zget (cd_roles cd) (get_owner_seg_slice_start r rlba) = Ok b → roles_fit r b.
Proof.
  intros Hwf Hfill Hb. pose proof (owner_range r rlba Hwf) as Ho. destruct (fill_run is_access_local r Hwf) as (cd1 & r1 & _ & E & _ & Hroles & _).
  rewrite Hfill in E. injection E as <- <-. rewrite (zget_ok _ _ _ (proj1 Ho) (Hroles _ Ho)) in Hb. injection Hb as <-.
  eapply derived_roles_fit, roles_at_match; done.
Qed.

(** ** Rows of an I/O *)
Lemma runs_three f n : (∀ r, (1 ≤ r)%nat → (S (S r) < n)%nat → f (S r) = f r) → (runs_of f n ≤ 3)%nat.
Proof.
  intros Hf. assert (∀ m, (m < n)%nat → (runs_of f m ≤ 2)%nat) as Hm.
  { intros m Hm. induction m as [|[|[|m]] IH]; [cbn; lia|rewrite runs_of_1; lia|rewrite runs_of_S, runs_of_1; destruct (_ =? _); lia|].
    rewrite runs_of_S, (proj2 (Z.eqb_eq _ _)) by (apply Hf; lia). lia. }
  destruct n as [|[|n]]; [cbn; lia|rewrite runs_of_1; lia|]. rewrite runs_of_S. specialize (Hm (S n) ltac:(lia)). destruct (_ =? _); lia.
Qed.

Section one.
Context (ss rep start nlbas : Z).
Hypothesis (Hss : 1 ≤ ss ≤ rep).
Hypothesis (Hrep : rep ≤ 12).
Hypothesis (Hstart : 0 ≤ start < ss).
Hypothesis (Hnlbas : 1 ≤ nlbas).
Hypothesis (Hfits : start + nlbas ≤ ss * 32).

Definition n_rows : Z := (start + nlbas - 1) / ss + 1.
Definition in_op (c r : Z) : bool := (c <? ss) && (start <=? r * ss + c) && (r * ss + c <? start + nlbas).

Lemma n_rows_bounds : 1 ≤ n_rows ≤ 32 ∧ (n_rows - 1) * ss ≤ start + nlbas - 1 < n_rows * ss.
Proof.
  unfold n_rows. pose proof (Z.div_mod (start + nlbas - 1) ss ltac:(lia)). pose proof (Z.mod_pos_bound (start + nlbas - 1) ss ltac:(lia)).
  assert (0 ≤ (start + nlbas - 1) / ss) by (apply Z.div_pos; lia). assert ((start + nlbas - 1) / ss < 32) by (apply Z.div_lt_upper_bound; lia). lia.
Qed.

Lemma every_row r : 0 ≤ r < n_rows → ∃ c, 0 ≤ c < rep ∧ in_op c r = true.
Proof.
  intros Hr. destruct n_rows_bounds as (Hn & H1 & H2). exists (if r =? 0 then start else 0). unfold in_op.
  destruct (Z.eqb_spec r 0) as [->|]; (split; [lia|]); rewrite (proj2 (Z.ltb_lt _ ss)), (proj2 (Z.leb_le _ _)), (proj2 (Z.ltb_lt _ (start + nlbas))); try done; try nia.
Qed.

Lemma middle_row c r : 1 ≤ r → r + 1 < n_rows → 0 ≤ c → in_op c r = (c <? ss).
Proof.
  intros Hr Hn Hc. destruct n_rows_bounds as (_ & H1 & H2). unfold in_op. destruct (Z.ltb_spec c ss); [|done].
  rewrite (proj2 (Z.leb_le _ _)), (proj2 (Z.ltb_lt _ _)) by nia. done.
Qed.

Lemma high_column c r : ss ≤ c → in_op c r = false.
Proof. intros Hc. unfold in_op. by rewrite (proj2 (Z.ltb_ge _ _)) by lia. Qed.

(** The map [set_bio_blocks] makes. *)
Lemma io_map n_slices : start + nlbas ≤ ss * n_slices → 0 ≤ n_slices ≤ 32 → ∃ m,
  set_bio_blocks 1 (S (Z.to_nat nlbas)) n_slices rep ss nlbas 0 start 0 0 = Ok (m, n_rows) ∧
  (∀ c r, 0 ≤ c < rep → 0 ≤ r → cell 1 rep m c r = in_op c r) ∧ (n_rows = 1 → 0 ≤ m < 2 ^ rep).
Proof.
  intros Hle Hsl. destruct (set_bio_blocks_ok ss 1 rep n_slices ltac:(lia) Hss Hrep ltac:(exists n_slices; lia) ltac:(lia)
    (S (Z.to_nat nlbas)) 0 start 0 nlbas 0) as (m & E & Hm); [lia..|]. rewrite !Z.mul_1_r in E. rewrite E. exists m.
  split; [f_equal; f_equal; unfold n_rows; f_equal; f_equal; lia|].
  assert (∀ c r, 0 ≤ c < rep → 0 ≤ r → Z.testbit m (r * rep + c) = in_op c r) as Hbit.
  { intros c r Hc Hr. rewrite Hm, Z.bits_0 by nia. unfold in_io, in_op. rewrite !Z.mul_1_r.
    rewrite (Z.add_comm (r * rep) c), Z.mod_add, Z.div_add, Z.mod_small, Z.div_small by lia. cbn [orb]. repeat f_equal; lia. }
  split; [intros c r Hc Hr; unfold cell, map_rlba_offset; rewrite Z.div_1_r, Z.mod_1_r, <- Hbit by done; f_equal; lia|].
  intros E1. destruct n_rows_bounds as (_ & _ & Hb). rewrite E1 in Hb. assert (m = mask_of (Z.to_nat rep) (fun c => in_op c 0)) as ->.
  - apply Z.bits_inj'. intros i Hi. rewrite mask_of_testbit by done. rewrite (Z.div_mod i rep) at 1 by lia.
    rewrite (Z.mul_comm rep), Hbit by (try apply Z.mod_pos_bound; try apply Z.div_pos; lia).
    destruct (Z.ltb_spec i (Z.of_nat (Z.to_nat rep))) as [Hlt|Hge]; [by rewrite Z.div_small, Z.mod_small by lia|].
    unfold in_op. assert (1 ≤ i / rep) by (apply Z.div_le_lower_bound; lia). pose proof (Z.mod_pos_bound i rep ltac:(lia)).
    rewrite (proj2 (Z.ltb_ge (i / rep * ss + i mod rep) _)) by nia. by rewrite !andb_false_r.
  - pose proof (mask_of_range (Z.to_nat rep) (fun c => in_op c 0)) as H. by rewrite Z2Nat.id in H by lia.
Qed.

(** ** Strategies of the rows *)
Section roles.
Context (nr nw : Z).

Lemma row_choice_ext V V' : (∀ c, 0 ≤ c < rep → V c = V' c) → row_choice ss rep nr nw V = row_choice ss rep nr nw V'.
Proof.
  intros HV. unfold row_choice. rewrite (mask_of_ext _ V V') by (intros c Hc; apply HV; lia).
  f_equal; apply some_ext; intros c Hc; unfold must_complement_at, must_update_at, row_bio; by rewrite HV by lia.
Qed.

Lemma strats_three : (runs_of (strat_at ss rep nr nw in_op) (Z.to_nat n_rows) ≤ 3)%nat.
Proof.
  apply runs_three. intros r H1 H2. unfold strat_at, row_strat. f_equal. apply row_choice_ext. intros c Hc. unfold at_row. by rewrite !middle_row by lia.
Qed.

Lemma txbms_three : (runs_of (txbm_at rep in_op) (Z.to_nat n_rows) ≤ 3)%nat.
Proof. apply runs_three. intros r H1 H2. apply mask_of_ext. intros c Hc. unfold at_row. by rewrite !middle_row by lia. Qed.

Lemma row_sound_ext W P W' P' s : (∀ c, 0 ≤ c < rep → W c = W' c) → (∀ c, 0 ≤ c < rep → P c = P' c) →
  row_sound ss rep nr nw W P s → row_sound ss rep nr nw W' P' s.
Proof.
  intros HW HP [H1 H2]. split; [intros c Hc; rewrite <- HW by lia; by apply H1|].
  destruct H2 as [[Es H2]|[[Es H2]|(Es & H2 & H3)]]; [left|right; left|right; right]; (split; [done|]).
  - intros c Hc. rewrite <- HW, <- HP by done. by apply H2.
  - intros c Hc. rewrite <- HW, <- HP by done. by apply H2.
  - split; [intros c Hc; rewrite <- HW, <- HP by done; by apply H2|].
    rewrite (total_ext _ _ (read_ok nr P)); [done|]. intros c Hc. unfold read_ok. by rewrite <- HP by lia.
Qed.

(** What is in the maps and lists of [w] is a plan of the I/O. *)
Definition plan_ok (bio pre : Z) (strat : nat → Z) : Prop :=
  ∀ r, 0 ≤ r < n_rows → (∀ c, 0 ≤ c < ss → cell 1 rep bio c r = in_op c r) ∧
    row_sound ss rep nr nw (fun c => cell 1 rep bio c r) (fun c => cell 1 rep pre c r) (strat (Z.to_nat r)).

Hypothesis (Hdead : ∀ c, Z.testbit nw c = true → Z.testbit nr c = true).
Hypothesis (Hcount : total (Z.to_nat rep) (unreadable nr) ≤ rep - ss).

Lemma planned_ok x0 w : planned ss 1 rep n_rows nr nw in_op x0 (Z.to_nat n_rows) w → plan_ok (w_bio w) (w_pre w) (strat_at ss rep nr nw in_op).
Proof.
  intros Hp r Hr. destruct (n_rows_bounds) as (Hn & _). assert (∀ c, 0 ≤ c < rep → cell 1 rep (w_bio w) c r = row_bio ss nw (at_row in_op r) c) as Hb.
  { intros c Hc. rewrite (pl_bio _ _ _ _ _ _ _ _ _ _ Hp) by (split; lia). by rewrite (proj2 (Z.ltb_lt _ _)) by lia. }
  split.
  - intros c Hc. rewrite Hb by lia. unfold row_bio, live. by rewrite (proj2 (Z.leb_gt _ _)), orb_false_r by lia.
  - unfold strat_at. rewrite Z2Nat.id by lia. 
    apply (row_sound_ext (row_bio ss nw (at_row in_op r)) (row_pre ss rep nr nw (at_row in_op r))).
    + intros c Hc. by rewrite Hb.
    + intros c Hc. rewrite (pl_pre _ _ _ _ _ _ _ _ _ _ Hp) by (split; lia). by rewrite (proj2 (Z.ltb_lt _ _)) by lia.
    + apply (row_plan_sound ss rep n_rows); [done|lia|done| |done]. intros c Hc. apply high_column. lia.
Qed.

Lemma full_rows c r : start = 0 → nlbas mod ss = 0 → 0 ≤ r < n_rows → 0 ≤ c → in_op c r = (c <? ss).
Proof.
  intros E0 Hmod Hr Hc. destruct n_rows_bounds as (_ & H1 & H2). unfold in_op. destruct (Z.ltb_spec c ss); [|done].
  apply Z.mod_divide in Hmod as [q Hq]; [|lia]. assert (n_rows = q) by nia.
  rewrite (proj2 (Z.leb_le _ _)), (proj2 (Z.ltb_lt _ _)) by nia. done.
Qed.

Lemma aligned_ok bio pre : start = 0 → nlbas mod ss = 0 →
  (∀ c r, in_map rep n_rows c r → cell 1 rep bio c r = in_op c r || live ss nw c) → (∀ c r, in_map rep n_rows c r → cell 1 rep pre c r = false) →
  plan_ok bio pre (fun _ => COMPLEMENT_STRATEGY).
Proof.
  intros E0 Hmod Hb Hp r Hr. split.
  - intros c Hc. rewrite Hb by (split; lia). unfold live. by rewrite (proj2 (Z.leb_gt _ _)), orb_false_r by lia.
  - split.
    + intros c Hc. rewrite Hb by (split; lia). unfold live. by rewrite high_column, (proj2 (Z.leb_le _ _)) by lia.
    + left. split; [done|]. intros c Hc. rewrite Hb, Hp, full_rows by (lia || split; lia). split; [by destruct (c <? ss)|done].
Qed.

(** Blocks that [W] and [P] need besides those of the I/O: data read before, and parities;
    a parity is read into the block it is written from. *)
Definition cell_extra (W P : Z → bool) (c : Z) : Z := if (if c <? ss then P c else W c || P c) then 1 else 0.

Lemma cell_extra_ext n W P W' P' : (∀ c, 0 ≤ c < Z.of_nat n → W c = W' c) → (∀ c, 0 ≤ c < Z.of_nat n → P c = P' c) →
  total n (cell_extra W P) = total n (cell_extra W' P').
Proof. intros HW HP. apply total_ext. intros c Hc. unfold cell_extra. by rewrite HW, HP. Qed.

Lemma total_shift n a (f : Z → Z) : 0 ≤ a → total (Z.to_nat a + n) (fun c => if c <? a then 0 else f (c - a)) = total n f.
Proof.
  intros Ha. induction n as [|n IH].
  - rewrite Nat.add_0_r, (total_ext _ _ (fun _ => 0)); [exact (total_more 0 _ (fun _ => 0) (Nat.le_0_l _) (fun _ _ => eq_refl))|]. intros c Hc. by rewrite (proj2 (Z.ltb_lt _ _)) by lia.
  - rewrite Nat.add_succ_r. cbn [total]. rewrite IH, (proj2 (Z.ltb_ge _ _)) by lia. do 2 f_equal. lia.
Qed.

Lemma row_extra_cells V : (∀ c, ss ≤ c < rep → V c = false) →
  row_extra ss rep nr nw V = total (Z.to_nat rep) (cell_extra (row_bio ss nw V) (row_pre ss rep nr nw V)).
Proof.
  intros HV. unfold row_extra. rewrite <- (total_shift _ ss) by lia. replace (Z.to_nat ss + Z.to_nat (rep - ss))%nat with (Z.to_nat rep) by lia.
  rewrite <- total_add. apply total_ext. intros c Hc. unfold extra_of, cell_extra, row_pre. replace (ss + (c - ss)) with c by lia.
  destruct (Z.ltb_spec c ss); cbn [orb]; [by rewrite andb_true_r|].
  unfold row_bio at 2, live. rewrite HV, (proj2 (Z.leb_le _ _)) by lia. cbn [orb andb]. unfold pre_of. rewrite (proj2 (Z.leb_le ss c)) by lia.
  destruct (Z.testbit nw c), (row_choice ss rep nr nw V).1.1, (row_choice ss rep nr nw V).1.2; cbn; rewrite ?andb_false_r, ?orb_false_r; try done;
    by destruct (row_bio _ _ _ _).
Qed.

(** What [mssa_init] leaves after the rows. *)
Record body_ok (x0 : Z) (w : work) (f : nat → Z) : Prop := {
  bo_plan : plan_ok (w_bio w) (w_pre w) f;
  bo_extra : w_extra w = x0 + total (Z.to_nat n_rows) (fun r => total (Z.to_nat rep)
    (cell_extra (fun c => cell 1 rep (w_bio w) c r) (fun c => cell 1 rep (w_pre w) c r)));
  bo_tx : length (w_tx w) = 5%nat ∧ ∀ c, 0 ≤ c →
    (∃ j x, w_tx w !! j = Some x ∧ Z.testbit x c = true) ↔ ∃ k, 0 ≤ k < n_rows ∧ in_op c k = true;
  bo_rows : n_rows ≠ 1 → ∀ k, 0 ≤ k < n_rows → ∃ x, w_row_bio w !! Z.to_nat k = Some x ∧ ∀ c, 0 ≤ c < ss → Z.testbit x c = in_op c k;
  bo_si : (w_si w ≤ 3)%nat;
  bo_change : length (w_change w) = 4%nat;
  bo_single : (w_si w ≤ 1)%nat → ∀ j x, w_change w !! j = Some x → x = 0;
  bo_strats : ∀ m, ms_union m = w_union w → ms_change m = w_change w → ms_single_strat m = (w_si w <=? 1)%nat →
    strategies_of_rows m (Z.to_nat n_rows) = Ok (f <$> seq 0 (Z.to_nat n_rows))
}.

Definition start_work (map x0 : Z) : work :=
  Work map 0 (replicate 32 0) (replicate 32 0) (replicate 20 0) (replicate 4 0) (replicate 5 0) x0 0 0 nlbas 0.

Lemma planned_start map x0 : (∀ c r, 0 ≤ c < rep → 0 ≤ r → cell 1 rep map c r = in_op c r) → (n_rows = 1 → 0 ≤ map < 2 ^ rep) →
  planned ss 1 rep n_rows nr nw in_op x0 0 (start_work map x0).
Proof.
  intros Hmap Hone. assert (∀ r, mask_at (replicate 32 0) r = 0) as Hz.
  { intros r. unfold mask_at. destruct (replicate 32 0 !! Z.to_nat r) as [x|] eqn:E; [|done]. by apply lookup_replicate in E as [-> _]. }
  assert (∀ r : Z, 0 ≤ r → (r <? Z.of_nat 0) = false) as H0 by (intros r Hr; apply Z.ltb_ge; lia).
  split; cbn [start_work w_bio w_pre w_row_bio w_row_prd w_union w_change w_tx w_si w_ti w_512 w_extra].
  - done.
  - intros c r [Hc Hr]. rewrite H0 by lia. apply Hmap; lia.
  - intros c r [Hc Hr]. rewrite H0 by lia. unfold cell. by rewrite Z.bits_0.
  - intros _ c r [Hc Hr]. by rewrite Hz, H0, Z.bits_0 by lia.
  - intros c r [Hc Hr]. by rewrite Hz, H0, Z.bits_0 by lia.
  - split; [apply noted_nil|done].
  - split; [apply noted_tx_nil|done].
  - split; [done|]. cbn. lia.
  - done.
Qed.

Lemma partial_body map x0 fcl fr lr : (∀ c r, 0 ≤ c < rep → 0 ≤ r → cell 1 rep map c r = in_op c r) → (n_rows = 1 → 0 ≤ map < 2 ^ rep) →
  ∃ w f, (w ← rows_from ss 1 rep nr nw true (Z.to_nat n_rows) false (rep * n_rows) nlbas fcl fr lr 0 (start_work map x0);
    fill_holes ss 1 rep nw nlbas w) = Ok w ∧ body_ok x0 w f.
Proof.
  intros Hmap Hone. destruct n_rows_bounds as (Hn & _). pose proof strats_three. pose proof txbms_three.
  destruct (rows_planned ss 1 rep n_rows ltac:(lia) Hss Hrep ltac:(exists n_rows; lia) ltac:(lia) nr nw in_op x0 ltac:(intros c r Hc; apply high_column; lia)
    every_row ltac:(lia) ltac:(lia) 0 fcl fr lr nlbas (start_work map x0)) as (w & E & Hp); [lia|lia|by apply planned_start|].
  rewrite Nat.sub_0_r in E. change (Z.of_nat 0) with 0 in E. rewrite E. rstep. exists w, (strat_at ss rep nr nw in_op).
  split; [unfold fill_holes; by rewrite (proj2 (Z.ltb_ge _ _)) by lia|]. destruct (pl_strat _ _ _ _ _ _ _ _ _ _ Hp) as [Hnoted Hsi]. split.
  - by eapply planned_ok.
  - destruct (pl_extra _ _ _ _ _ _ _ _ _ _ Hp) as [_ ->]. f_equal. apply total_ext. intros r Hr. rewrite row_extra_cells by (intros c Hc; apply high_column; lia).
    apply cell_extra_ext; intros c Hc; rewrite ?(pl_bio _ _ _ _ _ _ _ _ _ _ Hp), ?(pl_pre _ _ _ _ _ _ _ _ _ _ Hp) by (split; lia);
      by rewrite (proj2 (Z.ltb_lt _ _)) by lia.
  - destruct (pl_tx _ _ _ _ _ _ _ _ _ _ Hp) as [Htx _]. split; [apply Htx|]. intros c Hc. rewrite (nx_bits _ _ _ Htx c).
    assert (∀ k, Z.testbit (txbm_at rep in_op k) c = in_op c (Z.of_nat k)) as Hbit.
    { intros k. unfold txbm_at, at_row. rewrite mask_of_testbit by lia. destruct (Z.ltb_spec c (Z.of_nat (Z.to_nat rep))); [done|]. by rewrite high_column by lia. }
    split; intros (k & Hk & Hc'); [exists (Z.of_nat k)|exists (Z.to_nat k)]; (split; [lia|]); [by rewrite <- Hbit|by rewrite Hbit, Z2Nat.id by lia].
  - intros Hne k Hk. destruct (lookup_lt_is_Some_2 (w_row_bio w) (Z.to_nat k)) as [x Ex]; [rewrite (sz_bio _ (pl_sized _ _ _ _ _ _ _ _ _ _ Hp)); lia|].
    exists x. split; [done|]. intros c Hc. pose proof (pl_mbio _ _ _ _ _ _ _ _ _ _ Hp Hne c k ltac:(split; lia)) as Hm. unfold mask_at in Hm. rewrite Ex in Hm.
    cbn [from_option id] in Hm. rewrite Hm, (proj2 (Z.ltb_lt _ _)) by lia. unfold row_bio, live. by rewrite (proj2 (Z.leb_gt _ _)), orb_false_r by lia.
  - lia.
  - apply Hnoted.
  - intros H1 j x Hx. destruct (nt_zero _ _ _ _ Hnoted j x Hx) as [|(r & Hr & Hne & _)]; [done|exfalso].
    pose proof (runs_of_mono (strat_at ss rep nr nw in_op) (S (S r)) _ Hr). rewrite runs_of_S, (proj2 (Z.eqb_neq _ _) Hne) in *.
    pose proof (runs_of_pos (strat_at ss rep nr nw in_op) r). lia.
  - intros m Eu Ech Esingle. apply strategies_of_rows_ok; rewrite ?Eu, ?Ech; [done|lia|lia|by rewrite Esingle, Hsi].
Qed.

Lemma strategies_single m n s c0 : ms_single_strat m = true → ms_change m !! 0%nat = Some c0 → strategies_get (ms_union m) 0 = Ok s →
  strategies_of_rows m n = Ok ((fun _ => s) <$> seq 0 n).
Proof.
  intros H1 H2 H3. unfold strategies_of_rows, changer_start. rewrite (proj2 (aget_ok _ _ _) H2), H3. rstep.
  match goal with |- (for_up n ?b ?x ≫= _) = _ => destruct (for_up_inv b (fun k r => r = (Changer 0 c0 s, (fun _ => s) <$> seq 0 k)) n x) as (r & -> & ->) end;
    [done| |done].
  intros k r Hk ->. cbn [fst snd]. unfold changer_row. rewrite H1. cbn [negb andb]. rstep. eexists. split; [reflexivity|]. by rewrite seq_S, fmap_app.
Qed.

Lemma total_const_mul x n : 0 ≤ n → n * x = total (Z.to_nat n) (fun _ => x).
Proof. intros Hn. rewrite <- (Z2Nat.id n Hn) at 1. induction (Z.to_nat n) as [|k IH]; cbn [total]; [done|]. rewrite <- IH. lia. Qed.

Lemma aligned_body map x0 : (∀ c r, 0 ≤ c < rep → 0 ≤ r → cell 1 rep map c r = in_op c r) → start = 0 → nlbas mod ss = 0 →
  ∃ w f, aligned_write ss 1 rep nw (rep * n_rows) rep n_rows (start_work map x0) = Ok w ∧ body_ok x0 w f.
Proof.
  intros Hmap E0 Hmod. destruct n_rows_bounds as (Hn & _).
  destruct (aligned_write_ok ss 1 rep n_rows ltac:(lia) Hss Hrep ltac:(exists n_rows; lia) ltac:(lia) nw (start_work map x0)) as (w & E & Hb & Hp & Hsi & Hch & Hst & Htx & _ & Hm & Hx);
    [lia|done..|]. rewrite Z.mul_1_r, Z.div_1_r in E. exists w, (fun _ => COMPLEMENT_STRATEGY). split; [done|]. split.
  - apply aligned_ok; try done.
    + intros c r Hin. rewrite Hb by done. f_equal. destruct Hin. apply Hmap; lia.
    + intros c r _. rewrite Hp. apply Z.bits_0.
  - rewrite Hx. f_equal. unfold n_live. rewrite (total_const_mul _ n_rows) by lia. apply total_ext. intros r Hr. apply total_ext. intros c Hc.
    unfold cell_extra. rewrite Hb, Hp by (split; lia). cbn [start_work w_pre w_bio]. rewrite (Z.bits_0 _ : cell 1 rep 0 c r = false), Hmap, orb_false_r by lia.
    unfold live_after, live. destruct (Z.ltb_spec c ss), (Z.ltb_spec (ss - 1) c), (Z.leb_spec ss c); try lia; [done|]. by rewrite high_column by lia.
  - rewrite Htx. split; [done|]. intros c Hc. cbn [start_work w_tx]. split.
    + intros (j & x & [(<- & <- & _)|(_ & [-> _]%lookup_replicate)]%list_lookup_insert_Some & Hx'); [|by rewrite Z.bits_0 in Hx'].
      rewrite ones_testbit in Hx' by lia. exists 0. split; [lia|by rewrite full_rows by lia].
    + intros (k & Hk & Hx'). rewrite full_rows in Hx' by lia. exists 0%nat, (Z.ones ss). by rewrite ones_testbit by lia.
  - intros Hne k Hk. specialize (Hm Hne k Hk). unfold mask_at in Hm. destruct (w_row_bio w !! Z.to_nat k) as [x|] eqn:Ex; cbn [from_option id] in Hm.
    + exists x. split; [done|]. intros c Hc. subst x. rewrite ones_testbit, full_rows by lia. rewrite !(proj2 (Z.ltb_lt _ _)) by lia. done.
    + exfalso. rewrite Z.ones_equiv in Hm. assert (2 ^ 1 ≤ 2 ^ rep) by (apply Z.pow_le_mono_r; lia). lia.
  - lia.
  - by rewrite Hch.
  - intros _ j x. rewrite Hch. by intros [-> _]%lookup_replicate.
  - intros m Eu Ech Esingle. rewrite Hsi in Esingle. apply (strategies_single m _ _ 0); [done|by rewrite Ech, Hch|by rewrite Eu].
Qed.
End roles.
End one.

(** ** Blocks to allocate *)
Definition bit (x : bool) : Z := if x then 1 else 0.

Lemma total_app n m f : total (n + m) f = total n f + total m (fun c => f (Z.of_nat n + c)).
Proof. induction m as [|m IH]; [rewrite Nat.add_0_r; cbn; lia|]. rewrite Nat.add_succ_r. cbn [total]. rewrite IH, Nat2Z.inj_add. lia. Qed.

Lemma total_grid rows n f : total (rows * n) f = total rows (fun r => total n (fun c => f (r * Z.of_nat n + c))).
Proof. induction rows as [|k IH]; [done|]. replace (S k * n)%nat with (k * n + n)%nat by lia. cbn [total]. rewrite <- IH, total_app. f_equal. apply total_ext. intros c _. f_equal. lia. Qed.

Lemma total_interval n lo hi : 0 ≤ lo ≤ hi → total n (fun i => bit ((lo <=? i) && (i <? hi))) = Z.max 0 (Z.min hi (Z.of_nat n) - lo).
Proof.
  intros H. induction n as [|n IH]; cbn [total]; [lia|]. rewrite IH. unfold bit.
  destruct (Z.leb_spec lo (Z.of_nat n)), (Z.ltb_spec (Z.of_nat n) hi); cbn [andb]; lia.
Qed.

Lemma sum_loop body e n s : (∀ k s', (k < n)%nat → body k s' = Ok (s' + e (Z.of_nat k))) → for_up n body s = Ok (s + total n e).
Proof.
  intros Hb. destruct (for_up_inv body (fun k s' => s' = s + total k e) n s) as (s' & -> & ->); [cbn; lia| |done].
  intros k s' Hk ->. rewrite Hb by done. eexists. split; [reflexivity|]. cbn [total]. lia.
Qed.

Section count.
Context (ss rep start nlbas : Z).
Hypothesis (Hss : 1 ≤ ss ≤ rep).
Hypothesis (Hrep : rep ≤ 12).
Hypothesis (Hstart : 0 ≤ start < ss).
Hypothesis (Hnlbas : 1 ≤ nlbas).
Hypothesis (Hfits : start + nlbas ≤ ss * 32).
Abbreviation rows := (n_rows ss start nlbas).

Lemma hweight_cells m : hweight (Z.to_nat (rep * rows)) m = total (Z.to_nat rows) (fun r => total (Z.to_nat rep) (fun c => bit (cell 1 rep m c r))).
Proof.
  destruct (n_rows_bounds ss rep start nlbas) as (Hn & _); [lia..|]. rewrite hweight_total, Z.mul_comm, Z2Nat.inj_mul, total_grid by lia.
  apply total_ext. intros r Hr. apply total_ext. intros c Hc. unfold bit, cell, map_rlba_offset. rewrite Z.div_1_r, Z.mod_1_r, Z2Nat.id by lia.
  by replace ((r * rep + c) * 1 + 0) with (r * rep + c) by lia.
Qed.

Lemma op_blocks : total (Z.to_nat rows) (fun r => total (Z.to_nat rep) (fun c => bit (in_op ss start nlbas c r))) = nlbas.
Proof.
  destruct (n_rows_bounds ss rep start nlbas) as (Hn & H1 & H2); [lia..|].
  transitivity (total (Z.to_nat (rows * ss)) (fun i => bit ((start <=? i) && (i <? start + nlbas)))).
  - rewrite Z2Nat.inj_mul, total_grid by lia. apply total_ext. intros r Hr. rewrite (total_more (Z.to_nat ss)).
    + apply total_ext. intros c Hc. unfold in_op. rewrite (proj2 (Z.ltb_lt _ _)), Z2Nat.id by lia. done.
    + lia.
    + intros c Hc. rewrite high_column by lia. done.
  - rewrite total_interval by lia. lia.
Qed.

Lemma recount_ok m nl x0 w f nr nw : ms_map_size m = rep * rows → ms_replicas m = rep → ms_slice_size m = ss → ms_snake_size m = 1 →
  ms_bio_map m = w_bio w → ms_pre_read m = w_pre w → body_ok ss rep start nlbas nr nw x0 w f → nl = nlbas →
  mssa_count_additional_blocks m nl IO_OP_WRITE = Ok (w_extra w - x0).
Proof.
  intros E1 E2 E3 E4 E5 E6 Hbody ->. destruct (n_rows_bounds ss rep start nlbas) as (Hn & _); [lia..|].
  unfold mssa_count_additional_blocks. rewrite E1, E2, E3, E4, E5, E6. cbn zeta. rewrite decide_False by done.
  rewrite (Z.mul_comm rep rows), Z.div_mul, (Z.mul_comm rows rep) by lia. set (W := fun r c => cell 1 rep (w_bio w) c r). set (P := fun r c => cell 1 rep (w_pre w) c r).
  assert (∀ c r, 0 ≤ c < rep → 0 ≤ r < rows → in_map rep rows c r) as Hin by done.
  rewrite (sum_loop _ (fun r => total (Z.to_nat (rep - ss)) (fun i => - bit (P r (ss + i) && W r (ss + i))))).
  2: { intros k s Hk. rewrite (sum_loop _ (fun i => - bit (P (Z.of_nat k) (ss + i) && W (Z.of_nat k) (ss + i)))); [done|].
       intros i s' Hi. rewrite !(test_cell 1 rep rows) by (lia || (exists rows; lia) || apply Hin; lia). rstep. fold (W (Z.of_nat k) (ss + Z.of_nat i)) (P (Z.of_nat k) (ss + Z.of_nat i)).
       f_equal. unfold bit. destruct (_ && _); lia. }
  f_equal. rewrite (bo_extra _ _ _ _ _ _ _ _ _ Hbody), !hweight_cells. pose proof op_blocks as Hop. fold W P.
  set (A := total _ _). set (B := total _ _). set (C := total _ _). set (D := total _ _). enough (A + B + C = D + nlbas) by lia.
  rewrite <- Hop. unfold A, B, C, D. rewrite <- !total_add. apply total_ext. intros r Hr.
  rewrite <- (total_shift (Z.to_nat (rep - ss)) ss) by lia. replace (Z.to_nat ss + Z.to_nat (rep - ss))%nat with (Z.to_nat rep) by lia. rewrite <- !total_add. apply total_ext. intros c Hc.
  replace (ss + (c - ss)) with c by lia. fold (W r c) (P r c). unfold cell_extra. fold (W r c) (P r c).
  destruct (Z.ltb_spec c ss).
  - destruct (bo_plan _ _ _ _ _ _ _ _ _ Hbody r ltac:(lia)) as [Hbits _]. unfold W. rewrite Hbits by lia. unfold bit. lia.
  - rewrite high_column by lia. destruct (W r c), (P r c); done.
Qed.
End count.

(** *** Segments for the dirty bits *)
Lemma tx_or t0 t1 t2 t3 t4 c : 0 ≤ c → Z.testbit (Z.lor (Z.lor (Z.lor (Z.lor t0 t1) t2) t3) t4) c = true ↔
  ∃ j x, [t0; t1; t2; t3; t4] !! j = Some x ∧ Z.testbit x c = true.
Proof.
  intros Hc. rewrite !Z.lor_spec, !orb_true_iff. split.
  - intros [[[[H|H]|H]|H]|H]; [by exists 0%nat, t0|by exists 1%nat, t1|by exists 2%nat, t2|by exists 3%nat, t3|by exists 4%nat, t4].
  - intros (j & x & Hx & Hb). destruct j as [|[|[|[|[|j]]]]]; try (injection Hx as <-; tauto). done.
Qed.

Lemma role_mask_bit r d m i : wf_raid1 r → 0 ≤ d < replicas r → 0 ≤ i < replicas r → 0 ≤ m < 2 ^ replicas r →
  Z.testbit (u16 (rol32_width (u16 m) d (replicas r))) i = Z.testbit m (nvmeibc_raid1_seg2role r d i).
Proof.
  intros Hwf Hd Hi Hm. destruct (wf_replicas _ Hwf) as [Hle Hrep]. change (Z.of_nat _) with 12 in Hrep. pose proof (wf_slice _ Hwf).
  assert (2 ^ replicas r ≤ 2 ^ 12) by (apply Z.pow_le_mono_r; lia). rewrite (wrap_small 16 m), wrap_testbit, rol_testbit by lia.
  by rewrite (proj2 (Z.ltb_lt i 16)), (proj2 (Z.ltb_lt i _)) by lia.
Qed.

Lemma genmask_bit ss rep c : 0 ≤ ss → 0 ≤ rep → 0 ≤ c → Z.testbit (GENMASK (rep - 1) ss) c = (ss <=? c) && (c <? rep).
Proof.
  intros Hs Hr Hc. unfold GENMASK. rewrite Z.ldiff_spec, !ones_testbit by lia. replace (rep - 1 + 1) with rep by lia.
  destruct (Z.ltb_spec c rep), (Z.ltb_spec c ss), (Z.leb_spec ss c); lia || done.
Qed.

Section bmps.
Context (r : raid1) (m : mssa) (w : work) (f : nat → Z) (start nlbas nr nw x0 : Z).
Abbreviation ss := (slice_size r).
Abbreviation rep := (replicas r).
Abbreviation rows := (n_rows (slice_size r) start nlbas).
Abbreviation role := (nvmeibc_raid1_seg2role r (ms_owner_seg m)).
Hypothesis (Hwf : wf_raid1 r).
Hypothesis (Hstart : 0 ≤ start < ss).
Hypothesis (Hnlbas : 1 ≤ nlbas).
Hypothesis (Hfits : start + nlbas ≤ ss * 32).
Hypothesis (Hbody : body_ok ss rep start nlbas nr nw x0 w f).
Hypothesis (Hsize : ms_map_size m = rep * rows).
Hypothesis (Hms : ms_replicas m = rep ∧ ms_slice_size m = ss ∧ ms_tx_bms m = w_tx w ∧ ms_row_bio m = w_row_bio w).
Hypothesis (Howner : 0 ≤ ms_owner_seg m < rep).

Lemma wf_bounds : 1 ≤ ss ≤ rep ∧ rep ≤ 12.
Proof. pose proof (wf_slice _ Hwf). destruct (wf_replicas _ Hwf) as [Hle Hrep]. change (Z.of_nat _) with 12 in Hrep. lia. Qed.

Lemma role_range i : 0 ≤ role i < rep.
Proof. destruct wf_bounds. apply Z.mod_pos_bound. lia. Qed.

(** A mask of roles that has no other bits. *)
Lemma role_mask_range x : (∀ c, rep ≤ c → Z.testbit x c = false) → 0 ≤ x < 2 ^ rep.
Proof.
  intros Hx. destruct wf_bounds. assert (0 ≤ x) by (apply Z.bits_iff_nonneg_ex; exists rep; intros k Hk; apply Hx; lia).
  split; [done|]. apply bits_bound; [lia|done|]. intros i Hi. by apply Hx.
Qed.

Lemma write_bmp_ok : ∃ wb, nvmeibc_mssa_calc_write_bmp m = Ok wb ∧
  ∀ i, 0 ≤ i < rep → Z.testbit wb i = true ↔ ss ≤ role i ∨ ∃ k, 0 ≤ k < rows ∧ in_op ss start nlbas (role i) k = true.
Proof.
  destruct Hms as (E1 & E2 & E3 & _), wf_bounds as [Hss Hrep], (bo_tx _ _ _ _ _ _ _ _ _ Hbody) as [Hlen Hbits].
  unfold nvmeibc_mssa_calc_write_bmp. rewrite E1, E2, E3. destruct (w_tx w) as [|t0 [|t1 [|t2 [|t3 [|t4 [|]]]]]]; try done. rstep. cbn [aget lookup list_lookup]. rstep.
  eexists. split; [reflexivity|]. intros i Hi. rewrite role_mask_bit; try done.
  - pose proof (role_range i). rewrite Z.lor_spec, orb_true_iff, tx_or, Hbits, genmask_bit, andb_true_iff, Z.leb_le, Z.ltb_lt by lia. naive_solver lia.
  - apply role_mask_range. intros c Hc. rewrite Z.lor_spec, genmask_bit by lia. rewrite (proj2 (Z.ltb_ge c rep)), andb_false_r by lia.
    apply not_true_is_false. cbn [orb]. rewrite tx_or, Hbits by lia. intros (k & _ & Hk). by rewrite high_column in Hk by lia.
Qed.
Lemma row_tx_ok k : rows = 32 → 0 ≤ k < 32 → ∃ x, get_row_tx_bm m k = Ok x ∧
  ∀ c, 0 ≤ c → Z.testbit x c = (c <? ss) && in_op ss start nlbas c k.
Proof.
  intros E32 Hk. destruct Hms as (E1 & E2 & _ & E4), wf_bounds as [Hss Hrep]. destruct (bo_rows _ _ _ _ _ _ _ _ _ Hbody ltac:(lia) k ltac:(lia)) as (x & Ex & Hx).
  unfold get_row_tx_bm, nvmeibc_mssa_get_row_map. rewrite Hsize, E1, E2, E4, (proj2 (Z.eqb_neq _ _)), (zget_ok _ k x) by (done || nia). rstep.
  eexists. split; [reflexivity|]. intros c Hc. rewrite Z.land_spec, wrap_testbit by lia. unfold GENMASK. rewrite Z.ldiff_spec, !ones_testbit by lia.
  replace (ss - 1 + 1) with ss by lia. rewrite (proj2 (Z.ltb_ge c 0)) by lia. destruct (Z.ltb_spec c ss); [|done]. cbn [andb negb].
  by rewrite Hx, (proj2 (Z.ltb_lt c 16)) by lia.
Qed.

(** The rows between two rows that are written are written. *)
Lemma in_op_between c k : 0 ≤ k < 32 → in_op ss start nlbas c 0 = true → in_op ss start nlbas c 31 = true → in_op ss start nlbas c k = true.
Proof.
  intros Hk. destruct wf_bounds as [Hss _]. unfold in_op. rewrite !andb_true_iff, !Z.ltb_lt, !Z.leb_le. intros [[H1 H2] _] [_ H3].
  assert (0 ≤ k * ss ≤ 31 * ss) by nia. lia.
Qed.

Lemma full_bmp_ok : ∃ fb, nvmeibc_mssa_calc_full_blockset_write_bmp m = Ok fb ∧
  ∀ i, 0 ≤ i < rep → Z.testbit fb i = true ↔ rows = 32 ∧ (ss ≤ role i ∨ ∀ k, 0 ≤ k < 32 → in_op ss start nlbas (role i) k = true).
Proof.
  destruct wf_bounds as [Hss Hrep]. destruct (n_rows_bounds ss rep start nlbas) as (Hn & _); [lia..|].
  unfold nvmeibc_mssa_calc_full_blockset_write_bmp. destruct Hms as (E1 & E2 & _). rewrite Hsize, E1, E2. change LOCKSET_SLICES with 32.
  destruct (Z.ltb_spec (rep * rows) (rep * 32)) as [Hlt|Hge].
  { exists 0. split; [done|]. intros i Hi. rewrite Z.bits_0. split; [done|]. intros [E32 _]. rewrite E32 in Hlt. lia. }
  assert (rows = 32) as E32 by nia. destruct (row_tx_ok 0 E32 ltac:(lia)) as (x0' & -> & Hx0). destruct (row_tx_ok (32 - 1) E32 ltac:(lia)) as (x1 & -> & Hx1). rstep.
  eexists. split; [reflexivity|]. intros i Hi. pose proof (role_range i). rewrite role_mask_bit; try done.
  - rewrite Z.lor_spec, Z.land_spec, Hx0, Hx1, genmask_bit, (proj2 (Z.ltb_lt (role i) rep)), andb_true_r, orb_true_iff, !andb_true_iff, Z.leb_le, Z.ltb_lt by lia.
    split; [intros [[[H1 H2] [_ H3]]|H1]; (split; [done|])|intros [_ [H1|H1]]].
    + right. intros k Hk. by apply in_op_between.
    + by left.
    + by right.
    + destruct (Z.ltb_spec (role i) ss); [left|by right]. split; (split; [done|]); apply H1; lia.
  - apply role_mask_range. intros c Hc. rewrite Z.lor_spec, Z.land_spec, Hx0, Hx1, genmask_bit by lia.
    rewrite (proj2 (Z.ltb_ge c ss)), (proj2 (Z.ltb_ge c rep)) by lia. by destruct (ss <=? c).
Qed.
End bmps.

(** ** Writes *)

(** The plan of a write of blocks [start .. start + nlbas - 1] of a raid, counted from
    the start of a slice. *)
Definition write_plan (r : raid1) (b : roles_bmps) (start nlbas : Z) (m : mssa) : Prop :=
  let rows := n_rows (slice_size r) start nlbas in
  ms_map_size m = replicas r * rows ∧
  ∃ strat, strategies_of_rows m (Z.to_nat rows) = Ok (strat <$> seq 0 (Z.to_nat rows)) ∧
    plan_ok (slice_size r) (replicas r) start nlbas (no_read b) (rb_dead b) (ms_bio_map m) (ms_pre_read m) strat.

Lemma hweight_rep r b : wf_raid1 r → roles_fit r b → total (Z.to_nat (replicas r)) (unreadable (no_read b)) = n_unreadable r.
Proof.
  intros [H1 H2 _ _] [_ Hh <-]. rewrite hweight_total. symmetry. apply total_more; [change (Z.of_nat Topology.N_MAX_RAID_SLICE_LEN) with 12 in H2; lia|]. intros c Hc. by rewrite Hh by lia.
Qed.

Section write.
Context (r : raid1) (cd : calculated_data) (b : roles_bmps) (rlba start nlbas binje : Z) (pac : alloc_count).
Hypothesis (Hwf : wf_raid1 r).
Hypothesis (Hb : zget (cd_roles cd) (get_owner_seg_slice_start r rlba) = Ok b).
Hypothesis (Hfit : roles_fit r b).
Hypothesis (Hread : n_unreadable r ≤ replicas r - slice_size r).
Hypothesis (Hstart : 0 ≤ start < slice_size r).
Hypothesis (Hnlbas : 1 ≤ nlbas).
Hypothesis (Hbinje : 0 ≤ binje ≤ 32).
Hypothesis (Hend : start + nlbas ≤ slice_size r * binje).

Lemma write_run : has_writable_pari b = true → ∃ m pac' w f,
  mssa_init zero_mssa pac start nlbas false binje 1 0 r cd rlba = Ok (m, pac') ∧
  body_ok (slice_size r) (replicas r) start nlbas (no_read b) (rb_dead b) (pac_n_extra_blocks pac) w f ∧
  pac_n_extra_blocks pac' = w_extra w ∧ ms_map_size m = replicas r * n_rows (slice_size r) start nlbas ∧
  ms_replicas m = replicas r ∧ ms_slice_size m = slice_size r ∧ ms_snake_size m = 1 ∧ ms_bio_map m = w_bio w ∧ ms_pre_read m = w_pre w ∧
  ms_union m = w_union w ∧ ms_change m = w_change w ∧ ms_single_strat m = (w_si w <=? 1)%nat ∧ ms_tx_bms m = w_tx w ∧ ms_row_bio m = w_row_bio w ∧
  ms_owner_seg m = get_owner_seg_slice_start r rlba.
Proof.
  intros Hpari. pose proof (wf_slice _ Hwf) as Hss1. destruct (wf_replicas _ Hwf) as [Hle Hrep]. change (Z.of_nat _) with 12 in Hrep.
  set (ss := slice_size r) in *. set (rep := replicas r) in *.
  unfold mssa_init. cbn zeta. rewrite Hb. rstep. fold ss rep (no_read b). rewrite !Z.mul_1_r, Z.div_1_r, Z.mod_1_r, (Z.mod_small start ss) by lia.
  change (ms_bio_map zero_mssa) with 0.
  destruct (io_map ss rep start nlbas ltac:(lia) Hrep Hstart Hnlbas ltac:(nia) binje Hend Hbinje) as (map & -> & Hmap & Hone). rstep.
  set (rows := n_rows ss start nlbas) in *. change (0 =? 0) with true. cbn [negb andb orb]. rewrite andb_true_r.
  destruct (n_rows_bounds ss rep start nlbas) as (Hrows & _); [lia|lia|lia|nia|]. fold rows in Hrows.
  pose proof (hweight_rep r b Hwf Hfit) as Hc. fold rep in Hc. rewrite Hpari, (Z.mul_comm rep rows), Z.div_mul, (Z.mul_comm rows rep) by lia.
  match goal with |- context [Work ?a ?b ?c ?d ?e ?f ?g ?h ?i ?j ?k ?l] => change (Work a b c d e f g h i j k l) with (start_work nlbas a h) end.
  assert (∃ w f, (if (start =? 0) && (nlbas mod ss =? 0) then aligned_write ss 1 rep (rb_dead b) (rep * rows) rep rows (start_work nlbas map (pac_n_extra_blocks pac))
    else w ← rows_from ss 1 rep (no_read b) (rb_dead b) true (Z.to_nat rows) false (rep * rows) nlbas start 0 (-1) 0 (start_work nlbas map (pac_n_extra_blocks pac));
      fill_holes ss 1 rep (rb_dead b) nlbas w) = Ok w ∧
    body_ok ss rep start nlbas (no_read b) (rb_dead b) (pac_n_extra_blocks pac) w f) as (w & f & -> & Hbody).
  { destruct ((start =? 0) && (nlbas mod ss =? 0)) eqn:Eal; [apply andb_true_iff in Eal as [E1%Z.eqb_eq E2%Z.eqb_eq]; apply aligned_body|apply partial_body];
      try done; try lia; try nia; apply Hfit. }
  rstep. assert (∀ l, length l = 32%nat → ∃ l', memset_m1 l rep = Ok l') as Hset.
  { intros l El. unfold memset_m1. rewrite El, (proj2 (Z.ltb_ge _ _)) by lia. by eexists. }
  destruct (Hset (ms_cmd_read zero_mssa)) as [cr ->]; [done|]. destruct (Hset (ms_cmd_write zero_mssa)) as [cw ->]; [done|].
  destruct (Hset (ms_cmd_jour zero_mssa)) as [cj ->]; [done|]. rstep. pose proof (bo_change _ _ _ _ _ _ _ _ _ Hbody) as Lch.
  destruct (lookup_lt_is_Some_2 (w_change w) 0) as [c0 Ec0]; [lia|]. destruct (lookup_lt_is_Some_2 (w_change w) 1) as [c1 Ec1]; [lia|].
  rewrite (proj2 (aget_ok _ _ _) Ec0), (proj2 (aget_ok _ _ _) Ec1). rstep.
  assert ((w_si w <=? 1)%nat && negb ((c0 =? 0) && (c1 =? 0)) = false) as ->.
  { destruct (Nat.leb_spec (w_si w) 1); [|done]. by rewrite (bo_single _ _ _ _ _ _ _ _ _ Hbody ltac:(done) _ _ Ec0), (bo_single _ _ _ _ _ _ _ _ _ Hbody ltac:(done) _ _ Ec1). }
  rewrite (proj2 (Nat.ltb_ge _ _)) by apply Hbody. eexists _, _, w, f. split; [reflexivity|]. split_and!; try done. cbn. by destruct (w_si w <=? 1)%nat.
Qed.
End write.


Lemma degraded_filled : ∃ cd r', nvmeibc_raid1_fill_calculated_data (fun _ => false) degraded_raid = Ok (cd, r') ∧
  zget (cd_roles cd) (get_owner_seg_slice_start degraded_raid 0) = Ok (roles_at (fun _ => false) degraded_raid 0).
Proof.
  destruct (fill_run (fun _ => false) degraded_raid degraded_raid_wf) as (cd & r' & seg0 & E & _ & Hroles & _). exists cd, r'. split; [done|].
  apply zget_ok; [done|]. apply (Hroles 0). done.
Qed.


(** The count of extra blocks that [mssa_init] keeps as it plans a write is exact: it is
    what the check that is compiled out would recount from the two maps. *)
Theorem write_blocks_exact is_access_local r cd r' b rlba start nlbas binje pac (Hwf : wf_raid1 r)
  (Hfill : nvmeibc_raid1_fill_calculated_data is_access_local r = Ok (cd, r'))
  (Hb : zget (cd_roles cd) (get_owner_seg_slice_start r rlba) = Ok b) (Hpari : has_writable_pari b = true)
  (Hread : n_unreadable r ≤ replicas r - slice_size r)
  (Hstart : 0 ≤ start < slice_size r) (Hnlbas : 1 ≤ nlbas) (Hbinje : 0 ≤ binje ≤ 32) (Hend : start + nlbas ≤ slice_size r * binje) :
  ∃ m pac', mssa_init zero_mssa pac start nlbas false binje 1 0 r cd rlba = Ok (m, pac') ∧
    mssa_count_additional_blocks m nlbas IO_OP_WRITE = Ok (pac_n_extra_blocks pac' - pac_n_extra_blocks pac).
Proof.
  pose proof (filled_roles_fit _ _ _ _ _ _ Hwf Hfill Hb) as Hfit. pose proof (wf_slice _ Hwf). destruct (wf_replicas _ Hwf) as [Hle Hrep].
  destruct (write_run r cd b rlba start nlbas binje pac Hwf Hb Hfit Hread Hstart Hnlbas Hbinje Hend Hpari)
    as (m & pac' & w & f & E & Hbody & Hx & Hsize & E1 & E2 & E3 & Hbio & Hpre & _). exists m, pac'. split; [done|].
  rewrite Hx. change (Z.of_nat _) with 12 in Hrep. by eapply (recount_ok (slice_size r) (replicas r) start nlbas ltac:(lia) Hrep Hstart Hnlbas ltac:(nia)).
Qed.

Lemma write_blocks_exact_witness : ∃ cd r' m pac',
  nvmeibc_raid1_fill_calculated_data (fun _ => false) degraded_raid = Ok (cd, r') ∧
  mssa_init zero_mssa zero_pac 1 2 false 4 1 0 degraded_raid cd 0 = Ok (m, pac') ∧
  mssa_count_additional_blocks m 2 IO_OP_WRITE = Ok (pac_n_extra_blocks pac' - 0) ∧ pac_n_extra_blocks pac' = 4.
Proof.
  destruct degraded_filled as (cd & r' & E & Hb). set (b := roles_at (fun _ => false) degraded_raid 0) in *.
  destruct (write_blocks_exact (fun _ => false) degraded_raid cd r' b 0 1 2 4 zero_pac degraded_raid_wf E Hb) as (m & pac' & Em & Hm); [done..|].
  exists cd, r', m, pac'. split; [exact E|]. split; [exact Em|]. split; [exact Hm|].
  vm_compute in E. injection E as <- <-. vm_compute in Em. injection Em as <- <-. reflexivity.
Defined.



(** ** Writes the analyser gives up on *)

(** A raid with segments in modes [modes], [d] of them for data. *)
Definition raid_of (modes : list ds_mode) (d : Z) : raid1 :=
  Raid1 (Z.of_nat (length modes)) d (map (fun m => Segment "s" 0 128 lock_ownership_map_poison LOCK_MOVING_NO true m) modes)
    (LocksScheme OWNER_SCHEME_SL_START_DEC_C 2 6) true.

Definition plan_on (modes : list ds_mode) (d start nlbas binje snake_size maps_512 : Z) : res (mssa * alloc_count) :=
  f ← nvmeibc_raid1_fill_calculated_data (fun _ => false) (raid_of modes d);
  mssa_init zero_mssa zero_pac start nlbas false binje snake_size maps_512 f.2 f.1 0.

