(* ===== verification/MssaRead.v ===== *)
(** Degraded reads in the slice analyser (Mssa.v), for volumes whose snakes are one block
    high: a slice with a block that cannot be read is read until it can be restored. *)
From stdpp Require Import base list numbers strings.
From Stdlib Require Import ZArith Lia.
From S2P Require Import Prelude CMemory BitFields DirtyBits JournalMd Topology TopoIter AddrMap Roles LockServer LockPlan Mssa MssaProof MssaPlan.
Local Open Scope Z_scope.

Section read_rows.
Context (ss sn rep rows nr : Z).
Hypothesis (Hsn : 1 ≤ sn).
Hypothesis (Hss : 1 ≤ ss ≤ rep).
Hypothesis (Hrep : rep ≤ 12).
Hypothesis (Hrows : (sn | rows)).
Hypothesis (Hsize : 0 ≤ rows ≤ 32).

Abbreviation cell := (cell sn rep).
Abbreviation in_map := (in_map rep rows).
Abbreviation touches := (touches sn rep rows).

Lemma count_unreadable_ok row w : 0 ≤ row < rows → count_unreadable ss sn rep nr row w =
  Ok (total (Z.to_nat ss) (fun c => bit (Z.testbit nr c && cell (w_bio w) c row)),
      total (Z.to_nat ss) (fun c => bit (Z.testbit nr c && negb (cell (w_bio w) c row)))).
Proof.
  intros Hr. unfold count_unreadable. set (f := fun c => bit (_ && cell _ _ _)). set (g := fun c : Z => bit (_ && negb _)).
  match goal with |- for_up ?n ?b ?x = _ => destruct (for_up_inv b (fun k s => s = (total k f, total k g)) n x) as (s' & -> & ->) end; [done| |done].
  intros k s Hk ->. cbn [fst snd total]. set (tf := total k f). set (tg := total k g). unfold f, g. destruct (Z.testbit nr (Z.of_nat k)); cbn [negb andb].
  - unfold mssa_map_index. rewrite (test_cell sn rep rows) by (done || split; lia). rstep. eexists. split; [reflexivity|].
    destruct (cell _ _ _); cbn [bit negb]; f_equal; lia.
  - eexists. split; [reflexivity|]. cbn [bit]. f_equal; lia.
Qed.

Definition rest (W : Z → bool) (c : Z) : bool := (c <? ss) && negb (Z.testbit nr c) && negb (W c).

Lemma read_rest_ok row w : sized w → 0 ≤ row < rows → ∃ w', read_rest_of_slice ss sn rep nr row w = Ok w' ∧
  touches row none (rest (fun c => cell (w_bio w) c row)) (total (Z.to_nat ss) (fun c => bit (rest (fun c => cell (w_bio w) c row) c))) w w'.
Proof.
  intros Hs Hr. unfold read_rest_of_slice. set (W := fun c => cell (w_bio w) c row).
  match goal with |- ∃ w', for_up _ ?b _ = _ ∧ _ => destruct (touch_loop sn rep rows b row 0 (Z.to_nat ss) none (rest W) (fun c => bit (rest W c)) w Hs) as (w' & -> & Ht) end.
  - intros i w' Hi Ht. cbn zeta. rewrite Z.add_0_l. set (c := Z.of_nat i). assert (in_map c row) as Hin by (split; lia).
    assert (cell (w_bio w') c row = W c) as EW.
    { rewrite (to_bio _ _ _ _ _ _ _ _ _ Ht c row Hin). unfold within, none. by rewrite !andb_false_r, orb_false_r. }
    unfold rest. rewrite (proj2 (Z.ltb_lt c ss)) by lia. cbn [andb]. destruct (Z.testbit nr c); cbn [negb andb bit].
    { eexists. split; [reflexivity|]. apply touches_refl, Ht. }
    unfold mssa_map_index. rewrite (test_cell sn rep rows), EW by done. rstep. destruct (W c); cbn [negb bit].
    { eexists. split; [reflexivity|]. apply touches_refl, Ht. }
    destruct (add_pre_ok sn rep rows Hsn Hrep Hrows Hsize row c w') as (w1 & -> & T1); [apply Ht|done|]. rstep. eexists. split; [reflexivity|].
    apply (touches_more _ _ _ _ _ _ 0), T1.
  - eexists. split; [reflexivity|]. eapply touches_ext; [| |exact Ht]; intros c Hc; unfold within, none; [by rewrite andb_false_r|].
    unfold rest. destruct (Z.ltb_spec c ss), (Z.leb_spec 0 c), (Z.ltb_spec c (0 + Z.of_nat (Z.to_nat ss))); cbn; lia || done.
Qed.

(** Readable columns from [col] on. *)
Definition readable_from (col : Z) : Z := total (Z.to_nat rep) (fun c => bit ((col <=? c) && negb (Z.testbit nr c))).

Lemma total_just c0 : 0 ≤ c0 < rep → total (Z.to_nat rep) (fun c => bit (just c0 c)) = 1.
Proof.
  intros Hc. apply (total_one _ _ c0); [lia|unfold just; by rewrite Z.eqb_refl|]. intros c _ Hne. unfold just. by rewrite (proj2 (Z.eqb_neq _ _) Hne).
Qed.

Lemma readable_skip col c' : 0 ≤ col ≤ c' → c' < rep → Z.testbit nr c' = false → (∀ x, col ≤ x < c' → Z.testbit nr x = true) →
  readable_from col = 1 + readable_from (c' + 1).
Proof.
  intros Hc Hlt Hb Hskip. unfold readable_from. pose proof (total_just c' ltac:(lia)) as H1.
  transitivity (total (Z.to_nat rep) (fun c => bit (just c' c) + bit ((c' + 1 <=? c) && negb (Z.testbit nr c)))); [|rewrite total_add; lia]. apply total_ext. intros c Hc'. unfold just.
  destruct (Z.eqb_spec c c') as [->|Hne].
  - rewrite (proj2 (Z.leb_le col c')), (proj2 (Z.leb_gt (c' + 1) c')), Hb by lia. done.
  - destruct (Z.leb_spec col c), (Z.leb_spec (c' + 1) c); try lia; cbn [andb bit]; [by destruct (negb _)| |done]. by rewrite Hskip by lia.
Qed.

Lemma read_parities_ok n col row w : sized w → 0 ≤ row < rows → 0 ≤ col → Z.of_nat n ≤ readable_from col →
  ∃ w' B, read_parities sn rep nr n row col w = Ok w' ∧ touches row none B (Z.of_nat n) w w' ∧
    (∀ c, 0 ≤ c < rep → B c = true → col ≤ c ∧ Z.testbit nr c = false) ∧ total (Z.to_nat rep) (fun c => bit (B c)) = Z.of_nat n.
Proof.
  revert col w. induction n as [|n IH]; intros col w Hs Hr Hcol Hn; cbn [read_parities].
  { exists w, none. split; [done|]. split; [by apply touches_refl|]. split; [done|]. exact (total_more 0 _ (fun _ => 0) (Nat.le_0_l _) (fun _ _ => eq_refl)). }
  destruct (total_pos (Z.to_nat rep) (fun c => bit ((col <=? c) && negb (Z.testbit nr c)))) as (d & Hd & Hpos); [unfold readable_from in Hn; lia|].
  destruct (Z.leb_spec col d), (Z.testbit nr d) eqn:Ed; cbn in Hpos; try lia.
  destruct (skip_set_ok 32 nr col d) as (c' & -> & Hc' & Hb & Hskip); [lia..|done|]. rstep.
  destruct (add_pre_ok sn rep rows Hsn Hrep Hrows Hsize row c' w Hs) as (w1 & -> & T1); [split; lia|]. rstep.
  pose proof (readable_skip col c' ltac:(lia) ltac:(lia) Hb Hskip) as Hread.
  pose proof (touches_more _ _ _ _ _ _ 0 1 _ _ T1) as T2.
  destruct (IH (c' + 1) (more 1 w1)) as (w2 & B & -> & T3 & HB & Hcount); [apply T2|done|lia|lia|].
  exists w2, (fun c => just c' c || B c). split; [done|]. split; [|split].
  - replace (Z.of_nat (S n)) with (0 + 1 + Z.of_nat n) by lia. eapply touches_ext; [| |exact (touches_trans _ _ _ _ _ _ _ _ _ _ _ _ _ T2 T3)]; done.
  - intros c Hc. unfold just. destruct (Z.eqb_spec c c') as [->|]; [split; [lia|done]|]. cbn [orb]. intros HBc. destruct (HB c Hc HBc). split; [lia|done].
  - rewrite (total_ext _ _ (fun c => bit (just c' c) + bit (B c))), total_add, total_just, Hcount; [lia|lia|].
    intros c Hc. unfold just. destruct (Z.eqb_spec c c') as [->|]; [|done]. destruct (B c') eqn:E; [|done]. destruct (HB c' ltac:(lia) E). lia.
Qed.

(** *** A row *)
Hypothesis (Hcount : total (Z.to_nat rep) (unreadable nr) ≤ rep - ss).
Definition lost : Z := total (Z.to_nat ss) (unreadable nr).

(** The blocks [V] of a row can be had from those and the blocks [P]. *)
Definition read_sound (V P : Z → bool) : Prop :=
  (∀ c, 0 ≤ c < ss → V c = true → Z.testbit nr c = false) ∨ ss ≤ total (Z.to_nat rep) (read_ok nr (fun c => V c || P c)).

(** [lost] is all that is recorded of the strategy of a read. *)
Definition lost_noted (w : work) : Prop :=
  length (w_union w) = 20%nat ∧ (w_si w = 0%nat ∨ w_si w = 1%nat ∧ n_parities_get (w_union w) 0 = Ok lost).

Lemma lost_range : 0 ≤ lost ≤ 12.
Proof.
  unfold lost. split; [apply total_nonneg; intros c; unfold unreadable; by destruct (Z.testbit nr c)|].
  etrans; [apply (total_le _ _ (fun _ => 1)); intros c _; unfold unreadable; by destruct (Z.testbit nr c)|].
  pose proof (total_const_mul 1 ss ltac:(lia)) as <-. lia.
Qed.

Lemma parities_enough : lost ≤ readable_from ss.
Proof.
  assert (total (Z.to_nat rep) (unreadable nr) = lost + (rep - ss - readable_from ss)) as E; [|lia].
  assert (lost = total (Z.to_nat rep) (fun c => bit ((c <? ss) && Z.testbit nr c))) as ->.
  { unfold lost. symmetry. rewrite (total_more (Z.to_nat ss)); [|lia|intros c Hc; by rewrite (proj2 (Z.ltb_ge _ _)) by lia].
    apply total_ext. intros c Hc. by rewrite (proj2 (Z.ltb_lt _ _)) by lia. }
  pose proof (total_from (Z.to_nat rep) ss ltac:(lia)) as Hf. unfold readable_from.
  enough (total (Z.to_nat rep) (unreadable nr) + total (Z.to_nat rep) (fun c => bit ((ss <=? c) && negb (Z.testbit nr c))) =
    total (Z.to_nat rep) (fun c => bit ((c <? ss) && Z.testbit nr c)) + total (Z.to_nat rep) (fun c => if ss <=? c then 1 else 0)) by lia.
  rewrite <- !total_add. apply total_ext. intros c Hc. unfold unreadable, bit.
  destruct (Z.ltb_spec c ss), (Z.leb_spec ss c), (Z.testbit nr c); cbn; lia.
Qed.

Lemma note_lost_ok row w : lost_noted w → ∃ u, note_n_parities row lost w = Ok (with_strat w u (w_change w) 1) ∧ lost_noted (with_strat w u (w_change w) 1).
Proof.
  intros [Hu Hsi]. pose proof lost_range. unfold note_n_parities. destruct Hsi as [Hsi|[Hsi E]]; rewrite Hsi.
  - unfold n_parities_set. rewrite aset_ok by lia. rstep. eexists. split; [reflexivity|]. split; [cbn; by rewrite length_insert|]. right. split; [done|].
    unfold n_parities_get. cbn [with_strat w_union]. rewrite wrap_small by lia. unfold aget. rewrite list_lookup_insert_eq by lia. rstep.
    by rewrite (proj2 (Z.ltb_lt _ _)) by lia.
  - rewrite E. rstep. rewrite Z.eqb_refl. exists (w_union w).
    assert (with_strat w (w_union w) (w_change w) 1 = w) as -> by (rewrite <- Hsi; apply with_strat_id). split; [done|]. split; [done|by right].
Qed.

Record row_read (row : Z) (V : Z → bool) (w w' : work) : Prop := {
  rr_sized : sized w';
  rr_bio : ∀ c r, in_map c r → cell (w_bio w') c r = cell (w_bio w) c r;
  rr_other : ∀ c r, in_map c r → r ≠ row → cell (w_pre w') c r = cell (w_pre w) c r;
  rr_new : ∀ c, 0 ≤ c < rep → cell (w_pre w') c row = true → V c = false;
  rr_sound : read_sound V (fun c => cell (w_pre w') c row);
  rr_extra : w_extra w' = w_extra w + total (Z.to_nat rep) (fun c => bit (cell (w_pre w') c row));
  rr_change : w_change w' = w_change w;
  rr_lost : lost_noted w'
}.

(** The rest of the slice and as many parities as data blocks are lost. *)
Lemma restored_enough V B : (∀ c, 0 ≤ c < rep → B c = true → ss ≤ c ∧ Z.testbit nr c = false) → total (Z.to_nat rep) (fun c => bit (B c)) = lost →
  ss ≤ total (Z.to_nat rep) (read_ok nr (fun c => V c || (rest V c || B c))).
Proof.
  intros HB Hl. etrans; [|apply (total_le _ (fun c => bit ((c <? ss) && negb (Z.testbit nr c)) + bit (B c)))].
  - rewrite total_add, Hl. rewrite (total_more (Z.to_nat ss) (Z.to_nat rep)); [|lia|intros c Hc; by rewrite (proj2 (Z.ltb_ge _ _)) by lia].
    rewrite (total_ext (Z.to_nat ss) _ (fun c => 1 - unreadable nr c)); [rewrite total_readable; unfold lost; lia|].
    intros c Hc. rewrite (proj2 (Z.ltb_lt _ _)) by lia. unfold unreadable. by destruct (Z.testbit nr c).
  - intros c Hc. unfold read_ok, rest. specialize (HB c ltac:(lia)). destruct (B c).
    + destruct (HB eq_refl) as [Hge ->]. rewrite (proj2 (Z.ltb_ge _ _)) by lia. by destruct (V c).
    + by destruct (c <? ss), (Z.testbit nr c), (V c).
Qed.

Lemma total_zero n f c : total n (fun c => bit (f c)) = 0 → 0 ≤ c < Z.of_nat n → f c = false.
Proof.
  intros H Hc. destruct (f c) eqn:E; [|done]. induction n as [|n IH]; [lia|]. cbn [total] in H.
  pose proof (total_nonneg n (fun c => bit (f c)) ltac:(intros x; unfold bit; destruct (f x); lia)). destruct (decide (c = Z.of_nat n)) as [->|].
  - rewrite E in H. cbn in H. lia.
  - apply IH; [|lia]. destruct (f (Z.of_nat n)); cbn in H; lia.
Qed.

Lemma read_row_ok row w V : sized w → 0 ≤ row < rows → (∀ c, 0 ≤ c < rep → cell (w_bio w) c row = V c) → (∀ c, ss ≤ c < rep → V c = false) →
  (∀ c, 0 ≤ c < rep → cell (w_pre w) c row = false) → lost_noted w → ∃ w', read_row ss sn rep nr row w = Ok w' ∧ row_read row V w w'.
Proof.
  intros Hs Hr HV Hhi Hpre Hlost. unfold read_row. rewrite count_unreadable_ok by done. rstep. cbn [fst snd].
  destruct (Z.eqb_spec (total (Z.to_nat ss) (fun c => bit (Z.testbit nr c && cell (w_bio w) c row))) 0) as [E0|E0].
  { exists w. split; [done|]. split; try done.
    - intros c Hc. by rewrite Hpre.
    - left. intros c Hc HVc. pose proof (total_zero _ _ c E0 ltac:(lia)) as H. cbn beta in H. rewrite HV, HVc, andb_true_r in H by lia. done.
    - rewrite (total_ext _ _ (fun _ => 0)) by (intros c Hc; by rewrite Hpre by lia).
      rewrite (total_more 0 _ (fun _ => 0) (Nat.le_0_l _) (fun _ _ => eq_refl)). cbn. lia. }
  assert (total (Z.to_nat ss) (fun c => bit (Z.testbit nr c && cell (w_bio w) c row)) +
    total (Z.to_nat ss) (fun c => bit (Z.testbit nr c && negb (cell (w_bio w) c row))) = lost) as ->.
  { rewrite <- total_add. apply total_ext. intros c _. unfold unreadable. by destruct (Z.testbit nr c), (cell _ _ _). }
  destruct (read_rest_ok row w Hs Hr) as (w1 & -> & T1). rstep. destruct (to_rest _ _ _ _ _ _ _ _ _ T1) as (R1 & R2 & _ & R4 & _).
  destruct (note_lost_ok row w1) as (u & -> & Hlost2); [unfold lost_noted; by rewrite R1, R4|]. rstep. set (w2 := with_strat w1 u (w_change w1) 1) in *.
  pose proof lost_range. destruct (read_parities_ok (Z.to_nat lost) ss row w2) as (w3 & B & -> & T2 & HB & Hcnt); [|done|lia|rewrite Z2Nat.id by lia; apply parities_enough|].
  { destruct (to_sized _ _ _ _ _ _ _ _ _ T1). split; try done. apply Hlost2. }
  rewrite Z2Nat.id in T2, Hcnt by lia. destruct (to_rest _ _ _ _ _ _ _ _ _ T2) as (Q1 & Q2 & _ & Q4 & _).
  assert (∀ c, 0 ≤ c < rep → cell (w_pre w3) c row = rest V c || B c) as HP.
  { intros c Hc. rewrite (to_pre _ _ _ _ _ _ _ _ _ T2) by (split; lia). change (w_pre w2) with (w_pre w1).
    rewrite (to_pre _ _ _ _ _ _ _ _ _ T1), Z.eqb_refl, Hpre by (done || split; lia). unfold rest. by rewrite HV by done. }
  exists w3. split; [done|]. split.
  - apply T2.
  - intros c r Hin. rewrite (to_bio _ _ _ _ _ _ _ _ _ T2) by done. change (w_bio w2) with (w_bio w1). rewrite (to_bio _ _ _ _ _ _ _ _ _ T1) by done.
    unfold none. by rewrite !andb_false_r, !orb_false_r.
  - intros c r Hin Hne. rewrite (to_pre _ _ _ _ _ _ _ _ _ T2) by done. change (w_pre w2) with (w_pre w1). rewrite (to_pre _ _ _ _ _ _ _ _ _ T1) by done.
    by rewrite (proj2 (Z.eqb_neq _ _) Hne), !orb_false_r.
  - intros c Hc. rewrite HP by done. unfold rest. destruct (Z.ltb_spec c ss); cbn [andb orb].
    + destruct (B c) eqn:EB; [destruct (HB c Hc EB); lia|]. by destruct (Z.testbit nr c), (V c).
    + intros _. apply Hhi. lia.
  - right. rewrite (total_ext _ _ (read_ok nr (fun c => V c || (rest V c || B c)))); [by apply restored_enough|].
    intros c Hc. unfold read_ok. by rewrite HP by lia.
  - rewrite (to_extra _ _ _ _ _ _ _ _ _ T2). change (w_extra w2) with (w_extra w1). rewrite (to_extra _ _ _ _ _ _ _ _ _ T1), <- Hcnt, <- Z.add_assoc. f_equal.
    rewrite <- (total_more (Z.to_nat ss) (Z.to_nat rep)); [|lia|intros c Hc; unfold rest; by rewrite (proj2 (Z.ltb_ge _ _)) by lia].
    rewrite <- total_add. apply total_ext. intros c Hc. rewrite HP by lia. unfold rest. rewrite HV by lia.
    destruct (B c) eqn:EB; [destruct (HB c ltac:(lia) EB); by rewrite (proj2 (Z.ltb_ge _ _)) by lia|]. cbn. rewrite orb_false_r. lia.
  - cbn in Q2. congruence.
  - unfold lost_noted in *. by rewrite Q1, Q4.
Qed.

(** *** All rows *)
Section all_rows.
Context (V : Z → Z → bool) (x0 : Z) (hw : bool) (nw : Z).
Hypothesis (HV : ∀ c r, ss ≤ c < rep → V c r = false).
Hypothesis (Hall : ∀ r, 0 ≤ r < rows → ∃ c, 0 ≤ c < rep ∧ V c r = true).

(** The first [n] rows are planned. *)
Record reads (n : nat) (w : work) : Prop := {
  rd_sized : sized w;
  rd_bio : ∀ c r, in_map c r → cell (w_bio w) c r = V c r;
  rd_pre : ∀ c r, in_map c r → Z.of_nat n ≤ r → cell (w_pre w) c r = false;
  rd_rows : ∀ r, 0 ≤ r < Z.of_nat n → read_sound (at_row V r) (fun c => cell (w_pre w) c r);
  rd_new : ∀ c r, in_map c r → cell (w_pre w) c r = true → V c r = false;
  rd_extra : w_extra w = x0 + total n (fun r => total (Z.to_nat rep) (fun c => bit (cell (w_pre w) c r)));
  rd_change : w_change w = replicate 4 0;
  rd_lost : lost_noted w;
  rd_one : n = 0%nat → rows = 1 → 0 ≤ w_bio w < 2 ^ rep
}.

Lemma reads_step n w w0 w' : Z.of_nat n < rows → reads n w → w0 = row_stored sn rep rows (Z.of_nat n) w →
  row_read (Z.of_nat n) (at_row V (Z.of_nat n)) w0 w' → reads (S n) w'.
Proof.
  intros Hn Hp -> Hrow. destruct (row_stored_rest sn rep rows (Z.of_nat n) w ltac:(lia) (rd_sized _ _ Hp)) as (_ & F1 & F2 & _ & _ & F5 & _ & _ & _ & _ & F10).
  assert (∀ c r, in_map c r → r ≠ Z.of_nat n → cell (w_pre w') c r = cell (w_pre w) c r) as Hold.
  { intros c r Hin Hne. rewrite (rr_other _ _ _ _ Hrow) by done. by rewrite F2. }
  split.
  - apply Hrow.
  - intros c r Hin. rewrite (rr_bio _ _ _ _ Hrow), F1 by done. by apply Hp.
  - intros c r Hin Hle. rewrite Hold by (done || lia). apply (rd_pre _ _ Hp); [done|lia].
  - intros r Hr. destruct (decide (r = Z.of_nat n)) as [->|Hne]; [apply Hrow|].
    destruct (rd_rows _ _ Hp r ltac:(lia)) as [H|H]; [by left|right]. rewrite (total_ext _ _ (read_ok nr (fun c => at_row V r c || cell (w_pre w) c r))); [done|].
    intros c Hc. unfold read_ok. by rewrite Hold by (done || split; lia).
  - intros c r Hin Hc. destruct (decide (r = Z.of_nat n)) as [->|Hne]; [by apply (rr_new _ _ _ _ Hrow); [apply Hin|]|].
    rewrite Hold in Hc by done. by apply (rd_new _ _ Hp).
  - rewrite (rr_extra _ _ _ _ Hrow), F10, (rd_extra _ _ Hp). cbn [total]. rewrite <- Z.add_assoc. do 2 f_equal.
    apply total_ext. intros r Hr. apply total_ext. intros c Hc. by rewrite Hold by (lia || split; lia).
  - rewrite (rr_change _ _ _ _ Hrow), F5. apply Hp.
  - apply Hrow.
  - done.
Qed.

Lemma rows_read n fcl fr lr nlbas w : sn ≤ nlbas → Z.of_nat n ≤ rows → reads n w →
  ∃ w', rows_from ss sn rep nr nw hw (Z.to_nat rows - n) true (rep * rows) nlbas fcl fr lr (Z.of_nat n) w = Ok w' ∧ reads (Z.to_nat rows) w'.
Proof.
  intros Hnl. remember (Z.to_nat rows - n)%nat as k eqn:Ek. revert n w Ek. induction k as [|k IH]; intros n w Ek Hn Hp.
  { exists w. split; [done|]. by replace (Z.to_nat rows) with n by lia. }
  cbn [rows_from]. rewrite (row_map_set_ok ss sn rep rows Hsn Hss Hrep Hrows Hsize (Z.of_nat n) w (rd_sized _ _ Hp)); [|lia|intros E; apply (rd_one _ _ Hp); lia]. rstep.
  rewrite (mask_of_ext _ _ (at_row V (Z.of_nat n))) by (intros c Hc; apply (rd_bio _ _ Hp); split; lia).
  rewrite (proj2 (Z.eqb_neq _ _)) by (apply (txbm_nonzero rep rows V Hall); lia).
  destruct (row_stored_rest sn rep rows (Z.of_nat n) w ltac:(lia) (rd_sized _ _ Hp)) as (G1 & F1 & F2 & _ & F4 & _ & _ & F7 & _).
  destruct (read_row_ok (Z.of_nat n) (row_stored sn rep rows (Z.of_nat n) w) (at_row V (Z.of_nat n))) as (w1 & -> & Hrow).
  - done.
  - lia.
  - intros c Hc. rewrite F1. apply (rd_bio _ _ Hp). split; lia.
  - intros c. apply HV.
  - intros c Hc. rewrite F2. apply (rd_pre _ _ Hp); [split; lia|lia].
  - unfold lost_noted. rewrite F4, F7. apply Hp.
  - rstep. rewrite (proj2 (Z.ltb_ge nlbas sn)) by lia. replace (Z.of_nat n + 1) with (Z.of_nat (S n)) by lia.
    apply IH; [lia|lia|]. by eapply reads_step; [lia|done|done|].
Qed.
End all_rows.
End read_rows.

(** ** Reads *)
Section read.
Context (r : raid1) (cd : calculated_data) (b : roles_bmps) (rlba start nlbas binje : Z) (pac : alloc_count).
Hypothesis (Hwf : wf_raid1 r).
Hypothesis (Hb : zget (cd_roles cd) (get_owner_seg_slice_start r rlba) = Ok b).
Hypothesis (Hfit : roles_fit r b).
Hypothesis (Hread : n_unreadable r ≤ replicas r - slice_size r).
Hypothesis (Hstart : 0 ≤ start < slice_size r).
Hypothesis (Hnlbas : 1 ≤ nlbas).
Hypothesis (Hend : start + nlbas ≤ slice_size r * LOCKSET_SLICES).
Abbreviation ss := (slice_size r).
Abbreviation rep := (replicas r).
Abbreviation rows := (n_rows (slice_size r) start nlbas).

(** The reads of a plan, and the count of blocks. *)
Definition read_plan (m : mssa) (extra : Z) : Prop :=
  ms_map_size m = rep * rows ∧
  (∀ k, 0 ≤ k < rows →
    (∀ c, 0 ≤ c < rep → cell 1 rep (ms_bio_map m) c k = in_op ss start nlbas c k ∧
      (in_op ss start nlbas c k = true → cell 1 rep (ms_pre_read m) c k = true)) ∧
    ((∀ c, 0 ≤ c < ss → in_op ss start nlbas c k = true → Z.testbit (no_read b) c = false) ∨
     ss ≤ total (Z.to_nat rep) (read_ok (no_read b) (fun c => cell 1 rep (ms_pre_read m) c k)))) ∧
  mssa_count_additional_blocks m nlbas IO_OP_READ = Ok extra.

Lemma bounds : 1 ≤ ss ≤ rep ∧ rep ≤ 12 ∧ 1 ≤ rows ≤ 32 ∧ total (Z.to_nat rep) (unreadable (no_read b)) ≤ rep - ss.
Proof.
  pose proof (wf_slice _ Hwf). destruct (wf_replicas _ Hwf) as [Hle Hrep]. change (Z.of_nat _) with 12 in Hrep. change LOCKSET_SLICES with 32 in Hend.
  split; [lia|]. split; [lia|]. split; [apply (n_rows_bounds ss rep); lia|]. rewrite (hweight_rep r b) by done. lia.
Qed.

Lemma read_body map x0 hw fcl fr lr : (∀ c k, 0 ≤ c < rep → 0 ≤ k → cell 1 rep map c k = in_op ss start nlbas c k) → (rows = 1 → 0 ≤ map < 2 ^ rep) →
  ∃ w, (if negb (no_read b =? 0) then
          rows_from ss 1 rep (no_read b) (rb_dead b) hw (Z.to_nat rows) true (rep * rows) nlbas fcl fr lr 0 (start_work nlbas map x0)
        else Ok (start_work nlbas map x0)) = Ok w ∧ reads ss 1 rep rows (no_read b) (in_op ss start nlbas) x0 (Z.to_nat rows) w.
Proof.
  intros Hmap Hone. destruct bounds as (Hss & Hrep & Hrows & Hcount).
  assert (reads ss 1 rep rows (no_read b) (in_op ss start nlbas) x0 0 (start_work nlbas map x0)) as Hp.
  { split; try done; cbn [start_work w_bio w_pre w_extra w_union w_si].
    - intros c k [Hc Hk]. apply Hmap; lia.
    - intros c k _ _. apply Z.bits_0.
    - intros k Hk. lia.
    - intros c k _. by rewrite (Z.bits_0 _ : cell 1 rep 0 c k = false).
    - cbn. lia.
    - split; [done|by left]. }
  destruct (Z.eqb_spec (no_read b) 0) as [E|_]; cbn [negb].
  - exists (start_work nlbas map x0). split; [done|]. destruct Hp. split; try done.
    + intros c k Hin _. by apply Z.bits_0.
    + intros k Hk. left. intros c Hc _. by rewrite E, Z.bits_0.
    + cbn [start_work w_extra w_pre]. rewrite (total_ext _ _ (fun _ => 0)), (total_more 0 _ (fun _ => 0) (Nat.le_0_l _) (fun _ _ => eq_refl)); [cbn; lia|].
      intros k _. rewrite (total_ext _ _ (fun _ => 0)); [exact (total_more 0 _ (fun _ => 0) (Nat.le_0_l _) (fun _ _ => eq_refl))|].
      intros c _. by rewrite (Z.bits_0 _ : cell 1 rep 0 c k = false).
  - destruct (rows_read ss 1 rep rows (no_read b) ltac:(lia) Hss Hrep ltac:(exists rows; lia) ltac:(lia) Hcount (in_op ss start nlbas) x0 hw (rb_dead b)
      ltac:(intros c k Hc; apply high_column; lia) (every_row ss rep start nlbas Hss Hstart Hnlbas Hend) 0 fcl fr lr nlbas (start_work nlbas map x0))
      as (w & E & Hw); [lia|lia|done|]. rewrite Nat.sub_0_r in E. by exists w.
Qed.

(** [bitmap_or] covers the words of the map. *)
Lemma or_cell pre bio c k : 0 ≤ c < rep → 0 ≤ k < rows →
  cell 1 rep (Z.lor pre (Z.land bio (Z.ones (64 * ((rep * rows + 63) / 64))))) c k = cell 1 rep pre c k || cell 1 rep bio c k.
Proof.
  intros Hc Hk. destruct bounds as (Hss & Hrep & Hrows & _).
  pose proof (index_range 1 rep rows ltac:(lia) ltac:(exists rows; lia) ltac:(lia) c k ltac:(split; lia)) as Hi. unfold cell.
  pose proof (Z.div_mod (rep * rows + 63) 64 ltac:(lia)). pose proof (Z.mod_pos_bound (rep * rows + 63) 64 ltac:(lia)).
  rewrite Z.lor_spec, Z.land_spec, ones_testbit, (proj2 (Z.ltb_lt _ _)), andb_true_r by lia. done.
Qed.

Lemma read_count m x0 w : ms_map_size m = rep * rows → reads ss 1 rep rows (no_read b) (in_op ss start nlbas) x0 (Z.to_nat rows) w →
  (∀ c k, 0 ≤ c < rep → 0 ≤ k < rows → cell 1 rep (ms_pre_read m) c k = cell 1 rep (w_pre w) c k || cell 1 rep (w_bio w) c k) →
  mssa_count_additional_blocks m nlbas IO_OP_READ = Ok (w_extra w - x0).
Proof.
  intros E1 Hp Hpre. destruct bounds as (Hss & Hrep & Hrows & _). change LOCKSET_SLICES with 32 in Hend.
  unfold mssa_count_additional_blocks. rewrite E1, decide_True by done. f_equal. rewrite (hweight_cells ss rep start nlbas) by lia.
  pose proof (op_blocks ss rep start nlbas Hss Hstart Hnlbas Hend) as Hop. rewrite (rd_extra _ _ _ _ _ _ _ _ _ Hp).
  set (A := total _ _). set (D := total _ _). enough (A = D + nlbas) by lia. rewrite <- Hop. unfold A, D. rewrite <- total_add. apply total_ext. intros k Hk.
  rewrite <- total_add. apply total_ext. intros c Hc. rewrite Hpre by lia. rewrite (rd_bio _ _ _ _ _ _ _ _ _ Hp) by (split; lia).
  destruct (cell 1 rep (w_pre w) c k) eqn:E; [|done]. by rewrite (rd_new _ _ _ _ _ _ _ _ _ Hp c k ltac:(split; lia) E).
Qed.

Lemma read_run : ∃ m pac', mssa_init zero_mssa pac start nlbas true binje 1 0 r cd rlba = Ok (m, pac') ∧
  read_plan m (pac_n_extra_blocks pac' - pac_n_extra_blocks pac).
Proof.
  destruct bounds as (Hss & Hrep & Hrows & Hcount). unfold mssa_init. cbn zeta. rewrite Hb. rstep. fold (no_read b).
  rewrite !Z.mul_1_r, Z.div_1_r, Z.mod_1_r, (Z.mod_small start ss) by lia. change (ms_bio_map zero_mssa) with 0.
  destruct (io_map ss rep start nlbas Hss Hrep Hstart Hnlbas Hend LOCKSET_SLICES Hend ltac:(done)) as (map & -> & Hmap & Hone). rstep.
  change (0 =? 0) with true. cbn [negb andb orb]. rewrite (Z.mul_comm rep rows), Z.div_mul, (Z.mul_comm rows rep) by lia.
  match goal with |- context [Work ?a ?b ?c ?d ?e ?f ?g ?h ?i ?j ?k ?l] => change (Work a b c d e f g h i j k l) with (start_work nlbas a h) end.
  destruct (read_body map (pac_n_extra_blocks pac) (has_writable_pari b) start 0 (-1) Hmap Hone) as (w & E & Hp).
  assert (∀ (x : bool) (y z : res work), (if x then v ← y; Ok v else z) = if x then y else z) as Hret by (intros [] [] z; done).
  rewrite Hret, E. rstep. assert (∃ l', memset_m1 (ms_cmd_read zero_mssa) rep = Ok l') as [cr ->].
  { unfold memset_m1. change (Z.of_nat _) with 32. rewrite (proj2 (Z.ltb_ge _ _)) by lia. by eexists. }
  rstep. rewrite (rd_change _ _ _ _ _ _ _ _ _ Hp). change (aget (replicate 4 0) 0) with (Ok 0). change (aget (replicate 4 0) 1) with (Ok 0). rstep. cbn [Z.eqb andb negb].
  assert (w_si w ≤ 1)%nat as Hsi by (destruct (rd_lost _ _ _ _ _ _ _ _ _ Hp) as [_ [->|[-> _]]]; lia).
  rewrite andb_false_r, (proj2 (Nat.ltb_ge _ _)) by lia. eexists _, _. split; [reflexivity|].
  split; [done|]. cbn [ms_bio_map ms_pre_read pac_n_extra_blocks]. split.
  - intros k Hk. split.
    + intros c Hc. rewrite (rd_bio _ _ _ _ _ _ _ _ _ Hp), or_cell, (rd_bio _ _ _ _ _ _ _ _ _ Hp) by (done || split; lia). split; [done|intros ->; apply orb_true_r].
    + destruct (rd_rows _ _ _ _ _ _ _ _ _ Hp k) as [H|H]; [lia|by left|right]. etrans; [exact H|]. apply Z.eq_le_incl, total_ext. intros c Hc.
      unfold read_ok, at_row. by rewrite or_cell, (rd_bio _ _ _ _ _ _ _ _ _ Hp), orb_comm by (lia || split; lia).
  - eapply read_count; [done|exact Hp|]. intros c k Hc Hk. by apply or_cell.
Qed.
End read.


