(* ===== verification/Pausable.v ===== *)
(** The pausable disk (clnt/nvmeibc_pausable.c): the layer through which every
    command, lock and journal operation reaches a disk, and which drains the
    disk before it is taken away.

    The code runs concurrently on every CPU, so it is modelled as a machine of
    threads: a program counter per place where the source reads or writes
    something another CPU can see, one step per such access.  A critical
    section's last writes are one step with the release of [pause_reqs_lock].
    [__get_pause_state], [__put_pause_state] and [__pausable_layer_call] are
    [call_step], [__dec_transferring] is [dec_step], [__wait_for_pausing] and
    [nvmeibc_pd_pause] are [pause_step], [nvmeibc_pd_cont] is [cont_step] and
    the sums over the per-CPU counters, which are read one CPU after another,
    are [scan_step] and the [PSum] counter.  [sys_step] interleaves them under
    a schedule of labels; memory is sequentially consistent.

    What the callers promise is in the guards of [begin_step]: a CPU whose
    interrupts are off runs one thing, a transfer that was accepted completes
    once, and the disk is continued only after a pause was acknowledged and
    while nobody is pausing it (nvmeibc_disk.h, "Now Cont can arrive"). *)

From stdpp Require Import base list numbers.
From Stdlib Require Import ZArith Lia.
From S2P Require Import Prelude.

Local Open Scope Z_scope.

(* ------------------------------------------------------------------ *)
(** ** The disk *)

(** [struct disk_percpu] *)
Record disk_percpu := {
  pause_preventers : Z;
  in_transfers : Z
}.

(** The pausing fields of [struct nvmeibc_disk]; a [struct pause_req] is the
    number of the thread its context belongs to. *)
Record nvmeibc_disk := {
  percpu : list disk_percpu;
  should_pause : bool;
  pausing : bool;
  pausing_no_transfers : bool;
  n_cont_preventors : Z;
  pause_reqs_lock : bool;
  pause_reqs : list nat
}.

Definition set_percpu (l : list disk_percpu) (d : nvmeibc_disk) : nvmeibc_disk :=
  {| percpu := l; should_pause := should_pause d; pausing := pausing d;
     pausing_no_transfers := pausing_no_transfers d; n_cont_preventors := n_cont_preventors d;
     pause_reqs_lock := pause_reqs_lock d; pause_reqs := pause_reqs d |}.

Definition set_should_pause (b : bool) (d : nvmeibc_disk) : nvmeibc_disk :=
  {| percpu := percpu d; should_pause := b; pausing := pausing d;
     pausing_no_transfers := pausing_no_transfers d; n_cont_preventors := n_cont_preventors d;
     pause_reqs_lock := pause_reqs_lock d; pause_reqs := pause_reqs d |}.

Definition set_pausing (b : bool) (d : nvmeibc_disk) : nvmeibc_disk :=
  {| percpu := percpu d; should_pause := should_pause d; pausing := b;
     pausing_no_transfers := pausing_no_transfers d; n_cont_preventors := n_cont_preventors d;
     pause_reqs_lock := pause_reqs_lock d; pause_reqs := pause_reqs d |}.

Definition set_no_transfers (b : bool) (d : nvmeibc_disk) : nvmeibc_disk :=
  {| percpu := percpu d; should_pause := should_pause d; pausing := pausing d;
     pausing_no_transfers := b; n_cont_preventors := n_cont_preventors d;
     pause_reqs_lock := pause_reqs_lock d; pause_reqs := pause_reqs d |}.

Definition set_cont_preventors (n : Z) (d : nvmeibc_disk) : nvmeibc_disk :=
  {| percpu := percpu d; should_pause := should_pause d; pausing := pausing d;
     pausing_no_transfers := pausing_no_transfers d; n_cont_preventors := n;
     pause_reqs_lock := pause_reqs_lock d; pause_reqs := pause_reqs d |}.

Definition set_lock (b : bool) (d : nvmeibc_disk) : nvmeibc_disk :=
  {| percpu := percpu d; should_pause := should_pause d; pausing := pausing d;
     pausing_no_transfers := pausing_no_transfers d; n_cont_preventors := n_cont_preventors d;
     pause_reqs_lock := b; pause_reqs := pause_reqs d |}.

Definition set_reqs (l : list nat) (d : nvmeibc_disk) : nvmeibc_disk :=
  {| percpu := percpu d; should_pause := should_pause d; pausing := pausing d;
     pausing_no_transfers := pausing_no_transfers d; n_cont_preventors := n_cont_preventors d;
     pause_reqs_lock := pause_reqs_lock d; pause_reqs := l |}.

(** [pause_preventers += n] and [in_transfers += n] of one CPU; the latter
    wraps at 32 bits. *)
Definition add_preventers (n : Z) (p : disk_percpu) : disk_percpu :=
  {| pause_preventers := pause_preventers p + n; in_transfers := in_transfers p |}.

Definition add_transfers (n : Z) (p : disk_percpu) : disk_percpu :=
  {| pause_preventers := pause_preventers p; in_transfers := s32 (in_transfers p + n) |}.

Definition on_cpu (c : nat) (f : disk_percpu → disk_percpu) (d : nvmeibc_disk) : nvmeibc_disk :=
  set_percpu (alter f c (percpu d)) d.

(** What a step lets the outside see: a pause callback, a [BUG] or a [WARN],
    the last two with their line. *)
Inductive event :=
  | Called (cb : nat)
  | Bug (line : Z)
  | Warn (line : Z).

Definition warn_if (b : bool) (line : Z) : list event := if b then [Warn line] else [].
Definition bug_if (b : bool) (line : Z) : list event := if b then [Bug line] else [].

(* ------------------------------------------------------------------ *)
(** ** __get_remaining_transferring *)

Inductive scan_pc :=
  | SCheck
  | SSum (i : nat) (sum : Z).

#[global] Instance scan_pc_eq_dec : EqDecision scan_pc.
Proof. solve_decision. Defined.

(** The counters are added up one CPU at a time, in 32 bits; the value when
    the scan is over. *)
Definition scan_step (d : nvmeibc_disk) (k : scan_pc) : (scan_pc + Z) * list event :=
  match k with
  | SCheck => (inl (SSum 0 0), warn_if (negb (pausing d)) 364)
  | SSum i sum =>
      match percpu d !! i with
      | Some p => (inl (SSum (S i) (s32 (sum + in_transfers p))), [])
      | None => (inr sum, warn_if (sum <? 0) 368)
      end
  end.

(* ------------------------------------------------------------------ *)
(** ** __dec_transferring *)

(** [p] is the copy of [pausing] taken at the start: the lock is held from
    [DDec true] on. *)
Inductive dec_pc :=
  | DRead
  | DLock
  | DDec (p : bool)
  | DTest (p : bool)
  | DLock2
  | DAgain
  | DScan (k : scan_pc)
  | DCall (cbs : list nat).

#[global] Instance dec_pc_eq_dec : EqDecision dec_pc.
Proof. solve_decision. Defined.

(** One access of [__dec_transferring] on CPU [c]: the disk, where the thread
    is then ([None] when it returned) and what was seen.  No result while the
    lock is taken. *)
Definition dec_step (c : nat) (d : nvmeibc_disk) (k : dec_pc) : option (nvmeibc_disk * option dec_pc * list event) :=
  match k with
  | DRead => Some (d, Some (if pausing d then DLock else DDec false), [])
  | DLock => if pause_reqs_lock d then None else Some (set_lock true d, Some (DDec true), [])
  | DDec p => Some (on_cpu c (add_transfers (-1)) d, Some (DTest p), [])
  | DTest p =>
      if pausing d then Some (d, Some (if p then DAgain else DLock2), [])
      else if p then Some (set_lock false d, None, [Warn 425])
      else Some (d, None, [])
  | DLock2 => if pause_reqs_lock d then None else Some (set_lock true d, Some DAgain, [])
  | DAgain => if pausing d then Some (d, Some (DScan SCheck), []) else Some (set_lock false d, None, [])
  | DScan k =>
      match scan_step d k with
      | (inl k', e) => Some (d, Some (DScan k'), e)
      | (inr sum, e) =>
          if sum =? 0 then Some (set_lock false (set_no_transfers true (set_reqs [] d)), Some (DCall (pause_reqs d)), e)
          else Some (set_lock false d, None, e)
      end
  | DCall [] => Some (d, None, [])
  | DCall (cb :: cbs) => Some (d, Some (DCall cbs), [Called cb])
  end.

(* ------------------------------------------------------------------ *)
(** ** __wait_for_pausing, nvmeibc_pd_pause *)

Definition ENOMEM : Z := 12.

(** Interrupts are off from [PMine] to [PSet]; [my] is [my_cpu_preventers]. *)
Inductive pause_pc :=
  | PMine
  | PLoop (my : Z)
  | PSum (my : Z) (i : nat) (sum : Z)
  | PSet (my : Z)
  | PLock
  | PScan (k : scan_pc)
  | PCall.

#[global] Instance pause_pc_eq_dec : EqDecision pause_pc.
Proof. solve_decision. Defined.

(** One access of [nvmeibc_pd_pause] with callback [cb] on CPU [c]; [ok] is
    whether [kmalloc] gives the request. *)
Definition pause_step (c : nat) (ok : bool) (cb : option nat) (d : nvmeibc_disk) (k : pause_pc) :
    option (nvmeibc_disk * (pause_pc + Z) * list event) :=
  match k with
  | PMine =>
      p ← percpu d !! c;
      let my := pause_preventers p in
      Some (d, inl (PLoop my), warn_if (negb (should_pause d)) 137 ++ warn_if (bool_decide (is_Some cb) && negb (my =? 0)) 138)
  | PLoop my =>
      if pausing d then
        Some (d, (match cb with Some _ => inl PLock | None => inr 0 end), warn_if (negb (my =? 0) && negb (my =? 1)) 165)
      else Some (d, inl (PSum my 0 0), [])
  | PSum my i sum =>
      match percpu d !! i with
      | Some p => Some (d, inl (PSum my (S i) (sum + pause_preventers p)), [])
      | None => Some (d, inl (if sum =? my then PSet my else PLoop my), bug_if (sum <? 0) 114)
      end
  | PSet my => Some (set_pausing true d, inl (PLoop my), warn_if (negb (should_pause d)) 154)
  | PLock => if pause_reqs_lock d then None else Some (set_lock true d, inl (PScan SCheck), [])
  | PScan k =>
      match scan_step d k with
      | (inl k', e) => Some (d, inl (PScan k'), e)
      | (inr transferring, e) =>
          if transferring =? 0 then Some (set_lock false (set_no_transfers true d), inl PCall, e)
          else if ok then
            cb ← cb; Some (set_lock false (set_reqs (pause_reqs d ++ [cb]) d), inr 0, e)
          else Some (set_lock false d, inr (- ENOMEM), e)
      end
  | PCall => cb ← cb; Some (d, inr 0, [Called cb])
  end.

(* ------------------------------------------------------------------ *)
(** ** nvmeibc_pd_cont *)

Inductive cont_pc :=
  | KWait
  | KPausing
  | KShould
  | KNoTransfers.

#[global] Instance cont_pc_eq_dec : EqDecision cont_pc.
Proof. solve_decision. Defined.

Definition cont_step (d : nvmeibc_disk) (k : cont_pc) : nvmeibc_disk * option cont_pc :=
  match k with
  | KWait => (d, Some (if 0 <? n_cont_preventors d then KWait else KPausing))
  | KPausing => (set_pausing false d, Some KShould)
  | KShould => (set_should_pause false d, Some KNoTransfers)
  | KNoTransfers => (set_no_transfers false d, None)
  end.

(* ------------------------------------------------------------------ *)
(** ** __pausable_layer_call *)

(** Interrupts of the CPU are off throughout.  [CFn] is inside [fn_call] with
    the transfer counted, [CHanded] once the transport accepted it: it may
    complete elsewhere before the call is over. *)
Inductive call_pc :=
  | CInc
  | CRead
  | CRefuse
  | CXfer
  | CFn
  | CPause (k : pause_pc)
  | CHanded
  | CDec (k : dec_pc)
  | CPut.

#[global] Instance call_pc_eq_dec : EqDecision call_pc.
Proof. solve_decision. Defined.

(** [__put_pause_state] *)
Definition put_pause_state (c : nat) (d : nvmeibc_disk) : nvmeibc_disk * list event :=
  (on_cpu c (add_preventers (-1)) d,
   bug_if (negb (bool_decide (pause_preventers <$> percpu d !! c = Some 1))) 193).

(** What [fn_call] does next: the transport takes the transfer, refuses it
    with a negative value, or pauses the disk from inside
    ([nvmeibc_disk_pause]). *)
Inductive fn_choice :=
  | Fn_accepts
  | Fn_fails
  | Fn_pauses.

(** One access of the call on CPU [c]: the disk, where the call is then, the
    number of transfers handed to the transport and what was seen. *)
Definition call_step (c : nat) (fn : fn_choice) (d : nvmeibc_disk) (k : call_pc) :
    option (nvmeibc_disk * option call_pc * nat * list event) :=
  match k with
  | CInc => Some (on_cpu c (add_preventers 1) d, Some CRead, 0%nat, [])
  | CRead => Some (d, Some (if should_pause d then CRefuse else CXfer), 0%nat, [])
  | CRefuse => let '(d', e) := put_pause_state c d in Some (d', None, 0%nat, e)
  | CXfer => Some (on_cpu c (add_transfers 1) d, Some CFn, 0%nat, [])
  | CFn =>
      match fn with
      | Fn_accepts => Some (d, Some CHanded, 1%nat, [])
      | Fn_fails => Some (d, Some (CDec DRead), 0%nat, [])
      | Fn_pauses => Some (set_should_pause true d, Some (CPause PMine), 0%nat, [])
      end
  | CPause k =>
      match pause_step c true None d k with
      | Some (d', inl k', e) => Some (d', Some (CPause k'), 0%nat, e)
      | Some (d', inr _, e) => Some (d', Some CFn, 0%nat, e)
      | None => None
      end
  | CHanded => Some (d, Some CPut, 0%nat, [])
  | CDec k =>
      match dec_step c d k with
      | Some (d', Some k', e) => Some (d', Some (CDec k'), 0%nat, e)
      | Some (d', None, e) => Some (d', Some CPut, 0%nat, e)
      | None => None
      end
  | CPut => let '(d', e) := put_pause_state c d in Some (d', None, 0%nat, e)
  end.

(* ------------------------------------------------------------------ *)
(** ** The threads *)

(** [Stopping] and [Entering] are [stop_disk_io] (with [ack]) and
    [nvmeibc_disk_pause] (without) before the call of [nvmeibc_pd_pause];
    [Waiting rv] is [stop_disk_io] waiting for the callback after the pause
    returned [rv], and [Dead] after it gave up. *)
Inductive thread :=
  | Idle
  | Call (c : nat) (k : call_pc)
  | Completion (k : dec_pc)
  | Stopping (ack : bool)
  | Entering (ack : bool)
  | Pauser (c : nat) (cb : option nat) (k : pause_pc)
  | Waiting (rv : Z)
  | Dead (rv : Z)
  | Continuing (k : cont_pc).

#[global] Instance thread_eq_dec : EqDecision thread.
Proof. solve_decision. Defined.

(** [outstanding] is the number of transfers the transport holds and
    [completions] the callbacks whose waiter has not gone on.  [acked] tells
    that a pause was acknowledged since the disk last went on, [stale] that
    the lock has been held since before that. *)
Record sys := {
  disk : nvmeibc_disk;
  threads : list thread;
  outstanding : nat;
  completions : list nat;
  acked : bool;
  stale : bool
}.

(** [local_irq_save] of this layer *)
Definition irq_off (c : nat) (t : thread) : bool :=
  match t with
  | Call c' _ => bool_decide (c' = c)
  | Pauser c' _ (PMine | PLoop _ | PSum _ _ _ | PSet _) => bool_decide (c' = c)
  | _ => false
  end.

Definition cpu_free (c : nat) (s : sys) : bool :=
  bool_decide (c < length (percpu (disk s)))%nat && forallb (λ t, negb (irq_off c t)) (threads s).

Definition is_pauser (t : thread) : bool :=
  match t with
  | Stopping _ | Entering _ | Pauser _ _ _ | Waiting _ | Dead _ | Call _ (CPause _) => true
  | _ => false
  end.

Definition is_cont (t : thread) : bool :=
  match t with
  | Continuing _ => true
  | _ => false
  end.

Definition nobody (f : thread → bool) (s : sys) : bool := forallb (λ t, negb (f t)) (threads s).

(** What an idle thread may start, and what it is then. *)
Inductive beginning :=
  | Begin_call (c : nat)
  | Begin_completion
  | Begin_pause (ack : bool)
  | Begin_cont.

Definition begin_step (b : beginning) (s : sys) : option (thread * nat) :=
  match b with
  | Begin_call c => if cpu_free c s then Some (Call c CInc, outstanding s) else None
  | Begin_completion =>
      match outstanding s with
      | S n => Some (Completion DRead, n)
      | O => None
      end
  | Begin_pause ack => if nobody is_cont s then Some (Stopping ack, outstanding s) else None
  | Begin_cont =>
      if nobody is_cont s && nobody is_pauser s && (acked s || negb (should_pause (disk s)))
      then Some (Continuing KWait, outstanding s) else None
  end.

(** A label is one step of the schedule: thread [i] begins something, goes on
    (on CPU [c] where the code asks for the current one, with [kmalloc] and
    [fn_call] answering as given), or gives up waiting; or somebody changes
    [n_cont_preventors]. *)
Inductive label :=
  | Begin (i : nat) (b : beginning)
  | Run (i c : nat) (ok : bool) (fn : fn_choice)
  | Give_up (i : nat)
  | Preventors (n : Z).

Definition called (e : list event) : list nat := e ≫= λ x, match x with Called cb => [cb] | _ => [] end.

(** Thread [i] goes to [t], the disk to [d]. *)
Definition move (s : sys) (i : nat) (d : nvmeibc_disk) (t : thread) (e : list event) : sys :=
  {| disk := d; threads := <[i := t]> (threads s); outstanding := outstanding s;
     completions := completions s ++ called e;
     acked := acked s || negb (bool_decide (called e = []));
     stale := stale s && pause_reqs_lock d |}.

Definition set_outstanding (n : nat) (s : sys) : sys :=
  {| disk := disk s; threads := threads s; outstanding := n; completions := completions s;
     acked := acked s; stale := stale s |}.

(** The waiter takes one completion of its own. *)
Definition take_completion (i : nat) (s : sys) : sys :=
  {| disk := disk s; threads := threads s; outstanding := outstanding s;
     completions := match list_find (eq i) (completions s) with
                    | Some (n, _) => delete n (completions s)
                    | None => completions s
                    end;
     acked := acked s; stale := stale s |}.

(** [pausing = false]: no pause is acknowledged any more, and whoever holds
    the lock took it before. *)
Definition forget_acks (s : sys) : sys :=
  {| disk := disk s; threads := threads s; outstanding := outstanding s;
     completions := completions s; acked := false; stale := pause_reqs_lock (disk s) |}.

(** Nobody pauses a disk that is being continued. *)
Definition may_choose (fn : fn_choice) (s : sys) : bool :=
  match fn with
  | Fn_pauses => nobody is_cont s
  | _ => true
  end.

(** Thread [i], which is [t], goes on. *)
Definition run_step (i c : nat) (ok : bool) (fn : fn_choice) (s : sys) (t : thread) : option (sys * list event) :=
  let d := disk s in
  match t with
  | Idle | Dead _ => None
  | Call c' k =>
      if may_choose fn s then
        match call_step c' fn d k with
        | Some (d', Some k', n, e) => Some (set_outstanding (outstanding s + n) (move s i d' (Call c' k') e), e)
        | Some (d', None, _, e) => Some (move s i d' Idle e, e)
        | None => None
        end
      else None
  | Completion k =>
      if bool_decide (c < length (percpu d))%nat then
        match dec_step c d k with
        | Some (d', Some k', e) => Some (move s i d' (Completion k') e, e)
        | Some (d', None, e) => Some (move s i d' Idle e, e)
        | None => None
        end
      else None
  | Stopping ack => Some (move s i (set_should_pause true d) (Entering ack) [], [])
  | Entering ack =>
      if cpu_free c s then Some (move s i d (Pauser c (if ack then Some i else None) PMine) [], []) else None
  | Pauser c' cb k =>
      match pause_step c' ok cb d k with
      | Some (d', inl k', e) => Some (move s i d' (Pauser c' cb k') e, e)
      | Some (d', inr rv, e) => Some (move s i d' (match cb with Some _ => Waiting rv | None => Idle end) e, e)
      | None => None
      end
  | Waiting rv =>
      if bool_decide (i ∈ completions s) then Some (take_completion i (move s i d Idle []), []) else None
  | Continuing k =>
      let '(d', k') := cont_step d k in
      let s' := move s i d' (match k' with Some k' => Continuing k' | None => Idle end) [] in
      Some (match k with KPausing => forget_acks s' | _ => s' end, [])
  end.

Definition sys_step (l : label) (s : sys) : option (sys * list event) :=
  match l with
  | Begin i b =>
      match threads s !! i with
      | Some Idle =>
          match begin_step b s with
          | Some (t, n) => Some (set_outstanding n (move s i (disk s) t []), [])
          | None => None
          end
      | _ => None
      end
  | Run i c ok fn =>
      match threads s !! i with
      | Some t => run_step i c ok fn s t
      | None => None
      end
  | Give_up i =>
      match threads s !! i with
      | Some (Waiting rv) => Some (move s i (disk s) (Dead rv) [], [])
      | _ => None
      end
  | Preventors n =>
      Some ({| disk := set_cont_preventors n (disk s); threads := threads s; outstanding := outstanding s;
               completions := completions s; acked := acked s; stale := stale s |}, [])
  end.

(** A disk of [n] CPUs and [m] threads, nothing running. *)
Definition idle_percpu : disk_percpu := {| pause_preventers := 0; in_transfers := 0 |}.

Definition start (n m : nat) : sys :=
  {| disk := {| percpu := replicate n idle_percpu; should_pause := false; pausing := false;
                pausing_no_transfers := false; n_cont_preventors := 0;
                pause_reqs_lock := false; pause_reqs := [] |};
     threads := replicate m Idle; outstanding := 0; completions := []; acked := false; stale := false |}.

(* ------------------------------------------------------------------ *)
(** ** In flight *)

(** The sum of an integer over the threads. *)
Fixpoint tsum (f : thread → Z) (ts : list thread) : Z :=
  match ts with
  | [] => 0
  | t :: ts => f t + tsum f ts
  end.

(** The program counter inside [__dec_transferring], wherever it was called. *)
Definition dec_of (t : thread) : option dec_pc :=
  match t with
  | Completion k | Call _ (CDec k) => Some k
  | _ => None
  end.

(** A thread that has counted a transfer and not uncounted it. *)
Definition carries (t : thread) : Z :=
  match t with
  | Call _ (CFn | CPause _) => 1
  | _ =>
      match dec_of t with
      | Some (DRead | DLock | DDec _) => 1
      | _ => 0
      end
  end.

(** Transfers started and not over. *)
Definition in_flight (s : sys) : Z := Z.of_nat (outstanding s) + tsum carries (threads s).

(** The states the disk can be in, with fewer than 2^31 transfers in flight
    ("2G IO's in air", [__get_remaining_transferring]). *)
Inductive reachable (n m : nat) : sys → Prop :=
  | reachable_start : reachable n m (start n m)
  | reachable_step s l s' e :
      reachable n m s → sys_step l s = Some (s', e) → in_flight s' < 2 ^ 31 → reachable n m s'.

(** A schedule, run to its end, with everything that was seen. *)
Fixpoint run (ls : list label) (s : sys) : option (sys * list event) :=
  match ls with
  | [] => Some (s, [])
  | l :: ls =>
      match sys_step l s with
      | Some (s1, e1) =>
          match run ls s1 with
          | Some (s2, e2) => Some (s2, e1 ++ e2)
          | None => None
          end
      | None => None
      end
  end.
