(* ===== verification/PausableProof.v ===== *)
(** The invariants of the pausable disk.

    They come in layers, each proved over the ones before: what the counters
    and the lock count ([counts]), what the flags tell about the threads
    ([flags]), who is owed a callback ([owners]), what a sum over the counters
    and an acknowledgement mean ([drains]) and who serves a queued request
    ([wakes]). *)

From stdpp Require Import base list numbers.
From Stdlib Require Import ZArith Lia.
From S2P Require Import Prelude Pausable.

Local Open Scope Z_scope.

(* ------------------------------------------------------------------ *)
(** ** Sums over the threads *)

Lemma tsum_insert f ts i t t' :
  ts !! i = Some t → tsum f (<[i := t']> ts) = tsum f ts - f t + f t'.
Proof.
  revert i; induction ts as [|u ts IH]; intros [|i]; simpl; try done.
  - intros [= ->]. lia.
  - intros H. rewrite (IH i H). lia.
Qed.

Lemma tsum_le f g ts : (∀ t, f t ≤ g t) → tsum f ts ≤ tsum g ts.
Proof. intros Hf. induction ts as [|t ts IH]; simpl; [lia|]. specialize (Hf t). lia. Qed.

Lemma tsum_zero ts : tsum (λ _, 0) ts = 0.
Proof. induction ts; simpl; lia. Qed.

Lemma tsum_nonneg f ts : (∀ t, 0 ≤ f t) → 0 ≤ tsum f ts.
Proof. intros Hf. rewrite <- (tsum_zero ts). by apply tsum_le. Qed.

Lemma tsum_replicate f n t : tsum f (replicate n t) = Z.of_nat n * f t.
Proof. induction n; simpl; lia. Qed.

(** Leaving one thread out keeps sums ordered. *)
Lemma tsum_rest f g ts i t :
  (∀ t, f t ≤ g t) → ts !! i = Some t → tsum f ts - f t ≤ tsum g ts - g t.
Proof.
  intros Hf. revert i; induction ts as [|u ts IH]; intros [|i]; simpl; try done.
  - intros [= ->]. pose proof (tsum_le f g ts Hf). lia.
  - intros Hi. specialize (IH i Hi). specialize (Hf u). lia.
Qed.

Lemma tsum_in f ts i t : (∀ t, 0 ≤ f t) → ts !! i = Some t → f t ≤ tsum f ts.
Proof. intros Hf Hi. pose proof (tsum_rest (λ _, 0) f ts i t Hf Hi) as H. rewrite tsum_zero in H. lia. Qed.

Lemma tsum_in2 f ts i j t u : (∀ t, 0 ≤ f t) → i ≠ j →
  ts !! i = Some t → ts !! j = Some u → f t + f u ≤ tsum f ts.
Proof.
  intros Hf. revert i j; induction ts as [|v ts IH]; intros [|i] [|j]; simpl; try done.
  - intros _ [= ->] Hj. pose proof (tsum_in f ts j u Hf Hj). lia.
  - intros _ Hi [= ->]. pose proof (tsum_in f ts i t Hf Hi). lia.
  - intros Hne Hi Hj. specialize (IH i j ltac:(lia) Hi Hj). specialize (Hf v). lia.
Qed.

(** The number of threads with a property. *)
Definition tcount (p : thread → bool) (s : sys) : Z := tsum (λ t, Z.b2z (p t)) (threads s).

Lemma b2z_nonneg (p : thread → bool) t : 0 ≤ Z.b2z (p t).
Proof. by destruct (p t). Qed.

Lemma nobody_count p s : nobody p s = true → tcount p s = 0.
Proof.
  unfold nobody, tcount. induction (threads s) as [|t ts IH]; simpl; [done|].
  intros [H1 H2]%andb_prop. rewrite IH by done. by destruct (p t).
Qed.

Lemma count_nobody p s i t : tcount p s = 0 → threads s !! i = Some t → p t = false.
Proof.
  intros H0 Hi. pose proof (tsum_in _ _ _ _ (b2z_nonneg p) Hi) as H. unfold tcount in H0.
  simpl in H. destruct (p t); [simpl in H; lia|done].
Qed.

Lemma count_one p s i j t u : tcount p s ≤ 1 → threads s !! i = Some t → threads s !! j = Some u →
  p t = true → p u = true → i = j.
Proof.
  intros H1 Hi Hj Ht Hu. destruct (decide (i = j)) as [|Hne]; [done|].
  pose proof (tsum_in2 _ _ _ _ _ _ (b2z_nonneg p) Hne Hi Hj) as H. unfold tcount in H1.
  simpl in H. rewrite Ht, Hu in H. simpl in H. lia.
Qed.

(** Warnings call nobody back. *)
Lemma called_warn b n : called (warn_if b n) = [].
Proof. by destruct b. Qed.

Lemma called_bug b n : called (bug_if b n) = [].
Proof. by destruct b. Qed.

Lemma called_app e e' : called (e ++ e') = called e ++ called e'.
Proof. unfold called. apply bind_app. Qed.

Create Rewrite HintDb events.
#[export] Hint Rewrite called_app called_warn called_bug : events.

(* ------------------------------------------------------------------ *)
(** ** Sums over the CPUs *)

Lemma s32_range x : - 2 ^ 31 ≤ s32 x < 2 ^ 31.
Proof. unfold s32. pose proof (wrap_range 32 (x + 2 ^ 31) ltac:(lia)). lia. Qed.

Lemma s32_cong x : ∃ k, s32 x = x + k * 2 ^ 32.
Proof.
  unfold s32, wrap. exists (- ((x + 2 ^ 31) / 2 ^ 32)). rewrite Z.mod_eq by lia. lia.
Qed.

(** The preventers of one CPU and the transfers of the CPUs in a list. *)
Definition preventers (l : list disk_percpu) (c : nat) : Z := default 0 (pause_preventers <$> l !! c).

Fixpoint transfers (l : list disk_percpu) : Z :=
  match l with
  | [] => 0
  | p :: l => in_transfers p + transfers l
  end.

Lemma preventers_add n c l j : (c < length l)%nat →
  preventers (alter (add_preventers n) c l) j = preventers l j + (if bool_decide (c = j) then n else 0).
Proof.
  intros Hc. unfold preventers. case_bool_decide as Hj; [subst|].
  - rewrite list_lookup_alter_eq. destruct (lookup_lt_is_Some_2 l j Hc) as [p ->]. done.
  - rewrite list_lookup_alter_ne by done. lia.
Qed.

Lemma preventers_transfers n c l j : preventers (alter (add_transfers n) c l) j = preventers l j.
Proof.
  unfold preventers. destruct (decide (c = j)) as [->|Hj].
  - rewrite list_lookup_alter_eq. by destruct (l !! j).
  - by rewrite list_lookup_alter_ne.
Qed.

Lemma transfers_add n c l : (c < length l)%nat →
  ∃ k, transfers (alter (add_transfers n) c l) = transfers l + n + k * 2 ^ 32.
Proof.
  revert c; induction l as [|p l IH]; intros [|c]; simpl; try lia.
  - intros _. destruct (s32_cong (in_transfers p + n)) as [k ->]. exists k. lia.
  - intros Hc. destruct (IH c ltac:(lia)) as [k Hk]. exists k. unfold alter in Hk. rewrite Hk. lia.
Qed.

Lemma transfers_preventers n c l : transfers (alter (add_preventers n) c l) = transfers l.
Proof. revert c; induction l as [|p l IH]; intros [|c]; simpl; try done. f_equal. apply IH. Qed.

(* ------------------------------------------------------------------ *)
(** ** What the counters and the lock count *)

(** Case analysis on a step. *)
Ltac step_cases H :=
  unfold sys_step, run_step, begin_step, call_step, dec_step, pause_step, cont_step, scan_step, put_pause_state in H;
  repeat (first [progress simplify_eq/= | case_match | progress simplify_option_eq]).

(** A thread that has raised the preventers of [c]. *)
Definition prevents (c : nat) (t : thread) : bool :=
  match t with
  | Call c' CInc => false
  | Call c' _ => bool_decide (c' = c)
  | _ => false
  end.

(** A thread that holds [pause_reqs_lock]. *)
Definition has_lock (t : thread) : bool :=
  match t with
  | Pauser _ _ (PScan _) | Call _ (CPause (PScan _)) => true
  | _ =>
      match dec_of t with
      | Some (DDec true | DTest true | DAgain | DScan _) => true
      | _ => false
      end
  end.

Definition cpu_of (t : thread) : option nat :=
  match t with
  | Call c _ | Pauser c _ _ => Some c
  | _ => None
  end.

Record counts (s : sys) : Prop := {
  cnt_preventers c : preventers (percpu (disk s)) c = tcount (prevents c) s;
  cnt_irq c : tcount (irq_off c) s ≤ 1;
  cnt_cpu i t c : threads s !! i = Some t → cpu_of t = Some c → (c < length (percpu (disk s)))%nat;
  cnt_lock : Z.b2z (pause_reqs_lock (disk s)) = tcount has_lock s;
  cnt_stale : stale s = true → pause_reqs_lock (disk s) = true;
  cnt_transfers : ∃ k, transfers (percpu (disk s)) = in_flight s + k * 2 ^ 32
}.

(** A thread moves: a clause about every thread is shown for the one that
    moved and for the others. *)
Lemma insert_lookup (ts : list thread) i j t u :
  <[i := t]> ts !! j = Some u → (j = i ∧ u = t) ∨ (j ≠ i ∧ ts !! j = Some u).
Proof.
  intros H. destruct (decide (j = i)) as [->|Hj].
  - apply list_lookup_insert_Some in H as [(_ & -> & _)|[? _]]; [by left|done].
  - rewrite list_lookup_insert_ne in H by done. by right.
Qed.

Lemma cpu_free_spec c s : cpu_free c s = true →
  (c < length (percpu (disk s)))%nat ∧ tcount (irq_off c) s = 0.
Proof.
  unfold cpu_free. intros [H1 H2]%andb_prop. apply bool_decide_eq_true in H1.
  split; [done|]. by apply nobody_count.
Qed.

Ltac tsums := unfold tcount, in_flight, move, on_cpu in *; cbn [threads disk outstanding stale acked completions set_outstanding take_completion forget_acks] in *;
  try (erewrite !tsum_insert by eassumption).

Lemma counts_lock l s s' e : sys_step l s = Some (s', e) → counts s →
  Z.b2z (pause_reqs_lock (disk s')) = tcount has_lock s'.
Proof.
  intros H [_ _ _ HI _ _]. step_cases H;
    try match goal with Hi : threads s !! _ = Some _ |- _ => pose proof (tsum_in _ _ _ _ (b2z_nonneg has_lock) Hi) end;
    tsums; destruct (pause_reqs_lock (disk s)); cbn in *; simplify_eq; lia.
Qed.

Lemma counts_stale l s s' e : sys_step l s = Some (s', e) → counts s →
  stale s' = true → pause_reqs_lock (disk s') = true.
Proof.
  intros H [_ _ _ _ HI _]. step_cases H; tsums; cbn in *; try done; intros Hs; try (apply andb_prop in Hs as [??]); done.
Qed.

Lemma counts_cpu l s s' e : sys_step l s = Some (s', e) → counts s →
  ∀ i t c, threads s' !! i = Some t → cpu_of t = Some c → (c < length (percpu (disk s')))%nat.
Proof.
  intros H [_ _ HI _ _ _] j u c' Hj Hu. step_cases H; tsums; cbn in *; rewrite ?length_alter;
    try (apply insert_lookup in Hj as [[-> ->]|[_ Hj]]); cbn in *; simplify_eq/=; eauto;
    repeat match goal with Hf : cpu_free _ _ = true |- _ => apply cpu_free_spec in Hf as [? _] end; eauto.
Qed.

Lemma counts_irq l s s' e : sys_step l s = Some (s', e) → counts s →
  ∀ c, tcount (irq_off c) s' ≤ 1.
Proof.
  intros H [_ HI _ _ _ _] c'. specialize (HI c').
  step_cases H; 
    repeat match goal with Hf : cpu_free ?c _ = true |- _ => apply cpu_free_spec in Hf as [_ Hf]; destruct (decide (c = c')) end;
    subst; tsums; cbn in *; repeat case_bool_decide; cbn; try lia; done.
Qed.

Lemma counts_preventers l s s' e : sys_step l s = Some (s', e) → counts s →
  ∀ c, preventers (percpu (disk s')) c = tcount (prevents c) s'.
Proof.
  intros H [HI _ Hc _ _ _] c'. specialize (HI c').
  step_cases H; tsums; cbn in *;
    rewrite ?preventers_transfers, ?preventers_add by (eapply Hc; [eassumption|done]);
    repeat case_bool_decide; cbn; try lia; done.
Qed.

Lemma counts_transfers l s s' e : sys_step l s = Some (s', e) → counts s →
  ∃ k, transfers (percpu (disk s')) = in_flight s' + k * 2 ^ 32.
Proof.
  intros H [_ _ Hc _ _ [k HI]].
  step_cases H; tsums; cbn in *; rewrite ?transfers_preventers.
  all: try (exists k; lia).
  all: match goal with |- context [alter (add_transfers ?n) ?c ?l] =>
    destruct (transfers_add n c l) as [k' Hk'] end;
    [by (eapply Hc; [eassumption|done]) || done | exists (k + k'); rewrite Hk'; lia].
Qed.

Lemma counts_step l s s' e : sys_step l s = Some (s', e) → counts s → counts s'.
Proof.
  intros H HI. constructor.
  - by eapply counts_preventers.
  - by eapply counts_irq.
  - by eapply counts_cpu.
  - by eapply counts_lock.
  - by eapply counts_stale.
  - by eapply counts_transfers.
Qed.

Lemma counts_start n m : counts (start n m).
Proof.
  assert (Ht : transfers (replicate n idle_percpu) = 0) by (induction n; simpl; lia).
  constructor; unfold tcount, in_flight; simpl; rewrite ?tsum_replicate.
  - intros c. unfold preventers. rewrite tsum_replicate.
    destruct (replicate n idle_percpu !! c) as [p|] eqn:Hp; simpl; [|lia].
    apply lookup_replicate in Hp as [-> _]. simpl. lia.
  - intros c. rewrite tsum_replicate. simpl. lia.
  - intros i t c [-> _]%lookup_replicate. done.
  - simpl. lia.
  - done.
  - exists 0. rewrite Ht. simpl. lia.
Qed.
