(* ===== verification/PausableFlags.v ===== *)
(** Flags and ownership of the pausable disk: what [should_pause] and [pausing]
    tell about the threads, and who is owed a callback. *)

From stdpp Require Import base list numbers.
From Stdlib Require Import ZArith Lia.
From S2P Require Import Prelude Pausable PausableProof.

Local Open Scope Z_scope.

(* ------------------------------------------------------------------ *)
(** ** What the flags tell about the threads *)

(** No thread on a CPU below [n] is about to start a transfer. *)
Definition clear (s : sys) (n : nat) : Prop :=
  ∀ j c, threads s !! j = Some (Call c CXfer) → (n ≤ c)%nat.

(** The wait of a pauser on CPU [c] whose own preventers are [own]. *)
Definition wait_ok (s : sys) (c : nat) (own : Z) (k : pause_pc) : Prop :=
  match k with
  | PLoop my => my = own
  | PSum my i sum =>
      let mine := if bool_decide (c < i)%nat then own else 0 in
      my = own ∧ mine ≤ sum ∧ (sum = mine → clear s i)
  | PSet my => my = own ∧ clear s (length (percpu (disk s)))
  | _ => True
  end.

Definition waits (k : pause_pc) : bool :=
  match k with
  | PLock | PScan _ | PCall => false
  | _ => true
  end.

Definition flag_ok (s : sys) (j : nat) (t : thread) : Prop :=
  let d := disk s in
  match t with
  | Call _ CXfer => pausing d = false
  | Call c (CPause k) => should_pause d = true ∧ waits k = true ∧ wait_ok s c 1 k
  | Entering _ | Waiting _ | Dead _ => should_pause d = true
  | Pauser c cb k =>
      should_pause d = true ∧ (cb = None ∨ cb = Some j) ∧ wait_ok s c 0 k ∧
      (waits k = false → pausing d = true ∧ cb = Some j)
  | Continuing KWait | Continuing KPausing => pausing d = true → acked s = true
  | Continuing _ => pausing d = false
  | _ => True
  end.

Record flags (s : sys) : Prop := {
  flg_pausing : pausing (disk s) = true → should_pause (disk s) = true;
  flg_cont : tcount is_cont s ≤ 1;
  flg_excl : tcount is_cont s = 0 ∨ tcount is_pauser s = 0;
  flg_threads j t : threads s !! j = Some t → flag_ok s j t
}.

(** What keeps the clause of a thread that does not move. *)
Lemma flag_other s s' j t : flag_ok s j t →
  length (percpu (disk s')) = length (percpu (disk s)) →
  (is_pauser t = true → should_pause (disk s) = true → should_pause (disk s') = true) →
  (is_pauser t = true → pausing (disk s) = true → pausing (disk s') = true) →
  (is_cont t = true → pausing (disk s') = true → pausing (disk s) = true) →
  (is_cont t = true → acked s = true → acked s' = true) →
  (∀ c, t = Call c CXfer → pausing (disk s) = false → pausing (disk s') = false) →
  (should_pause (disk s) = true → ∀ n, clear s n → clear s' n) → flag_ok s' j t.
Proof.
  intros Hok Hlen Hsp Hp Hc Ha Hx Hcl.
  assert (Hw : ∀ c own k, should_pause (disk s) = true → wait_ok s c own k → wait_ok s' c own k).
  { intros c own k Hs. specialize (Hcl Hs). destruct k; simpl; rewrite ?Hlen; try done.
    - intros (? & ? & ?). eauto.
    - intros (? & ?). eauto. }
  destruct t as [|c []| | | |c cb k| | |[]]; simpl in *; try done; eauto.
  - destruct Hok as (? & ? & ?). eauto.
  - destruct Hok as (? & ? & ? & Hk). split; [by auto|]. split; [done|]. split; [by auto|].
    intros Hwk. destruct (Hk Hwk). auto.
  - destruct (pausing (disk s')); [by rewrite Hc in Hok|done].
  - destruct (pausing (disk s')); [by rewrite Hc in Hok|done].
Qed.

Lemma clear_move s s' n i t : clear s n → threads s' = <[i := t]> (threads s) →
  (∀ c, t ≠ Call c CXfer) → clear s' n.
Proof.
  intros Hcl Hts Ht j c. rewrite Hts. intros [[_ Hj]|[_ Hj]]%insert_lookup; [by destruct (Ht c)|eauto].
Qed.

(** A thread that is both pausing and continuing cannot exist beside another. *)
Lemma excl_false s i j t u : flags s → threads s !! i = Some t → threads s !! j = Some u →
  is_cont t = true → is_pauser u = true → False.
Proof.
  intros HF Hi Hj Ht Hu. destruct (flg_excl _ HF) as [H|H].
  - by rewrite (count_nobody _ _ _ _ H Hi) in Ht.
  - by rewrite (count_nobody _ _ _ _ H Hj) in Hu.
Qed.

(** The clause of the thread that moves. *)
Ltac flag_of HF :=
  match goal with Hi : threads ?s !! ?i = Some ?t |- _ => pose proof (flg_threads _ HF _ _ Hi); cbn [flag_ok] in * end.

Lemma flags_pausing l s s' e : sys_step l s = Some (s', e) → flags s →
  pausing (disk s') = true → should_pause (disk s') = true.
Proof.
  intros H HF. pose proof (flg_pausing _ HF) as Hp.
  step_cases H; try flag_of HF; cbn; try done; auto; intuition congruence.
Qed.

Lemma flags_excl l s s' e : sys_step l s = Some (s', e) → flags s →
  tcount is_cont s' ≤ 1 ∧ (tcount is_cont s' = 0 ∨ tcount is_pauser s' = 0).
Proof.
  intros H HF. pose proof (flg_cont _ HF) as H1. pose proof (flg_excl _ HF) as H2.
  step_cases H;
    repeat match goal with
    | Hn : may_choose Fn_pauses _ = true |- _ => cbn [may_choose] in Hn
    | Hn : _ && _ = true |- _ => apply andb_prop in Hn as [? ?]
    | Hn : nobody _ _ = true |- _ => apply nobody_count in Hn
    end;
    try match goal with Hi : threads s !! _ = Some _ |- _ =>
      pose proof (tsum_in _ _ _ _ (b2z_nonneg is_cont) Hi);
      pose proof (tsum_in _ _ _ _ (b2z_nonneg is_pauser) Hi) end;
    tsums; cbn in *; lia.
Qed.

Lemma flags_others l s s' e : sys_step l s = Some (s', e) → counts s → flags s →
  ∀ j t, threads s !! j = Some t → threads s' !! j = Some t → flag_ok s' j t.
Proof.
  intros H HC HF. step_cases H; try flag_of HF; intros j t Hj Hj';
    pose proof (flg_threads _ HF _ _ Hj) as Hok; (apply (flag_other s); [done|..]); cbn; rewrite ?length_alter; try done; auto.
  all: try (by intros _ ->).
  all: try (intros ? ? Hcl; eapply clear_move; [exact Hcl|reflexivity|done]).
  all: try (intros; congruence).
  all: match goal with
  | Hi : threads ?s !! ?i = Some (Continuing KPausing) |- is_cont _ = true → _ =>
      intros Ht _; exfalso; pose proof (count_one _ _ _ _ _ _ (flg_cont _ HF) Hj Hi Ht eq_refl); subst j;
      cbn in Hj'; apply insert_lookup in Hj' as [[_ ->]|[? _]]; [congruence|done]
  | Hi : threads ?s !! ?i = Some (Continuing _) |- is_pauser _ = true → _ =>
      intros Ht _; exfalso; exact (excl_false _ _ _ _ _ HF Hi Hj eq_refl Ht)
  | Hi : threads ?s !! ?i = Some _ |- is_cont _ = true → _ =>
      intros Ht _; exfalso; exact (excl_false _ _ _ _ _ HF Hj Hi Ht eq_refl)
  | Hi : threads ?s !! ?i = Some _, Ho : _ ∧ _ |- ∀ c, _ = Call c CXfer → _ =>
      intros c' -> _; exfalso; pose proof (cnt_cpu _ HC _ _ c' Hj eq_refl);
      cbn [wait_ok] in Ho; destruct_and?;
      match goal with Hc : clear _ _ |- _ => specialize (Hc _ _ Hj) end; lia
  end.
Qed.

Lemma prevents_irq c t : Z.b2z (prevents c t) ≤ Z.b2z (irq_off c t).
Proof. pose proof (b2z_nonneg (irq_off c) t). destruct t as [|c' []| | | | | | |]; simpl in *; lia. Qed.

(** The sum of the preventers, read one CPU after the other. *)
Lemma wait_sum s i t c own my k sum p : counts s → threads s !! i = Some t →
  irq_off c t = true → own = Z.b2z (prevents c t) → t ≠ Call c CXfer →
  wait_ok s c own (PSum my k sum) → percpu (disk s) !! k = Some p →
  wait_ok s c own (PSum my (S k) (sum + pause_preventers p)).
Proof.
  intros HC Hi Hirq Hown Hnx (-> & Hle & Hcl) Hk.
  assert (Hp : pause_preventers p = tcount (prevents k) s).
  { rewrite <- (cnt_preventers _ HC). unfold preventers. by rewrite Hk. }
  assert (Hn : 0 ≤ pause_preventers p) by (rewrite Hp; apply tsum_nonneg, b2z_nonneg).
  destruct (decide (k = c)) as [->|Hkc].
  - assert (Hmine : pause_preventers p = own).
    { pose proof (cnt_irq _ HC c) as H1. unfold tcount in *.
      pose proof (tsum_rest (λ t, Z.b2z (prevents c t)) (λ t, Z.b2z (irq_off c t)) (threads s) i t) as H2.
      pose proof (tsum_in _ _ _ _ (b2z_nonneg (prevents c)) Hi) as H3. simpl in H3.
      cbv beta in H2. rewrite Hirq in H2. specialize (H2 (prevents_irq c) Hi).
      simpl in H2. lia. }
    rewrite Hmine in *. cbn in *.
    rewrite bool_decide_eq_false_2 in Hle, Hcl by lia. rewrite bool_decide_eq_true_2 by lia.
    split; [done|]. split; [lia|]. intros Heq j c' Hj.
    specialize (Hcl ltac:(lia) _ _ Hj). destruct (decide (c' = c)) as [->|]; [|lia]. exfalso.
    assert (j = i) as -> by (eapply (count_one (irq_off c)); [apply HC|done..|simpl; by rewrite bool_decide_eq_true_2|done]).
    rewrite Hj in Hi. by injection Hi as <-.
  - cbn in *. assert (Hb : bool_decide (c < S k)%nat = bool_decide (c < k)%nat) by (apply bool_decide_ext; lia).
    rewrite Hb. split; [done|]. split; [lia|]. intros Heq j c' Hj.
    assert (pause_preventers p = 0) by lia. specialize (Hcl ltac:(lia) _ _ Hj).
    destruct (decide (c' = k)) as [->|]; [|lia].
    pose proof (tsum_in _ _ _ _ (b2z_nonneg (prevents k)) Hj) as H1. unfold tcount in Hp. simpl in H1.
    rewrite bool_decide_eq_true_2 in H1 by done. simpl in H1. lia.
Qed.

(** A pauser's own preventers are those it raised. *)
Lemma wait_mine s i t c p : counts s → threads s !! i = Some t → irq_off c t = true →
  percpu (disk s) !! c = Some p → pause_preventers p = Z.b2z (prevents c t).
Proof.
  intros HC Hi Hirq Hk.
  assert (Hp : pause_preventers p = tcount (prevents c) s).
  { rewrite <- (cnt_preventers _ HC). unfold preventers. by rewrite Hk. }
  pose proof (cnt_irq _ HC c) as H1. unfold tcount in *.
  pose proof (tsum_rest _ _ _ _ _ (prevents_irq c) Hi) as H2.
  pose proof (tsum_in _ _ _ _ (b2z_nonneg (prevents c)) Hi) as H3. cbv beta in *.
  rewrite Hirq in H2. simpl in H2. lia.
Qed.

Lemma wait_begin s c own : wait_ok s c own (PSum own 0 0).
Proof. cbn. rewrite bool_decide_eq_false_2 by lia. split; [done|]. split; [lia|]. intros _ j c' _. lia. Qed.

(** The sum is over and nobody else prevents: no transfer is about to start. *)
Lemma wait_over s c own my k : counts s → (c < length (percpu (disk s)))%nat →
  percpu (disk s) !! k = None → wait_ok s c own (PSum my k my) → wait_ok s c own (PSet my).
Proof.
  intros HC Hc Hk (-> & Hle & Hcl). apply lookup_ge_None in Hk.
  rewrite bool_decide_eq_true_2 in Hcl by lia. split; [done|].
  intros j c' Hj. specialize (Hcl eq_refl _ _ Hj). lia.
Qed.

Lemma wait_move s s' i t c own k : wait_ok s c own k → threads s' = <[i := t]> (threads s) →
  (∀ c, t ≠ Call c CXfer) → length (percpu (disk s')) = length (percpu (disk s)) → wait_ok s' c own k.
Proof.
  intros Hw Hts Ht Hlen. destruct k; simpl in *; rewrite ?Hlen; try done.
  - destruct Hw as (? & ? & Hcl). split; [done|]. split; [done|]. intros. eapply clear_move; eauto.
  - destruct Hw as (? & Hcl). split; [done|]. eapply clear_move; eauto.
Qed.

Lemma flags_moved l s s' e : sys_step l s = Some (s', e) → counts s → flags s →
  ∀ j t, threads s' !! j = Some t → threads s !! j ≠ Some t → flag_ok s' j t.
Proof.
  intros H HC HF. pose proof (flg_pausing _ HF) as Hp.
  step_cases H; try flag_of HF; intros j t Hj Hne; cbn in Hj;
    try (apply insert_lookup in Hj as [[-> ->]|[_ Hj]]; [|done]); cbn [flag_ok waits]; try done; destruct_and?; eauto;
    repeat match goal with |- _ ∧ _ => split end; try done; eauto;
    try match goal with |- wait_ok _ _ _ _ => eapply (wait_move s); [|reflexivity|done|done] end.
  all: try match goal with
  | Hw : wait_ok _ _ _ (PLoop _) |- wait_ok _ _ _ (PSum _ 0 0) => cbn [wait_ok] in Hw; subst; apply wait_begin
  | Hi : threads _ !! _ = Some _ |- wait_ok _ _ _ (PSum _ _ _) =>
      eapply wait_sum; [done|exact Hi|..]; [by cbn; rewrite bool_decide_eq_true_2|by cbn; rewrite ?bool_decide_eq_true_2|done..]
  | Hi : threads _ !! _ = Some _, He : (_ =? _) = true |- wait_ok _ _ _ (PSet _) =>
      apply Z.eqb_eq in He; subst; eapply wait_over; [done|by eapply (cnt_cpu _ HC _ _ _ Hi)|eassumption..]
  | Hw : wait_ok _ _ _ (PSum _ _ _) |- wait_ok _ _ _ (PLoop _) => apply Hw
  | Hw : wait_ok _ _ _ (PSet _) |- wait_ok _ _ _ (PLoop _) => apply Hw
  | Hi : threads _ !! _ = Some _, Hk : percpu _ !! _ = Some _ |- wait_ok _ _ _ (PLoop _) =>
      cbn [wait_ok]; rewrite (wait_mine _ _ _ _ _ HC Hi (bool_decide_eq_true_2 _ eq_refl) Hk); cbn;
      by rewrite ?bool_decide_eq_true_2
  end.
  - cbn. rewrite orb_false_r. destruct (acked s); [done|]. intros Hpd. rewrite Hp in * by done. by rewrite andb_false_r in *.
  - cbn. destruct (pausing (disk s)); [by rewrite Hp in *|done].
  - intros _. cbn. naive_solver.
  - cbn. rewrite orb_false_r. eauto.
Qed.

Lemma flags_step l s s' e : sys_step l s = Some (s', e) → counts s → flags s → flags s'.
Proof.
  intros H HC HF. destruct (flags_excl _ _ _ _ H HF). constructor; [by eapply flags_pausing|done..|].
  intros j t Hj. destruct (decide (threads s !! j = Some t)) as [Hs|Hs];
    [by eapply flags_others|by eapply flags_moved].
Qed.

Lemma flags_start n m : flags (start n m).
Proof.
  constructor; unfold tcount; simpl; rewrite ?tsum_replicate; simpl; try lia.
  intros j t [-> _]%lookup_replicate. done.
Qed.

(* ------------------------------------------------------------------ *)
(** ** Who is owed a callback *)

Fixpoint occ (i : nat) (l : list nat) : Z :=
  match l with
  | [] => 0
  | x :: l => (if decide (x = i) then 1 else 0) + occ i l
  end.

Lemma occ_app i l l' : occ i (l ++ l') = occ i l + occ i l'.
Proof. induction l; simpl; lia. Qed.

Lemma occ_nonneg i l : 0 ≤ occ i l.
Proof. induction l; simpl; [lia|case_decide; lia]. Qed.

Lemma occ_in i l : i ∈ l ↔ 0 < occ i l.
Proof.
  induction l as [|x l IH]; simpl; [rewrite elem_of_nil; lia|].
  rewrite elem_of_cons, IH. pose proof (occ_nonneg i l). case_decide; intuition lia.
Qed.

Lemma occ_take i j l : i ∈ l →
  occ j (match list_find (eq i) l with Some (n, _) => delete n l | None => l end) =
  occ j l - (if decide (i = j) then 1 else 0).
Proof.
  intros Hi. destruct (list_find_elem_of (eq i) l i Hi eq_refl) as [[n x] Hf]. rewrite Hf.
  apply list_find_Some in Hf as (Hn & <- & _).
  rewrite <- (take_drop_middle l n i Hn) at 2. rewrite delete_take_drop, !occ_app. simpl.
  lia.
Qed.

(** The callbacks a thread has taken from the queue and still has to call. *)
Definition pending (t : thread) : list nat :=
  match dec_of t with
  | Some (DCall cbs) => cbs
  | _ => []
  end.

(** A pause that returned 0 is owed one callback. *)
Definition owed (t : thread) : Z :=
  match t with
  | Waiting rv | Dead rv => if rv =? 0 then 1 else 0
  | _ => 0
  end.

Definition owners (s : sys) : Prop := ∀ j,
  occ j (pause_reqs (disk s)) + tsum (λ t, occ j (pending t)) (threads s) + occ j (completions s) =
  default 0 (owed <$> threads s !! j).

Lemma owed_insert (ts : list thread) i j t t' : ts !! i = Some t →
  default 0 (owed <$> <[i := t']> ts !! j) =
  default 0 (owed <$> ts !! j) + (if decide (i = j) then owed t' - owed t else 0).
Proof.
  intros Hi. case_decide as Hij.
  - subst. rewrite list_lookup_insert_eq by (by eapply lookup_lt_Some). rewrite Hi. simpl. lia.
  - rewrite list_lookup_insert_ne by done. lia.
Qed.

Lemma owners_step l s s' e : sys_step l s = Some (s', e) → flags s → owners s → owners s'.
Proof.
  intros H HF HO. step_cases H; try flag_of HF; intros j; specialize (HO j); destruct_and?;
    unfold move, on_cpu in *; cbn [threads disk outstanding completions set_outstanding take_completion forget_acks] in *;
    autorewrite with events;
    try (erewrite owed_insert, tsum_insert by eassumption); rewrite ?app_nil_r, ?occ_take by done; cbn -[Z.add Z.sub] in *;
    rewrite ?occ_app; cbn -[Z.add Z.sub] in *; try (repeat case_decide; simplify_eq; lia).
  - assert (n0 = i) as -> by naive_solver. repeat case_decide; lia.
  - change (- ENOMEM =? 0) with false. case_decide; lia.
  - assert (n0 = i) as -> by naive_solver. repeat case_decide; lia.
  - case_decide as Hij; [subst j|lia]. match goal with Hi : threads s !! i = _ |- _ => rewrite Hi in * end. cbn -[Z.add Z.sub] in *.
    match goal with Hi : i ∈ _ |- _ => apply occ_in in Hi end.
    pose proof (occ_nonneg i (pause_reqs (disk s))).
    pose proof (tsum_nonneg (λ t, occ i (pending t)) (threads s) (λ t, occ_nonneg i _)).
    destruct (rv =? 0); lia.
Qed.

Lemma owners_start n m : owners (start n m).
Proof.
  intros j. simpl. rewrite tsum_replicate. simpl.
  destruct (replicate m Idle !! j) as [t|] eqn:Hj; simpl; [|lia].
  apply lookup_replicate in Hj as [-> _]. simpl. lia.
Qed.

(** Somebody who is owed a callback counts as pausing. *)
Lemma owed_pauser t : 0 < owed t → is_pauser t = true.
Proof. destruct t; simpl; lia || done. Qed.

(** While the disk is continued nobody waits for a callback. *)
Lemma cont_no_reqs s i t : flags s → owners s → threads s !! i = Some t → is_cont t = true →
  pause_reqs (disk s) = [] ∧ ∀ j u, threads s !! j = Some u → pending u = [].
Proof.
  intros HF HO Hi Ht.
  assert (Hno : ∀ j, default 0 (owed <$> threads s !! j) ≤ 0).
  { intros j. destruct (threads s !! j) as [u|] eqn:Hj; simpl; [|lia].
    destruct (Z_lt_le_dec 0 (owed u)) as [Hu|]; [|done]. exfalso.
    exact (excl_false _ _ _ _ _ HF Hi Hj Ht (owed_pauser _ Hu)). }
  assert (Hz : ∀ j, occ j (pause_reqs (disk s)) = 0 ∧ tsum (λ t, occ j (pending t)) (threads s) = 0).
  { intros j. specialize (Hno j). rewrite <- HO in Hno.
    pose proof (occ_nonneg j (pause_reqs (disk s))). pose proof (occ_nonneg j (completions s)).
    pose proof (tsum_nonneg (λ t, occ j (pending t)) (threads s) (λ t, occ_nonneg j _)). lia. }
  split.
  - destruct (pause_reqs (disk s)) as [|x l] eqn:Hl; [done|]. exfalso. destruct (Hz x) as [Hx _].
    assert (0 < occ x (x :: l)) by (apply occ_in; left). lia.
  - intros j u Hj. destruct (pending u) as [|x l] eqn:Hl; [done|]. exfalso. destruct (Hz x) as [_ Hx].
    pose proof (tsum_in (λ t, occ x (pending t)) _ _ _ (λ t, occ_nonneg x _) Hj) as Hle. cbv beta in Hle.
    rewrite Hl in Hle. assert (0 < occ x (x :: l)) by (apply occ_in; left). lia.
Qed.
