(* ===== verification/PausableDrain.v ===== *)
(** Draining the pausable disk: what a sum over the counters means while
    transfers end under it, and that whoever is called back is called with
    nothing in flight. *)

From stdpp Require Import base list numbers.
From Stdlib Require Import ZArith Lia.
From S2P Require Import Prelude Pausable PausableProof PausableFlags.

Local Open Scope Z_scope.

(* ------------------------------------------------------------------ *)
(** ** The invariant *)

Definition drained (s : sys) : Prop := pausing (disk s) = true ∧ in_flight s = 0.

(** A sum over the first CPUs is that of their counters now and of the [n]
    transfers that ended there since they were read. *)
Definition scan_ok (s : sys) (k : scan_pc) : Prop :=
  match k with
  | SCheck => True
  | SSum i sum => - 2 ^ 31 ≤ sum < 2 ^ 31 ∧ ∃ n m, 0 ≤ n ∧ in_flight s + n < 2 ^ 31 ∧
      sum = transfers (take i (percpu (disk s))) + n + m * 2 ^ 32
  end.

(** A thread about to call back. *)
Definition acking (t : thread) : bool :=
  match t with
  | Pauser _ _ PCall | Call _ (CPause PCall) => true
  | _ => negb (bool_decide (pending t = []))
  end.

Definition drain_ok (s : sys) (t : thread) : Prop :=
  (acking t = true → drained s) ∧
  match t with
  | Pauser _ _ (PScan k) => stale s = false ∧ scan_ok s k
  | _ =>
      match dec_of t with
      | Some DLock => pausing (disk s) = true
      | Some (DDec true) => stale s = false ∧ pausing (disk s) = true
      | Some (DTest true) => stale s = false ∧ pausing (disk s) = true ∧ acked s = false ∧ tcount acking s = 0
      | Some (DScan k) => stale s = true ∨ (pausing (disk s) = true ∧ scan_ok s k)
      | _ => True
      end
  end.

Record drains (s : sys) : Prop := {
  drn_acked : acked s = true → drained s;
  drn_stale : stale s = true → pause_reqs (disk s) = [];
  drn_threads j t : threads s !! j = Some t → drain_ok s t
}.

(* ------------------------------------------------------------------ *)
(** ** Sums while transfers end *)

Lemma transfers_take_preventers n c i l :
  transfers (take i (alter (add_preventers n) c l)) = transfers (take i l).
Proof.
  revert c i; induction l as [|p l IH]; intros [|c] [|i]; simpl; try done.
  f_equal. apply IH.
Qed.

Lemma transfers_take_add n c i l : (c < length l)%nat →
  ∃ k, transfers (take i (alter (add_transfers n) c l)) =
       transfers (take i l) + (if bool_decide (c < i)%nat then n else 0) + k * 2 ^ 32.
Proof.
  revert c i; induction l as [|p l IH]; intros [|c] [|i]; simpl; try lia.
  - exists 0. lia.
  - intros _. destruct (s32_cong (in_transfers p + n)) as [k ->]. exists k. lia.
  - exists 0. lia.
  - intros Hc. destruct (IH c i ltac:(lia)) as [k Hk]. exists k. unfold alter in Hk. rewrite Hk.
    assert (Hb : bool_decide (S c < S i)%nat = bool_decide (c < i)%nat) by (apply bool_decide_ext; lia).
    rewrite Hb. lia.
Qed.

Lemma scan_dec s s' c k : scan_ok s k → (c < length (percpu (disk s)))%nat →
  percpu (disk s') = alter (add_transfers (-1)) c (percpu (disk s)) →
  in_flight s' = in_flight s - 1 → scan_ok s' k.
Proof.
  intros Hk Hc Hp Hf. destruct k as [|i sum]; [done|]. destruct Hk as (Hr & n & m & Hn & Hlt & Hs).
  split; [done|]. rewrite Hp, Hf. destruct (transfers_take_add (-1) c i _ Hc) as [k Hk]. rewrite Hk.
  case_bool_decide; [exists (n + 1)|exists n]; exists (m - k); lia.
Qed.

Lemma scan_same s s' k : scan_ok s k →
  (∀ i, transfers (take i (percpu (disk s'))) = transfers (take i (percpu (disk s)))) →
  in_flight s' = in_flight s → scan_ok s' k.
Proof.
  intros Hk Hp Hf. destruct k as [|i sum]; [done|]. destruct Hk as (Hr & n & m & Hn & Hlt & Hs).
  split; [done|]. exists n, m. by rewrite Hp, Hf.
Qed.

Lemma transfers_app l l' : transfers (l ++ l') = transfers l + transfers l'.
Proof. induction l; simpl; lia. Qed.

Lemma transfers_take_S i p l : l !! i = Some p → transfers (take (S i) l) = transfers (take i l) + in_transfers p.
Proof. intros Hp. rewrite (take_S_r _ _ _ Hp), transfers_app. simpl. lia. Qed.

Lemma scan_zero s : in_flight s < 2 ^ 31 → scan_ok s (SSum 0 0).
Proof. intros Hf. split; [lia|]. exists 0, 0. simpl. lia. Qed.

(** One more CPU is read. *)
Lemma scan_next s i sum p : scan_ok s (SSum i sum) → percpu (disk s) !! i = Some p →
  scan_ok s (SSum (S i) (s32 (sum + in_transfers p))).
Proof.
  intros (Hr & n & m & Hn & Hlt & Hs) Hp. split; [apply s32_range|].
  destruct (s32_cong (sum + in_transfers p)) as [k Hk].
  exists n, (m + k). split; [done|]. split; [done|]. rewrite Hk, (transfers_take_S _ _ _ Hp). lia.
Qed.

Lemma carries_nonneg t : 0 ≤ carries t.
Proof. unfold carries. repeat case_match; lia. Qed.

Lemma in_flight_nonneg s : 0 ≤ in_flight s.
Proof. unfold in_flight. pose proof (tsum_nonneg carries (threads s) carries_nonneg). lia. Qed.

Lemma carried s i t : threads s !! i = Some t → carries t ≤ in_flight s.
Proof. intros Hi. unfold in_flight. pose proof (tsum_in _ _ _ _ carries_nonneg Hi). lia. Qed.

(** All CPUs are read: the sum is what is in flight and what ended meanwhile. *)
Lemma scan_end s i sum : counts s → scan_ok s (SSum i sum) → percpu (disk s) !! i = None →
  0 ≤ in_flight s ≤ sum.
Proof.
  intros HC (Hr & n & m & Hn & Hlt & Hs) Hi. apply lookup_ge_None in Hi. rewrite take_ge in Hs by done.
  destruct (cnt_transfers _ HC) as [k Hk]. rewrite Hk in Hs. pose proof (in_flight_nonneg s). lia.
Qed.

(* ------------------------------------------------------------------ *)
(** ** What a step keeps *)

(** The step does not take the disk out of its pause. *)
Definition quiet (s s' : sys) : Prop :=
  ∀ i, threads s !! i = Some (Continuing KPausing) → threads s' !! i = Some (Continuing KPausing).

(** The case where it does. *)
Ltac not_quiet HQ := exfalso;
  match goal with Hi : threads _ !! _ = Some (Continuing KPausing) |- _ =>
    apply HQ in Hi as Hi'; cbn in Hi'; rewrite list_lookup_insert_eq in Hi' by (by eapply lookup_lt_Some); done end.

Lemma pausing_keeps l s s' e : sys_step l s = Some (s', e) → quiet s s' →
  pausing (disk s) = true → pausing (disk s') = true.
Proof. intros H HQ. step_cases H; try done. not_quiet HQ. Qed.

Lemma in_flight_keeps l s s' e : sys_step l s = Some (s', e) → flags s →
  pausing (disk s) = true → in_flight s' ≤ in_flight s.
Proof.
  intros H HF Hp. step_cases H; try flag_of HF; tsums; cbn -[Z.of_nat] in *; try congruence; lia.
Qed.

Lemma drained_keeps l s s' e : sys_step l s = Some (s', e) → quiet s s' → flags s →
  drained s → drained s'.
Proof.
  intros H HQ HF [Hp Hf]. split; [by eapply pausing_keeps|].
  pose proof (in_flight_keeps _ _ _ _ H HF Hp). pose proof (in_flight_nonneg s'). lia.
Qed.

Lemma scan_keeps l s s' e k : sys_step l s = Some (s', e) → counts s → flags s →
  pausing (disk s) = true → scan_ok s k → scan_ok s' k.
Proof.
  intros H HC HF Hp Hk. step_cases H; try flag_of HF; try (cbn in *; congruence);
    first [ solve [apply (scan_same s); [done|intros; cbn; by rewrite ?transfers_take_preventers|tsums; cbn -[Z.of_nat] in *; lia]]
          | idtac ].
  all: eapply (scan_dec s);
    [done|first [done|by eapply (cnt_cpu _ HC)]|reflexivity|tsums; cbn -[Z.of_nat] in *; lia].
Qed.

Lemma stale_keeps l s s' e : sys_step l s = Some (s', e) → quiet s s' → counts s →
  stale s' = stale s && pause_reqs_lock (disk s').
Proof.
  intros H HQ HC. pose proof (cnt_stale _ HC) as Hs. step_cases H; try done; [not_quiet HQ|].
  cbn. destruct (stale s); [by rewrite Hs|done].
Qed.

(** Under the lock of another thread nobody becomes ready to call back. *)
Lemma acking_keeps l s s' e j u : sys_step l s = Some (s', e) → quiet s s' → counts s →
  threads s !! j = Some u → threads s' !! j = Some u → has_lock u = true →
  tcount acking s = 0 → acked s = false → acked s' = false ∧ tcount acking s' = 0.
Proof.
  intros H HQ HC. pose proof (cnt_lock _ HC) as Hl.
  assert (Hone : tcount has_lock s ≤ 1) by (rewrite <- Hl; by destruct (pause_reqs_lock _)).
  step_cases H; try (by split); try not_quiet HQ;
    match goal with Hi : threads s !! ?i = Some ?t |- _ => intros Hj Hj' Hu Ha Hk;
      pose proof (count_nobody _ _ _ _ Ha Hi) as Hn; pose proof (count_one _ _ _ _ _ _ Hone Hi Hj) as Hij end;
    cbn in Hj'; apply insert_lookup in Hj' as [[-> ->]|[Hji _]];
    cbn in Hn, Hij; try done; try (by destruct Hji; rewrite Hij); try congruence;
    (split; [cbn; autorewrite with events; by rewrite Hk|tsums; cbn in *; lia]).
Qed.

(** Every other step. *)
Lemma quiet_or_cont l s s' e : sys_step l s = Some (s', e) →
  quiet s s' ∨ ∃ i, threads s !! i = Some (Continuing KPausing) ∧
    s' = forget_acks (move s i (set_pausing false (disk s)) (Continuing KShould) []).
Proof.
  intros H. step_cases H; eauto; left; intros j Hj; cbn; try done;
    rewrite list_lookup_insert_ne by congruence; done.
Qed.

(** Whoever holds the lock keeps what it knows about its age. *)
Lemma lock_stale l s s' e j u : sys_step l s = Some (s', e) → quiet s s' → counts s →
  threads s' !! j = Some u → has_lock u = true → stale s' = stale s.
Proof.
  intros H HQ HC Hj Hu. rewrite (stale_keeps _ _ _ _ H HQ HC).
  pose proof (cnt_lock _ (counts_step _ _ _ _ H HC)) as Hl.
  pose proof (tsum_in _ _ _ _ (b2z_nonneg has_lock) Hj) as H1. cbv beta in H1. rewrite Hu in H1.
  unfold tcount in Hl. destruct (pause_reqs_lock (disk s')); [by rewrite andb_true_r|]. simpl in *. lia.
Qed.

Lemma drains_other l s s' e j u : sys_step l s = Some (s', e) → quiet s s' →
  counts s → flags s → drains s →
  threads s !! j = Some u → threads s' !! j = Some u → drain_ok s' u.
Proof.
  intros H HQ HC HF HD Hj Hj'. destruct (drn_threads _ HD _ _ Hj) as [Hack Hok].
  pose proof (flg_threads _ HF _ _ Hj) as Hfl.
  pose proof (lock_stale _ _ _ _ _ _ H HQ HC Hj') as Hst.
  pose proof (pausing_keeps _ _ _ _ H HQ) as Hp. pose proof (λ k, scan_keeps _ _ _ _ k H HC HF) as Hsc.
  pose proof (acking_keeps _ _ _ _ _ _ H HQ HC Hj Hj') as Hk.
  split; [intros ?; eapply drained_keeps; eauto|]. clear H HQ Hack.
  destruct u as [|c []|k| | |c cb []| | |]; try done; simpl in *; try rewrite Hst by done;
    try match goal with Hw : _ ∧ _ ∧ _ ∧ (false = false → _) |- _ =>
      destruct Hw as (_ & _ & _ & Hw), (Hw eq_refl), Hok; by auto end.
  all: destruct k as [| |[]|[]| | | |]; simpl in *; try done; try rewrite Hst by done; destruct_and?; auto.
  all: try match goal with Hok : _ ∨ _ |- _ => destruct Hok as [?|[? ?]]; by auto end.
  all: destruct Hk; auto.
Qed.

(** With something in flight nobody has been, or is about to be, called back. *)
Lemma busy_unacked s : drains s → 0 < in_flight s → acked s = false ∧ tcount acking s = 0.
Proof.
  intros HD Hf. split.
  - destruct (acked s) eqn:Ha; [|done]. destruct (drn_acked _ HD Ha). lia.
  - unfold tcount. destruct (Z.eq_dec (tsum (λ t, Z.b2z (acking t)) (threads s)) 0) as [|Hne]; [done|]. exfalso.
    assert (Hex : ∃ i t, threads s !! i = Some t ∧ acking t = true).
    { pose proof (λ j t, drn_threads s HD j t) as _. induction (threads s) as [|t ts IH]; [done|]. simpl in Hne.
      destruct (acking t) eqn:Ht; [by exists 0%nat, t|]. destruct IH as (i & u & ? & ?); [done|by exists (S i), u]. }
    destruct Hex as (i & t & Hi & Ht). destruct (drn_threads _ HD _ _ Hi) as [Hd _]. destruct (Hd Ht). lia.
Qed.

(** The disk leaves its pause. *)
Lemma drains_cont s i : counts s → flags s → owners s → drains s →
  threads s !! i = Some (Continuing KPausing) →
  drains (forget_acks (move s i (set_pausing false (disk s)) (Continuing KShould) [])).
Proof.
  intros HC HF HO HD Hi. destruct (cont_no_reqs _ _ _ HF HO Hi eq_refl) as [Hr Hpend].
  pose proof (flg_threads _ HF _ _ Hi) as Hack. cbn in Hack.
  constructor; [done|done|]. intros j u Hj. cbn in Hj.
  apply insert_lookup in Hj as [[-> ->]|[_ Hj]]; [done|].
  pose proof (Hpend _ _ Hj) as Hp. destruct (drn_threads _ HD _ _ Hj) as [_ Hok].
  pose proof (λ Hu, excl_false _ _ _ _ _ HF Hi Hj eq_refl Hu) as Hnp.
  assert (Hfree : pausing (disk s) = true → carries u = 0 ∧ acked s = true).
  { intros Hpa. specialize (Hack Hpa). destruct (drn_acked _ HD Hack) as [_ Hf].
    pose proof (carried _ _ _ Hj). pose proof (carries_nonneg u). split; [lia|done]. }
  assert (Hlk : has_lock u = true → pause_reqs_lock (disk s) = true).
  { intros Hu. pose proof (cnt_lock _ HC) as Hl. pose proof (tsum_in _ _ _ _ (b2z_nonneg has_lock) Hj) as H1.
    cbv beta in H1. rewrite Hu in H1. unfold tcount in Hl. destruct (pause_reqs_lock (disk s)); [done|]. simpl in *. lia. }
  split.
  { destruct u as [|c []|k| | |c cb []| | |]; cbn in *; rewrite ?Hp; intros; try done; by destruct Hnp. }
  destruct u as [|c []|k| | |c cb []| | |]; cbn in *; try done; try (by destruct Hnp).
  all: destruct k as [| |[]|[]| | | |]; cbn in *; try done; destruct_and?; try (left; by apply Hlk);
    repeat match goal with H : pausing (disk _) = true |- _ => apply Hfree in H as [? ?] end; congruence || lia.
Qed.

Lemma acked_new l s s' e : sys_step l s = Some (s', e) → acked s' = true →
  acked s = true ∨ ∃ i t, threads s !! i = Some t ∧ acking t = true.
Proof.
  intros H. step_cases H; cbn; autorewrite with events; cbn; rewrite ?orb_false_r; try (by left); try done;
    intros _; right; eauto.
Qed.

Lemma reqs_keep l s s' e : sys_step l s = Some (s', e) →
  pause_reqs (disk s') = pause_reqs (disk s) ∨ pause_reqs_lock (disk s') = false.
Proof. intros H. step_cases H; auto. Qed.

(** What the thread that moved knows. *)
Ltac drain_of HD :=
  match goal with Hi : threads ?s !! ?i = Some ?t |- _ =>
    let Hack := fresh "Hack" in let Hok := fresh "Hok" in destruct (drn_threads _ HD _ _ Hi) as [Hack Hok];
    pose proof (carried _ _ _ Hi) end.

Lemma drains_moved l s s' e : sys_step l s = Some (s', e) → quiet s s' →
  counts s → flags s → drains s → in_flight s' < 2 ^ 31 →
  ∀ j t, threads s' !! j = Some t → threads s !! j ≠ Some t → drain_ok s' t.
Proof.
  intros H HQ HC HF HD Hfit.
  pose proof (λ j u, lock_stale _ _ _ _ j u H HQ HC) as Hst.
  pose proof (pausing_keeps _ _ _ _ H HQ) as Hp. pose proof (λ k, scan_keeps _ _ _ _ k H HC HF) as Hsc.
  pose proof (drained_keeps _ _ _ _ H HQ HF) as Hdr.
  pose proof (cnt_stale _ HC) as Hcs. pose proof (drn_stale _ HD) as Hds. 
  step_cases H; try flag_of HF; try drain_of HD; intros j t Hj Hne; pose proof (Hst j t Hj) as Hst'; cbn in Hj;
    try (apply insert_lookup in Hj as [[-> ->]|[_ Hj]]; [|done]); (split; [|cbn [dec_of]; try done]); try done;
    cbn [has_lock dec_of flag_ok waits] in *; auto.
  all: try match goal with
  | |- stale _ = false ∧ _ => split; [refine (eq_trans (Hst' eq_refl) _); try (destruct (stale s); [by rewrite Hcs in *|done])|try (by apply Hp)]
  | |- if ?p then _ else True => destruct p; [|done]; destruct (busy_unacked s HD), Hok; [cbn in *; lia|];
      split; [by refine (eq_trans (Hst' eq_refl) _)|]; split; [by apply Hp|]; split; [cbn; by rewrite orb_false_r|tsums; cbn in *; lia]
  | |- _ ∨ _ ∧ scan_ok _ SCheck => right; split; [by apply Hp|done]
  | |- _ ∨ _ => destruct Hok as [?|[? ?]]; [left; by refine (eq_trans (Hst' eq_refl) _)|right; split; [by apply Hp|]]
  end; try done.
  all: try (by apply scan_zero); try (by destruct Hok); try (destruct_and?; done).
  all: try match goal with Hf : _ ∧ _ ∧ _ ∧ (false = false → _) |- _ => destruct Hf as (_ & _ & _ & Hf), (Hf eq_refl) end.
  all: try match goal with Hs : _ ∧ scan_ok _ _ |- _ => destruct Hs end.
  all: try (apply Hsc; [done|by apply scan_next]).
  all: match goal with Hz : (_ =? 0) = true |- _ => apply Z.eqb_eq in Hz; subst end; intros Hc; apply Hdr.
  - destruct Hok as [Ho|[Ho Hk]]; [by rewrite (Hds Ho) in Hc|].
    split; [done|]. destruct (scan_end _ _ _ HC Hk); [done|lia].
  - destruct Hok as [Ho|[Ho Hk]]; [by rewrite (Hds Ho) in Hc|].
    split; [done|]. destruct (scan_end _ _ _ HC Hk); [done|lia].
  - split; [done|]. edestruct scan_end; [done..|lia].
Qed.

Lemma drains_step l s s' e : sys_step l s = Some (s', e) → in_flight s' < 2 ^ 31 →
  counts s → flags s → owners s → drains s → drains s'.
Proof.
  intros H Hfit HC HF HO HD.
  destruct (quiet_or_cont l s s' e H) as [HQ|(i & Hi & ->)]; [|by apply drains_cont].
  constructor.
  - intros Ha. eapply drained_keeps; eauto. destruct (acked_new _ _ _ _ H Ha) as [?|(i & t & Hi & Ht)];
      [by apply HD|]. by apply (drn_threads _ HD _ _ Hi).
  - rewrite (stale_keeps _ _ _ _ H HQ HC). intros [Hs Hl]%andb_prop.
    destruct (reqs_keep _ _ _ _ H) as [->|]; [by apply HD|congruence].
  - intros j t Hj. destruct (decide (threads s !! j = Some t)); [by eapply drains_other|by eapply drains_moved].
Qed.

Lemma drains_start n m : drains (start n m).
Proof. constructor; [done|done|]. intros j t [-> _]%lookup_replicate. done. Qed.
