(* ===== verification/PausableWake.v ===== *)
(** No pause request of the pausable disk is forgotten: whoever ends the last
    transfer serves the queue.  With it, what the layer promises in every
    reachable state. *)

From stdpp Require Import base list numbers.
From Stdlib Require Import ZArith Lia.
From S2P Require Import Prelude Pausable PausableProof PausableFlags PausableDrain.

Local Open Scope Z_scope.

(* ------------------------------------------------------------------ *)
(** ** The invariant *)

(** No transfer ended on the CPUs a sum has read. *)
Definition exact (s : sys) (k : scan_pc) : Prop :=
  match k with
  | SCheck => True
  | SSum i sum => - 2 ^ 31 ≤ sum < 2 ^ 31 ∧ ∃ m, sum = transfers (take i (percpu (disk s))) + m * 2 ^ 32
  end.

(** A thread that has ended its transfer and will look at the queue. *)
Definition waker (s : sys) (t : thread) : Prop :=
  match dec_of t with
  | Some (DTest _ | DLock2 | DAgain) => True
  | Some (DScan k) => exact s k
  | _ => False
  end.

(** One that does not hold the lock yet. *)
Definition late (t : thread) : Prop :=
  dec_of t = Some (DTest false) ∨ dec_of t = Some DLock2.

Definition some_late (s : sys) : Prop := ∃ j t, threads s !! j = Some t ∧ late t.

Record wakes (s : sys) : Prop := {
  wak_pausing : pause_reqs (disk s) ≠ [] → pausing (disk s) = true;
  wak_served : pause_reqs (disk s) ≠ [] → in_flight s = 0 → ∃ j t, threads s !! j = Some t ∧ waker s t;
  wak_pauser j c cb k : threads s !! j = Some (Pauser c cb (PScan k)) → in_flight s = 0 → exact s k ∨ some_late s
}.

(* ------------------------------------------------------------------ *)
(** ** What a step keeps *)

Lemma exact_next s i sum p : exact s (SSum i sum) → percpu (disk s) !! i = Some p →
  exact s (SSum (S i) (s32 (sum + in_transfers p))).
Proof.
  intros (Hr & m & Hs) Hp. split; [apply s32_range|].
  destruct (s32_cong (sum + in_transfers p)) as [k Hk].
  exists (m + k). rewrite Hk, (transfers_take_S _ _ _ Hp). lia.
Qed.

Lemma exact_end s i sum : counts s → in_flight s = 0 → exact s (SSum i sum) →
  percpu (disk s) !! i = None → sum = 0.
Proof.
  intros HC Hf (Hr & m & Hs) Hi. apply lookup_ge_None in Hi. rewrite take_ge in Hs by done.
  destruct (cnt_transfers _ HC) as [k Hk]. lia.
Qed.

(** With nothing in flight the counters of a pausing disk rest. *)
Lemma transfers_rest l s s' e i : sys_step l s = Some (s', e) → flags s →
  pausing (disk s) = true → in_flight s = 0 →
  transfers (take i (percpu (disk s'))) = transfers (take i (percpu (disk s))).
Proof.
  intros H HF Hp Hf. step_cases H; try flag_of HF; cbn; rewrite ?transfers_take_preventers; try done;
    try (cbn in *; congruence);
    match goal with Hi : threads s !! _ = Some _ |- _ => apply carried in Hi; cbn in Hi; lia end.
Qed.

Lemma exact_keeps l s s' e k : sys_step l s = Some (s', e) → flags s →
  pausing (disk s) = true → in_flight s = 0 → exact s k → exact s' k.
Proof.
  intros H HF Hp Hf. destruct k as [|i sum]; [done|]. simpl.
  by rewrite (transfers_rest _ _ _ _ i H HF Hp Hf).
Qed.

Lemma waker_same s s' t : waker s t → (∀ k, exact s k → exact s' k) → waker s' t.
Proof. unfold waker. intros Hw Hex. repeat case_match; try done. by apply Hex. Qed.

(** Whoever serves the queue goes on towards it or empties it. *)
Lemma waker_moved l s s' e j t : sys_step l s = Some (s', e) → counts s → flags s →
  pausing (disk s) = true → in_flight s = 0 → threads s !! j = Some t → waker s t →
  (∃ t', threads s' !! j = Some t' ∧ waker s' t') ∨ pause_reqs (disk s') = [].
Proof.
  intros H HC HF Hp Hf. pose proof (λ k, exact_keeps _ _ _ _ k H HF Hp Hf) as Hex.
  step_cases H; intros Hj Hw; try (left; exists t; split; [done|by eapply waker_same]);
    match goal with Hi : threads s !! ?i = Some _ |- _ => destruct (decide (j = i)) as [->|Hji] end;
    try (left; exists t; split; [cbn; by rewrite list_lookup_insert_ne|by eapply waker_same]);
    simplify_eq; unfold waker in Hw; cbn [dec_of] in Hw; try done; try congruence;
    try match goal with Hn : percpu _ !! _ = None |- _ =>
      pose proof (exact_end _ _ _ HC Hf Hw Hn); subst; first [done|by right] end;
    left; eexists; (split; [cbn; apply list_lookup_insert_eq; by eapply lookup_lt_Some|]); unfold waker; cbn [dec_of]; try done.
  all: first [split; [lia|exists 0; simpl; lia]|by apply Hex, exact_next].
Qed.

(** The last transfer ends: its thread goes to look at the queue, and does not
    hold the lock if somebody else does. *)
Lemma last_ends l s s' e : sys_step l s = Some (s', e) → counts s → in_flight s ≠ 0 → in_flight s' = 0 →
  ∃ j t p, threads s' !! j = Some t ∧ dec_of t = Some (DTest p) ∧
    ∀ i u, threads s !! i = Some u → threads s' !! i = Some u → has_lock u = true → p = false.
Proof.
  intros H HC Hne Hf. pose proof (cnt_lock _ HC) as Hl. pose proof (in_flight_nonneg s).
  assert (Hone : tcount has_lock s ≤ 1) by (rewrite <- Hl; by destruct (pause_reqs_lock _)).
  step_cases H; match goal with Hi : threads s !! ?i = Some _ |- _ => rename Hi into Hold end || idtac;
    try (exfalso; match type of Hf with ?x = 0 =>
      assert (x = in_flight s ∨ x = in_flight s + 1) by (clear Hl Hone; tsums; cbn -[Z.of_nat] in *; lia) end; lia).
  all: eexists _, _, p; split; [cbn; apply list_lookup_insert_eq; by eapply lookup_lt_Some|]; split; [done|].
  all: intros j u Hj Hj' Hu; destruct p; [|done]; exfalso;
    pose proof (count_one _ _ _ _ _ _ Hone Hold Hj eq_refl Hu); subst; cbn in Hj';
    apply insert_lookup in Hj' as [[_ ->]|[? _]]; congruence.
Qed.

(** Under the lock of a pauser, a thread waiting for it keeps waiting. *)
Lemma late_keeps l s s' e j u : sys_step l s = Some (s', e) → counts s → pausing (disk s) = true →
  threads s !! j = Some u → has_lock u = true → some_late s → some_late s'.
Proof.
  intros H HC Hp Hj Hu (i & t & Hi & Hlate).
  assert (Hlk : pause_reqs_lock (disk s) = true).
  { pose proof (cnt_lock _ HC) as Hl. pose proof (tsum_in _ _ _ _ (b2z_nonneg has_lock) Hj) as H1.
    cbv beta in H1. rewrite Hu in H1. unfold tcount in Hl. destruct (pause_reqs_lock (disk s)); [done|]. simpl in *. lia. }
  destruct (decide (threads s' !! i = Some t)) as [|Hmv]; [by exists i, t|]. clear Hj Hu.
  step_cases H; try done; cbn in Hmv;
    match goal with Hk : threads s !! ?k = Some _, Hn : <[?k := _]> _ !! _ ≠ _ |- _ =>
      destruct (decide (i = k)) as [->|Hik]; [|by rewrite list_lookup_insert_ne in Hmv] end;
    destruct Hlate as [Hlate|Hlate]; simplify_eq; cbn in Hlate; simplify_eq.
  all: eexists _, _; split; [cbn; apply list_lookup_insert_eq; by eapply lookup_lt_Some|]; by right.
Qed.

(** Only a pauser whose sum was not zero adds to the queue. *)
Lemma queue_grows l s s' e : sys_step l s = Some (s', e) →
  pause_reqs (disk s') = pause_reqs (disk s) ∨ pause_reqs (disk s') = [] ∨
  ∃ i c cb k z, threads s !! i = Some (Pauser c cb (PScan (SSum k z))) ∧
    percpu (disk s) !! k = None ∧ z ≠ 0 ∧ in_flight s' = in_flight s ∧ pausing (disk s') = pausing (disk s) ∧
    ∀ j, j ≠ i → threads s' !! j = threads s !! j.
Proof.
  intros H. step_cases H; auto. right; right. do 5 eexists. split; [done|]. split; [done|].
  split; [by apply Z.eqb_neq|]. split; [tsums; cbn; lia|]. split; [done|].
  intros j Hj. cbn. by rewrite list_lookup_insert_ne.
Qed.

Lemma pauser_scans l s s' e j c cb k : sys_step l s = Some (s', e) →
  threads s' !! j = Some (Pauser c cb (PScan k)) →
  threads s !! j = Some (Pauser c cb (PScan k)) ∨ k = SCheck ∨ k = SSum 0 0 ∨
  ∃ i sum p, threads s !! j = Some (Pauser c cb (PScan (SSum i sum))) ∧ percpu (disk s) !! i = Some p ∧
    k = SSum (S i) (s32 (sum + in_transfers p)) ∧ in_flight s' = in_flight s.
Proof.
  intros H. step_cases H; intros Hj; cbn in Hj; try (by left);
    (apply insert_lookup in Hj as [[-> Hj]|[_ Hj]]; [|by left]); simplify_eq; eauto.
  do 3 right. do 3 eexists. do 3 (split; [done|]). tsums. cbn. lia.
Qed.

Lemma wakes_pauser l s s' e : sys_step l s = Some (s', e) → counts s → flags s → wakes s →
  ∀ j c cb k, threads s' !! j = Some (Pauser c cb (PScan k)) → in_flight s' = 0 → exact s' k ∨ some_late s'.
Proof.
  intros H HC HF HW j c cb k Hj Hf.
  assert (Hmain : ∀ k0, threads s !! j = Some (Pauser c cb (PScan k0)) → in_flight s = 0 →
    (exact s k0 → exact s k) → exact s' k ∨ some_late s').
  { intros k0 Hs Hf0 Hk. pose proof (flg_threads _ HF _ _ Hs) as (_ & _ & _ & Hp).
    destruct (Hp eq_refl) as [Hp' _]. destruct (wak_pauser _ HW _ _ _ _ Hs Hf0) as [He|Hl].
    - left. eapply exact_keeps; eauto.
    - right. eapply late_keeps; eauto. }
  destruct (pauser_scans _ _ _ _ _ _ _ _ H Hj) as [Hs|[->|[->|(i & sum & p & Hs & Hp & -> & Hsame)]]].
  - destruct (Z.eq_dec (in_flight s) 0) as [Hf0|Hf0]; [by eapply Hmain|]. right.
    destruct (last_ends _ _ _ _ H HC Hf0 Hf) as (i & t & p & Hi & Ht & Hp).
    exists i, t. split; [done|]. left. by rewrite Ht, (Hp j _ Hs Hj eq_refl).
  - by left.
  - left. split; [lia|]. exists 0. simpl. lia.
  - apply (Hmain _ Hs); [congruence|]. intros He. by apply exact_next.
Qed.

Lemma wakes_served l s s' e : sys_step l s = Some (s', e) → counts s → flags s → wakes s →
  pause_reqs (disk s') ≠ [] → in_flight s' = 0 → ∃ j t, threads s' !! j = Some t ∧ waker s' t.
Proof.
  intros H HC HF HW Hr Hf.
  destruct (Z.eq_dec (in_flight s) 0) as [Hf0|Hf0].
  - destruct (queue_grows _ _ _ _ H) as [Heq|[?|(i & c & cb & k & z & Hi & Hk & Hz & _ & _ & Hoth)]]; [|done|].
    + rewrite Heq in Hr. destruct (wak_served _ HW Hr Hf0) as (j & t & Hj & Ht).
      destruct (waker_moved _ _ _ _ _ _ H HC HF (wak_pausing _ HW Hr) Hf0 Hj Ht) as [(t' & ? & ?)|?]; [by eauto|congruence].
    + destruct (wak_pauser _ HW _ _ _ _ Hi Hf0) as [He|(j & t & Hj & Ht)].
      { by destruct Hz; eapply exact_end. }
      exists j, t. assert (j ≠ i) by (intros ->; rewrite Hi in Hj; injection Hj as <-; by destruct Ht).
      split; [by rewrite Hoth|]. unfold waker. by destruct Ht as [->| ->].
  - destruct (last_ends _ _ _ _ H HC Hf0 Hf) as (j & t & p & Hj & Ht & _).
    exists j, t. split; [done|]. unfold waker. by rewrite Ht.
Qed.

Lemma wakes_step l s s' e : sys_step l s = Some (s', e) → counts s → flags s → owners s → wakes s → wakes s'.
Proof.
  intros H HC HF HO HW. constructor; [|by eapply wakes_served|by eapply wakes_pauser].
  intros Hr. destruct (quiet_or_cont _ _ _ _ H) as [HQ|(i & Hi & ->)].
  - destruct (queue_grows _ _ _ _ H) as [Heq|[?|(i & c & cb & k & z & Hi & _ & _ & _ & Hp & _)]]; [|done|].
    + rewrite Heq in Hr. eapply pausing_keeps; eauto. by apply HW.
    + rewrite Hp. pose proof (flg_threads _ HF _ _ Hi) as (_ & _ & _ & Hw). by destruct (Hw eq_refl).
  - by destruct (cont_no_reqs _ _ _ HF HO Hi eq_refl).
Qed.

Lemma wakes_start n m : wakes (start n m).
Proof. constructor; [done|done|]. intros j c cb k [? _]%lookup_replicate. done. Qed.

(* ------------------------------------------------------------------ *)
(** ** Every reachable state *)

Record invariant (s : sys) : Prop := {
  inv_counts : counts s;
  inv_flags : flags s;
  inv_owners : owners s;
  inv_drains : drains s;
  inv_wakes : wakes s
}.

Lemma reachable_inv n m s : reachable n m s → invariant s.
Proof.
  induction 1 as [|s l s' e _ [HC HF HO HD HW] H Hfit].
  - constructor; [apply counts_start|apply flags_start|apply owners_start|apply drains_start|apply wakes_start].
  - constructor; [by eapply counts_step|by eapply flags_step|by eapply owners_step|by eapply drains_step|by eapply wakes_step].
Qed.
