(* ===== verification/PausableLayer.v ===== *)
(** What the pausable disk promises: a pause is acknowledged only when nothing
    is in flight, every request is acknowledged, and nobody is stuck. *)

From stdpp Require Import base list numbers.
From Stdlib Require Import ZArith Lia.
From S2P Require Import Prelude Pausable PausableProof PausableFlags PausableDrain PausableWake.

Local Open Scope Z_scope.

(* ------------------------------------------------------------------ *)
(** ** Reaching a state by a schedule *)

Lemma in_flight_grows l s s' e : sys_step l s = Some (s', e) → in_flight s' ≤ in_flight s + 1.
Proof. intros H. step_cases H; tsums; cbn -[Z.of_nat] in *; lia. Qed.

Lemma run_reachable n m ls s s' e : reachable n m s → run ls s = Some (s', e) →
  in_flight s + Z.of_nat (length ls) < 2 ^ 31 → reachable n m s'.
Proof.
  revert s e; induction ls as [|l ls IH]; intros s e Hs Hr Hf; simpl in Hr; [by simplify_eq|].
  destruct (sys_step l s) as [[s1 e1]|] eqn:Hl; [|done]. destruct (run ls s1) as [[s2 e2]|] eqn:Hr2; [|done].
  simplify_eq. pose proof (in_flight_grows _ _ _ _ Hl). simpl length in Hf.
  eapply (IH s1); [|done|lia]. eapply reachable_step; [done..|lia].
Qed.

(* ------------------------------------------------------------------ *)
(** ** Safety *)

(** A callback comes when the disk is pausing with nothing in flight, no [BUG]
    is hit, and only a thread that has held the lock since before the disk
    last went on may warn about its sum. *)
Definition event_ok (s : sys) (x : event) : Prop :=
  match x with
  | Called _ => drained s
  | Bug _ => False
  | Warn line => (line = 364 ∨ line = 368) ∧ stale s = true
  end.

Lemma warn_ok s b line : (b = true → False) → Forall (event_ok s) (warn_if b line).
Proof. destruct b; [by intros []|constructor]. Qed.

Lemma bug_ok s b line : (b = true → False) → Forall (event_ok s) (bug_if b line).
Proof. destruct b; [by intros []|constructor]. Qed.

Lemma prevented s i c k : counts s → threads s !! i = Some (Call c k) → k ≠ CInc →
  pause_preventers <$> percpu (disk s) !! c = Some 1.
Proof.
  intros HC Hi Hk. destruct (lookup_lt_is_Some_2 _ _ (cnt_cpu _ HC _ _ _ Hi eq_refl)) as [p Hp]. rewrite Hp. simpl.
  rewrite (wait_mine _ _ _ _ _ HC Hi (bool_decide_eq_true_2 _ eq_refl) Hp).
  destruct k; try done; cbn; by rewrite bool_decide_eq_true_2.
Qed.

(** The two warnings of a sum. *)
Lemma scan_warn_ok s b line : line = 364 ∨ line = 368 → (stale s = true ∨ b = false) →
  Forall (event_ok s) (warn_if b line).
Proof. intros Hl [Hs|Hb]; [|rewrite Hb; constructor]. destruct b; [|constructor]. constructor; [done|constructor]. Qed.

Lemma wait_sum_nonneg s c own my i sum : 0 ≤ own → wait_ok s c own (PSum my i sum) → 0 ≤ sum.
Proof. intros Hown (_ & Hle & _). case_bool_decide; lia. Qed.

Lemma scan_sum_nonneg s i sum : counts s → scan_ok s (SSum i sum) → percpu (disk s) !! i = None → (sum <? 0) = false.
Proof. intros HC Hk Hi. destruct (scan_end _ _ _ HC Hk Hi). lia. Qed.

Lemma events_ok l s s' e : invariant s → sys_step l s = Some (s', e) → Forall (event_ok s) e.
Proof.
  intros [HC HF HO HD HW] H.
  step_cases H; try (by constructor); try flag_of HF; try drain_of HD; cbn [dec_of waits] in *.
  all: try (destruct_and?; done).
  all: try (constructor; [by apply Hack|constructor]).
  all: try (exfalso; match goal with Hi : threads _ !! _ = Some (Call _ _), Hb : ¬ _ |- _ => destruct Hb; by eapply prevented end).
  all: try (exfalso; destruct_and?; congruence).
  all: try match goal with
  | |- Forall _ (warn_if _ 364) => apply scan_warn_ok; [by left|]
  | |- Forall _ (warn_if _ 368) => apply scan_warn_ok; [by right|]
  | |- Forall _ (bug_if _ _) => apply bug_ok; destruct_and?; intros ?%Z.ltb_lt;
      match goal with Hw : wait_ok _ _ _ _ |- _ => apply wait_sum_nonneg in Hw; lia end
  | |- Forall _ (warn_if (negb (should_pause _)) _) => destruct_and?; apply warn_ok; intros ?; by destruct (should_pause _)
  | Hw : _ ∧ _ |- Forall _ (warn_if (_ && _) 165) => destruct_and?; cbn [wait_ok] in *; subst; constructor
  end.
  all: try match goal with
  | Ho : _ ∨ _ |- _ => destruct Ho as [?|[? ?]]; [by left|right]
  | Ho : _ = false ∧ scan_ok _ _, Hf : _ ∧ _ ∧ _ ∧ (false = false → _) |- _ =>
      right; destruct Ho, Hf as (_ & _ & _ & Hf), (Hf eq_refl)
  end; try (by apply negb_false_iff); try (by eapply scan_sum_nonneg).
  all: destruct_and?; apply Forall_app; (split; [apply warn_ok; intros ?; by destruct (should_pause _)|]); try constructor.
  apply warn_ok. match goal with Hi : threads _ !! _ = Some _, Hp : percpu _ !! _ = Some _ |- _ =>
    rewrite (wait_mine _ _ _ _ _ HC Hi (bool_decide_eq_true_2 _ eq_refl) Hp) end.
  cbn. by rewrite andb_false_r.
Qed.

(** C4: Pausing a disk is safe.  Whatever the CPUs interleave, a pause is
    acknowledged only while the disk is pausing and no transfer is in flight;
    while it is pausing no transfer starts; the [BUG]s of the layer are never
    hit, and its warnings only by a completion that was still holding
    [pause_reqs_lock] when the acknowledged disk went on. *)
Theorem pause_is_safe n m s l s' e :
  reachable n m s → sys_step l s = Some (s', e) →
  Forall (event_ok s) e ∧ (pausing (disk s) = true → in_flight s' ≤ in_flight s).
Proof.
  intros Hs H. apply reachable_inv in Hs as HI. split; [by eapply events_ok|].
  eapply in_flight_keeps; [done|apply HI].
Qed.

(* ------------------------------------------------------------------ *)
(** ** Nothing is forgotten *)

(** Nothing runs and the transport holds nothing. *)
Definition at_rest (s : sys) : Prop :=
  outstanding s = 0%nat ∧
  ∀ j t, threads s !! j = Some t → match t with Idle | Waiting _ | Dead _ => True | _ => False end.

Lemma rest_sum f s : at_rest s → (∀ t, match t with Idle | Waiting _ | Dead _ => f t = 0 | _ => True end) →
  tsum f (threads s) = 0.
Proof.
  intros [_ Hr] Hf. induction (threads s) as [|t ts IH]; [done|]. simpl.
  rewrite IH by (intros j u Hj; exact (Hr (S j) u Hj)).
  specialize (Hr 0%nat t eq_refl). specialize (Hf t). destruct t; done || lia.
Qed.

(** C8: No pause request is lost.  Once everything has run to its end the
    queue is empty and every pause that returned 0 has been called back, once;
    one that failed with [ENOMEM] has not. *)
Theorem no_pause_is_lost n m s :
  reachable n m s → at_rest s →
  pause_reqs (disk s) = [] ∧ pause_reqs_lock (disk s) = false ∧
  ∀ j t, threads s !! j = Some t → occ j (completions s) = owed t.
Proof.
  intros Hs Hr. destruct (reachable_inv _ _ _ Hs) as [HC HF HO HD HW].
  assert (Hf : in_flight s = 0).
  { unfold in_flight. rewrite (rest_sum carries) by (done || by intros []). destruct Hr as [-> _]. done. }
  assert (Hq : pause_reqs (disk s) = []).
  { destruct (decide (pause_reqs (disk s) = [])) as [|Hq]; [done|]. exfalso.
    destruct (wak_served _ HW Hq Hf) as (j & t & Hj & Ht). apply Hr in Hj. by destruct t. }
  split; [done|]. split.
  - pose proof (cnt_lock _ HC) as Hl. unfold tcount in Hl.
    rewrite rest_sum in Hl by (done || by intros []). by destruct (pause_reqs_lock (disk s)).
  - intros j t Hj. specialize (HO j). rewrite Hq, Hj in HO. simpl in HO.
    rewrite rest_sum in HO by (done || by intros []). lia.
Qed.

(* ------------------------------------------------------------------ *)
(** ** Nobody is stuck *)

Lemma reachable_cpus n m s : reachable n m s → length (percpu (disk s)) = n ∧ in_flight s < 2 ^ 31.
Proof.
  induction 1 as [|s l s' e _ [IH _] H Hf].
  - split; [apply length_replicate|]. unfold in_flight. simpl. rewrite tsum_replicate. simpl. lia.
  - split; [|done]. rewrite <- IH. step_cases H; cbn; by rewrite ?length_alter.
Qed.

Definition can_run (s : sys) (i : nat) : Prop := ∃ c ok fn s' e, sys_step (Run i c ok fn) s = Some (s', e).

Definition busy (t : thread) : bool :=
  match t with
  | Idle | Waiting _ | Dead _ => false
  | _ => true
  end.

(** A thread at one of the three acquisitions of [pause_reqs_lock]. *)
Definition wants_lock (t : thread) : bool :=
  match t with
  | Pauser _ _ PLock => true
  | _ => match dec_of t with Some (DLock | DLock2) => true | _ => false end
  end.

Lemma thread_runs s i t : counts s → flags s → (0 < length (percpu (disk s)))%nat →
  threads s !! i = Some t → busy t = true →
  (pause_reqs_lock (disk s) = false ∨ wants_lock t = false) →
  ((∀ ack, t = Entering ack → cpu_free 0 s = true)) → can_run s i.
Proof.
  intros HC HF Hn Hi Hb Hl He. exists 0%nat, true, Fn_accepts. unfold sys_step. rewrite Hi.
  pose proof (flg_threads _ HF _ _ Hi) as Hf. pose proof (λ c, cnt_cpu _ HC _ _ c Hi) as Hc.
  destruct t as [|c k|k| |ack|c cb k| | |k]; try done; cbn in *.
  - destruct k as [| | | | |k| |k|]; cbn; eauto.
    + destruct Hf as (_ & Hw & _). destruct (lookup_lt_is_Some_2 _ _ (Hc _ eq_refl)) as [q Hq].
      destruct k; cbn in *; try done; rewrite ?Hq; cbn; repeat case_match; simplify_eq/=; eauto.
    + destruct k as [| | | | | |[]|[]]; cbn in *; repeat case_match; simplify_eq/=; eauto; naive_solver.
  - rewrite bool_decide_eq_true_2 by done.
    destruct k as [| | | | | |[]|[]]; cbn in *; repeat case_match; simplify_eq/=; eauto; naive_solver.
  - eauto.
  - rewrite (He _ eq_refl). eauto.
  - destruct Hf as (_ & _ & _ & Hw). destruct (lookup_lt_is_Some_2 _ _ (Hc _ eq_refl)) as [q Hq].
    destruct k as [| | | | |[]|]; cbn in *; rewrite ?Hq; cbn; try (destruct (Hw eq_refl) as [_ ->]); cbn;
      repeat case_match; simplify_eq/=; eauto; try naive_solver.
  - destruct (cont_step (disk s) k) as [d' k']. eauto.
Qed.

Lemma tcount_pos p s : tcount p s ≠ 0 → ∃ i t, threads s !! i = Some t ∧ p t = true.
Proof.
  unfold tcount. induction (threads s) as [|t ts IH]; [done|]. simpl. intros Hne.
  destruct (p t) eqn:Ht; [by exists 0%nat, t|]. destruct IH as (i & u & ? & ?); [done|by exists (S i), u].
Qed.

Lemma zero_nobody p s : tcount p s = 0 → nobody p s = true.
Proof.
  unfold tcount, nobody. induction (threads s) as [|t ts IH]; [done|]. simpl. intros H0.
  pose proof (tsum_nonneg (λ t, Z.b2z (p t)) ts (b2z_nonneg p)).
  destruct (p t); simpl in *; [lia|]. apply IH. lia.
Qed.

Lemma holder_runs s : counts s → flags s → (0 < length (percpu (disk s)))%nat →
  pause_reqs_lock (disk s) = true → ∃ j, can_run s j.
Proof.
  intros HC HF Hn Hl. destruct (tcount_pos has_lock s) as (j & u & Hj & Hu); [by rewrite <- (cnt_lock _ HC), Hl|].
  exists j. eapply (thread_runs s j u); [done..| |right|intros ack ->; done].
  - destruct u as [|? []| | | | | | |]; done.
  - destruct u as [|? []| | | |? ? []| | |]; cbn in *; try done; repeat case_match; done.
Qed.

Lemma busy_runs s i t : counts s → flags s → (0 < length (percpu (disk s)))%nat →
  threads s !! i = Some t → busy t = true → (∀ ack, t ≠ Entering ack) → ∃ j, can_run s j.
Proof.
  intros HC HF Hn Hi Hb Ht. destruct (pause_reqs_lock (disk s)) eqn:Hl; [by apply holder_runs|].
  exists i. eapply thread_runs; eauto. intros ack ->. by destruct (Ht ack).
Qed.


(* ------------------------------------------------------------------ *)
(** ** A pause that runs alone *)

Section alone.
Context (i c : nat).

Definition go : label := Run i c true Fn_accepts.

(** Thread [i], running alone from [s], comes to [t] with the disk [d] in [k]
    steps, seeing [e]. *)
Definition comes (k : nat) (s : sys) (d : nvmeibc_disk) (t : thread) (cbs : list nat) : Prop :=
  ∃ s' e, run (replicate k go) s = Some (s', e) ∧ threads s' !! i = Some t ∧ disk s' = d ∧ called e = cbs.

Lemma comes_step cbs k s t d' t' e d t2 cbs' : threads s !! i = Some t →
  run_step i c true Fn_accepts s t = Some (move s i d' t' e, e) → called e ++ cbs = cbs' →
  comes k (move s i d' t' e) d t2 cbs → comes (S k) s d t2 cbs'.
Proof.
  intros Hi Hr <- (s' & e' & Hrun & Ht & Hd & Hc). exists s', (e ++ e').
  simpl. rewrite Hi, Hr, Hrun. split; [done|]. split; [done|]. split; [done|]. by rewrite called_app, Hc.
Qed.

Lemma comes_now s d t : threads s !! i = Some t → disk s = d → comes 0 s d t [].
Proof. intros Hi Hd. by exists s, []. Qed.

(** Where a thread of the pauser is after a step. *)
Lemma moved_at s d t t' e : threads s !! i = Some t → threads (move s i d t' e) !! i = Some t'.
Proof. intros Hi. cbn. apply list_lookup_insert_eq. by eapply lookup_lt_Some. Qed.

Lemma sum_comes s cb my r k sum d t cbs q : 
  (∀ j p, percpu (disk s) !! j = Some p → pause_preventers p = 0) →
  threads s !! i = Some (Pauser c cb (PSum my k sum)) → (k + r = length (percpu (disk s)))%nat →
  (∀ s', disk s' = disk s → threads s' !! i = Some (Pauser c cb (PSum my (k + r) sum)) → comes q s' d t cbs) →
  comes (r + q) s d t cbs.
Proof.
  intros Hz. revert s k Hz; induction r as [|r IH]; intros s k Hz Hi Hk Hq.
  - apply Hq; [done|]. by rewrite Nat.add_0_r.
  - destruct (lookup_lt_is_Some_2 (percpu (disk s)) k) as [p Hp]; [lia|].
    eapply (comes_step cbs _ _ _ (disk s) _ []); [done|cbn; rewrite Hp; done|done|].
    rewrite (Hz _ _ Hp), Z.add_0_r. eapply (IH _ (S k)).
    + done.
    + by eapply moved_at.
    + cbn. lia.
    + cbn. intros s' Hd Hi'. apply Hq; [done|]. by replace (k + S r)%nat with (S k + r)%nat by lia.
Qed.

Lemma scan_comes s cb r k sum d t cbs q : exact s (SSum k sum) →
  threads s !! i = Some (Pauser c cb (PScan (SSum k sum))) → (k + r = length (percpu (disk s)))%nat →
  (∀ s' z, disk s' = disk s → exact s' (SSum (k + r) z) →
     threads s' !! i = Some (Pauser c cb (PScan (SSum (k + r) z))) → comes q s' d t cbs) →
  comes (r + q) s d t cbs.
Proof.
  revert s k sum; induction r as [|r IH]; intros s k sum He Hi Hk Hq.
  - apply (Hq s sum); rewrite ?Nat.add_0_r; done.
  - destruct (lookup_lt_is_Some_2 (percpu (disk s)) k) as [p Hp]; [lia|].
    eapply (comes_step cbs _ _ _ (disk s) _ []); [done|cbn; rewrite Hp; done|done|].
    eapply (IH _ (S k)).
    + exact (exact_next _ _ _ _ He Hp).
    + by eapply moved_at.
    + cbn. lia.
    + cbn. intros s' z Hd He' Hi'. replace (S (k + r)) with (k + S r)%nat in * by lia. by apply (Hq s' z).
Qed.

(** The disk after the pause returns, with [f] transfers in flight. *)
Definition after_pause (f : Z) (d : nvmeibc_disk) : nvmeibc_disk :=
  if f =? 0 then set_lock false (set_no_transfers true (set_lock true d))
  else set_lock false (set_reqs (pause_reqs d ++ [i]) (set_lock true d)).

Lemma locked_comes s f m : threads s !! i = Some (Pauser c (Some i) PLock) →
  pause_reqs_lock (disk s) = false → 0 ≤ f < 2 ^ 31 → transfers (percpu (disk s)) = f + m * 2 ^ 32 →
  comes (S (S (length (percpu (disk s)) + (if f =? 0 then 2 else 1)))) s (after_pause f (disk s)) (Waiting 0) (if f =? 0 then [i] else []).
Proof.
  intros Hi Hl Hf Ht. set (cbs := if f =? 0 then [i] else []).
  eapply (comes_step cbs _ _ _ (set_lock true (disk s)) _ []); [done|cbn; by rewrite Hl|done|].
  eapply (comes_step cbs _ _ _ (set_lock true (disk s))); [by eapply moved_at|done|by rewrite called_warn|].
  eapply (scan_comes _ (Some i) (length (percpu (disk s))) 0 0); [split; [lia|exists 0; simpl; lia]|by eapply moved_at, moved_at|done|].
  intros s' z Hd [Hr [m' Hz]] Hi'. cbn in Hd. rewrite Hd in Hz. cbn in Hz. rewrite take_ge in Hz by lia.
  assert (z = f) as -> by lia. cbn in Hi'.
  assert (Hnone : percpu (disk s') !! length (percpu (disk s)) = None) by (apply lookup_ge_None; rewrite Hd; done).
  unfold after_pause, cbs. destruct (f =? 0) eqn:Hf0.
  - eapply (comes_step [i] _ _ _ (set_lock false (set_no_transfers true (disk s')))).
    { done. }
    { cbn. by rewrite Hnone, Hf0. }
    { by rewrite called_warn. }
    eapply (comes_step [] _ _ _ (set_lock false (set_no_transfers true (disk s'))) (Waiting 0) [Called i]);
      [by eapply moved_at|done|done|]. eapply comes_now; [by eapply moved_at, moved_at|]. by rewrite <- Hd.
  - eapply (comes_step [] _ _ _ (set_lock false (set_reqs (pause_reqs (disk s') ++ [i]) (disk s'))) (Waiting 0)).
    { done. }
    { cbn. by rewrite Hnone, Hf0. }
    { by rewrite called_warn. }
    eapply comes_now; [by eapply moved_at|]. cbn. by rewrite Hd.
Qed.

(** The wait, when nobody prevents the pause. *)
Lemma wait_comes s d t cbs q :
  (∀ j p, percpu (disk s) !! j = Some p → pause_preventers p = 0) →
  threads s !! i = Some (Pauser c (Some i) (PLoop 0)) →
  (∀ s', disk s' = set_pausing true (disk s) → threads s' !! i = Some (Pauser c (Some i) PLock) → comes q s' d t cbs) →
  ∃ k, (k ≤ length (percpu (disk s)) + 4)%nat ∧ comes (k + q) s d t cbs.
Proof.
  intros Hz Hi Hq. destruct (pausing (disk s)) eqn:Hp.
  - exists 1%nat. split; [lia|].
    eapply (comes_step cbs _ _ _ (disk s) _ []); [done|cbn; by rewrite Hp|done|]. apply Hq; [|by eapply moved_at].
    cbn. unfold set_pausing. rewrite <- Hp. by destruct (disk s).
  - exists (S (length (percpu (disk s)) + 3)). split; [lia|].
    eapply (comes_step cbs _ _ _ (disk s) _ []); [done|cbn; by rewrite Hp|done|]. rewrite <- Nat.add_assoc.
    eapply (sum_comes _ _ 0 (length (percpu (disk s))) 0 0); [done|by eapply moved_at|done|].
    intros s1 Hd1 Hi1. cbn in Hd1, Hi1.
    eapply (comes_step cbs _ _ _ (disk s1) (Pauser c (Some i) (PSet 0)) []);
      [done|cbn; by rewrite Hd1, (proj2 (lookup_ge_None _ _)) by done|done|].
    eapply (comes_step cbs _ _ _ (set_pausing true (disk s1)) (Pauser c (Some i) (PLoop 0)));
      [by eapply moved_at|done|by rewrite called_warn|].
    eapply (comes_step cbs _ _ _ (set_pausing true (disk s1)) (Pauser c (Some i) PLock) []);
      [by eapply moved_at, moved_at|done|done|].
    apply Hq; [cbn; by rewrite Hd1|by eapply moved_at, moved_at, moved_at].
Qed.
End alone.


(* ------------------------------------------------------------------ *)
(** ** Schedules *)

Definition go_n (i c n : nat) : list label := replicate n (go i c).

(** A transfer handed to the transport, on two CPUs. *)
Definition call_schedule (i c : nat) : list label := Begin i (Begin_call c) :: go_n i c 6.

(** The disk is stopped, to the wait for the callback if something is in
    flight. *)
Definition stop_schedule (i c : nat) : list label := Begin i (Begin_pause true) :: go_n i c 14.

(** Thread 0 starts a transfer on CPU 0, thread 1 stops the disk from CPU 1,
    thread 2 ends the transfer on CPU 1. *)
Definition pause_schedule : list label :=
  call_schedule 0 0 ++ stop_schedule 1 1 ++ Begin 2 Begin_completion :: go_n 2 1 11.

Definition after (ls : list label) : sys := default (start 2 4) (fst <$> run ls (start 2 4)).

Lemma after_reachable ls : bool_decide (is_Some (run ls (start 2 4))) = true → Z.of_nat (length ls) < 2 ^ 31 →
  reachable 2 4 (after ls).
Proof.
  unfold after. intros Hr%bool_decide_eq_true Hl. destruct (run ls (start 2 4)) as [[s e]|] eqn:Hs; [|by destruct Hr].
  simpl. eapply (run_reachable _ _ ls); [constructor|done|]. done.
Qed.

Lemma pause_is_safe_witness : let s := after (take 32 pause_schedule) in
  ∃ s', sys_step (go 2 1) s = Some (s', [Called 1]) ∧ Forall (event_ok s) [Called 1].
Proof.
  cbn zeta. eexists. assert (H : sys_step (go 2 1) (after (take 32 pause_schedule)) =
    Some (after (take 33 pause_schedule), [Called 1%nat])) by (vm_compute; reflexivity).
  split; [exact H|].
  exact (proj1 (pause_is_safe 2 4 _ _ _ _ (after_reachable (take 32 pause_schedule) ltac:(vm_compute; reflexivity) ltac:(vm_compute; reflexivity)) H)).
Defined.

Lemma no_pause_is_lost_witness : let s := after pause_schedule in
  threads s !! 1%nat = Some (Waiting 0) ∧ occ 1 (completions s) = owed (Waiting 0).
Proof.
  cbn zeta. assert (H : threads (after pause_schedule) = [Idle; Waiting 0; Idle; Idle]) by (vm_compute; reflexivity).
  assert (Hr : at_rest (after pause_schedule)).
  { split; [vm_compute; reflexivity|]. rewrite H. clear H. intros [|[|[|[|j]]]] t Hj; simpl in Hj; by simplify_eq. }
  assert (Hs : reachable 2 4 (after pause_schedule)) by (apply after_reachable; vm_compute; reflexivity).
  assert (Hj : threads (after pause_schedule) !! 1%nat = Some (Waiting 0)) by (rewrite H; reflexivity).
  split; [exact Hj|]. exact (proj2 (proj2 (no_pause_is_lost 2 4 _ Hs Hr)) 1%nat _ Hj).
Defined.



(** Two transfers end while the disk is stopped: thread 0 read [pausing] before
    it was set and comes to look at the queue when the disk has gone on. *)
Definition late_schedule : list label :=
  call_schedule 0 0 ++ call_schedule 2 0 ++
  Begin 0 Begin_completion :: go_n 0 0 1 ++ stop_schedule 1 1 ++ go_n 0 0 2 ++
  Begin 2 Begin_completion :: go_n 2 1 11 ++ go_n 0 0 2 ++
  go_n 1 1 1 ++ Begin 3 Begin_cont :: go_n 3 0 4 ++ go_n 0 0 5 ++ call_schedule 2 1.

