(* ===== verification/Raft.v ===== *)
(** The elections of the topology manager (toma/nvmeibt_raft.c, with the
    persistence of nvmeibt_topology.c): terms, votes, roles, the counting of
    the voters and of the peers that committed, and the handling of the four
    kinds of messages.

    [raft_ctx] is [my_raft_global] with the parts of the persistence that the
    protocol reads.  Every handler of the source is a function from the context
    to the context and the messages it sends; [env] holds what a handler reads
    from outside: the clock, the random part of the timeouts, the state of the
    hardware, of the network and of the disks, and what the topology calculation
    produced.  [raft_send_msg_to_peer] to the own node dispatches the message at
    once, as in the source; since a reply to oneself sends nothing more, the
    recursion is written as the levels [dispatch_rep], [dispatch_append] and
    [dispatch_raft_msg].

    A buffer is its header: the [raft_ctx] of the term and the vote, and the
    indices of the four sections.  How the data of the sections is merged is the
    function [merge], about which nothing is assumed. *)

From stdpp Require Import base list numbers.
From Stdlib Require Import ZArith Lia.
From S2P Require Import Prelude.

Local Open Scope Z_scope.

(* ------------------------------------------------------------------ *)
(** ** Data *)

(** [union nvmeib_uuid]; [uuid_null] is [nvmeib_uuid_null_val]. *)
Abbreviation uuid := N.
Definition uuid_null : uuid := 0%N.

Inductive raft_role :=
  | RAFT_ROLE_LEADER
  | RAFT_ROLE_CANDIDATE
  | RAFT_ROLE_FOLLOWER.

#[export] Instance raft_role_eq_dec : EqDecision raft_role.
Proof. solve_decision. Defined.

(** The index of each section of a buffer ([tlv_idx], and the [seq_no] of the
    members), and the same fields of the [raft_commit_lifecycle_ctx]s. *)
Record indices := {
  TOPO : Z;
  TOPO_CONFIG : Z;
  KAFKA_MGMT_CONFIG : Z;
  RAFT_MEMBERS : Z;
  RAFT_MEMBERS_SEQ_NO : Z
}.

#[export] Instance indices_eq_dec : EqDecision indices.
Proof. solve_decision. Defined.

(** [nvmeibt_offset_and_idx_uninitialized] in every section *)
Definition uninitialized : indices :=
  {| TOPO := -1; TOPO_CONFIG := -1; KAFKA_MGMT_CONFIG := -1; RAFT_MEMBERS := -1;
     RAFT_MEMBERS_SEQ_NO := -1 |}.

(** [struct raft_persistency]; [rc_rest] stands for the management zone, the
    database and the two measured times, which the protocol carries along. *)
Record raft_persistency := {
  rc_current_term : Z;
  rc_last_rx_term : Z;
  rc_voted_for : uuid;
  rc_guaranteed_sw_ver : Z;
  rc_rest : Z
}.

#[export] Instance raft_persistency_eq_dec : EqDecision raft_persistency.
Proof. solve_decision. Defined.

(** The header of a [struct nvmeibt_persist_and_wire_buf] *)
Record wire_buf := {
  buf_encoding_ver : Z;
  buf_raft_ctx : raft_persistency;
  buf_idx : indices
}.

(** The layout of the buffers of this version *)
Definition TOMA_ENCODING_VER : Z := 0x310.

(** [init_persist_and_wire_buf] *)
Definition empty_buf : wire_buf :=
  {| buf_encoding_ver := TOMA_ENCODING_VER;
     buf_raft_ctx := {| rc_current_term := 0; rc_last_rx_term := 0; rc_voted_for := uuid_null;
                        rc_guaranteed_sw_ver := 0; rc_rest := 0 |};
     buf_idx := uninitialized |}.

Inductive raft_msg_type :=
  | RAFT_MSG_REQ_VOTE
  | RAFT_MSG_REQ_VOTE_REP
  | RAFT_MSG_APPEND_ENTRIES
  | RAFT_MSG_APPEND_ENTRIES_REP.

#[export] Instance raft_msg_type_eq_dec : EqDecision raft_msg_type.
Proof. solve_decision. Defined.

Record raft_msg := {
  msg_type : raft_msg_type;
  src_node_id : uuid;
  dst_node_id : uuid;
  msg_current_term : Z;
  append_entries_msg_num : Z;
  is_vote_granted : bool;
  is_with_raft_log : bool;
  is_forced_reelect : bool;
  msg_sw_ver : Z;
  persist_and_wire_buf : wire_buf
}.

(** [struct nvmeibt_raft_member] *)
Record member := {
  m_uuid : uuid;
  is_me : bool;
  is_vote_valid : bool;
  is_ignored : bool;
  is_alive_for_topo : bool;
  last_received_voted_for_me : Z;
  peer_sw_ver : Z;
  last_append_entries_rep_msg_num : Z;
  committed_hdr : wire_buf
}.

(** [struct nvmeibt_raft_ctx].  [leader_wire_buf] is the header of the buffers to
    commit ([leader_to_commit_persist_and_wire_buf_with_conf_complete] and its
    variants, which differ in their data), and [is_update_required] says that
    they have to be generated again
    ([is_update_csv_of_config_and_topo_required]).  [pending_store] is the save of nvmeibt_topology.c
    in progress, with its [is_req_vote], [disk] the persistency file, if there is one, and
    [rep_was_not_sent] the nodes whose [append_entries_rep_was_not_sent] is set.
    [is_aborted] says that the process ended itself ([nvmeibt_abort]): what the
    rest of the handler does to the context no longer matters. *)
Record raft_ctx := {
  my_uuid : uuid;
  role : raft_role;
  current_term : Z;
  voted_for_uuid : uuid;
  leader_uuid : uuid;
  n_peers_voted_for_me : Z;
  raft_members : list member;
  n_raft_members : Z;
  n_raft_active_members : Z;
  my_member : bool;
  last_rx_append_entries_term : Z;
  last_rx_append_entries_msg_num : Z;
  last_tx_append_entries_msg_num : Z;
  last_time_leader_had_a_majority : Z;
  next_election_time : Z;
  next_leader_heartbeat : Z;
  is_leader_mature : bool;
  guaranteed_sw_ver : Z;
  leader_calculated : indices;
  leader_to_commit : indices;
  leader_committed_by_majority : indices;
  leader_n_peers_committed : indices;
  leader_wire_buf : wire_buf;
  is_update_required : bool;
  follower_submitted : indices;
  follower_committed : indices;
  submitted_term : Z;
  committed_term : Z;
  follower_to_commit : wire_buf;
  follower_to_leader : wire_buf;
  pending_store : option (wire_buf * bool);
  disk : option wire_buf;
  rep_was_not_sent : list uuid;
  is_aborted : bool
}.

(** What a handler reads from outside the protocol.  [now] is the start of the
    event and [boot_now] the clock while it is handled.  [heartbeat_ns],
    [survive_ns] and [alive_ns] are the timeouts of
    [nvmeibt_raft_recalc_timeout_constants], [election_ns] the random one.
    [is_members_unsent] says that the committed members were not sent to the
    leader yet, [is_in_transmission] that a buffer is still being sent and
    [is_transmission_cancelled] that it took too long and was cancelled,
    [is_wire_empty] that the topology or its configuration were never serialized;
    [praids_reset] and [calc_topology] are the calculated indices that the volumes
    leave when they are reset and when the topology is calculated. *)
Record env := {
  now : Z;
  boot_now : Z;
  startup_time : Z;
  election_ns : Z;
  heartbeat_ns : Z;
  survive_ns : Z;
  alive_ns : Z;
  activation_sec : Z;
  sw_ver : Z;
  conf_rest : Z;
  is_HW_config_functional : bool;
  is_in_paused : bool;
  is_crc_and_len_ok : bool;
  did_pselect_allow_time : bool;
  n_connected_members : Z;
  other_stores : bool;
  is_save_submitted : bool;
  is_disk_written : bool;
  is_reserialized : bool;
  is_applied_topo_ready_and_different : bool;
  is_members_unsent : bool;
  is_in_transmission : bool;
  is_transmission_cancelled : bool;
  is_wire_empty : bool;
  praids_reset : option indices;
  calc_topology : option indices
}.

(** Field updates: the record with one field replaced. *)
Definition eta_raft_ctx (s : raft_ctx) : raft_ctx :=
  {| my_uuid := my_uuid s; role := role s; current_term := current_term s;
     voted_for_uuid := voted_for_uuid s; leader_uuid := leader_uuid s;
     n_peers_voted_for_me := n_peers_voted_for_me s; raft_members := raft_members s;
     n_raft_members := n_raft_members s; n_raft_active_members := n_raft_active_members s;
     my_member := my_member s; last_rx_append_entries_term := last_rx_append_entries_term s;
     last_rx_append_entries_msg_num := last_rx_append_entries_msg_num s;
     last_tx_append_entries_msg_num := last_tx_append_entries_msg_num s;
     last_time_leader_had_a_majority := last_time_leader_had_a_majority s;
     next_election_time := next_election_time s;
     next_leader_heartbeat := next_leader_heartbeat s; is_leader_mature := is_leader_mature s;
     guaranteed_sw_ver := guaranteed_sw_ver s; leader_calculated := leader_calculated s;
     leader_to_commit := leader_to_commit s;
     leader_committed_by_majority := leader_committed_by_majority s;
     leader_n_peers_committed := leader_n_peers_committed s;
     leader_wire_buf := leader_wire_buf s; is_update_required := is_update_required s;
     follower_submitted := follower_submitted s; follower_committed := follower_committed s;
     submitted_term := submitted_term s; committed_term := committed_term s;
     follower_to_commit := follower_to_commit s; follower_to_leader := follower_to_leader s;
     pending_store := pending_store s; disk := disk s;
     rep_was_not_sent := rep_was_not_sent s; is_aborted := is_aborted s |}.

Definition eta_member (m : member) : member :=
  {| m_uuid := m_uuid m; is_me := is_me m; is_vote_valid := is_vote_valid m;
     is_ignored := is_ignored m; is_alive_for_topo := is_alive_for_topo m;
     last_received_voted_for_me := last_received_voted_for_me m; peer_sw_ver := peer_sw_ver m;
     last_append_entries_rep_msg_num := last_append_entries_rep_msg_num m;
     committed_hdr := committed_hdr m |}.

Ltac with_field eta r field v :=
  let t := eval cbv beta delta [eta] in (eta r) in
  let p := eval pattern (field r) in t in
  lazymatch p with
  | ?g _ => let u := eval cbv beta in (g v) in exact u
  end.

Definition set_raft_role (v : raft_role) (s : raft_ctx) : raft_ctx :=
  ltac:(with_field eta_raft_ctx s role v).
Definition set_current_term (v : Z) (s : raft_ctx) : raft_ctx :=
  ltac:(with_field eta_raft_ctx s current_term v).
Definition set_voted_for_uuid (v : uuid) (s : raft_ctx) : raft_ctx :=
  ltac:(with_field eta_raft_ctx s voted_for_uuid v).
Definition set_leader_uuid (v : uuid) (s : raft_ctx) : raft_ctx :=
  ltac:(with_field eta_raft_ctx s leader_uuid v).
Definition set_n_peers_voted_for_me (v : Z) (s : raft_ctx) : raft_ctx :=
  ltac:(with_field eta_raft_ctx s n_peers_voted_for_me v).
Definition set_raft_members (v : list member) (s : raft_ctx) : raft_ctx :=
  ltac:(with_field eta_raft_ctx s raft_members v).
Definition set_n_raft_members (v : Z) (s : raft_ctx) : raft_ctx :=
  ltac:(with_field eta_raft_ctx s n_raft_members v).
Definition set_n_raft_active_members (v : Z) (s : raft_ctx) : raft_ctx :=
  ltac:(with_field eta_raft_ctx s n_raft_active_members v).
Definition set_my_member (v : bool) (s : raft_ctx) : raft_ctx :=
  ltac:(with_field eta_raft_ctx s my_member v).
Definition set_last_rx_append_entries_term (v : Z) (s : raft_ctx) : raft_ctx :=
  ltac:(with_field eta_raft_ctx s last_rx_append_entries_term v).
Definition set_last_rx_append_entries_msg_num (v : Z) (s : raft_ctx) : raft_ctx :=
  ltac:(with_field eta_raft_ctx s last_rx_append_entries_msg_num v).
Definition set_last_tx_append_entries_msg_num (v : Z) (s : raft_ctx) : raft_ctx :=
  ltac:(with_field eta_raft_ctx s last_tx_append_entries_msg_num v).
Definition set_last_time_leader_had_a_majority (v : Z) (s : raft_ctx) : raft_ctx :=
  ltac:(with_field eta_raft_ctx s last_time_leader_had_a_majority v).
Definition set_next_election_time (v : Z) (s : raft_ctx) : raft_ctx :=
  ltac:(with_field eta_raft_ctx s next_election_time v).
Definition set_next_leader_heartbeat (v : Z) (s : raft_ctx) : raft_ctx :=
  ltac:(with_field eta_raft_ctx s next_leader_heartbeat v).
Definition set_is_leader_mature (v : bool) (s : raft_ctx) : raft_ctx :=
  ltac:(with_field eta_raft_ctx s is_leader_mature v).
Definition set_guaranteed_sw_ver (v : Z) (s : raft_ctx) : raft_ctx :=
  ltac:(with_field eta_raft_ctx s guaranteed_sw_ver v).
Definition set_leader_calculated (v : indices) (s : raft_ctx) : raft_ctx :=
  ltac:(with_field eta_raft_ctx s leader_calculated v).
Definition set_leader_to_commit (v : indices) (s : raft_ctx) : raft_ctx :=
  ltac:(with_field eta_raft_ctx s leader_to_commit v).
Definition set_leader_committed_by_majority (v : indices) (s : raft_ctx) : raft_ctx :=
  ltac:(with_field eta_raft_ctx s leader_committed_by_majority v).
Definition set_leader_n_peers_committed (v : indices) (s : raft_ctx) : raft_ctx :=
  ltac:(with_field eta_raft_ctx s leader_n_peers_committed v).
Definition set_leader_wire_buf (v : wire_buf) (s : raft_ctx) : raft_ctx :=
  ltac:(with_field eta_raft_ctx s leader_wire_buf v).
Definition set_is_update_required (v : bool) (s : raft_ctx) : raft_ctx :=
  ltac:(with_field eta_raft_ctx s is_update_required v).
Definition set_follower_submitted (v : indices) (s : raft_ctx) : raft_ctx :=
  ltac:(with_field eta_raft_ctx s follower_submitted v).
Definition set_follower_committed (v : indices) (s : raft_ctx) : raft_ctx :=
  ltac:(with_field eta_raft_ctx s follower_committed v).
Definition set_submitted_term (v : Z) (s : raft_ctx) : raft_ctx :=
  ltac:(with_field eta_raft_ctx s submitted_term v).
Definition set_committed_term (v : Z) (s : raft_ctx) : raft_ctx :=
  ltac:(with_field eta_raft_ctx s committed_term v).
Definition set_follower_to_commit (v : wire_buf) (s : raft_ctx) : raft_ctx :=
  ltac:(with_field eta_raft_ctx s follower_to_commit v).
Definition set_follower_to_leader (v : wire_buf) (s : raft_ctx) : raft_ctx :=
  ltac:(with_field eta_raft_ctx s follower_to_leader v).
Definition set_pending_store (v : option (wire_buf * bool)) (s : raft_ctx) : raft_ctx :=
  ltac:(with_field eta_raft_ctx s pending_store v).
Definition set_disk (v : option wire_buf) (s : raft_ctx) : raft_ctx :=
  ltac:(with_field eta_raft_ctx s disk v).
Definition set_rep_was_not_sent (v : list uuid) (s : raft_ctx) : raft_ctx :=
  ltac:(with_field eta_raft_ctx s rep_was_not_sent v).
Definition set_is_aborted (v : bool) (s : raft_ctx) : raft_ctx :=
  ltac:(with_field eta_raft_ctx s is_aborted v).

Definition set_is_vote_valid (v : bool) (m : member) : member :=
  ltac:(with_field eta_member m is_vote_valid v).
Definition set_is_ignored (v : bool) (m : member) : member :=
  ltac:(with_field eta_member m is_ignored v).
Definition set_is_alive_for_topo (v : bool) (m : member) : member :=
  ltac:(with_field eta_member m is_alive_for_topo v).
Definition set_last_received_voted_for_me (v : Z) (m : member) : member :=
  ltac:(with_field eta_member m last_received_voted_for_me v).
Definition set_peer_sw_ver (v : Z) (m : member) : member :=
  ltac:(with_field eta_member m peer_sw_ver v).
Definition set_committed_hdr (v : wire_buf) (m : member) : member :=
  ltac:(with_field eta_member m committed_hdr v).

(** [persist_and_wire_buf_set_voted_for_and_last_rx_append_entries_raft_TERM] *)
Definition set_voted_for_and_last_rx (v : uuid) (t : Z) (b : wire_buf) : wire_buf :=
  {| buf_encoding_ver := buf_encoding_ver b;
     buf_raft_ctx := {| rc_current_term := rc_current_term (buf_raft_ctx b); rc_last_rx_term := t;
                        rc_voted_for := v; rc_guaranteed_sw_ver := rc_guaranteed_sw_ver (buf_raft_ctx b);
                        rc_rest := rc_rest (buf_raft_ctx b) |};
     buf_idx := buf_idx b |}.

(* ------------------------------------------------------------------ *)
(** ** Buffers *)

Inductive buf_diff := DIFF_EQUAL | DIFF_TOPO_ONLY | DIFF_TOPO_AND_CONFIGS.

#[export] Instance buf_diff_eq_dec : EqDecision buf_diff.
Proof. solve_decision. Defined.

(** [compare_persist_and_wire_bufs_tlvs_excl_raft_ctx] of two buffers *)
Definition compare_tlvs (a b : indices) : buf_diff :=
  if negb (TOPO_CONFIG a =? TOPO_CONFIG b) || negb (KAFKA_MGMT_CONFIG a =? KAFKA_MGMT_CONFIG b)
     || negb (RAFT_MEMBERS a =? RAFT_MEMBERS b) then DIFF_TOPO_AND_CONFIGS
  else if negb (TOPO a =? TOPO b) then DIFF_TOPO_ONLY
  else DIFF_EQUAL.

Inductive idx_order := INCOMING_IDX_IS_LOWER | INCOMING_IDX_IS_HIGHER | IDXS_ARE_EQUAL.

(** The indices a leader defends: what it committed or already calculated. *)
Definition my_idx (s : raft_ctx) (f : indices → Z) : Z :=
  if decide (role s = RAFT_ROLE_LEADER)
  then Z.max (f (follower_committed s)) (f (leader_calculated s))
  else f (follower_committed s).

(** [compare_incoming_and_my_persist_and_wire_buf_tlv] *)
Definition compare_incoming_and_my (s : raft_ctx) (i : indices) : idx_order :=
  let lower f := f i <? my_idx s f in
  let higher f := my_idx s f <? f i in
  if lower TOPO || lower RAFT_MEMBERS || lower TOPO_CONFIG || lower KAFKA_MGMT_CONFIG
  then INCOMING_IDX_IS_LOWER
  else if higher TOPO || higher RAFT_MEMBERS || higher TOPO_CONFIG || higher KAFKA_MGMT_CONFIG
  then INCOMING_IDX_IS_HIGHER
  else IDXS_ARE_EQUAL.

(** The header that
    [raft_leader_regenerate_the_to_commit_persist_and_wire_bufs_as_needed] generates *)
Definition leader_buf (e : env) (s : raft_ctx) : wire_buf :=
  {| buf_encoding_ver := TOMA_ENCODING_VER;
     buf_raft_ctx := {| rc_current_term := current_term s; rc_last_rx_term := current_term s;
                        rc_voted_for := my_uuid s; rc_guaranteed_sw_ver := guaranteed_sw_ver s;
                        rc_rest := conf_rest e |};
     buf_idx := leader_to_commit s |}.

(** The buffer a follower replies with, generated when its active topology is
    serialized and when a save ends *)
Definition follower_buf (e : env) (s : raft_ctx) : wire_buf :=
  {| buf_encoding_ver := TOMA_ENCODING_VER;
     buf_raft_ctx := {| rc_current_term := current_term s; rc_last_rx_term := committed_term s;
                        rc_voted_for := voted_for_uuid s; rc_guaranteed_sw_ver := guaranteed_sw_ver s;
                        rc_rest := conf_rest e |};
     buf_idx := follower_committed s |}.

Definition nvmeibt_topology_serialize_active_topology (e : env) (s : raft_ctx) : raft_ctx :=
  if is_reserialized e then set_follower_to_leader (follower_buf e s) s else s.

(* ------------------------------------------------------------------ *)
(** ** Members *)

Definition on_member (u : uuid) (f : member → member) (s : raft_ctx) : raft_ctx :=
  set_raft_members ((λ m, if decide (m_uuid m = u) then f m else m) <$> raft_members s) s.

Definition on_members (f : member → member) (s : raft_ctx) : raft_ctx :=
  set_raft_members (f <$> raft_members s) s.

(** [nvmeibt_raft_get_member_by_id] *)
Definition get_member (u : uuid) (s : raft_ctx) : option member :=
  snd <$> list_find (λ m, m_uuid m = u) (raft_members s).

Definition is_raft_majority (s : raft_ctx) : bool :=
  n_raft_active_members s <? n_peers_voted_for_me s * 2.

(** The number of members whose vote is valid *)
Definition n_valid (l : list member) : Z :=
  Z.of_nat (length (filter (λ m, is_vote_valid m = true) l)).

Definition mark_that_we_just_heard_from_peer (e : env) (m : member) : member :=
  set_last_received_voted_for_me (now e) (set_is_alive_for_topo true m).

(** [leader_handle_new_vote] of a member *)
Definition leader_handle_new_vote (e : env) (u : uuid) (s : raft_ctx) : raft_ctx :=
  match get_member u s with
  | None => s
  | Some m =>
      let s := on_member u (mark_that_we_just_heard_from_peer e) s in
      if is_vote_valid m then s
      else set_n_peers_voted_for_me (n_peers_voted_for_me s + 1)
             (on_member u (set_is_vote_valid true) s)
  end.

(** [is_majority_voted_for_me_following_new_vote] *)
Definition new_vote_majority (e : env) (u : uuid) (s : raft_ctx) : raft_ctx * bool :=
  let s := leader_handle_new_vote e u s in
  if is_raft_majority s then (set_last_time_leader_had_a_majority (now e) s, true) else (s, false).

(** [raft_reset_voted_for_me] *)
Definition raft_reset_voted_for_me (s : raft_ctx) : raft_ctx :=
  set_n_peers_voted_for_me 0
    (on_members (λ m, set_last_received_voted_for_me 0 (set_is_vote_valid false m)) s).

(** [leader_upd_is_vote_valid_and_is_alive_for_topo] *)
Definition leader_upd_is_vote_valid (e : env) (m : member) (s : raft_ctx) : raft_ctx :=
  let since := now e - last_received_voted_for_me m in
  let s := if is_vote_valid m && negb (since <? survive_ns e)
           then set_n_peers_voted_for_me (n_peers_voted_for_me s - 1)
                  (on_member (m_uuid m) (set_is_vote_valid false) s)
           else s in
  if is_alive_for_topo m && negb (since <? alive_ns e)
  then on_member (m_uuid m) (set_is_alive_for_topo false) s
  else s.

Definition raft_leader_check_validity_of_all_peers (e : env) (s : raft_ctx) : raft_ctx :=
  foldl (λ s m, if is_me m then s else leader_upd_is_vote_valid e m s) s (raft_members s).

(** [raft_reset_election_timeout] *)
Definition raft_reset_election_timeout (e : env) (just_allowing : bool) (s : raft_ctx) : raft_ctx :=
  let t := if just_allowing then next_election_time s else boot_now e + election_ns e in
  let little := if just_allowing then heartbeat_ns e * 2 else heartbeat_ns e ÷ 2 in
  set_next_election_time (Z.max t (boot_now e + little)) s.

(** [raft_reset_leader_heartbeat_timeout] *)
Definition raft_reset_leader_heartbeat_timeout (e : env) (retry : bool) (s : raft_ctx) : raft_ctx :=
  set_next_leader_heartbeat
    (now e + (if retry then Z.shiftr (heartbeat_ns e) 1 else heartbeat_ns e)) s.

Definition raft_do_we_have_a_stable_leader (e : env) (s : raft_ctx) : bool :=
  negb (bool_decide (leader_uuid s = uuid_null)) && (heartbeat_ns e <? next_election_time s - now e).

(** [raft_convert_to_follower]; a null argument is [uuid_null] *)
Definition raft_convert_to_follower (voted_for leader : uuid) (s : raft_ctx) : raft_ctx :=
  set_leader_uuid leader
    (set_n_peers_voted_for_me 0
       (set_voted_for_uuid voted_for (set_raft_role RAFT_ROLE_FOLLOWER s))).

Definition convert_to_follower_if_majority_is_lost (s : raft_ctx) : raft_ctx :=
  if negb (is_raft_majority s) && bool_decide (role s ≠ RAFT_ROLE_FOLLOWER)
  then raft_convert_to_follower (voted_for_uuid s) (leader_uuid s) s
  else s.

(* ------------------------------------------------------------------ *)
(** ** Counting the peers that committed *)

(** [UPD_N_PEERS_COMMITTED] for one section: a peer's index [old] becomes [new],
    or, after a reset, is counted as it is. *)
Definition upd_n_peers_committed (to_commit old : Z) (new : option Z) (n : Z) : Z :=
  let matching := match new with
                  | Some v => negb (v =? old) && (v =? to_commit)
                  | None => old =? to_commit
                  end in
  if matching then n + 1 else n.

Definition upd_all_n_peers_committed (c old : indices) (new : option indices) (n : indices) : indices :=
  {| TOPO := upd_n_peers_committed (TOPO c) (TOPO old) (TOPO <$> new) (TOPO n);
     TOPO_CONFIG := upd_n_peers_committed (TOPO_CONFIG c) (TOPO_CONFIG old) (TOPO_CONFIG <$> new) (TOPO_CONFIG n);
     KAFKA_MGMT_CONFIG := upd_n_peers_committed (KAFKA_MGMT_CONFIG c) (KAFKA_MGMT_CONFIG old)
                            (KAFKA_MGMT_CONFIG <$> new) (KAFKA_MGMT_CONFIG n);
     RAFT_MEMBERS := upd_n_peers_committed (RAFT_MEMBERS c) (RAFT_MEMBERS old) (RAFT_MEMBERS <$> new) (RAFT_MEMBERS n);
     RAFT_MEMBERS_SEQ_NO := RAFT_MEMBERS_SEQ_NO n |}.

(** [SET_RAFT_COMMIT_LIFECYCLE_VAL] aborts when the index to commit or the committed
    one goes back, unless it is uninitialized. *)
Definition goes_back (new old : indices) : bool :=
  let back f := (f new <? f old) && negb (f new =? -1) in
  back TOPO || back TOPO_CONFIG || back KAFKA_MGMT_CONFIG || back RAFT_MEMBERS || back RAFT_MEMBERS_SEQ_NO.

Definition SET_leader_to_commit (v : indices) (s : raft_ctx) : raft_ctx :=
  set_leader_to_commit v (set_is_aborted (is_aborted s || goes_back v (leader_to_commit s)) s).

Definition SET_leader_committed_by_majority (v : indices) (s : raft_ctx) : raft_ctx :=
  set_leader_committed_by_majority v
    (set_is_aborted (is_aborted s || goes_back v (leader_committed_by_majority s)) s).

(** [raft_leader_check_committed_by_majority_and_act_upon] *)
Definition check_committed_by_majority (s : raft_ctx) : raft_ctx :=
  let n := leader_n_peers_committed s in
  let c := leader_to_commit s in
  let old := leader_committed_by_majority s in
  let pick (f : indices → Z) v w := if n_raft_active_members s <? f n * 2 then v else w in
  SET_leader_committed_by_majority
    {| TOPO := pick TOPO (TOPO c) (TOPO old);
       TOPO_CONFIG := pick TOPO_CONFIG (TOPO_CONFIG c) (TOPO_CONFIG old);
       KAFKA_MGMT_CONFIG := pick KAFKA_MGMT_CONFIG (KAFKA_MGMT_CONFIG c) (KAFKA_MGMT_CONFIG old);
       RAFT_MEMBERS := pick RAFT_MEMBERS (RAFT_MEMBERS c) (RAFT_MEMBERS old);
       RAFT_MEMBERS_SEQ_NO := pick RAFT_MEMBERS (RAFT_MEMBERS_SEQ_NO c) (RAFT_MEMBERS_SEQ_NO old) |} s.

Definition zero_idx : indices :=
  {| TOPO := 0; TOPO_CONFIG := 0; KAFKA_MGMT_CONFIG := 0; RAFT_MEMBERS := 0; RAFT_MEMBERS_SEQ_NO := 0 |}.

(** The header of a member that was just allocated *)
Definition zero_buf : wire_buf :=
  {| buf_encoding_ver := 0; buf_raft_ctx := buf_raft_ctx empty_buf; buf_idx := zero_idx |}.

(** [raft_leader_reset_counters_upon_last_LOG_change] *)
Definition raft_leader_reset_counters (s : raft_ctx) : raft_ctx :=
  check_committed_by_majority
    (set_leader_n_peers_committed
       (foldl (λ n m, upd_all_n_peers_committed (leader_to_commit s) (buf_idx (committed_hdr m)) None n)
          zero_idx (raft_members s)) s).

(** [raft_leader_update_committed_values_of_a_peer] *)
Definition update_committed_values_of_a_peer (m : member) (b : wire_buf) (s : raft_ctx) : raft_ctx :=
  match compare_tlvs (buf_idx (committed_hdr m)) (buf_idx b) with
  | DIFF_EQUAL => s
  | _ =>
      let n := upd_all_n_peers_committed (leader_to_commit s) (buf_idx (committed_hdr m))
                 (Some (buf_idx b)) (leader_n_peers_committed s) in
      on_member (m_uuid m) (set_committed_hdr b)
        (check_committed_by_majority (set_leader_n_peers_committed n s))
  end.

(** [leader_process_peer_msg_data] without the parsing of the peer's topology *)
Definition leader_process_peer_msg_data (b : wire_buf) (m : member) (s : raft_ctx) : raft_ctx :=
  if negb (rc_last_rx_term (buf_raft_ctx b) =? current_term s) then s
  else
    let hdr := {| buf_encoding_ver := buf_encoding_ver b; buf_raft_ctx := buf_raft_ctx b;
                  buf_idx := buf_idx (committed_hdr m) |} in
    update_committed_values_of_a_peer (set_committed_hdr hdr m) b
      (on_member (m_uuid m) (set_committed_hdr hdr) s).

(** [leader_reset_peers_committed_values] *)
Definition leader_reset_peers_committed_values : raft_ctx → raft_ctx :=
  on_members (set_committed_hdr empty_buf).

(* ------------------------------------------------------------------ *)
(** ** The buffers to commit *)

(** [nvmeibt_topology_mark_update_csv_of_config_and_topo_required] *)
Definition mark_update_required : raft_ctx → raft_ctx := set_is_update_required true.

(** [raft_leader_regenerate_the_to_commit_persist_and_wire_bufs_as_needed] *)
Definition regenerate_as_needed (e : env) (s : raft_ctx) : raft_ctx :=
  if is_update_required s
  then set_is_update_required false
         (raft_leader_reset_counters (set_leader_wire_buf (leader_buf e s) s))
  else s.

(** The indices of [nvmeibt_topology_serialize_conf_and_topo_if_needed]: a section
    whose calculated index differs is serialized and becomes the one to commit; of
    the sections only the topology and its configuration ask for new buffers. *)
Definition serialize_conf_and_topo_if_needed (e : env) (s : raft_ctx) : raft_ctx :=
  let c := leader_calculated s in
  let t := leader_to_commit s in
  let s := SET_leader_to_commit c s in
  if negb (TOPO_CONFIG c =? TOPO_CONFIG t) || negb (TOPO c =? TOPO t) || is_wire_empty e
  then mark_update_required s else s.

Definition s64 (x : Z) : Z := wrap 64 (x + 2 ^ 63) - 2 ^ 63.

(** The term in the upper half, the counter in the lower one *)
Definition leader_get_next_topology_version (s : raft_ctx) : Z :=
  Z.lor (s64 (Z.shiftl (current_term s) 32)) (Z.land (TOPO (leader_to_commit s) + 1) (2 ^ 32 - 1)).

Definition with_TOPO (v : Z) (i : indices) : indices :=
  {| TOPO := v; TOPO_CONFIG := TOPO_CONFIG i; KAFKA_MGMT_CONFIG := KAFKA_MGMT_CONFIG i;
     RAFT_MEMBERS := RAFT_MEMBERS i; RAFT_MEMBERS_SEQ_NO := RAFT_MEMBERS_SEQ_NO i |}.

(* ------------------------------------------------------------------ *)
(** ** Adding and removing members *)

(** [nvmeibt_raft_add_member]: [n_before] is the total the caller believes in,
    [incremental] that the management asks for it. *)
Definition nvmeibt_raft_add_member (u : uuid) (me : bool) (n_before : Z) (incremental : bool)
    (s : raft_ctx) : raft_ctx :=
  match get_member u s with
  | Some _ => s
  | None =>
      if incremental && negb (n_before =? n_raft_members s) then s
      else if incremental && bool_decide (role s ≠ RAFT_ROLE_LEADER)
              && (n_raft_members s =? 0) && negb me then s
      else
        let m := {| m_uuid := u; is_me := me; is_vote_valid := false; is_ignored := false;
                    is_alive_for_topo := false; last_received_voted_for_me := 0; peer_sw_ver := 0;
                    last_append_entries_rep_msg_num := 0;
                    committed_hdr := zero_buf |} in
        let s := set_n_raft_active_members (n_raft_active_members s + 1)
                   (set_n_raft_members (n_raft_members s + 1)
                      (set_raft_members (raft_members s ++ [m]) s)) in
        let s := if me then set_my_member true s else s in
        convert_to_follower_if_majority_is_lost s
  end.

(** [nvmeibt_raft_del_member] *)
Definition nvmeibt_raft_del_member (u : uuid) (n_before : Z) (incremental : bool)
    (s : raft_ctx) : raft_ctx :=
  match get_member u s with
  | None => s
  | Some m =>
      if incremental && negb (n_before =? n_raft_members s) then s
      else if incremental && bool_decide (role s ≠ RAFT_ROLE_LEADER) then s
      else
        let s := set_n_raft_members (n_raft_members s - 1)
                   (set_raft_members (filter (λ m, m_uuid m ≠ u) (raft_members s)) s) in
        let s := if is_ignored m then s else set_n_raft_active_members (n_raft_active_members s - 1) s in
        let s := if is_vote_valid m then set_n_peers_voted_for_me (n_peers_voted_for_me s - 1) s else s in
        let s := if decide (u = my_uuid s) then set_my_member false s else s in
        let s := if decide (u = leader_uuid s) then set_leader_uuid uuid_null s else s in
        let s := if decide (u = voted_for_uuid s) then set_voted_for_uuid uuid_null s else s in
        convert_to_follower_if_majority_is_lost s
  end.

(** [nvmeibt_raft_ignore_member] *)
Definition nvmeibt_raft_ignore_member (u : uuid) (s : raft_ctx) : raft_ctx :=
  match get_member u s with
  | Some m =>
      if is_ignored m then s
      else set_n_raft_active_members (n_raft_active_members s - 1) (on_member u (set_is_ignored true) s)
  | None => s
  end.

(* ------------------------------------------------------------------ *)
(** ** Messages *)

(** [raft_send_msg_to_peer]; [self] dispatches a message to the own node.  A
    message to a node without connection, or while the output is paused, is one
    that the network does not deliver. *)
Definition raft_send_msg_to_peer (e : env) (self : raft_msg → raft_ctx → raft_ctx * list raft_msg)
    (type : raft_msg_type) (dst : uuid) (granted with_log forced : bool) (buf : wire_buf)
    (s : raft_ctx) : raft_ctx * list raft_msg :=
  if negb (is_HW_config_functional e) then (s, [])
  else
    let s := if decide (type = RAFT_MSG_APPEND_ENTRIES_REP)
             then set_rep_was_not_sent (filter (λ u, u ≠ dst) (rep_was_not_sent s)) s else s in
    let m := {| msg_type := type; src_node_id := my_uuid s; dst_node_id := dst;
                msg_current_term := current_term s;
                append_entries_msg_num := if decide (type = RAFT_MSG_APPEND_ENTRIES)
                                          then last_tx_append_entries_msg_num s
                                          else last_rx_append_entries_msg_num s;
                is_vote_granted := granted; is_with_raft_log := with_log;
                is_forced_reelect := forced; msg_sw_ver := sw_ver e;
                persist_and_wire_buf := buf |} in
    if decide (dst = my_uuid s) then self m s else (s, [m]).

(** The common part of [dispatch_raft_msg]: the sender's version, and that an
    ignored member is not listened to. *)
Definition from_member (m : raft_msg) (h : raft_ctx → raft_ctx * list raft_msg) (s : raft_ctx)
    : raft_ctx * list raft_msg :=
  match get_member (src_node_id m) s with
  | Some p =>
      let s := on_member (src_node_id m) (set_peer_sw_ver (msg_sw_ver m)) s in
      if is_ignored p then (s, []) else h s
  | None => h s
  end.

Definition raft_handle_append_entries_rep (e : env) (m : raft_msg) (s : raft_ctx) : raft_ctx :=
  if negb (bool_decide (role s = RAFT_ROLE_LEADER)) then s
  else match get_member (src_node_id m) s with
  | None => s
  | Some p =>
      if append_entries_msg_num m <? last_append_entries_rep_msg_num p then s
      else if negb (is_vote_granted m) then raft_convert_to_follower uuid_null uuid_null s
      else
        let s := leader_process_peer_msg_data (persist_and_wire_buf m) p s in
        fst (new_vote_majority e (src_node_id m) s)
  end.

(** A reply to oneself *)
Definition dispatch_rep (e : env) (m : raft_msg) : raft_ctx → raft_ctx * list raft_msg :=
  from_member m (λ s,
    match msg_type m with
    | RAFT_MSG_APPEND_ENTRIES_REP => (raft_handle_append_entries_rep e m s, [])
    | _ => (s, [])
    end).

(* ------------------------------------------------------------------ *)
(** ** The follower *)

(** The result of [check_peer_eligibility_for_leader]: 0, -1, 1, and the abort
    on a term that was not taken over before *)
Inductive eligibility := Accepted | Rejected | OldMsg | Abort.

Definition check_peer_eligibility_for_leader (m : raft_msg) (is_req_vote : bool) (s : raft_ctx)
    : raft_ctx * eligibility :=
  let accept s := (set_last_rx_append_entries_msg_num (append_entries_msg_num m) s, Accepted) in
  if current_term s <? msg_current_term m then (s, Abort)
  else if msg_current_term m <? current_term s then (s, Rejected)
  else if is_req_vote then
    if negb (bool_decide (voted_for_uuid s = uuid_null))
       && negb (bool_decide (voted_for_uuid s = src_node_id m)) then (s, Rejected)
    else match compare_incoming_and_my s (buf_idx (persist_and_wire_buf m)) with
         | INCOMING_IDX_IS_LOWER => (s, Rejected)
         | INCOMING_IDX_IS_HIGHER => accept s
         | IDXS_ARE_EQUAL => if msg_sw_ver m <? guaranteed_sw_ver s then (s, Rejected) else accept s
         end
  else if last_rx_append_entries_term s <? msg_current_term m
  then accept (set_last_rx_append_entries_term (msg_current_term m) s)
  else if append_entries_msg_num m <? last_rx_append_entries_msg_num s then (s, OldMsg)
  else accept s.

Inductive follower_rep_rv :=
  | REP_RV_INVALID
  | REP_RV_TRUE
  | REP_RV_FALSE
  | REP_RV_DEFERRED
  | REP_RV_IGNORE.

#[export] Instance follower_rep_rv_eq_dec : EqDecision follower_rep_rv.
Proof. solve_decision. Defined.

Section raft.

(** How the data of the sections of an incoming buffer is merged into the
    buffer to commit, and which indices this leaves; [None] when it fails. *)
Variable merge : indices → indices → option indices.

(** [realloc_and_upd_follower_persist_and_wire_bufs_with_incoming_data] *)
Definition realloc_and_upd_follower_bufs (old upd : wire_buf) (with_log : bool) : wire_buf :=
  {| buf_encoding_ver := buf_encoding_ver upd;
     buf_raft_ctx := buf_raft_ctx upd;
     buf_idx := if negb with_log || bool_decide (compare_tlvs (buf_idx old) (buf_idx upd) = DIFF_EQUAL)
                then buf_idx old
                else default (buf_idx old) (merge (buf_idx old) (buf_idx upd)) |}.

(** [nvmeibt_topology_add_persistency_save_wq_item], and the marking of the
    submitted values when it succeeds *)
Definition add_persistency_save (e : env) (is_req_vote : bool) (s : raft_ctx) : raft_ctx :=
  if is_save_submitted e then
    let b := follower_to_commit s in
    set_submitted_term (rc_current_term (buf_raft_ctx b))
      (set_follower_submitted (buf_idx b) (set_pending_store (Some (b, is_req_vote)) s))
  else s.

Definition n_stores_in_progress (e : env) (s : raft_ctx) : bool :=
  other_stores e || bool_decide (is_Some (pending_store s)).

(** [raft_follower_persist_due_to_incoming_msg_as_needed] *)
Definition raft_follower_persist_due_to_incoming_msg (e : env) (m : raft_msg) (is_req_vote : bool)
    (s : raft_ctx) : raft_ctx * follower_rep_rv :=
  let '(s, el) := check_peer_eligibility_for_leader m is_req_vote s in
  match el with
  | Abort => (set_is_aborted true s, REP_RV_INVALID)
  | Rejected => (s, REP_RV_FALSE)
  | OldMsg => (s, REP_RV_IGNORE)
  | Accepted =>
      let b := persist_and_wire_buf m in
      let c := follower_to_commit s in
      let protocol_persist := negb (bool_decide (buf_raft_ctx b = buf_raft_ctx c))
          || negb (submitted_term s =? rc_current_term (buf_raft_ctx c)) in
      let data_persist :=
          (is_with_raft_log m && negb (bool_decide (compare_tlvs (buf_idx b) (buf_idx c) = DIFF_EQUAL)))
          || negb (buf_encoding_ver b =? buf_encoding_ver c)
          || negb (bool_decide (follower_submitted s = buf_idx c)) in
      let b := if is_req_vote
               then set_voted_for_and_last_rx (src_node_id m) (last_rx_append_entries_term s) b
               else b in
      if negb protocol_persist && negb data_persist then (s, REP_RV_TRUE)
      else
        let s := set_voted_for_uuid (src_node_id m) s in
        if n_stores_in_progress e s then (s, REP_RV_DEFERRED)
        else
          let s := set_follower_to_commit (realloc_and_upd_follower_bufs c b (is_with_raft_log m)) s in
          (add_persistency_save e is_req_vote s, REP_RV_DEFERRED)
  end.

Definition raft_handle_append_entries (e : env) (m : raft_msg) (s : raft_ctx)
    : raft_ctx * list raft_msg :=
  let src := src_node_id m in
  let '(s, rv) := raft_follower_persist_due_to_incoming_msg e m false s in
  let send_rep s :=
    raft_send_msg_to_peer e (dispatch_rep e) RAFT_MSG_APPEND_ENTRIES_REP src
      (negb (bool_decide (rv = REP_RV_FALSE)))
      (is_applied_topo_ready_and_different e && bool_decide (rv = REP_RV_TRUE)) false
      (follower_to_leader s) s in
  let heartbeat (r : raft_ctx * list raft_msg) := (raft_reset_election_timeout e false (fst r), snd r) in
  match rv with
  | REP_RV_INVALID | REP_RV_IGNORE => (s, [])
  | REP_RV_FALSE => send_rep (nvmeibt_topology_serialize_active_topology e s)
  | REP_RV_DEFERRED =>
      let s := nvmeibt_topology_serialize_active_topology e s in
      if bool_decide (src ∈ rep_was_not_sent s) then heartbeat (send_rep s)
      else heartbeat (set_rep_was_not_sent (src :: rep_was_not_sent s) s, [])
  | REP_RV_TRUE =>
      let s := if decide (src = my_uuid s) then s else raft_convert_to_follower src src s in
      if negb (my_member s) then (s, [])
      else heartbeat (send_rep (nvmeibt_topology_serialize_active_topology e s))
  end.

(** An append-entries message to oneself, and the reply to it *)
Definition dispatch_append (e : env) (m : raft_msg) : raft_ctx → raft_ctx * list raft_msg :=
  from_member m (λ s,
    match msg_type m with
    | RAFT_MSG_APPEND_ENTRIES => raft_handle_append_entries e m s
    | RAFT_MSG_APPEND_ENTRIES_REP => (raft_handle_append_entries_rep e m s, [])
    | _ => (s, [])
    end).

(* ------------------------------------------------------------------ *)
(** ** The leader *)

(** [raft_leader_send_appendentries_to_a_peer]: a member that has the buffer
    already gets its header only. *)
Definition send_appendentries_to_a_peer (e : env) (with_log : bool) (u : uuid) (s : raft_ctx)
    : raft_ctx * list raft_msg :=
  match get_member u s with
  | None => (s, [])
  | Some p =>
      let s := regenerate_as_needed e s in
      let b := leader_wire_buf s in
      let same := bool_decide (compare_tlvs (buf_idx (committed_hdr p)) (buf_idx b) = DIFF_EQUAL)
                  && bool_decide (buf_raft_ctx (committed_hdr p) = buf_raft_ctx b) in
      raft_send_msg_to_peer e (dispatch_append e) RAFT_MSG_APPEND_ENTRIES u false
        (with_log && negb same) false b s
  end.

(** Sending to every member, the replies of the own node included *)
Fixpoint send_each (f : uuid → raft_ctx → raft_ctx * list raft_msg) (l : list uuid) (s : raft_ctx)
    : raft_ctx * list raft_msg :=
  match l with
  | [] => (s, [])
  | u :: l => let '(s, o) := f u s in let '(s, o') := send_each f l s in (s, o ++ o')
  end.

(** [raft_leader_check_validity_of_majority] *)
Definition raft_leader_check_validity_of_majority (e : env) (s : raft_ctx) : raft_ctx :=
  if survive_ns e <? now e - last_time_leader_had_a_majority s
  then raft_convert_to_follower uuid_null uuid_null s
  else s.

(** [is_raft_state_mature_and_ready_for_distribution] *)
Definition become_mature (e : env) (s : raft_ctx) : raft_ctx :=
  set_is_leader_mature
    (is_leader_mature s || (n_peers_voted_for_me s =? n_raft_active_members s)
     || (activation_sec e <? now e / 10 ^ 9 - startup_time e / 10 ^ 9)) s.

(** The function [set_guaranteed_sw_ver] of the source: when two thirds of the
    members run a newer version, it is distributed as a new topology. *)
Definition leader_set_guaranteed_sw_ver (s : raft_ctx) : raft_ctx :=
  let newer := filter (λ p, guaranteed_sw_ver s < peer_sw_ver p) (raft_members s) in
  match reverse newer with
  | p :: _ =>
      if n_raft_members s * 66 <? Z.of_nat (length newer) * 100 then
        let v := leader_get_next_topology_version s in
        mark_update_required
          (SET_leader_to_commit (with_TOPO v (leader_to_commit s))
             (set_leader_calculated (with_TOPO v (leader_calculated s))
                (set_guaranteed_sw_ver (peer_sw_ver p) s)))
      else s
  | [] => s
  end.

(** [nvmeibt_topology_calc_topology]: a calculation that took place leaves
    calculated indices, which are then serialized. *)
Definition calc (e : env) (s : raft_ctx) : raft_ctx :=
  match calc_topology e with
  | Some i => serialize_conf_and_topo_if_needed e (set_leader_calculated i s)
  | None => s
  end.

(** [is_srm_ready_to_accept_the_new_msgs]: new buffers wait for the end of the
    transmission of the old ones, or for its cancellation. *)
Definition is_srm_ready (e : env) (with_log : bool) (s : raft_ctx) : bool :=
  negb (is_in_transmission e) || negb with_log || negb (is_update_required s)
  || is_transmission_cancelled e.

(** [raft_leader_send_appendentries_to_all_peers] *)
Definition send_appendentries_to_all_peers (e : env) (with_log : bool) (s : raft_ctx)
    : raft_ctx * list raft_msg :=
  let prev_committed := TOPO (leader_committed_by_majority s) =? TOPO (leader_to_commit s) in
  let s := if with_log then raft_leader_check_validity_of_majority e s else s in
  if with_log && negb (bool_decide (role s = RAFT_ROLE_LEADER)) then (s, [])
  else
    let s := become_mature e s in
    let with_log := with_log && is_leader_mature s in
    if with_log && prev_committed && (sw_ver e <? guaranteed_sw_ver s) then
      (set_next_election_time (now e + election_ns e * 2)
         (raft_convert_to_follower uuid_null uuid_null s), [])
    else
      let s := if with_log && prev_committed then calc e (leader_set_guaranteed_sw_ver s) else s in
      let s := set_last_tx_append_entries_msg_num
                 (wrap 32 (last_tx_append_entries_msg_num s + 1)) s in
      if is_srm_ready e with_log s then
        let '(s, o) := send_each (send_appendentries_to_a_peer e with_log)
                         (m_uuid <$> raft_members s) s in
        (raft_reset_leader_heartbeat_timeout e false s, o)
      else (raft_reset_leader_heartbeat_timeout e true s, []).

Definition raft_leader_timeout (e : env) (s : raft_ctx) : raft_ctx * list raft_msg :=
  if bool_decide (role s = RAFT_ROLE_LEADER)
  then send_appendentries_to_all_peers e true (raft_leader_check_validity_of_all_peers e s)
  else (s, []).

Definition nvmeibt_raft_convert_to_leader (e : env) (s : raft_ctx) : raft_ctx * list raft_msg :=
  if bool_decide (role s = RAFT_ROLE_LEADER) then (s, [])
  else
    let s := serialize_conf_and_topo_if_needed e s in
    let s := set_last_tx_append_entries_msg_num 0
               (set_is_leader_mature false (set_raft_role RAFT_ROLE_LEADER s)) in
    let s := on_members (mark_that_we_just_heard_from_peer e) s in
    let s := raft_leader_reset_counters (mark_update_required (leader_reset_peers_committed_values s)) in
    let s := set_leader_uuid (my_uuid s) (set_voted_for_uuid (my_uuid s) s) in
    send_appendentries_to_all_peers e false s.

(* ------------------------------------------------------------------ *)
(** ** The candidate *)

(** The part of [nvmeibt_topology_reset_due_to_convert_to_leader] about the
    indices: a candidate starts from what it committed, and from what its volumes
    calculate of it.  Every index is set to uninitialized first, so none goes back. *)
Definition reset_due_to_convert_to_leader (e : env) (s : raft_ctx) : raft_ctx :=
  set_leader_calculated (default (follower_committed s) (praids_reset e))
    (set_leader_to_commit (follower_committed s)
       (set_leader_committed_by_majority uninitialized s)).

Definition raft_convert_to_candidate (e : env) (forced : bool) (s : raft_ctx)
    : raft_ctx * list raft_msg :=
  let out (r : raft_ctx * list raft_msg) := (raft_reset_election_timeout e false (fst r), snd r) in
  if now e - startup_time e <? heartbeat_ns e * 5 then out (s, [])
  else if negb (is_HW_config_functional e) then out (s, [])
  else
    let s := set_leader_uuid uuid_null s in
    if negb (n_raft_active_members s =? 0) && (n_connected_members e * 2 <=? n_raft_active_members s)
    then out (s, [])
    else
      let s := set_raft_role RAFT_ROLE_CANDIDATE (set_current_term (wrap 64 (current_term s + 1)) s) in
      if negb (my_member s) then out (s, [])
      else
        let s := set_voted_for_uuid (my_uuid s) s in
        let s := mark_update_required (reset_due_to_convert_to_leader e s) in
        let s := regenerate_as_needed e s in
        let '(s, o) := send_each
            (λ u s, raft_send_msg_to_peer e (dispatch_append e) RAFT_MSG_REQ_VOTE u false false forced
                      (leader_wire_buf s) s)
            (m_uuid <$> filter (λ p, is_me p = false) (raft_members s)) s in
        let '(s, won) := new_vote_majority e (my_uuid s) (raft_reset_voted_for_me s) in
        if won : bool then
          let '(s, o') := nvmeibt_raft_convert_to_leader e s in out (s, o ++ o')
        else out (s, o).

Definition nvmeibt_raft_timeout_occurred (e : env) (forced : bool) (s : raft_ctx)
    : raft_ctx * list raft_msg :=
  if bool_decide (role s = RAFT_ROLE_LEADER) then
    if next_leader_heartbeat s <=? now e then raft_leader_timeout e s else (s, [])
  else if forced || (next_election_time s <=? now e) then
    if did_pselect_allow_time e && negb (n_stores_in_progress e s)
    then raft_convert_to_candidate e forced s
    else (raft_reset_election_timeout e true s, [])
  else (s, []).

(* ------------------------------------------------------------------ *)
(** ** Votes and incoming messages *)

Definition raft_handle_req_vote_rep (e : env) (m : raft_msg) (s : raft_ctx)
    : raft_ctx * list raft_msg :=
  if bool_decide (role s = RAFT_ROLE_FOLLOWER) then (s, [])
  else match get_member (src_node_id m) s with
  | None => (s, [])
  | Some p =>
      if is_vote_granted m then
        let s := leader_process_peer_msg_data (persist_and_wire_buf m) p s in
        let s := match get_member (src_node_id m) s with
                 | Some p => update_committed_values_of_a_peer p (persist_and_wire_buf m) s
                 | None => s
                 end in
        let '(s, won) := new_vote_majority e (src_node_id m) s in
        if won : bool then nvmeibt_raft_convert_to_leader e s else (s, [])
      else (s, [])
  end.

(** A reply to oneself, of either kind *)
Definition dispatch_any_rep (e : env) (m : raft_msg) : raft_ctx → raft_ctx * list raft_msg :=
  from_member m (λ s,
    match msg_type m with
    | RAFT_MSG_REQ_VOTE_REP => raft_handle_req_vote_rep e m s
    | RAFT_MSG_APPEND_ENTRIES_REP => (raft_handle_append_entries_rep e m s, [])
    | _ => (s, [])
    end).

Definition raft_handle_req_vote (e : env) (m : raft_msg) (s : raft_ctx)
    : raft_ctx * list raft_msg :=
  let '(s, rv) := raft_follower_persist_due_to_incoming_msg e m true s in
  let s := match rv with
           | REP_RV_FALSE | REP_RV_INVALID => s
           | _ => raft_reset_election_timeout e false s
           end in
  match rv with
  | REP_RV_DEFERRED | REP_RV_INVALID => (s, [])
  | _ => raft_send_msg_to_peer e (dispatch_any_rep e) RAFT_MSG_REQ_VOTE_REP (src_node_id m)
           (bool_decide (rv = REP_RV_TRUE)) false false (follower_to_leader s) s
  end.

Definition dispatch_raft_msg (e : env) (m : raft_msg) : raft_ctx → raft_ctx * list raft_msg :=
  from_member m (λ s,
    match msg_type m with
    | RAFT_MSG_REQ_VOTE => raft_handle_req_vote e m s
    | RAFT_MSG_REQ_VOTE_REP => raft_handle_req_vote_rep e m s
    | RAFT_MSG_APPEND_ENTRIES => raft_handle_append_entries e m s
    | RAFT_MSG_APPEND_ENTRIES_REP => (raft_handle_append_entries_rep e m s, [])
    end).

Definition is_req_vote_rep_or_append_entries_rep (t : raft_msg_type) : bool :=
  match t with RAFT_MSG_REQ_VOTE_REP | RAFT_MSG_APPEND_ENTRIES_REP => true | _ => false end.

Definition is_incoming_msg_valid (e : env) (m : raft_msg) (s : raft_ctx) : bool :=
  is_HW_config_functional e
  && bool_decide (dst_node_id m = my_uuid s)
  && negb (msg_current_term m <? last_rx_append_entries_term s)
  && negb (bool_decide (msg_type m = RAFT_MSG_APPEND_ENTRIES)
           && (msg_current_term m =? current_term s)
           && negb (bool_decide (leader_uuid s = src_node_id m))
           && negb (bool_decide (leader_uuid s = uuid_null)))
  && (negb (is_with_raft_log m) || is_crc_and_len_ok e)
  && negb (is_req_vote_rep_or_append_entries_rep (msg_type m)
           && bool_decide (role s = RAFT_ROLE_LEADER)
           && negb (msg_current_term m =? current_term s)).

Definition nvmeibt_raft_handle_incoming_message (e : env) (m : raft_msg) (s : raft_ctx)
    : raft_ctx * list raft_msg :=
  let from_my_leader := bool_decide (leader_uuid s = src_node_id m) in
  let higher := current_term s <? msg_current_term m in
  if is_in_paused e then (s, [])
  else if higher && bool_decide (msg_type m = RAFT_MSG_REQ_VOTE) && negb (is_forced_reelect m)
          && raft_do_we_have_a_stable_leader e s && negb from_my_leader then (s, [])
  else
    let s := if negb higher then s
             else
               let s := set_current_term (msg_current_term m) s in
               if bool_decide (msg_type m = RAFT_MSG_APPEND_ENTRIES_REP)
                  && bool_decide (role s = RAFT_ROLE_LEADER)
               then set_next_election_time (now e + heartbeat_ns e) s else s in
    let s := if higher && negb from_my_leader
             then raft_convert_to_follower uuid_null uuid_null s else s in
    if is_incoming_msg_valid e m s then dispatch_raft_msg e m s else (s, []).

(* ------------------------------------------------------------------ *)
(** ** The end of a save, and a restart *)

(** [nvmeibt_raft_try_to_send_spurious_APPEND_ENTRIES_REP_or_REQ_VOTE_REP] *)
Definition try_to_send_spurious_rep (e : env) (dst : uuid) (is_req_vote : bool) (s : raft_ctx)
    : raft_ctx * list raft_msg :=
  if decide (dst = uuid_null) then (s, [])
  else
    let s := nvmeibt_topology_serialize_active_topology e s in
    if is_applied_topo_ready_and_different e || is_members_unsent e then
      raft_send_msg_to_peer e (dispatch_any_rep e)
        (if is_req_vote then RAFT_MSG_REQ_VOTE_REP else RAFT_MSG_APPEND_ENTRIES_REP)
        dst true (negb is_req_vote) false (follower_to_leader s) s
    else (s, []).

(** [store_config_and_topo_and_gpt_on_disk_finalize], without the parsing of
    what was committed.  A save can fail after the file was written. *)
Definition store_finalize (e : env) (ok : bool) (s : raft_ctx) : raft_ctx * list raft_msg :=
  match pending_store s with
  | None => (s, [])
  | Some (b, is_req_vote) =>
      if ok then
        let s := set_committed_term (submitted_term s)
                   (set_follower_committed (follower_submitted s) (set_disk (Some b) s)) in
        let s := set_pending_store None (set_follower_to_leader (follower_buf e s) s) in
        try_to_send_spurious_rep e (rc_voted_for (buf_raft_ctx b)) is_req_vote s
      else
        let s := if is_disk_written e then set_disk (Some b) s else s in
        (set_pending_store None
           (set_submitted_term (committed_term s) (set_follower_submitted (follower_committed s) s)), [])
  end.

(** A restart: [nvmeibt_raft_one_time_init], then
    [nvmeibt_raft_read_persistence_and_upd_committed] with the members of before;
    without a file the context is as on the first boot. *)
Definition restart (e : env) (s : raft_ctx) : raft_ctx * list raft_msg :=
  let b := default empty_buf (disk s) in
  let persistent_term := from_option (λ b, rc_current_term (buf_raft_ctx b)) (-1) (disk s) in
  let fresh p := {| m_uuid := m_uuid p; is_me := is_me p; is_vote_valid := false;
                    is_ignored := false; is_alive_for_topo := false; last_received_voted_for_me := 0;
                    peer_sw_ver := 0; last_append_entries_rep_msg_num := 0;
                    committed_hdr := zero_buf |} in
  ({| my_uuid := my_uuid s; role := RAFT_ROLE_FOLLOWER;
      current_term := rc_current_term (buf_raft_ctx b);
      voted_for_uuid := rc_voted_for (buf_raft_ctx b); leader_uuid := uuid_null;
      n_peers_voted_for_me := 0; raft_members := fresh <$> raft_members s;
      n_raft_members := n_raft_members s; n_raft_active_members := Z.of_nat (length (raft_members s));
      my_member := my_member s;
      last_rx_append_entries_term := rc_last_rx_term (buf_raft_ctx b);
      last_rx_append_entries_msg_num := 0; last_tx_append_entries_msg_num := 0;
      last_time_leader_had_a_majority := 0; next_election_time := now e; next_leader_heartbeat := 0;
      is_leader_mature := false; guaranteed_sw_ver := rc_guaranteed_sw_ver (buf_raft_ctx b);
      leader_calculated := {| TOPO := -1; TOPO_CONFIG := -1; KAFKA_MGMT_CONFIG := -1;
                             RAFT_MEMBERS := RAFT_MEMBERS (buf_idx b); RAFT_MEMBERS_SEQ_NO := -1 |};
      leader_to_commit := uninitialized;
      leader_committed_by_majority := uninitialized; leader_n_peers_committed := zero_idx;
      leader_wire_buf := empty_buf; is_update_required := true;
      follower_submitted := buf_idx b; follower_committed := buf_idx b;
      submitted_term := persistent_term; committed_term := persistent_term;
      follower_to_commit := b; follower_to_leader := b; pending_store := None; disk := disk s;
      rep_was_not_sent := []; is_aborted := false |}, []).

End raft.
