(* ===== verification/RaftCluster.v ===== *)
(** A cluster of topology managers: the contexts of the nodes and every message
    that was sent.  A message stays where it is when it is delivered, so it can be
    lost, delayed, reordered or delivered again. *)

From stdpp Require Import base list numbers.
From Stdlib Require Import ZArith Lia.
From S2P Require Import Prelude Raft.

Local Open Scope Z_scope.

Record cluster := {
  nodes : list raft_ctx;
  net : list raft_msg
}.

(** What happens on node [i]: a message [k] arrives, its timeout is checked, its
    save ends, or it restarts.  A process that aborted can only restart. *)
Inductive node_action :=
  | Deliver (k : nat)
  | Timeout (forced : bool)
  | StoreDone (ok : bool)
  | Restart.

Record label := {
  at_node : nat;
  act : node_action;
  in_env : env
}.

Section cluster.

Variable merge : indices → indices → option indices.

Definition node_step (l : label) (sent : list raft_msg) (s : raft_ctx) : raft_ctx * list raft_msg :=
  let e := in_env l in
  let run r := if is_aborted s then (s, []) else r in
  match act l with
  | Deliver k => match sent !! k with
                 | Some m => run (nvmeibt_raft_handle_incoming_message merge e m s)
                 | None => (s, [])
                 end
  | Timeout forced => run (nvmeibt_raft_timeout_occurred merge e forced s)
  | StoreDone ok => run (store_finalize merge e ok s)
  | Restart => restart e s
  end.

Definition cluster_step (c : cluster) (l : label) : cluster :=
  match nodes c !! at_node l with
  | Some s =>
      let '(s', o) := node_step l (net c) s in
      {| nodes := <[at_node l := s']> (nodes c); net := net c ++ o |}
  | None => c
  end.

Definition run (c : cluster) (ls : list label) : cluster := foldl cluster_step c ls.

End cluster.

(** The first boot of node [u] of the members [us] *)
Definition first_boot (us : list uuid) (u : uuid) : raft_ctx :=
  {| my_uuid := u; role := RAFT_ROLE_FOLLOWER; current_term := 0; voted_for_uuid := uuid_null;
     leader_uuid := uuid_null; n_peers_voted_for_me := 0;
     raft_members := (λ v, {| m_uuid := v; is_me := bool_decide (v = u); is_vote_valid := false;
                              is_ignored := false; is_alive_for_topo := false;
                              last_received_voted_for_me := 0; peer_sw_ver := 0;
                              last_append_entries_rep_msg_num := 0; committed_hdr := zero_buf |}) <$> us;
     n_raft_members := Z.of_nat (length us); n_raft_active_members := Z.of_nat (length us);
     my_member := bool_decide (u ∈ us);
     last_rx_append_entries_term := 0; last_rx_append_entries_msg_num := 0;
     last_tx_append_entries_msg_num := 0; last_time_leader_had_a_majority := 0;
     next_election_time := 0; next_leader_heartbeat := 0; is_leader_mature := false;
     guaranteed_sw_ver := 0; leader_calculated := uninitialized; leader_to_commit := uninitialized;
     leader_committed_by_majority := uninitialized; leader_n_peers_committed := zero_idx;
     leader_wire_buf := empty_buf; is_update_required := true;
     follower_submitted := uninitialized; follower_committed := uninitialized;
     submitted_term := -1; committed_term := -1; follower_to_commit := empty_buf;
     follower_to_leader := empty_buf; pending_store := None; disk := None; is_aborted := false;
     rep_was_not_sent := [] |}.

Definition boot (us : list uuid) : cluster :=
  {| nodes := first_boot us <$> us; net := [] |}.

(* ------------------------------------------------------------------ *)
(** ** A node sends in its own name *)

Definition from_me (s : raft_ctx) (r : raft_ctx * list raft_msg) : Prop :=
  my_uuid r.1 = my_uuid s ∧ Forall (λ m, src_node_id m = my_uuid s) r.2.

Lemma from_me_nil s s' : my_uuid s' = my_uuid s → from_me s (s', []).
Proof. done. Qed.

Lemma from_me_trans s s1 r : my_uuid s1 = my_uuid s → from_me s1 r → from_me s r.
Proof. unfold from_me. by intros ->. Qed.

Lemma from_me_app s r s2 o2 : from_me s r → from_me r.1 (s2, o2) → from_me s (s2, r.2 ++ o2).
Proof.
  intros [H1 F1] [H2 F2]. split; simpl in *; [congruence|]. rewrite H1 in F2. by apply Forall_app.
Qed.

Create HintDb raftme.
#[export] Hint Resolve from_me_nil : raftme.

Lemma me_process b p s : my_uuid (leader_process_peer_msg_data b p s) = my_uuid s.
Proof.
  unfold leader_process_peer_msg_data, update_committed_values_of_a_peer. by repeat case_match.
Qed.

Lemma me_update p b s : my_uuid (update_committed_values_of_a_peer p b s) = my_uuid s.
Proof. unfold update_committed_values_of_a_peer. by repeat case_match. Qed.

Lemma me_new_vote e u s : my_uuid (new_vote_majority e u s).1 = my_uuid s.
Proof. unfold new_vote_majority, leader_handle_new_vote. by repeat case_match. Qed.

Lemma me_regenerate e s : my_uuid (regenerate_as_needed e s) = my_uuid s.
Proof. unfold regenerate_as_needed. by case_match. Qed.

Lemma me_serialize e s : my_uuid (serialize_conf_and_topo_if_needed e s) = my_uuid s.
Proof. unfold serialize_conf_and_topo_if_needed. by case_match. Qed.

Lemma me_append_rep e m s : my_uuid (raft_handle_append_entries_rep e m s) = my_uuid s.
Proof.
  unfold raft_handle_append_entries_rep. repeat case_match; try done.
  by rewrite me_new_vote, me_process.
Qed.

Lemma me_check_all_peers e s : my_uuid (raft_leader_check_validity_of_all_peers e s) = my_uuid s.
Proof.
  unfold raft_leader_check_validity_of_all_peers. generalize (raft_members s) as ps.
  intros ps. revert s. induction ps as [|p ps IH]; intros s; [done|]. simpl. rewrite IH.
  unfold leader_upd_is_vote_valid. by repeat case_match.
Qed.

Lemma from_member_me m h s : (∀ s1, my_uuid s1 = my_uuid s → from_me s1 (h s1)) → from_me s (from_member m h s).
Proof.
  intros Hh. unfold from_member. repeat case_match; auto with raftme.
  by apply (from_me_trans _ (on_member (src_node_id m) (set_peer_sw_ver (msg_sw_ver m)) s)), Hh.
Qed.

Lemma send_me e self type dst g w f buf s :
  (∀ m s1, my_uuid s1 = my_uuid s → from_me s1 (self m s1)) →
  from_me s (raft_send_msg_to_peer e self type dst g w f buf s).
Proof.
  intros Hs. unfold raft_send_msg_to_peer. case_match; [by apply from_me_nil|].
  set (s1 := if decide _ then _ else s).
  assert (H1 : my_uuid s1 = my_uuid s) by (unfold s1; by case_decide).
  apply (from_me_trans _ s1); [done|]. case_decide; [by apply Hs|].
  split; [done|]. by apply Forall_singleton.
Qed.

Lemma dispatch_rep_me e m s : from_me s (dispatch_rep e m s).
Proof.
  apply from_member_me. intros s1 _. case_match; auto using me_append_rep with raftme.
Qed.

Section me.

Variable merge : indices → indices → option indices.

Lemma me_persist e m req s :
  my_uuid (raft_follower_persist_due_to_incoming_msg merge e m req s).1 = my_uuid s.
Proof.
  unfold raft_follower_persist_due_to_incoming_msg.
  assert (H : my_uuid (check_peer_eligibility_for_leader m req s).1 = my_uuid s).
  { unfold check_peer_eligibility_for_leader. by repeat case_match. }
  destruct (check_peer_eligibility_for_leader m req s) as [s1 el].
  destruct el; try done. unfold add_persistency_save. by repeat case_match.
Qed.

Lemma append_me e m s : from_me s (raft_handle_append_entries merge e m s).
Proof.
  unfold raft_handle_append_entries. pose proof (me_persist e m false s) as Hp.
  destruct (raft_follower_persist_due_to_incoming_msg merge e m false s) as [s1 rv]. simpl in Hp.
  set (s2 := if decide (src_node_id m = my_uuid s1) then s1 else _).
  assert (H2 : my_uuid s2 = my_uuid s) by (unfold s2; by destruct (decide (src_node_id m = my_uuid s1))).
  assert (Hser : ∀ t, my_uuid (nvmeibt_topology_serialize_active_topology e t) = my_uuid t).
  { intros t. unfold nvmeibt_topology_serialize_active_topology. by case_match. }
  assert (Hsend : ∀ t g w, my_uuid t = my_uuid s → from_me s (raft_send_msg_to_peer e (dispatch_rep e)
    RAFT_MSG_APPEND_ENTRIES_REP (src_node_id m) g w false (follower_to_leader t) t)).
  { intros t g w Ht. apply (from_me_trans _ t); [done|]. apply send_me. auto using dispatch_rep_me. }
  destruct rv; cbv zeta; auto with raftme.
  - destruct (my_member s2); cbn [negb]; [|by apply from_me_nil].
    apply (Hsend (nvmeibt_topology_serialize_active_topology e s2)). by rewrite Hser.
  - apply (Hsend (nvmeibt_topology_serialize_active_topology e s1)). by rewrite Hser.
  - destruct (bool_decide (_ ∈ _)).
    + apply (Hsend (nvmeibt_topology_serialize_active_topology e s1)). by rewrite Hser.
    + apply from_me_nil. simpl. by rewrite Hser.
Qed.

Lemma dispatch_append_me e m s : from_me s (dispatch_append merge e m s).
Proof.
  apply from_member_me. intros s1 _. case_match; auto using me_append_rep, append_me with raftme.
Qed.

Lemma send_each_me f l s :
  (∀ u s, from_me s (f u s)) → from_me s (send_each f l s).
Proof.
  intros Hf. revert s. induction l as [|u l IH]; intros s; simpl; [by apply from_me_nil|].
  pose proof (Hf u s) as H1. destruct (f u s) as [s1 o]. pose proof (IH s1) as H2.
  destruct (send_each f l s1) as [s2 o']. exact (from_me_app s (s1, o) s2 o' H1 H2).
Qed.

Lemma send_to_a_peer_me e w u s : from_me s (send_appendentries_to_a_peer merge e w u s).
Proof.
  unfold send_appendentries_to_a_peer. case_match; [|by apply from_me_nil].
  apply (from_me_trans _ (regenerate_as_needed e s)); [apply me_regenerate|].
  apply send_me. auto using dispatch_append_me.
Qed.

Lemma send_to_all_me e w s : from_me s (send_appendentries_to_all_peers merge e w s).
Proof.
  unfold send_appendentries_to_all_peers.
  set (s1 := if w then raft_leader_check_validity_of_majority e s else s).
  assert (H1 : my_uuid s1 = my_uuid s).
  { unfold s1, raft_leader_check_validity_of_majority. by repeat case_match. }
  clearbody s1. case_match; [by apply from_me_nil|]. case_match; [by apply from_me_nil|].
  match goal with |- context [set_last_tx_append_entries_msg_num _ ?t] => set (s2 := t) end.
  assert (H2 : my_uuid s2 = my_uuid s).
  { unfold s2. case_match; [|done]. unfold calc, serialize_conf_and_topo_if_needed, leader_set_guaranteed_sw_ver. by repeat case_match. }
  clearbody s2. case_match; [|by apply from_me_nil].
  set (s3 := set_last_tx_append_entries_msg_num _ s2). apply (from_me_trans _ s3); [done|].
  pose proof (send_each_me (send_appendentries_to_a_peer merge e (w && is_leader_mature (become_mature e s1)))
    (m_uuid <$> raft_members s3) s3) as F3.
  destruct (send_each _ _ s3) as [s4 o]. apply F3. intros. apply send_to_a_peer_me.
Qed.

Lemma convert_to_leader_me e s : from_me s (nvmeibt_raft_convert_to_leader merge e s).
Proof.
  unfold nvmeibt_raft_convert_to_leader. case_match; [by apply from_me_nil|].
  match goal with |- from_me _ (send_appendentries_to_all_peers _ _ _ ?t) => apply (from_me_trans _ t) end;
    [apply me_serialize | apply send_to_all_me].
Qed.

Lemma candidate_me e f s : from_me s (raft_convert_to_candidate merge e f s).
Proof.
  unfold raft_convert_to_candidate. do 4 (case_match; [by apply from_me_nil|]).
  match goal with |- context [send_each ?g ?l ?t] =>
    set (r := send_each g l t); assert (F4 : from_me s r) by
      (apply (from_me_trans _ t); [done|]; apply send_each_me; intros; apply send_me;
       auto using dispatch_append_me) end.
  clearbody r. destruct r as [s4 o].
  pose proof (me_new_vote e (my_uuid s4) (raft_reset_voted_for_me s4)) as F5.
  destruct (new_vote_majority e (my_uuid s4) (raft_reset_voted_for_me s4)) as [s5 won]. simpl in F5.
  destruct won.
  - pose proof (convert_to_leader_me e s5) as F6. destruct (nvmeibt_raft_convert_to_leader merge e s5) as [s6 o'].
    apply (from_me_app s (s4, o) (raft_reset_election_timeout e false s6) o' F4). by apply (from_me_trans _ s5).
  - destruct F4 as [E4 F4]. split; [|done]. simpl in *. congruence.
Qed.

Lemma req_vote_rep_me e m s : from_me s (raft_handle_req_vote_rep merge e m s).
Proof.
  unfold raft_handle_req_vote_rep. case_match; [by apply from_me_nil|].
  case_match; [|by apply from_me_nil]. case_match; [|by apply from_me_nil].
  match goal with |- context [new_vote_majority e ?u ?t] =>
    set (s2 := t); pose proof (me_new_vote e u s2) as H2;
    destruct (new_vote_majority e u s2) as [s3 won] end.
  assert (H3 : my_uuid s3 = my_uuid s).
  { simpl in H2. rewrite H2. unfold s2. case_match; by rewrite ?me_update, me_process. }
  destruct won; [|by apply from_me_nil]. apply (from_me_trans _ s3); [done|]. apply convert_to_leader_me.
Qed.

Lemma any_rep_me e m s : from_me s (dispatch_any_rep merge e m s).
Proof.
  apply from_member_me. intros s1 _. case_match; auto using me_append_rep, req_vote_rep_me with raftme.
Qed.

Lemma req_vote_me e m s : from_me s (raft_handle_req_vote merge e m s).
Proof.
  unfold raft_handle_req_vote. pose proof (me_persist e m true s) as Hp.
  destruct (raft_follower_persist_due_to_incoming_msg merge e m true s) as [s1 rv]. simpl in Hp.
  set (s2 := match rv with REP_RV_FALSE | REP_RV_INVALID => s1 | _ => _ end).
  assert (H2 : my_uuid s2 = my_uuid s) by (unfold s2; by destruct rv). clearbody s2.
  destruct rv; try (by apply from_me_nil); (apply (from_me_trans _ s2); [done|]); apply send_me;
    auto using any_rep_me.
Qed.

(** Whatever happens on a node, it stays itself and sends in its own name. *)
Lemma node_step_me l sent s : from_me s (node_step merge l sent s).
Proof.
  unfold node_step. destruct (is_aborted s).
  { destruct (act l); try case_match; by apply from_me_nil. }
  destruct (act l) as [k|f|ok|].
  - case_match; [|by apply from_me_nil]. unfold nvmeibt_raft_handle_incoming_message.
    do 2 (case_match; [by apply from_me_nil|]).
    match goal with |- context [is_incoming_msg_valid _ _ ?t] => set (s1 := t) end.
    assert (F1 : my_uuid s1 = my_uuid s) by (unfold s1; by repeat case_match). clearbody s1.
    case_match; [|by apply from_me_nil]. apply (from_me_trans _ s1); [done|]. apply from_member_me.
    intros s2 _. case_match; auto using me_append_rep, append_me, req_vote_me, req_vote_rep_me with raftme.
  - unfold nvmeibt_raft_timeout_occurred, raft_leader_timeout. repeat case_match; auto with raftme.
    + apply (from_me_trans _ (raft_leader_check_validity_of_all_peers (in_env l) s)); [|apply send_to_all_me].
      apply me_check_all_peers.
    + apply candidate_me.
  - unfold store_finalize, try_to_send_spurious_rep. case_match; [|by apply from_me_nil]. case_match.
    case_match; [|by case_match]. case_match; [by apply from_me_nil|].
    match goal with |- context [follower_to_leader ?t] => set (s1 := t) end.
    assert (F1 : my_uuid s1 = my_uuid s)
      by (unfold s1, nvmeibt_topology_serialize_active_topology; by case_match).
    clearbody s1. case_match; [|by apply from_me_nil]. apply (from_me_trans _ s1); [done|].
    apply send_me. auto using any_rep_me.
  - by apply from_me_nil.
Qed.

End me.
