(* ===== verification/RaftVotes.v ===== *)
(** The votes of a node: what the election rules keep true of one node and of
    the messages it sent.  [view] is the part of the context the votes depend on,
    [node_ok] the invariant; the lemmas show which operations keep it. *)

From stdpp Require Import base list numbers sets.
From Stdlib Require Import ZArith Lia.
From S2P Require Import Prelude Raft RaftCluster.

Local Open Scope Z_scope.

(* ------------------------------------------------------------------ *)
(** ** The part of a context the votes depend on *)

Record vote_state := {
  vs_me : uuid;
  vs_role : raft_role;
  vs_term : Z;
  vs_vote : uuid;
  vs_leader : uuid;
  vs_count : Z;
  vs_members : list (uuid * bool * bool);
  vs_active : Z;
  vs_member : bool;
  vs_rx : Z;
  vs_to_commit_rx : Z;
  vs_wire : option Z;
  vs_pending : option uuid
}.

Definition ballot (p : member) : uuid * bool * bool := (m_uuid p, is_me p, is_vote_valid p).

(** Whom a save in progress votes for *)
Definition pending_vote (s : raft_ctx) : option uuid :=
  match pending_store s with
  | Some (b, true) => Some (rc_voted_for (buf_raft_ctx b))
  | _ => None
  end.

(** The term in the buffers to commit, when they are up to date *)
Definition wire_term (s : raft_ctx) : option Z :=
  if is_update_required s then None else Some (rc_last_rx_term (buf_raft_ctx (leader_wire_buf s))).

Definition view (s : raft_ctx) : vote_state :=
  {| vs_me := my_uuid s; vs_role := role s; vs_term := current_term s;
     vs_vote := voted_for_uuid s; vs_leader := leader_uuid s; vs_count := n_peers_voted_for_me s;
     vs_members := ballot <$> raft_members s; vs_active := n_raft_active_members s;
     vs_member := my_member s; vs_rx := last_rx_append_entries_term s;
     vs_to_commit_rx := rc_last_rx_term (buf_raft_ctx (follower_to_commit s));
     vs_wire := wire_term s; vs_pending := pending_vote s |}.

(** The members whose vote counts *)
Definition voters (l : list (uuid * bool * bool)) : list uuid :=
  (λ b, b.1.1) <$> filter (λ b, b.2 = true) l.

(* ------------------------------------------------------------------ *)
(** ** Votes in the messages *)

(** The vote a message carries: a candidate that asks for votes has voted for
    itself, and a granted reply is a vote for the node it goes to. *)
Definition votes_for (m : raft_msg) (c : uuid) : Prop :=
  (msg_type m = RAFT_MSG_REQ_VOTE ∧ c = src_node_id m) ∨
  (msg_type m = RAFT_MSG_REQ_VOTE_REP ∧ is_vote_granted m = true ∧ c = dst_node_id m).

Definition cast (sent : list raft_msg) (j : uuid) (t : Z) (c : uuid) : Prop :=
  ∃ m, m ∈ sent ∧ src_node_id m = j ∧ msg_current_term m = t ∧ votes_for m c.

Section votes.

(** The members, the same on every node *)
Variable M : list uuid.

Definition won (sent : list raft_msg) (c : uuid) (t : Z) : Prop :=
  ∃ Q, NoDup Q ∧ Q ⊆ M ∧ (length M < 2 * length Q)%nat ∧ ∀ j, j ∈ Q → cast sent j t c.

(** What is true of the messages node [u] sent, in a term not above [t] *)
Definition sent_ok (sent : list raft_msg) (u : uuid) (t : Z) (m : raft_msg) : Prop :=
  dst_node_id m ≠ u ∧ msg_current_term m ≤ t ∧
  (msg_type m = RAFT_MSG_APPEND_ENTRIES → won sent u (msg_current_term m)) ∧
  (msg_type m = RAFT_MSG_APPEND_ENTRIES ∨ msg_type m = RAFT_MSG_REQ_VOTE →
     rc_last_rx_term (buf_raft_ctx (persist_and_wire_buf m)) = msg_current_term m) ∧
  ∀ c, votes_for m c → c ≠ uuid_null.

Record node_ok (sent : list raft_msg) (v : vote_state) : Prop := {
  ok_members : (λ b, b.1.1) <$> vs_members v = M;
  ok_is_me : ∀ b, b ∈ vs_members v → b.1.2 = bool_decide (b.1.1 = vs_me v);
  ok_active : vs_active v = Z.of_nat (length M);
  ok_member : vs_member v = true ∧ vs_me v ∈ M;
  ok_term : 0 ≤ vs_rx v ≤ vs_term v;
  ok_to_commit : vs_to_commit_rx v ≤ vs_rx v;
  ok_count : vs_role v ≠ RAFT_ROLE_FOLLOWER → vs_count v = Z.of_nat (length (voters (vs_members v)));
  ok_candidate : vs_role v = RAFT_ROLE_CANDIDATE →
    vs_leader v = uuid_null ∧ cast sent (vs_me v) (vs_term v) (vs_me v) ∧
    ∀ j, j ∈ voters (vs_members v) → cast sent j (vs_term v) (vs_me v);
  ok_leader : vs_role v = RAFT_ROLE_LEADER →
    vs_leader v = vs_me v ∧ won sent (vs_me v) (vs_term v);
  ok_wire : ∀ t, vs_role v = RAFT_ROLE_LEADER → vs_wire v = Some t → t = vs_term v;
  ok_sent : ∀ m, m ∈ sent → src_node_id m = vs_me v → sent_ok sent (vs_me v) (vs_term v) m;
  ok_vote : ∀ c, cast sent (vs_me v) (vs_term v) c → vs_vote v = c ∨ vs_rx v = vs_term v;
  ok_unique : ∀ t a c, cast sent (vs_me v) t a → cast sent (vs_me v) t c → a = c;
  ok_pending : ∀ w, vs_pending v = Some w →
    w ≠ uuid_null ∧ w ≠ vs_me v ∧ ∀ c, cast sent (vs_me v) (vs_term v) c → c = w
}.

(* ------------------------------------------------------------------ *)
(** ** More messages *)

Lemma cast_app sent o j t c :
  cast (sent ++ o) j t c ↔ cast sent j t c ∨ cast o j t c.
Proof. unfold cast. set_solver. Qed.

Lemma cast_mono sent o j t c : cast sent j t c → cast (sent ++ o) j t c.
Proof. rewrite cast_app. auto. Qed.

Lemma won_mono sent o c t : won sent c t → won (sent ++ o) c t.
Proof.
  intros (Q & HN & HS & HL & HC). exists Q. split_and!; auto using cast_mono.
Qed.

Lemma sent_ok_mono sent o u t t' m : t ≤ t' → sent_ok sent u t m → sent_ok (sent ++ o) u t' m.
Proof.
  intros Ht (H1 & H2 & H3 & H4 & H5). split_and!; auto using won_mono. lia.
Qed.

Hint Resolve cast_mono won_mono : core.

(** Messages of other nodes do not matter. *)
Lemma node_ok_others sent o v :
  (∀ m, m ∈ o → src_node_id m ≠ vs_me v) → node_ok sent v → node_ok (sent ++ o) v.
Proof.
  intros Ho [].
  assert (Hc : ∀ t c, cast (sent ++ o) (vs_me v) t c → cast sent (vs_me v) t c).
  { intros t c [H | (m & Hm & Hs & _)]%cast_app; [done | by apply Ho in Hm]. }
  split; auto.
  - intros HR. destruct (ok_candidate0 HR) as (? & ? & ?). split_and!; auto.
  - intros HR. destruct (ok_leader0 HR). split; auto.
  - intros m [Hm | Hm]%elem_of_app Hs; [|by apply Ho in Hm].
    eapply sent_ok_mono; [reflexivity | auto].
  - eauto.
  - intros w Hw. destruct (ok_pending0 w Hw) as (? & ? & ?). auto.
Qed.

(** A message of the own node: what its vote must agree with. *)
Lemma node_ok_send sent v m :
  node_ok sent v → src_node_id m = vs_me v → dst_node_id m ≠ vs_me v →
  msg_current_term m = vs_term v →
  (msg_type m = RAFT_MSG_APPEND_ENTRIES → won sent (vs_me v) (vs_term v)) →
  (msg_type m = RAFT_MSG_APPEND_ENTRIES ∨ msg_type m = RAFT_MSG_REQ_VOTE →
     rc_last_rx_term (buf_raft_ctx (persist_and_wire_buf m)) = msg_current_term m) →
  (∀ c, votes_for m c → c ≠ uuid_null ∧ vs_vote v = c ∧ vs_pending v = None ∧
     ∀ a, cast sent (vs_me v) (vs_term v) a → a = c) →
  node_ok (sent ++ [m]) v.
Proof.
  intros [] Hs Hd Ht Ha Hr Hv.
  assert (Hc : ∀ t c, cast (sent ++ [m]) (vs_me v) t c →
    cast sent (vs_me v) t c ∨ (t = vs_term v ∧ votes_for m c)).
  { intros t c [H | (m' & ->%list_elem_of_singleton & _ & <- & H)]%cast_app; auto. }
  split; auto.
  - intros HR. destruct (ok_candidate0 HR) as (? & ? & ?). split_and!; auto.
  - intros HR. destruct (ok_leader0 HR). split; auto.
  - intros m' [Hm | ->%list_elem_of_singleton]%elem_of_app Hs'.
    + eapply sent_ok_mono; [reflexivity | auto].
    + unfold sent_ok. rewrite Ht in Hr |- *. split_and!; [done | lia | auto | done |].
      intros c Hc'. apply Hv in Hc'. tauto.
  - intros c [H | [_ H]]%Hc; [auto|]. left. apply Hv in H. tauto.
  - intros t a c [H1 | [-> H1]]%Hc [H2 | [E2 H2]]%Hc; subst; eauto.
    + apply Hv in H2. destruct H2 as (_ & _ & _ & H2). auto.
    + apply Hv in H1. destruct H1 as (_ & _ & _ & H1). symmetry. auto.
    + destruct (Hv _ H1) as (_ & <- & _), (Hv _ H2) as (_ & <- & _). done.
  - intros w Hw. destruct (ok_pending0 w Hw) as (? & ? & ?). split_and!; auto.
    intros c [H' | [_ H']]%Hc; [auto|]. destruct (Hv _ H') as (_ & _ & ? & _). congruence.
Qed.

(* ------------------------------------------------------------------ *)
(** ** Operations that leave the votes alone *)

Lemma view_on_member u f s : (∀ p, ballot (f p) = ballot p) → view (on_member u f s) = view s.
Proof.
  intros Hf. unfold view, on_member. simpl. f_equal. rewrite <- list_fmap_compose.
  apply list_fmap_ext. intros _ p _. simpl. by case_decide.
Qed.

Lemma view_on_members f s : (∀ p, ballot (f p) = ballot p) → view (on_members f s) = view s.
Proof.
  intros Hf. unfold view, on_members. simpl. f_equal. rewrite <- list_fmap_compose.
  apply list_fmap_ext. intros _ p _. apply Hf.
Qed.

Lemma view_update_committed p b s : view (update_committed_values_of_a_peer p b s) = view s.
Proof.
  unfold update_committed_values_of_a_peer.
  destruct (compare_tlvs _ _); [done | |]; by rewrite view_on_member.
Qed.

Lemma view_process_data b p s : view (leader_process_peer_msg_data b p s) = view s.
Proof.
  unfold leader_process_peer_msg_data. case_match; [done|].
  by rewrite view_update_committed, view_on_member.
Qed.

Lemma view_serialize e s : view (nvmeibt_topology_serialize_active_topology e s) = view s.
Proof. unfold nvmeibt_topology_serialize_active_topology. by case_match. Qed.

(** Buffers that have to be generated again, or that are *)
Definition with_wire (w : option Z) (v : vote_state) : vote_state :=
  {| vs_me := vs_me v; vs_role := vs_role v; vs_term := vs_term v; vs_vote := vs_vote v;
     vs_leader := vs_leader v; vs_count := vs_count v; vs_members := vs_members v;
     vs_active := vs_active v; vs_member := vs_member v; vs_rx := vs_rx v;
     vs_to_commit_rx := vs_to_commit_rx v; vs_wire := w; vs_pending := vs_pending v |}.

Lemma with_wire_ok sent w v :
  (∀ t, w = Some t → t = vs_term v) → node_ok sent v → node_ok sent (with_wire w v).
Proof. intros Hw []. split; simpl; auto. Qed.

Lemma with_wire_self v : with_wire (vs_wire v) v = v.
Proof. by destruct v. Qed.

Lemma view_mark s : view (mark_update_required s) = with_wire None (view s).
Proof. done. Qed.

Lemma view_conf_and_topo e s :
  view (serialize_conf_and_topo_if_needed e s) = view s ∨
  view (serialize_conf_and_topo_if_needed e s) = with_wire None (view s).
Proof. unfold serialize_conf_and_topo_if_needed. case_match; [by right | by left]. Qed.

Lemma calc_ok sent e s : node_ok sent (view s) → node_ok sent (view (calc e (leader_set_guaranteed_sw_ver s))).
Proof.
  intros Hok. assert (H1 : node_ok sent (view (leader_set_guaranteed_sw_ver s))).
  { unfold leader_set_guaranteed_sw_ver. repeat case_match; try done.
    by apply (with_wire_ok sent None (view s)). }
  unfold calc. destruct (calc_topology e) as [i|]; [|done]. set (s1 := leader_set_guaranteed_sw_ver s) in *.
  destruct (view_conf_and_topo e (set_leader_calculated i s1)) as [-> | ->]; [done|].
  by apply (with_wire_ok sent None (view s1)).
Qed.

(** A leader's buffers, once generated, carry its term. *)
Lemma view_regenerate e s :
  view (regenerate_as_needed e s) =
  with_wire (Some (if is_update_required s then current_term s
                   else rc_last_rx_term (buf_raft_ctx (leader_wire_buf s)))) (view s).
Proof.
  unfold regenerate_as_needed. destruct (is_update_required s) eqn:E; [done|].
  unfold view, with_wire, wire_term. simpl. by rewrite E.
Qed.

Lemma regenerate_ok sent e s :
  node_ok sent (view s) → role s = RAFT_ROLE_LEADER →
  node_ok sent (view (regenerate_as_needed e s)) ∧
  rc_last_rx_term (buf_raft_ctx (leader_wire_buf (regenerate_as_needed e s))) = current_term s.
Proof.
  intros Hok HL. assert (Hw : ∀ t, wire_term s = Some t → t = current_term s).
  { intros t Ht. by apply (ok_wire _ _ Hok). }
  rewrite view_regenerate. unfold wire_term in Hw. unfold regenerate_as_needed.
  destruct (is_update_required s); (split; [apply with_wire_ok; [|done] | auto]).
  - by intros t [= <-].
  - intros t [= <-]. by apply Hw.
Qed.

(* ------------------------------------------------------------------ *)
(** ** A new vote *)

Definition mark (x : uuid) (b : uuid * bool * bool) : uuid * bool * bool :=
  if decide (b.1.1 = x) then (b.1, true) else b.

Lemma mark_others x l : x ∉ ((λ b, b.1.1) <$> l : list uuid) → mark x <$> l = l.
Proof.
  intros Hx. rewrite <- (list_fmap_id l) at 2. apply list_fmap_ext. intros i b Hb. unfold mark.
  case_decide; [|done]. destruct Hx. apply list_elem_of_fmap. eauto using list_elem_of_lookup_2.
Qed.

Lemma length_voters_mark x i l :
  NoDup ((λ b, b.1.1) <$> l : list uuid) → (x, i, false) ∈ l →
  length (voters (mark x <$> l)) = S (length (voters l)).
Proof.
  induction l as [|[[y k] v] l IH]; [by intros _ ?%elem_of_nil|].
  rewrite fmap_cons, NoDup_cons. simpl. intros [Hy HN] [E | Hx]%elem_of_cons.
  - simplify_eq. unfold voters, mark at 1. simpl. rewrite decide_True by done.
    fold (voters (mark y <$> l)). rewrite mark_others by done.
    rewrite filter_cons_True, filter_cons_False by (simpl; done). done.
  - assert (x ≠ y).
    { intros ->. destruct Hy. apply list_elem_of_fmap. by exists (y, i, false). }
    specialize (IH HN Hx). unfold voters in *. unfold mark at 1. simpl.
    rewrite decide_False by done.
    destruct v; [rewrite !filter_cons_True by done | rewrite !filter_cons_False by done];
      [simpl; f_equal|]; exact IH.
Qed.

Lemma elem_of_voters j l : j ∈ voters l ↔ ∃ i, (j, i, true) ∈ l.
Proof.
  unfold voters. rewrite list_elem_of_fmap. split.
  - intros ([[y k] v] & -> & [Hv Hb]%list_elem_of_filter). simpl in *. subst. eauto.
  - intros [i Hi]. exists (j, i, true). rewrite list_elem_of_filter. auto.
Qed.

Lemma voters_NoDup l : NoDup ((λ b, b.1.1) <$> l : list uuid) → NoDup (voters l).
Proof.
  induction l as [|[[y k] v] l IH]; [intros; constructor|].
  rewrite fmap_cons, NoDup_cons. intros [Hy HN]. unfold voters.
  destruct v; [rewrite filter_cons_True by done | rewrite filter_cons_False by done]; [|by apply IH].
  rewrite fmap_cons. apply NoDup_cons. split; [|by apply IH].
  simpl. intros [i Hi]%elem_of_voters. destruct Hy. apply list_elem_of_fmap. by exists (y, i, true).
Qed.

Lemma elem_of_voters_mark j x l : j ∈ voters (mark x <$> l) → j = x ∨ j ∈ voters l.
Proof.
  rewrite !elem_of_voters. intros [i ([[y k] v] & E & Hb)%list_elem_of_fmap].
  unfold mark in E. simpl in E. case_decide; simplify_eq; eauto.
Qed.

Lemma ballots_mark x s :
  ballot <$> raft_members (on_member x (set_is_vote_valid true) s) = mark x <$> (ballot <$> raft_members s).
Proof.
  unfold on_member. simpl. rewrite <- !list_fmap_compose. apply list_fmap_ext. intros _ p _.
  unfold mark, ballot. simpl. by case_decide.
Qed.

Lemma get_member_Some x s p : get_member x s = Some p → m_uuid p = x ∧ p ∈ raft_members s.
Proof.
  unfold get_member. rewrite fmap_Some. intros ([i q] & (Hq & Hx & _)%list_find_Some & ->). simpl.
  eauto using list_elem_of_lookup_2.
Qed.

(** The votes after one more *)
Definition add_vote (x : uuid) (v : vote_state) : vote_state :=
  {| vs_me := vs_me v; vs_role := vs_role v; vs_term := vs_term v; vs_vote := vs_vote v;
     vs_leader := vs_leader v; vs_count := vs_count v + 1; vs_members := mark x <$> vs_members v;
     vs_active := vs_active v; vs_member := vs_member v; vs_rx := vs_rx v;
     vs_to_commit_rx := vs_to_commit_rx v; vs_wire := vs_wire v; vs_pending := vs_pending v |}.

Lemma view_add_vote x s :
  view (set_n_peers_voted_for_me (n_peers_voted_for_me s + 1) (on_member x (set_is_vote_valid true) s))
  = add_vote x (view s).
Proof. unfold add_vote, view at 2. simpl vs_members. rewrite <- ballots_mark. done. Qed.

Context (M_nodup : NoDup M).

Lemma add_vote_ok sent x i v :
  node_ok sent v → (x, i, false) ∈ vs_members v →
  (vs_role v = RAFT_ROLE_CANDIDATE → cast sent x (vs_term v) (vs_me v)) →
  node_ok sent (add_vote x v).
Proof.
  intros [] Hb Hc. split; simpl; auto.
  - etrans; [|exact ok_members0]. rewrite <- list_fmap_compose. apply list_fmap_ext. intros _ b _.
    unfold mark. simpl. by case_decide.
  - intros b (b' & -> & Hb')%list_elem_of_fmap. apply ok_is_me0 in Hb'. unfold mark.
    by destruct (decide (b'.1.1 = x)).
  - intros HR. rewrite (length_voters_mark _ i) by (rewrite ?ok_members0; done).
    rewrite ok_count0 by done. lia.
  - intros HR. destruct (ok_candidate0 HR) as (HL & HS & HC). split_and!; [done | done |].
    intros j [-> | Hj]%elem_of_voters_mark; auto.
Qed.

Lemma new_vote_ok sent e x s :
  node_ok sent (view s) →
  (role s = RAFT_ROLE_CANDIDATE → cast sent x (current_term s) (my_uuid s)) →
  node_ok sent (view (leader_handle_new_vote e x s)).
Proof.
  intros Hok Hc. unfold leader_handle_new_vote. destruct (get_member x s) as [p|] eqn:Hp; [|done].
  apply get_member_Some in Hp as [Hx Hp].
  set (s1 := on_member x (mark_that_we_just_heard_from_peer e) s).
  assert (Hv : view s1 = view s) by (by apply view_on_member).
  destruct (is_vote_valid p) eqn:Hvp; [by rewrite Hv|].
  rewrite view_add_vote, Hv. apply (add_vote_ok _ _ (is_me p)); [done| |done].
  apply list_elem_of_fmap. exists p. split; [|done]. unfold ballot. by rewrite Hvp, Hx.
Qed.

Lemma view_new_vote e x s : let v := view (leader_handle_new_vote e x s) in
  vs_role v = role s ∧ vs_term v = current_term s ∧ vs_me v = my_uuid s ∧
  vs_vote v = voted_for_uuid s ∧ vs_pending v = pending_vote s.
Proof. unfold leader_handle_new_vote. by repeat case_match. Qed.

(** A majority of the votes wins the term. *)
Lemma majority_won sent s :
  node_ok sent (view s) → role s = RAFT_ROLE_CANDIDATE → is_raft_majority s = true →
  won sent (my_uuid s) (current_term s).
Proof.
  intros [] HR HM. unfold is_raft_majority in HM. apply Z.ltb_lt in HM. simpl in *.
  rewrite ok_active0, ok_count0 in HM by (by rewrite HR).
  destruct (ok_candidate0 HR) as (_ & _ & HC).
  exists (voters (ballot <$> raft_members s)). split_and!; [| |lia|done].
  - apply voters_NoDup. by rewrite ok_members0.
  - rewrite <- ok_members0. intros j [i Hi]%elem_of_voters. apply list_elem_of_fmap.
    by exists (j, i, true).
Qed.

(* ------------------------------------------------------------------ *)
(** ** Becoming a follower *)

Lemma cast_term sent v t c : node_ok sent v → cast sent (vs_me v) t c → t ≤ vs_term v ∧ c ≠ uuid_null.
Proof.
  intros Hok (m & Hm & Hs & <- & Hv). destruct (ok_sent _ _ Hok m Hm Hs) as (_ & ? & _ & _ & ?). auto.
Qed.

Definition as_follower (t : Z) (a l : uuid) (n : Z) (v : vote_state) : vote_state :=
  {| vs_me := vs_me v; vs_role := RAFT_ROLE_FOLLOWER; vs_term := t; vs_vote := a; vs_leader := l;
     vs_count := n; vs_members := vs_members v; vs_active := vs_active v; vs_member := vs_member v;
     vs_rx := vs_rx v; vs_to_commit_rx := vs_to_commit_rx v; vs_wire := vs_wire v; vs_pending := vs_pending v |}.

Lemma as_follower_ok sent t a l n v :
  node_ok sent v → vs_term v ≤ t →
  (t = vs_term v → ∀ c, cast sent (vs_me v) t c → a = c ∨ vs_rx v = t) →
  node_ok sent (as_follower t a l n v).
Proof.
  intros Hok Ht Ha. pose proof (λ c, cast_term sent v t c Hok) as Hc. destruct Hok.
  split; simpl; auto; try done; try lia.
  - intros m Hm Hs. destruct (ok_sent0 m Hm Hs) as (? & ? & ? & ? & ?). split_and!; auto. lia.
  - intros c Hcc. destruct (Hc c Hcc). apply Ha; [lia | done].
  - intros w Hw. destruct (ok_pending0 w Hw) as (? & ? & Hp). split_and!; auto.
    intros c Hcc. destruct (Hc c Hcc). apply Hp. by replace (vs_term v) with t by lia.
Qed.

(* ------------------------------------------------------------------ *)
(** ** A leader's message arrives *)

Definition with_rx (t : Z) (v : vote_state) : vote_state :=
  {| vs_me := vs_me v; vs_role := vs_role v; vs_term := vs_term v; vs_vote := vs_vote v;
     vs_leader := vs_leader v; vs_count := vs_count v; vs_members := vs_members v;
     vs_active := vs_active v; vs_member := vs_member v; vs_rx := t;
     vs_to_commit_rx := vs_to_commit_rx v; vs_wire := vs_wire v; vs_pending := vs_pending v |}.

(** The vote, the saved buffer's term and the save in progress change. *)
Definition with_vote (a : uuid) (rx : Z) (p : option uuid) (v : vote_state) : vote_state :=
  {| vs_me := vs_me v; vs_role := vs_role v; vs_term := vs_term v; vs_vote := a;
     vs_leader := vs_leader v; vs_count := vs_count v; vs_members := vs_members v;
     vs_active := vs_active v; vs_member := vs_member v; vs_rx := vs_rx v;
     vs_to_commit_rx := rx; vs_wire := vs_wire v; vs_pending := p |}.

Lemma with_rx_ok sent v : node_ok sent v → node_ok sent (with_rx (vs_term v) v).
Proof. intros []. split; simpl; auto; lia. Qed.

Lemma with_vote_ok sent a rx p v :
  node_ok sent v → rx ≤ vs_rx v →
  (∀ c, cast sent (vs_me v) (vs_term v) c → a = c ∨ vs_rx v = vs_term v) →
  (∀ w, p = Some w → w ≠ uuid_null ∧ w ≠ vs_me v ∧ ∀ c, cast sent (vs_me v) (vs_term v) c → c = w) →
  node_ok sent (with_vote a rx p v).
Proof. intros [] Hr Ha Hp. split; simpl; auto. Qed.

Lemma check_peer_append m s s' el :
  check_peer_eligibility_for_leader m false s = (s', el) →
  last_rx_append_entries_term s ≤ msg_current_term m →
  match el with
  | Accepted => msg_current_term m = current_term s ∧ view s' = with_rx (current_term s) (view s)
  | Rejected => msg_current_term m < current_term s ∧ s' = s
  | _ => s' = s
  end.
Proof.
  unfold check_peer_eligibility_for_leader. intros H Hrx.
  destruct (Z.ltb_spec (current_term s) (msg_current_term m)); simplify_eq; [done|].
  destruct (Z.ltb_spec (msg_current_term m) (current_term s)); simplify_eq; [done|].
  destruct (Z.ltb_spec (last_rx_append_entries_term s) (msg_current_term m)); simplify_eq.
  { split; [lia|]. unfold view, with_rx. simpl. f_equal. lia. }
  destruct (Z.ltb_spec (append_entries_msg_num m) (last_rx_append_entries_msg_num s));
    simplify_eq; [done|].
  split; [lia|]. unfold view, with_rx. simpl. f_equal. lia.
Qed.

Lemma check_peer_vote m s s' el :
  check_peer_eligibility_for_leader m true s = (s', el) →
  view s' = view s ∧ follower_to_commit s' = follower_to_commit s ∧
  (el = Accepted → msg_current_term m = current_term s ∧
     (voted_for_uuid s = uuid_null ∨ voted_for_uuid s = src_node_id m)).
Proof.
  unfold check_peer_eligibility_for_leader. intros H.
  destruct (Z.ltb_spec (current_term s) (msg_current_term m)); simplify_eq; [done|].
  destruct (Z.ltb_spec (msg_current_term m) (current_term s)); simplify_eq; [done|].
  destruct (bool_decide_reflect (voted_for_uuid s = uuid_null)) as [E|E],
    (bool_decide_reflect (voted_for_uuid s = src_node_id m)) as [E'|E']; simpl in H;
    repeat case_match; simplify_eq; split_and!; try done; intros; split; auto; lia.
Qed.

(* ------------------------------------------------------------------ *)
(** ** Saving what a message asks for *)

Context (merge : indices → indices → option indices).

(** The node, its role and its term stay. *)
Definition same_role (s s' : raft_ctx) : Prop :=
  my_uuid s' = my_uuid s ∧ role s' = role s ∧ current_term s' = current_term s.

Lemma same_role_trans s1 s2 s3 : same_role s1 s2 → same_role s2 s3 → same_role s1 s3.
Proof. unfold same_role. intuition congruence. Qed.

Lemma same_role_view s s' t : view s' = with_rx t (view s) → same_role s s' ∧ last_rx_append_entries_term s' = t.
Proof. intros [=]. unfold same_role. auto. Qed.

(** What the saving leaves of the vote, whether a save is in progress, is not
    started or is started *)
Definition save_vote (e : env) (m : raft_msg) (req : bool) (b : wire_buf) (s : raft_ctx) : raft_ctx :=
  let s := set_voted_for_uuid (src_node_id m) s in
  if n_stores_in_progress e s then s
  else add_persistency_save e req
         (set_follower_to_commit
            (realloc_and_upd_follower_bufs merge (follower_to_commit s) b (is_with_raft_log m)) s).

Lemma view_save_vote e m req b s :
  let v := view s in
  (view (save_vote e m req b s) = with_vote (src_node_id m) (vs_to_commit_rx v) (vs_pending v) v) ∨
  (pending_store s = None ∧ ∃ p, (p = None ∨ p = if req then Some (rc_voted_for (buf_raft_ctx b)) else None) ∧
   view (save_vote e m req b s) =
     with_vote (src_node_id m) (rc_last_rx_term (buf_raft_ctx b)) p v).
Proof.
  unfold save_vote, n_stores_in_progress. simpl. destruct (other_stores e); [by left|]. simpl.
  case_bool_decide as Hp; [by left|]. right. rewrite <- eq_None_not_Some in Hp. split; [done|].
  unfold add_persistency_save. destruct (is_save_submitted e).
  - exists (if req then Some (rc_voted_for (buf_raft_ctx b)) else None). split; [by right|].
    unfold view, with_vote, pending_vote. simpl. by destruct req.
  - exists None. split; [by left|]. unfold view, with_vote, pending_vote. simpl. by rewrite Hp.
Qed.

Lemma same_role_save e m req b s : same_role s (save_vote e m req b s).
Proof. unfold save_vote, add_persistency_save. by repeat case_match. Qed.

(** The saving is [save_vote] of the message with its vote patched in. *)
Lemma persist_cases e m req s :
  let '(s1, el) := check_peer_eligibility_for_leader m req s in
  let b := if req then set_voted_for_and_last_rx (src_node_id m) (last_rx_append_entries_term s1)
                         (persist_and_wire_buf m) else persist_and_wire_buf m in
  raft_follower_persist_due_to_incoming_msg merge e m req s =
    match el with
    | Abort => (set_is_aborted true s1, REP_RV_INVALID)
    | Rejected => (s1, REP_RV_FALSE)
    | OldMsg => (s1, REP_RV_IGNORE)
    | Accepted => (s1, REP_RV_TRUE)
    end ∧
    (el = Accepted → buf_raft_ctx (persist_and_wire_buf m) = buf_raft_ctx (follower_to_commit s1)) ∨
  el = Accepted ∧
  raft_follower_persist_due_to_incoming_msg merge e m req s = (save_vote e m req b s1, REP_RV_DEFERRED).
Proof.
  unfold raft_follower_persist_due_to_incoming_msg.
  destruct (check_peer_eligibility_for_leader m req s) as [s1 []]; [|by left..].
  case_match eqn:E.
  - left. split; [done|]. intros _. apply andb_prop in E as [E _]. apply negb_true_iff, orb_false_iff in E.
    destruct E as [E _]. by apply negb_false_iff, bool_decide_eq_true in E.
  - right. split; [done|]. unfold save_vote. case_match; done.
Qed.

Lemma persist_append_ok sent e m s s' rv :
  node_ok sent (view s) → last_rx_append_entries_term s ≤ msg_current_term m →
  rc_last_rx_term (buf_raft_ctx (persist_and_wire_buf m)) = msg_current_term m →
  raft_follower_persist_due_to_incoming_msg merge e m false s = (s', rv) →
  node_ok sent (view s') ∧ same_role s s' ∧
  (rv = REP_RV_FALSE → msg_current_term m < current_term s) ∧
  (rv = REP_RV_TRUE → last_rx_append_entries_term s' = current_term s').
Proof.
  intros Hok Hrx Hb Hp. pose proof (persist_cases e m false s) as Hc. simpl in Hc.
  destruct (check_peer_eligibility_for_leader m false s) as [s1 el] eqn:Hel.
  apply check_peer_append in Hel; [|done]. rewrite Hp in Hc.
  destruct Hc as [[E _] | [-> E]].
  - destruct el; simplify_eq; try done; [|by destruct Hel as [? ->]].
    destruct Hel as [? Hv]. destruct (same_role_view _ _ _ Hv) as [Hr Hrx'].
    split_and!; [rewrite Hv; by apply (with_rx_ok _ (view s)) | done | done |].
    intros _. rewrite Hrx'. symmetry. apply Hr.
  - simplify_eq. destruct Hel as [Ht Hv].
    assert (Hok1 : node_ok sent (view s1)) by (rewrite Hv; by apply (with_rx_ok _ (view s))).
    assert (Hr : vs_rx (view s1) = vs_term (view s1)) by (by rewrite Hv).
    split_and!; [| |done|done].
    + destruct (view_save_vote e m false (persist_and_wire_buf m) s1) as [-> | (_ & p & Hpp & ->)];
        apply with_vote_ok; auto.
      * apply (ok_to_commit _ _ Hok1).
      * apply (ok_pending _ _ Hok1).
      * rewrite Hb, Hr, Hv. simpl. lia.
      * destruct Hpp; by intros w ?; simplify_eq.
    + destruct (same_role_view _ _ _ Hv) as [Hs _].
      eapply same_role_trans; [exact Hs | apply same_role_save].
Qed.

(** A request for a vote, in a term of which no leader was heard: the vote is
    free or the sender's, and it is never granted before it is saved. *)
Lemma persist_vote_ok sent e m s s' rv :
  node_ok sent (view s) → last_rx_append_entries_term s ≠ msg_current_term m →
  rc_last_rx_term (buf_raft_ctx (persist_and_wire_buf m)) = msg_current_term m →
  src_node_id m ≠ uuid_null → src_node_id m ≠ my_uuid s →
  raft_follower_persist_due_to_incoming_msg merge e m true s = (s', rv) →
  node_ok sent (view s') ∧ same_role s s' ∧ rv ≠ REP_RV_TRUE.
Proof.
  intros Hok Hrx Hb H0 Hme Hp. pose proof (persist_cases e m true s) as Hc. simpl in Hc.
  destruct (check_peer_eligibility_for_leader m true s) as [s1 el] eqn:Hel.
  apply check_peer_vote in Hel as (Hv & Hc' & Hel). rewrite Hp in Hc.
  assert (Hs : same_role s s1) by (revert Hv; intros [=]; by unfold same_role).
  assert (Hok1 : node_ok sent (view s1)) by (by rewrite Hv).
  destruct Hc as [[E Heq] | [-> E]].
  - destruct el; simplify_eq; try done. destruct (Hel eq_refl) as [Ht _]. specialize (Heq eq_refl).
    pose proof (ok_to_commit _ _ Hok) as Htc. pose proof (ok_term _ _ Hok). simpl in *.
    rewrite <- Hc', <- Heq, Hb in Htc. lia.
  - injection E as -> ->. destruct (Hel eq_refl) as [Ht Hvote]. split_and!; [| |done].
    2:{ eapply same_role_trans; [exact Hs | apply same_role_save]. }
    assert (Hcast : ∀ c, cast sent (my_uuid s) (current_term s) c → c = src_node_id m).
    { intros c Hcc. destruct (cast_term _ _ _ _ Hok Hcc) as [_ Hn].
      destruct (ok_vote _ _ Hok c Hcc) as [E | E]; simpl in E; [|lia]. destruct Hvote; congruence. }
    destruct (view_save_vote e m true (set_voted_for_and_last_rx (src_node_id m)
      (last_rx_append_entries_term s1) (persist_and_wire_buf m)) s1) as [-> | (_ & p & Hpp & ->)];
      rewrite Hv; apply with_vote_ok; simpl; auto.
    + apply (ok_to_commit _ _ Hok).
    + intros c Hcc%Hcast. auto.
    + apply (ok_pending _ _ Hok).
    + change (vs_rx (view s1) ≤ vs_rx (view s)). by rewrite Hv.
    + intros c Hcc%Hcast. auto.
    + destruct Hpp; intros w ?; simplify_eq. auto.
Qed.

(* ------------------------------------------------------------------ *)
(** ** Sending *)

Definition keeps (sent : list raft_msg) (s : raft_ctx) (r : raft_ctx * list raft_msg) : Prop :=
  node_ok (sent ++ r.2) (view r.1) ∧ same_role s r.1.

Lemma view_same_role s s' : view s' = view s → same_role s s'.
Proof. intros [=]. by unfold same_role. Qed.

Lemma keeps_nil sent s s' : node_ok sent (view s') → same_role s s' → keeps sent s (s', []).
Proof. unfold keeps. simpl. by rewrite app_nil_r. Qed.

Lemma keeps_same sent s s1 r : view s1 = view s → keeps sent s1 r → keeps sent s r.
Proof. intros Hv [H1 H2]. split; [done|]. eapply same_role_trans; [by apply view_same_role | done]. Qed.

(** The message [raft_send_msg_to_peer] builds *)
Lemma keeps_from sent s s1 r : same_role s s1 → keeps sent s1 r → keeps sent s r.
Proof. intros H [H1 H2]. split; [done|]. by eapply same_role_trans. Qed.

Definition built (type : raft_msg_type) (dst : uuid) (granted : bool) (buf : wire_buf)
    (s : raft_ctx) (m : raft_msg) : Prop :=
  msg_type m = type ∧ src_node_id m = my_uuid s ∧ dst_node_id m = dst ∧
  msg_current_term m = current_term s ∧ is_vote_granted m = granted ∧ persist_and_wire_buf m = buf.

Lemma send_keeps sent e self type dst g w f buf s :
  node_ok sent (view s) →
  (dst = my_uuid s → ∀ s1 m, view s1 = view s → built type dst g buf s m → keeps sent s1 (self m s1)) →
  (dst ≠ my_uuid s → ∀ m, built type dst g buf s m →
     (type = RAFT_MSG_APPEND_ENTRIES → won sent (my_uuid s) (current_term s)) ∧
     (type = RAFT_MSG_APPEND_ENTRIES ∨ type = RAFT_MSG_REQ_VOTE →
        rc_last_rx_term (buf_raft_ctx buf) = current_term s) ∧
     (∀ c, votes_for m c → c ≠ uuid_null ∧ voted_for_uuid s = c ∧ pending_vote s = None ∧
        ∀ a, cast sent (my_uuid s) (current_term s) a → a = c)) →
  keeps sent s (raft_send_msg_to_peer e self type dst g w f buf s).
Proof.
  intros Hok Hself Hmsg. unfold raft_send_msg_to_peer.
  destruct (is_HW_config_functional e); simpl; [|by apply keeps_nil].
  set (s1 := if decide (type = RAFT_MSG_APPEND_ENTRIES_REP) then _ else s).
  assert (Hv : view s1 = view s) by (unfold s1; by case_decide).
  set (m := {| msg_type := type |}).
  assert (Hs : same_role s s1) by (by apply view_same_role).
  assert (Hm : built type dst g buf s m).
  { unfold built, m. simpl. destruct Hs as (-> & _ & ->). split_and!; done. }
  apply (keeps_same _ _ s1); [done|]. case_decide as Hd.
  - apply Hself; [|done|done]. destruct Hs as (<- & _). done.
  - split; [|done]. change (node_ok (sent ++ [m]) (view s1)). rewrite Hv.
    destruct Hs as (Hs & _). rewrite Hs in Hd.
    destruct (Hmsg Hd m Hm) as (Ha & Hr & Hvt). clearbody m. destruct Hm as (<- & Hsrc & Hdst & Ht & _ & <-).
    apply node_ok_send; simpl; rewrite ?Hdst, ?Ht; done.
Qed.

End votes.
