(* ===== verification/RaftElection.v ===== *)
(** The handlers of the elections keep the votes in order ([node_ok] of the file
    RaftVotes): the leader's messages, the replies, the timeouts, the end of a
    save and a restart. *)

From stdpp Require Import base list numbers sets.
From Stdlib Require Import ZArith Lia.
From S2P Require Import Prelude Raft RaftCluster RaftVotes.

Local Open Scope Z_scope.

Section election.

Context (M : list uuid) (M_nodup : NoDup M) (M_null : uuid_null ∉ M).
Context (merge : indices → indices → option indices).

Local Notation node_ok := (node_ok M).
Local Notation keeps := (keeps M).
Local Notation won := (won M).

(* ------------------------------------------------------------------ *)
(** ** Replies to the leader *)

Lemma append_rep_ok sent e m s :
  node_ok sent (view s) → is_vote_granted m = true →
  keeps sent s (raft_handle_append_entries_rep e m s, []).
Proof.
  intros Hok Hg. unfold raft_handle_append_entries_rep.
  case_bool_decide as HR; simpl; [|by apply keeps_nil].
  destruct (get_member _ _) as [p|]; [|by apply keeps_nil].
  case_match; [by apply keeps_nil|]. rewrite Hg. simpl.
  set (s1 := leader_process_peer_msg_data _ p s).
  assert (Hv : view s1 = view s) by apply view_process_data.
  pose proof (view_same_role _ _ Hv) as (_ & HR1 & _).
  assert (Hok1 : node_ok sent (view (leader_handle_new_vote e (src_node_id m) s1))).
  { apply new_vote_ok; [done | by rewrite Hv | by rewrite HR1, HR]. }
  apply (keeps_same _ _ _ s1); [done|]. destruct (view_new_vote e (src_node_id m) s1) as (? & ? & ? & _).
  unfold new_vote_majority. case_match; by apply keeps_nil.
Qed.

Lemma append_rep_refused e m s :
  is_vote_granted m = false →
  raft_handle_append_entries_rep e m s = s ∨
  role s = RAFT_ROLE_LEADER ∧
  raft_handle_append_entries_rep e m s = raft_convert_to_follower uuid_null uuid_null s.
Proof.
  intros Hg. unfold raft_handle_append_entries_rep. rewrite Hg. case_bool_decide; [|by left]. simpl.
  destruct (get_member _ _); [|by left]. case_match; auto.
Qed.

(** Dispatching looks up the member first. *)
Lemma from_member_cases m h s :
  ∃ s1, view s1 = view s ∧ (from_member m h s = (s1, []) ∨ from_member m h s = h s1).
Proof.
  unfold from_member. destruct (get_member _ _) as [p|]; [|by exists s; auto].
  exists (on_member (src_node_id m) (set_peer_sw_ver (msg_sw_ver m)) s).
  split; [by apply view_on_member|]. case_match; auto.
Qed.

Lemma from_member_keeps sent m h s :
  node_ok sent (view s) → (∀ s1, view s1 = view s → keeps sent s1 (h s1)) →
  keeps sent s (from_member m h s).
Proof.
  intros Hok Hh. destruct (from_member_cases m h s) as (s1 & Hv & [-> | ->]).
  - apply keeps_nil; [by rewrite Hv | by apply view_same_role].
  - apply (keeps_same _ _ _ s1); auto.
Qed.

Lemma dispatch_rep_keeps sent e m s :
  node_ok sent (view s) → is_vote_granted m = true → keeps sent s (dispatch_rep e m s).
Proof.
  intros Hok Hg. apply from_member_keeps; [done|]. intros s1 Hv.
  destruct (msg_type m); try (apply keeps_nil; [by rewrite Hv | done]).
  apply append_rep_ok; [by rewrite Hv | done].
Qed.

(** Sending a reply to a leader *)
Lemma send_append_rep_keeps sent e g w buf dst s :
  node_ok sent (view s) → (dst = my_uuid s → g = true) →
  keeps sent s (raft_send_msg_to_peer e (dispatch_rep e) RAFT_MSG_APPEND_ENTRIES_REP dst g w false buf s).
Proof.
  intros Hok Hg. apply send_keeps; [done| |].
  - intros Hd s1 m Hv (_ & _ & _ & _ & Hgm & _). apply dispatch_rep_keeps; [by rewrite Hv|].
    rewrite Hgm. auto.
  - intros _ m (Ht & _). refine (conj _ (conj _ _)); [done | by intros [] |].
    intros c [[? _] | [? _]]; congruence.
Qed.

(* ------------------------------------------------------------------ *)
(** ** The leader's message *)

Lemma keeps_heartbeat sent s e b r :
  keeps sent s r → keeps sent s (raft_reset_election_timeout e b r.1, r.2).
Proof. done. Qed.

(** The votes are kept, and the role too when [P] holds. *)
Definition keeps_if (sent : list raft_msg) (s : raft_ctx) (P : Prop) (r : raft_ctx * list raft_msg) : Prop :=
  node_ok (sent ++ r.2) (view r.1) ∧ (P → same_role s r.1).

Lemma append_entries_ok sent e m s :
  node_ok sent (view s) → last_rx_append_entries_term s ≤ msg_current_term m →
  rc_last_rx_term (buf_raft_ctx (persist_and_wire_buf m)) = msg_current_term m →
  (src_node_id m = my_uuid s → msg_current_term m = current_term s) →
  keeps_if sent s (src_node_id m = my_uuid s) (raft_handle_append_entries merge e m s).
Proof.
  intros Hok Hrx Hb Hself. unfold raft_handle_append_entries.
  destruct (raft_follower_persist_due_to_incoming_msg merge e m false s) as [s1 rv] eqn:Hp.
  apply (persist_append_ok M _ sent) in Hp as (Hok1 & Hs1 & HF & HT); try done.
  assert (Hme : my_uuid s1 = my_uuid s) by apply Hs1.
  assert (Hrv : src_node_id m = my_uuid s1 → negb (bool_decide (rv = REP_RV_FALSE)) = true).
  { intros E. apply negb_true_iff, bool_decide_eq_false. intros ->.
    specialize (HF eq_refl). rewrite Hme in E. specialize (Hself E). lia. }
  (* replying from a context with the same votes *)
  assert (Hrep : ∀ s2 w, node_ok sent (view s2) → my_uuid s2 = my_uuid s1 →
    keeps sent s2 (raft_send_msg_to_peer e (dispatch_rep e) RAFT_MSG_APPEND_ENTRIES_REP (src_node_id m)
      (negb (bool_decide (rv = REP_RV_FALSE))) w false
      (follower_to_leader s2) s2)).
  { intros s2 w H2 E2. apply send_append_rep_keeps; [done|]. rewrite E2. exact Hrv. }
  assert (Hfin : ∀ s2 r, (src_node_id m = my_uuid s → same_role s1 s2) → keeps sent s2 r →
    keeps_if sent s (src_node_id m = my_uuid s) r).
  { intros s2 r H2 [Hr1 Hr2]. split; [done|]. intros E.
    eauto using same_role_trans. }
  set (s2 := if decide (src_node_id m = my_uuid s1) then s1 else _).
  set (s3 := nvmeibt_topology_serialize_active_topology e s1).
  set (s4 := nvmeibt_topology_serialize_active_topology e s2).
  assert (Hv3 : view s3 = view s1) by apply view_serialize.
  assert (Hv4 : view s4 = view s2) by apply view_serialize.
  assert (Hs3 : same_role s1 s3) by (by apply view_same_role).
  assert (Hok3 : node_ok sent (view s3)) by (by rewrite Hv3).
  destruct rv; cbn match.
  - apply (Hfin s1); [done|]. by apply keeps_nil.
  - assert (Hok2 : node_ok sent (view s2)).
    { unfold s2. destruct (decide (src_node_id m = my_uuid s1)); [done|]. apply (as_follower_ok _ _ (current_term s1) _ _ 0 (view s1)); auto.
      reflexivity. }
    assert (Hs2 : src_node_id m = my_uuid s → same_role s1 s2).
    { intros E. unfold s2. by rewrite decide_True by congruence. }
    assert (Hme2 : my_uuid s2 = my_uuid s1) by (unfold s2; by destruct (decide (src_node_id m = my_uuid s1))).
    destruct (my_member s2); cbn [negb]; [|apply (Hfin s2); [done|]; by apply keeps_nil].
    assert (Hs4 : same_role s2 s4) by (by apply view_same_role).
    apply (Hfin s4); [intros E; exact (same_role_trans _ _ _ (Hs2 E) Hs4)|].
    apply (keeps_heartbeat _ _ e false), Hrep; [by rewrite Hv4|]. destruct Hs4 as (-> & _). done.
  - apply (Hfin s3); [done|]. apply Hrep; [done|]. apply Hs3.
  - destruct (bool_decide (src_node_id m ∈ rep_was_not_sent s3)).
    + apply (Hfin s3); [done|]. apply (keeps_heartbeat _ _ e false), Hrep; [done|]. apply Hs3.
    + apply (Hfin s3); [done|]. by apply keeps_nil.
  - apply (Hfin s1); [done|]. by apply keeps_nil.
Qed.

(** An append-entries message of a leader to itself *)
Lemma dispatch_append_self sent e m s :
  node_ok sent (view s) → msg_type m = RAFT_MSG_APPEND_ENTRIES → src_node_id m = my_uuid s →
  msg_current_term m = current_term s →
  rc_last_rx_term (buf_raft_ctx (persist_and_wire_buf m)) = msg_current_term m →
  keeps sent s (dispatch_append merge e m s).
Proof.
  intros Hok Hm Hs Ht Hb. apply from_member_keeps; [done|]. intros s1 Hv. rewrite Hm.
  pose proof (view_same_role _ _ Hv) as (Hme & _ & Ht1). rewrite <- Hv in Hok.
  destruct (append_entries_ok sent e m s1) as [H1 H2]; [done | | done | congruence |].
  - pose proof (ok_term _ _ _ Hok) as Hrx. simpl in Hrx. lia.
  - split; [done|]. apply H2. congruence.
Qed.

Lemma send_to_a_peer_keeps sent e w u s :
  node_ok sent (view s) → role s = RAFT_ROLE_LEADER →
  keeps sent s (send_appendentries_to_a_peer merge e w u s).
Proof.
  intros Hok HR. unfold send_appendentries_to_a_peer.
  destruct (get_member u s) as [p|]; [|by apply keeps_nil].
  destruct (regenerate_ok M sent e s Hok HR) as [Hok1 Hbuf].
  assert (Hr : same_role s (regenerate_as_needed e s)) by (unfold regenerate_as_needed; by case_match).
  pose proof Hr as (Hme0 & HR0 & Ht0). set (s0 := regenerate_as_needed e s) in *.
  apply (keeps_from _ _ _ s0); [done|]. apply send_keeps; [done| |].
  - intros -> s1 m Hv (Hm & Hs & _ & Ht & _ & Hb).
    pose proof (view_same_role _ _ Hv) as (Hme & _ & Ht1).
    apply dispatch_append_self; [by rewrite Hv | done | congruence | congruence |].
    rewrite Hb, Ht. congruence.
  - intros _ m (Hm & _). refine (conj _ (conj _ _)); [|congruence|].
    + intros _. apply (ok_leader _ _ _ Hok1). simpl. congruence.
    + intros c [[? _] | [? _]]; congruence.
Qed.

Lemma send_each_keeps f l sent s :
  (∀ u sent s, node_ok sent (view s) → role s = RAFT_ROLE_LEADER → keeps sent s (f u s)) →
  node_ok sent (view s) → role s = RAFT_ROLE_LEADER → keeps sent s (send_each f l s).
Proof.
  intros Hf. revert sent s. induction l as [|u l IH]; intros sent s Hok HR; simpl; [by apply keeps_nil|].
  destruct (Hf u sent s Hok HR) as [H1 S1]. destruct (f u s) as [s1 o]. simpl in *.
  destruct (IH (sent ++ o) s1 H1) as [H2 S2]; [by destruct S1 as (_ & -> & _)|].
  destruct (send_each f l s1) as [s2 o']. simpl in *. split; simpl.
  - by rewrite app_assoc.
  - eapply same_role_trans; eauto.
Qed.

Lemma distribute_keeps sent e w n s s' :
  node_ok sent (view s') → role s = RAFT_ROLE_LEADER → same_role s s' →
  let t := set_last_tx_append_entries_msg_num n s' in
  keeps sent s
    (if is_srm_ready e w t then
       let '(t, o) := send_each (send_appendentries_to_a_peer merge e w) (m_uuid <$> raft_members t) t in
       (raft_reset_leader_heartbeat_timeout e false t, o)
     else (raft_reset_leader_heartbeat_timeout e true t, [])).
Proof.
  intros Hok HR Hs t. assert (HRt : role t = RAFT_ROLE_LEADER) by (destruct Hs as (_ & E & _); by rewrite <- HR).
  apply (keeps_from _ _ _ t); [done|].
  destruct (is_srm_ready e w t); [|by apply keeps_nil].
  pose proof (send_each_keeps (send_appendentries_to_a_peer merge e w) (m_uuid <$> raft_members t)
    sent t) as Hk.
  destruct (send_each _ _ t) as [t' o]. apply Hk; [|done|done].
  intros. by apply send_to_a_peer_keeps.
Qed.

(** Sending to everybody keeps the votes, or the leader steps down. *)
Lemma send_to_all_peers sent e w s :
  node_ok sent (view s) → role s = RAFT_ROLE_LEADER →
  let r := send_appendentries_to_all_peers merge e w s in
  keeps sent s r ∨
  (w = true ∧ role r.1 = RAFT_ROLE_FOLLOWER ∧ current_term r.1 = current_term s).
Proof.
  intros Hok HR. unfold send_appendentries_to_all_peers.
  set (s1 := if w then raft_leader_check_validity_of_majority e s else s).
  assert (H1 : s1 = s ∨ (w = true ∧ role s1 = RAFT_ROLE_FOLLOWER ∧ current_term s1 = current_term s)).
  { unfold s1, raft_leader_check_validity_of_majority. destruct w; [case_match|]; auto. }
  destruct H1 as [-> | (-> & HF & HT)].
  2:{ right. rewrite bool_decide_eq_false_2 by (by rewrite HF). done. }
  rewrite bool_decide_eq_true_2 by done. rewrite andb_false_r.
  set (s2 := become_mature e s). assert (Hv2 : view s2 = view s) by done.
  destruct (w && is_leader_mature s2) eqn:Hw; cbn [andb].
  - apply andb_prop in Hw as [-> _]. case_match; [by right|]. left.
    apply distribute_keeps; [|done|].
    + case_match; [by apply calc_ok | done].
    + unfold calc, serialize_conf_and_topo_if_needed, leader_set_guaranteed_sw_ver. by repeat case_match.
  - left. by apply distribute_keeps.
Qed.

(* ------------------------------------------------------------------ *)
(** ** Votes that expire *)

Definition unmark (x : uuid) (b : uuid * bool * bool) : uuid * bool * bool :=
  if decide (b.1.1 = x) then (b.1, false) else b.

Lemma unmark_others x l : x ∉ ((λ b, b.1.1) <$> l : list uuid) → unmark x <$> l = l.
Proof.
  intros Hx. rewrite <- (list_fmap_id l) at 2. apply list_fmap_ext. intros i b Hb. unfold unmark.
  case_decide; [|done]. destruct Hx. apply list_elem_of_fmap. eauto using list_elem_of_lookup_2.
Qed.

Lemma length_voters_unmark x i l :
  NoDup ((λ b, b.1.1) <$> l : list uuid) → (x, i, true) ∈ l →
  length (voters l) = S (length (voters (unmark x <$> l))).
Proof.
  induction l as [|[[y k] v] l IH]; [by intros _ ?%elem_of_nil|].
  rewrite fmap_cons, NoDup_cons. simpl. intros [Hy HN] [E | Hx]%elem_of_cons.
  - simplify_eq. unfold voters, unmark at 1. simpl. rewrite decide_True by done.
    rewrite (filter_cons_False _ (y, _, false)) by done.
    change (list_fmap _ _ (unmark y) l) with (unmark y <$> l). rewrite unmark_others by done. done.
  - assert (x ≠ y).
    { intros ->. destruct Hy. apply list_elem_of_fmap. by exists (y, i, true). }
    specialize (IH HN Hx). unfold voters in *. unfold unmark at 1. simpl.
    rewrite decide_False by done.
    destruct v; [rewrite !filter_cons_True by done | rewrite !filter_cons_False by done];
      [simpl; f_equal|]; exact IH.
Qed.

Definition drop_vote (x : uuid) (v : vote_state) : vote_state :=
  {| vs_me := vs_me v; vs_role := vs_role v; vs_term := vs_term v; vs_vote := vs_vote v;
     vs_leader := vs_leader v; vs_count := vs_count v - 1; vs_members := unmark x <$> vs_members v;
     vs_active := vs_active v; vs_member := vs_member v; vs_rx := vs_rx v;
     vs_to_commit_rx := vs_to_commit_rx v; vs_wire := vs_wire v; vs_pending := vs_pending v |}.

Lemma drop_vote_ok sent x i v :
  node_ok sent v → (x, i, true) ∈ vs_members v → node_ok sent (drop_vote x v).
Proof.
  intros [] Hb. split; simpl; auto.
  - etrans; [|exact ok_members]. rewrite <- list_fmap_compose. apply list_fmap_ext. intros _ b _.
    unfold unmark. simpl. by case_decide.
  - intros b (b' & -> & Hb')%list_elem_of_fmap. apply ok_is_me in Hb'. unfold unmark.
    by destruct (decide (b'.1.1 = x)).
  - intros HR. rewrite ok_count by done.
    rewrite (length_voters_unmark x i (vs_members v)) by (rewrite ?ok_members; done). lia.
  - intros HR. destruct (ok_candidate HR) as (HL & HS & HC). split_and!; [done | done |].
    intros j [k ([[y k'] w] & E & Hy)%list_elem_of_fmap]%elem_of_voters. apply HC, elem_of_voters.
    unfold unmark in E. simpl in E. case_decide; simplify_eq. eauto.
Qed.

Lemma view_drop_vote x s :
  view (set_n_peers_voted_for_me (n_peers_voted_for_me s - 1) (on_member x (set_is_vote_valid false) s))
  = drop_vote x (view s).
Proof.
  unfold drop_vote, view, on_member. simpl. f_equal. rewrite <- !list_fmap_compose.
  apply list_fmap_ext. intros _ p _. unfold unmark, ballot. simpl. by case_decide.
Qed.

Lemma upd_vote_valid_ok sent e p s :
  node_ok sent (view s) → ballot p ∈ vs_members (view s) →
  let s' := leader_upd_is_vote_valid e p s in
  node_ok sent (view s') ∧ same_role s s' ∧
  ∀ q, m_uuid q ≠ m_uuid p → ballot q ∈ vs_members (view s) → ballot q ∈ vs_members (view s').
Proof.
  intros Hok Hp s'.
  assert (Hs : view s' = view s ∨ is_vote_valid p = true ∧ view s' = drop_vote (m_uuid p) (view s)).
  { unfold s', leader_upd_is_vote_valid.
    destruct (is_alive_for_topo p && _); [rewrite view_on_member by done|];
      (destruct (is_vote_valid p && _) eqn:E; [right | by left]);
      apply andb_prop in E as [E _]; (split; [done | apply view_drop_vote]). }
  destruct Hs as [Hs | [Hv Hs]]; rewrite Hs.
  - split_and!; [done | by apply view_same_role | done].
  - unfold ballot in Hp. rewrite Hv in Hp. split_and!.
    + by apply (drop_vote_ok _ _ (is_me p)).
    + revert Hs. intros [=]. by unfold same_role.
    + intros q Hq Hb. simpl. apply list_elem_of_fmap. exists (ballot q). split; [|done].
      unfold unmark. simpl. by rewrite decide_False.
Qed.

Lemma member_uuids sent s : node_ok sent (view s) → m_uuid <$> raft_members s = M.
Proof. intros Hok. etrans; [|exact (ok_members _ _ _ Hok)]. simpl. by rewrite <- list_fmap_compose. Qed.

Lemma check_all_peers_ok sent e s :
  node_ok sent (view s) →
  let s' := raft_leader_check_validity_of_all_peers e s in
  node_ok sent (view s') ∧ same_role s s'.
Proof.
  intros Hok. unfold raft_leader_check_validity_of_all_peers.
  assert (HN : NoDup (m_uuid <$> raft_members s)).
  { by rewrite (member_uuids sent). }
  assert (HB : ∀ q, q ∈ raft_members s → ballot q ∈ vs_members (view s)).
  { intros q Hq. apply list_elem_of_fmap. eauto. }
  revert HN HB. generalize (raft_members s) as l. intros l. revert s Hok.
  induction l as [|p l IH]; intros s Hok; simpl; [done|].
  rewrite NoDup_cons. intros [Hp HN] HB. destruct (is_me p).
  { apply IH; [done | done |]. intros q Hq. apply HB. by right. }
  destruct (upd_vote_valid_ok sent e p s Hok (HB p ltac:(by left))) as (H1 & S1 & B1).
  destruct (IH _ H1 HN) as [H2 S2].
  - intros q Hq. apply B1; [|apply HB; by right]. intros E. destruct Hp. rewrite <- E.
    apply list_elem_of_fmap. eauto.
  - split; [done|]. eapply same_role_trans; eauto.
Qed.

Lemma leader_timeout_keeps sent e s :
  node_ok sent (view s) → role s = RAFT_ROLE_LEADER →
  let r := raft_leader_timeout merge e s in
  keeps sent s r ∨ (role r.1 = RAFT_ROLE_FOLLOWER ∧ current_term r.1 = current_term s).
Proof.
  intros Hok HR. unfold raft_leader_timeout. rewrite bool_decide_eq_true_2 by done.
  destruct (check_all_peers_ok sent e s Hok) as [H1 S1]. destruct S1 as (Hm & Hr & Ht).
  destruct (send_to_all_peers sent e true (raft_leader_check_validity_of_all_peers e s))
    as [[H2 S2] | (_ & H2 & T2)]; [done | congruence | left | right].
  - split; [done|]. eapply same_role_trans; [|exact S2]. by split_and!.
  - split; [done | congruence].
Qed.

(* ------------------------------------------------------------------ *)
(** ** Becoming a leader *)

Definition as_leader (v : vote_state) : vote_state :=
  {| vs_me := vs_me v; vs_role := RAFT_ROLE_LEADER; vs_term := vs_term v; vs_vote := vs_me v;
     vs_leader := vs_me v; vs_count := vs_count v; vs_members := vs_members v;
     vs_active := vs_active v; vs_member := vs_member v; vs_rx := vs_rx v;
     vs_to_commit_rx := vs_to_commit_rx v; vs_wire := None; vs_pending := vs_pending v |}.

Lemma as_leader_ok sent v :
  node_ok sent v → vs_role v = RAFT_ROLE_CANDIDATE → won sent (vs_me v) (vs_term v) →
  node_ok sent (as_leader v).
Proof.
  intros [] HR HW. destruct (ok_candidate HR) as (_ & HS & _). split; simpl; auto; [|done|done|].
  - intros _. apply ok_count. by rewrite HR.
  - intros c Hc. left. eauto.
Qed.

Lemma convert_to_leader_ok sent e s :
  node_ok sent (view s) →
  role s = RAFT_ROLE_LEADER ∨
    role s = RAFT_ROLE_CANDIDATE ∧ won sent (my_uuid s) (current_term s) →
  let r := nvmeibt_raft_convert_to_leader merge e s in
  node_ok (sent ++ r.2) (view r.1) ∧ role r.1 = RAFT_ROLE_LEADER ∧ current_term r.1 = current_term s.
Proof.
  intros Hok Hr. unfold nvmeibt_raft_convert_to_leader. case_bool_decide as HL; simpl.
  { by rewrite app_nil_r. }
  destruct Hr as [Hr | [HR HW]]; [done|].
  set (s1 := set_leader_uuid _ _).
  assert (Hv : view s1 = as_leader (view s)).
  { unfold s1, serialize_conf_and_topo_if_needed. case_match; unfold view, as_leader; simpl; f_equal;
      rewrite <- !list_fmap_compose; by apply list_fmap_ext. }
  destruct (send_to_all_peers sent e false s1) as [[H1 (_ & Hrole & Ht)] | [? _]]; [| done | | done].
  - rewrite Hv. by apply as_leader_ok.
  - split_and!; [done | done|]. rewrite Ht. by injection Hv.
Qed.

(* ------------------------------------------------------------------ *)
(** ** Becoming a candidate *)

Definition as_candidate (v : vote_state) : vote_state :=
  {| vs_me := vs_me v; vs_role := RAFT_ROLE_CANDIDATE; vs_term := vs_term v + 1; vs_vote := vs_me v;
     vs_leader := uuid_null; vs_count := 0; vs_members := (λ b, (b.1, false)) <$> vs_members v;
     vs_active := vs_active v; vs_member := vs_member v; vs_rx := vs_rx v;
     vs_to_commit_rx := vs_to_commit_rx v; vs_wire := Some (vs_term v + 1); vs_pending := vs_pending v |}.

(** The requests of a new candidate *)
Definition asks (u : uuid) (t : Z) (m : raft_msg) : Prop :=
  msg_type m = RAFT_MSG_REQ_VOTE ∧ src_node_id m = u ∧ dst_node_id m ≠ u ∧
  msg_current_term m = t ∧ rc_last_rx_term (buf_raft_ctx (persist_and_wire_buf m)) = t.

Lemma as_candidate_ok sent o v :
  node_ok sent v → o ≠ [] → (∀ m, m ∈ o → asks (vs_me v) (vs_term v + 1) m) →
  vs_pending v = None → node_ok (sent ++ o) (as_candidate v).
Proof.
  intros Hok Ho Ha Hp. pose proof (λ t c, cast_term _ sent v t c Hok) as Hct.
  assert (Hme : vs_me v ≠ uuid_null) by (intros E; destruct (ok_member _ _ _ Hok) as [_ H]; congruence).
  assert (Hnew : ∀ t c, cast o (vs_me v) t c → t = vs_term v + 1 ∧ c = vs_me v).
  { intros t c (m & Hm & Hs & <- & Hv). destruct (Ha m Hm) as (Ht & _ & _ & -> & _). split; [done|].
    destruct Hv as [[_ ->] | [E _]]; congruence. }
  assert (Hc : ∀ t c, cast (sent ++ o) (vs_me v) t c →
    cast sent (vs_me v) t c ∧ t ≤ vs_term v ∨ t = vs_term v + 1 ∧ c = vs_me v).
  { intros t c [H | H]%cast_app; [left | right; auto]. split; [done|]. by apply (Hct t c). }
  assert (Hnone : voters ((λ b, (b.1, false)) <$> vs_members v) = []).
  { apply elem_of_nil_inv. intros j [i ([b w] & E & _)%list_elem_of_fmap]%elem_of_voters. done. }
  destruct Hok. split; simpl; auto; rewrite ?Hnone; try done; try lia.
  - rewrite <- list_fmap_compose. done.
  - intros b (b' & -> & Hb')%list_elem_of_fmap. exact (ok_is_me b' Hb').
  - intros _. split_and!; [done | | by intros j ?%elem_of_nil].
    destruct o as [|m o]; [done|]. destruct (Ha m) as (Ht & Hs & _ & Hmt & _); [by left|].
    apply cast_app. right. exists m. split_and!; [by left | done | done |]. left. auto.
  - intros m [Hm | Hm]%elem_of_app Hs.
    + eapply sent_ok_mono; [|by apply ok_sent]. lia.
    + destruct (Ha m Hm) as (Ht & _ & Hd & Hmt & Hrx). unfold sent_ok. rewrite Ht, Hmt, Hrx.
      split_and!; try done. intros c [[_ ->] | [E _]]; congruence.
  - intros c [[_ ?] | [_ ->]]%Hc; [lia | by left].
  - intros t a c [[H1 ?] | [? ->]]%Hc [[H2 ?] | [? ->]]%Hc; try lia; eauto.
  - intros w Hw. congruence.
Qed.

(** A request to every other member *)
Lemma send_each_asks e f forced l s :
  is_HW_config_functional e = true → (∀ u, u ∈ l → u ≠ my_uuid s) →
  rc_last_rx_term (buf_raft_ctx (leader_wire_buf s)) = current_term s →
  ∃ o, send_each (λ u s, raft_send_msg_to_peer e f RAFT_MSG_REQ_VOTE u false false forced (leader_wire_buf s) s)
         l s = (s, o) ∧ (l ≠ [] → o ≠ []) ∧ ∀ m, m ∈ o → asks (my_uuid s) (current_term s) m.
Proof.
  intros Hhw Hl Hb. induction l as [|u l IH]; simpl.
  { exists []. split_and!; [done | done | by intros m ?%elem_of_nil]. }
  destruct IH as (o & Ho & _ & Ha); [intros v Hv; apply Hl; by right|].
  unfold raft_send_msg_to_peer at 1. rewrite Hhw. simpl. rewrite decide_False by (apply Hl; by left).
  rewrite Ho. eexists. split_and!; [done | done|]. intros m [-> | Hm]%elem_of_cons; [|auto].
  unfold asks. simpl. split_and!; try done. apply Hl. by left.
Qed.

End election.
