(* ===== verification/RaftSafety.v ===== *)
(** Election safety: under every schedule that keeps the conditions of
    [orderly], no two nodes lead in the same term.  [two_leaders_in_one_term]
    and [votes_are_lost] run the code without one of the conditions. *)

From stdpp Require Import base list numbers sets.
From Stdlib Require Import ZArith Lia.
From S2P Require Import Prelude Raft RaftCluster RaftVotes RaftElection.

Local Open Scope Z_scope.

Local Opaque wrap.

Section handlers.

Context (M : list uuid) (M_nodup : NoDup M) (M_null : uuid_null ∉ M) (M_two : (2 ≤ length M)%nat).
Context (merge : indices → indices → option indices).

Local Notation node_ok := (node_ok M).
Local Notation keeps := (keeps M).
Local Notation won := (won M).

(* ------------------------------------------------------------------ *)
(** ** Timeouts *)

Lemma no_leader_ok sent s :
  node_ok sent (view s) → role s ≠ RAFT_ROLE_LEADER → node_ok sent (view (set_leader_uuid uuid_null s)).
Proof.
  intros [] HR. split; simpl in *; auto; [|done].
  intros HC. destruct (ok_candidate HC) as (_ & ? & ?). auto.
Qed.

(** The members other than the own node *)
Lemma other_members sent s :
  node_ok sent (view s) →
  let l := m_uuid <$> filter (λ p, is_me p = false) (raft_members s) in
  l ≠ [] ∧ ∀ u, u ∈ l → u ≠ my_uuid s.
Proof.
  intros Hok l. pose proof (member_uuids _ _ _ Hok) as HM.
  assert (Hme : ∀ p, p ∈ raft_members s → is_me p = bool_decide (m_uuid p = my_uuid s)).
  { intros p Hp. apply (ok_is_me _ _ _ Hok (ballot p)). apply list_elem_of_fmap. eauto. }
  split.
  - assert (∃ u, u ∈ M ∧ u ≠ my_uuid s) as (u & Hu & Hn).
    { clear HM Hok. destruct M as [|a [|b l']]; simpl in M_two; [lia | lia|].
      apply NoDup_cons in M_nodup as [Ha _]. destruct (decide (a = my_uuid s)) as [->|].
      - exists b. split; [right; by left|]. intros ->. apply Ha. by left.
      - exists a. split; [by left | done]. }
    rewrite <- HM in Hu. apply list_elem_of_fmap in Hu as (p & -> & Hp).
    intros E. apply (not_elem_of_nil (m_uuid p)). rewrite <- E. unfold l. apply list_elem_of_fmap. exists p.
    split; [done|]. apply list_elem_of_filter. split; [|done]. rewrite Hme by done.
    by apply bool_decide_eq_false.
  - intros u (p & -> & [Hp Hin]%list_elem_of_filter)%list_elem_of_fmap. rewrite Hme in Hp by done.
    by apply bool_decide_eq_false in Hp.
Qed.

(** The votes of a context step by step on the way to a candidate *)
Definition clear_votes (v : vote_state) : vote_state :=
  {| vs_me := vs_me v; vs_role := vs_role v; vs_term := vs_term v; vs_vote := vs_vote v;
     vs_leader := vs_leader v; vs_count := 0; vs_members := (λ b, (b.1, false)) <$> vs_members v;
     vs_active := vs_active v; vs_member := vs_member v; vs_rx := vs_rx v;
     vs_to_commit_rx := vs_to_commit_rx v; vs_wire := vs_wire v; vs_pending := vs_pending v |}.

Lemma view_reset_votes s : view (raft_reset_voted_for_me s) = clear_votes (view s).
Proof. unfold view, clear_votes. simpl. f_equal. by rewrite <- !list_fmap_compose. Qed.

Lemma view_reset_to_leader e s : view (reset_due_to_convert_to_leader e s) = view s.
Proof. done. Qed.

(** Buffers that were asked for *)
Lemma regenerate_marked e s :
  let s' := regenerate_as_needed e (mark_update_required s) in
  view s' = with_wire (Some (current_term s)) (view s) ∧ current_term s' = current_term s ∧
  rc_last_rx_term (buf_raft_ctx (leader_wire_buf s')) = current_term s ∧ raft_members s' = raft_members s ∧
  my_uuid s' = my_uuid s.
Proof. done. Qed.

Lemma view_new_term s t u l :
  view (set_voted_for_uuid u (set_raft_role RAFT_ROLE_CANDIDATE (set_current_term t (set_leader_uuid l s)))) =
  {| vs_me := my_uuid s; vs_role := RAFT_ROLE_CANDIDATE; vs_term := t; vs_vote := u; vs_leader := l;
     vs_count := n_peers_voted_for_me s; vs_members := ballot <$> raft_members s;
     vs_active := n_raft_active_members s; vs_member := my_member s;
     vs_rx := last_rx_append_entries_term s;
     vs_to_commit_rx := rc_last_rx_term (buf_raft_ctx (follower_to_commit s));
     vs_wire := wire_term s; vs_pending := pending_vote s |}.
Proof. done. Qed.

Lemma candidate_ok sent e forced s :
  node_ok sent (view s) → role s ≠ RAFT_ROLE_LEADER → pending_vote s = None →
  current_term s + 1 < 2 ^ 64 →
  let r := raft_convert_to_candidate merge e forced s in
  node_ok (sent ++ r.2) (view r.1).
Proof.
  intros Hok HR Hp Ht. unfold raft_convert_to_candidate.
  case_match; [simpl; by rewrite app_nil_r|].
  destruct (is_HW_config_functional e) eqn:Hhw; cbn [negb]; [|simpl; by rewrite app_nil_r].
  pose proof (no_leader_ok _ _ Hok HR) as Hok0.
  case_match; [simpl; by rewrite app_nil_r|].
  pose proof (proj1 (ok_member _ _ _ Hok)) as Hmm. simpl in Hmm. change (my_member (set_raft_role RAFT_ROLE_CANDIDATE (set_current_term
    (u64 (current_term (set_leader_uuid uuid_null s) + 1)) (set_leader_uuid uuid_null s)))) with (my_member s).
  rewrite Hmm. cbn [negb].
  pose proof (ok_term _ _ _ Hok) as Hterm. simpl in Hterm.
  set (s2 := reset_due_to_convert_to_leader e _).
  assert (Ht2 : current_term s2 = current_term s + 1) by (apply wrap_small; lia).
  destruct (regenerate_marked e s2) as (Hv3 & Ht3 & Hb3 & Hm3 & Hu3).
  set (s3 := regenerate_as_needed e (mark_update_required s2)) in *. rewrite Ht2 in Ht3, Hb3.
  change (raft_members s2) with (raft_members s) in Hm3. change (my_uuid s2) with (my_uuid s) in Hu3.
  destruct (other_members _ _ Hok) as [Hl Hn].
  destruct (send_each_asks e (dispatch_append merge e) forced
    (m_uuid <$> filter (λ p, is_me p = false) (raft_members s)) s3 Hhw) as (o & Ho & Hone & Ha);
    [by rewrite Hu3 | congruence |].
  rewrite Hm3, Ho. specialize (Hone Hl).
  set (s4 := raft_reset_voted_for_me s3).
  assert (Hv4 : view s4 = as_candidate (view s)).
  { unfold s4. rewrite view_reset_votes, Hv3, Ht2. unfold s2. rewrite view_reset_to_leader, view_new_term.
    change (current_term (set_leader_uuid uuid_null s)) with (current_term s).
    rewrite wrap_small by lia. reflexivity. }
  assert (Hok4 : node_ok (sent ++ o) (view s4)).
  { rewrite Hv4. apply as_candidate_ok; [done..| |done]. intros m Hm. simpl. rewrite <- Ht3, <- Hu3. by apply Ha. }
  assert (Hok5 : node_ok (sent ++ o) (view (leader_handle_new_vote e (my_uuid s3) s4))).
  { apply new_vote_ok; [done..|]. intros HC. by destruct (ok_candidate _ _ _ Hok4 HC) as (_ & ? & _). }
  destruct (view_new_vote e (my_uuid s3) s4) as (Hr5 & _).
  unfold new_vote_majority. destruct (is_raft_majority _) eqn:Hmaj; [|done].
  set (s5 := set_last_time_leader_had_a_majority _ _).
  destruct (convert_to_leader_ok M M_nodup merge (sent ++ o) e s5) as [H6 _]; [done | |].
  { right. split; [exact Hr5|]. by apply (majority_won M M_nodup _ s5). }
  destruct (nvmeibt_raft_convert_to_leader merge e s5) as [s6 o']. simpl in *. by rewrite app_assoc.
Qed.

(** A leader that leaves its role does so in a higher term. *)
Definition no_step_down (s s' : raft_ctx) : Prop :=
  role s = RAFT_ROLE_LEADER → role s' = RAFT_ROLE_LEADER ∨ current_term s < current_term s'.

Lemma timeout_ok sent e forced s :
  node_ok sent (view s) → current_term s + 1 < 2 ^ 64 →
  let r := nvmeibt_raft_timeout_occurred merge e forced s in
  no_step_down s r.1 → node_ok (sent ++ r.2) (view r.1).
Proof.
  intros Hok Ht. unfold nvmeibt_raft_timeout_occurred, no_step_down.
  case_bool_decide as HR; [case_match|].
  - intros HS. destruct (leader_timeout_keeps M M_nodup M_null merge sent e s Hok HR) as [[? _] | [HF HT]]; [done|].
    destruct (HS HR) as [E | E]; [congruence | lia].
  - intros _. simpl. by rewrite app_nil_r.
  - intros _. case_match; [|simpl; by rewrite app_nil_r].
    destruct (did_pselect_allow_time e && _) eqn:Hp; [|simpl; by rewrite app_nil_r].
    apply candidate_ok; [done | done | | done].
    apply andb_prop in Hp as [_ Hp]. apply negb_true_iff, orb_false_iff in Hp as [_ Hp].
    apply bool_decide_eq_false, eq_None_not_Some in Hp. unfold pending_vote. by rewrite Hp.
Qed.

(* ------------------------------------------------------------------ *)
(** ** Messages *)

Lemma req_vote_rep_ok sent e m s :
  node_ok sent (view s) →
  (role s = RAFT_ROLE_CANDIDATE → is_vote_granted m = true →
     cast sent (src_node_id m) (current_term s) (my_uuid s)) →
  let r := raft_handle_req_vote_rep merge e m s in
  node_ok (sent ++ r.2) (view r.1).
Proof.
  intros Hok Hc. unfold raft_handle_req_vote_rep.
  assert (Hnil : node_ok (sent ++ []) (view s)) by (by rewrite app_nil_r).
  case_bool_decide as HF; [done|]. destruct (get_member _ s) as [p|]; [|done].
  destruct (is_vote_granted m) eqn:Hg; [|done].
  set (s1 := leader_process_peer_msg_data _ p s).
  set (s2 := match get_member (src_node_id m) s1 with Some _ => _ | None => s1 end).
  assert (Hv1 : view s1 = view s) by apply view_process_data.
  assert (Hv2 : view s2 = view s) by (unfold s2; case_match; by rewrite ?view_update_committed).
  clearbody s2. clear Hv1 s1. pose proof (view_same_role _ _ Hv2) as (Hme & Hr & Ht).
  assert (Hok3 : node_ok sent (view (leader_handle_new_vote e (src_node_id m) s2))).
  { apply new_vote_ok; [done | by rewrite Hv2 |]. rewrite Hme, Hr, Ht. auto. }
  destruct (view_new_vote e (src_node_id m) s2) as (Hr3 & _). simpl in Hr3.
  unfold new_vote_majority. destruct (is_raft_majority _) eqn:Hmaj; [|by rewrite app_nil_r].
  set (s4 := set_last_time_leader_had_a_majority _ _).
  apply (convert_to_leader_ok M M_nodup merge sent e s4); [done|].
  change (role s4) with (role (leader_handle_new_vote e (src_node_id m) s2)).
  destruct (role s) eqn:HR; [left; congruence | right | done].
  split; [congruence|]. apply (majority_won M M_nodup sent s4); [done| |done].
  change (role (leader_handle_new_vote e (src_node_id m) s2) = RAFT_ROLE_CANDIDATE). congruence.
Qed.

Lemma req_vote_ok sent e m s :
  node_ok sent (view s) → last_rx_append_entries_term s ≠ msg_current_term m →
  rc_last_rx_term (buf_raft_ctx (persist_and_wire_buf m)) = msg_current_term m →
  src_node_id m ≠ uuid_null → src_node_id m ≠ my_uuid s →
  let r := raft_handle_req_vote merge e m s in
  node_ok (sent ++ r.2) (view r.1).
Proof.
  intros Hok Hrx Hb H0 Hme. unfold raft_handle_req_vote.
  destruct (raft_follower_persist_due_to_incoming_msg merge e m true s) as [s1 rv] eqn:Hp.
  apply (persist_vote_ok M _ sent) in Hp as (Hok1 & (Hm1 & _) & Hrv); try done.
  set (s2 := match rv with REP_RV_FALSE | REP_RV_INVALID => s1 | _ => _ end).
  assert (Hv2 : view s2 = view s1) by (unfold s2; by destruct rv).
  pose proof (view_same_role _ _ Hv2) as (Hm2 & _).
  assert (Hsend : rv ≠ REP_RV_TRUE → keeps sent s2
    (raft_send_msg_to_peer e (dispatch_any_rep merge e) RAFT_MSG_REQ_VOTE_REP (src_node_id m)
       (bool_decide (rv = REP_RV_TRUE)) false false (follower_to_leader s2) s2)).
  { intros Hn. apply send_keeps; [by rewrite Hv2 | congruence |].
    intros _ m' (Ht & _ & _ & _ & Hg & _). refine (conj _ (conj _ _)); [done | by intros [] |].
    rewrite bool_decide_eq_false_2 in Hg by done. intros c [[? _] | (_ & ? & _)]; congruence. }
  assert (Hnil : node_ok (sent ++ []) (view s2)) by (by rewrite app_nil_r, Hv2).
  clearbody s2. destruct rv; try done; by apply Hsend.
Qed.

(** What is known of a message that was sent *)
Definition msg_ok (sent : list raft_msg) (s : raft_ctx) (m : raft_msg) : Prop :=
  (src_node_id m = my_uuid s → dst_node_id m ≠ my_uuid s ∧ msg_current_term m ≤ current_term s) ∧
  src_node_id m ≠ uuid_null ∧
  (msg_type m = RAFT_MSG_APPEND_ENTRIES ∨ msg_type m = RAFT_MSG_REQ_VOTE →
     rc_last_rx_term (buf_raft_ctx (persist_and_wire_buf m)) = msg_current_term m) ∧
  (msg_type m = RAFT_MSG_REQ_VOTE_REP → is_vote_granted m = true →
     cast sent (src_node_id m) (msg_current_term m) (dst_node_id m)).

Lemma view_follower a l s :
  view (raft_convert_to_follower a l s) = as_follower (current_term s) a l 0 (view s).
Proof. done. Qed.

(** Taking over a higher term *)
Definition take_term (e : env) (m : raft_msg) (s : raft_ctx) : raft_ctx :=
  let higher := current_term s <? msg_current_term m in
  let s' := if negb higher then s
            else
              let s := set_current_term (msg_current_term m) s in
              if bool_decide (msg_type m = RAFT_MSG_APPEND_ENTRIES_REP)
                 && bool_decide (role s = RAFT_ROLE_LEADER)
              then set_next_election_time (now e + heartbeat_ns e) s else s in
  if higher && negb (bool_decide (leader_uuid s = src_node_id m))
  then raft_convert_to_follower uuid_null uuid_null s' else s'.

Lemma take_term_ok sent e m s :
  node_ok sent (view s) → msg_ok sent s m →
  let s' := take_term e m s in
  node_ok sent (view s') ∧ my_uuid s' = my_uuid s ∧
  last_rx_append_entries_term s' = last_rx_append_entries_term s ∧
  (s' = s ∧ msg_current_term m ≤ current_term s ∨
   role s' = RAFT_ROLE_FOLLOWER ∧ current_term s < current_term s').
Proof.
  intros Hok (Hself & H0 & _). unfold take_term.
  destruct (Z.ltb_spec (current_term s) (msg_current_term m)) as [Ht|Ht]; cbn [negb andb];
    [|by split_and!; auto].
  set (s1 := set_current_term (msg_current_term m) s).
  set (s2 := if _ && _ then _ else s1).
  assert (Hv2 : view s2 = view s1) by (unfold s2; by case_match). clearbody s2.
  assert (Hok' : ∀ a l n, node_ok sent (as_follower (msg_current_term m) a l n (view s))).
  { intros. apply as_follower_ok; [done | simpl; lia | simpl; lia]. }
  assert (Hf : my_uuid s2 = my_uuid s ∧ last_rx_append_entries_term s2 = last_rx_append_entries_term s ∧
    current_term s2 = msg_current_term m ∧ role s2 = role s).
  { revert Hv2. unfold s1. intros [=]. auto. }
  destruct Hf as (Hf1 & Hf2 & Hf3 & Hf4).
  case_bool_decide as HL; cbn [negb].
  - assert (HR : role s = RAFT_ROLE_FOLLOWER).
    { destruct (role s) eqn:HR; [| |done].
      - destruct (ok_leader _ _ _ Hok HR) as [E _]. simpl in E. destruct Hself; [congruence | lia].
      - destruct (ok_candidate _ _ _ Hok HR) as [E _]. simpl in E. congruence. }
    split_and!; [|done|done|].
    + specialize (Hok' (voted_for_uuid s) (leader_uuid s) (n_peers_voted_for_me s)).
      rewrite Hv2. unfold view in *. simpl in *. by rewrite HR.
    + right. split; [congruence | lia].
  - split_and!; [|done|done|right; split; [done | simpl; lia]].
    rewrite view_follower, Hv2, Hf3. apply (Hok' uuid_null uuid_null 0).
Qed.

Lemma dispatch_ok sent e m s0 s :
  node_ok sent (view s) → msg_ok sent s m → dst_node_id m = my_uuid s →
  last_rx_append_entries_term s ≤ msg_current_term m →
  (msg_type m = RAFT_MSG_REQ_VOTE_REP → role s = RAFT_ROLE_CANDIDATE → msg_current_term m = current_term s) →
  (msg_type m = RAFT_MSG_REQ_VOTE → last_rx_append_entries_term s ≠ msg_current_term m) →
  (role s = RAFT_ROLE_LEADER → s0 = s) →
  let r := dispatch_raft_msg merge e m s in
  no_step_down s0 r.1 → node_ok (sent ++ r.2) (view r.1).
Proof.
  intros Hok (Hself & H0 & Hb & Hg) Hd Hrx Hrep Hreq HL.
  assert (Hsrc : src_node_id m ≠ my_uuid s) by (intros E; by destruct (Hself E)).
  unfold dispatch_raft_msg. cbv zeta. destruct (from_member_cases m (λ s,
    match msg_type m with
    | RAFT_MSG_REQ_VOTE => raft_handle_req_vote merge e m s
    | RAFT_MSG_REQ_VOTE_REP => raft_handle_req_vote_rep merge e m s
    | RAFT_MSG_APPEND_ENTRIES => raft_handle_append_entries merge e m s
    | RAFT_MSG_APPEND_ENTRIES_REP => (raft_handle_append_entries_rep e m s, [])
    end) s) as (s1 & Hv & [-> | ->]); [simpl; by rewrite app_nil_r, Hv|].
  pose proof (view_same_role _ _ Hv) as (Hme & Hr & Ht).
  assert (Hrx1 : last_rx_append_entries_term s1 = last_rx_append_entries_term s)
    by (revert Hv; by intros [=]).
  rewrite <- Hv in Hok. destruct (msg_type m) eqn:Hm.
  - intros _. apply req_vote_ok; [done | rewrite Hrx1; auto | auto | done | congruence].
  - intros _. apply req_vote_rep_ok; [done|]. rewrite Hr, Hme, Ht, <- Hd. intros HC HG.
    rewrite <- (Hrep eq_refl HC). auto.
  - intros _. apply (append_entries_ok M M_nodup merge sent e m s1); [done | by rewrite Hrx1 | auto | congruence].
  - destruct (is_vote_granted m) eqn:HG.
    + intros _. by apply append_rep_ok.
    + destruct (append_rep_refused e m s1 HG) as [-> | [HR ->]]; [intros; simpl; by rewrite app_nil_r|].
      intros HS. rewrite HL in HS by congruence. destruct HS as [? | HS]; [congruence | done |].
      simpl in HS. lia.
Qed.

Lemma incoming_ok sent e m s :
  node_ok sent (view s) → msg_ok sent s m →
  (msg_type m = RAFT_MSG_REQ_VOTE_REP → role s = RAFT_ROLE_CANDIDATE → current_term s ≤ msg_current_term m) →
  (msg_type m = RAFT_MSG_REQ_VOTE → last_rx_append_entries_term s ≠ msg_current_term m) →
  let r := nvmeibt_raft_handle_incoming_message merge e m s in
  no_step_down s r.1 → node_ok (sent ++ r.2) (view r.1).
Proof.
  intros Hok Hm Hrep Hreq. unfold nvmeibt_raft_handle_incoming_message. cbv zeta.
  assert (Hnil : node_ok (sent ++ []) (view s)) by (by rewrite app_nil_r).
  destruct (is_in_paused e); [done|]. case_match; [done|].
  fold (take_term e m s).
  destruct (take_term_ok sent e m s Hok Hm) as (Hok1 & Hme & Hrx & Hcase).
  set (s1 := take_term e m s) in *. destruct (is_incoming_msg_valid e m s1) eqn:Hval; [|by rewrite app_nil_r].
  unfold is_incoming_msg_valid in Hval. repeat setoid_rewrite andb_true_iff in Hval.
  destruct Hval as (((((_ & Hd%bool_decide_eq_true) & Hl%negb_true_iff%Z.ltb_ge) & _) & _) & _).
  apply dispatch_ok; [done | | done | done | | by rewrite Hrx |].
  - destruct Hm as (Hself & ?). split; [|done]. rewrite Hme. intros E. destruct (Hself E) as [H1 H2].
    split; [done|]. destruct Hcase as [[-> _] | [_ ?]]; lia.
  - intros HT HR. destruct Hcase as [[E ?] | [E _]]; [|congruence]. rewrite E in HR |- *.
    specialize (Hrep HT HR). lia.
  - intros HR. destruct Hcase as [[E ?] | [E _]]; congruence.
Qed.

(* ------------------------------------------------------------------ *)
(** ** The end of a save, and a restart *)

Lemma any_rep_keeps sent e m s :
  node_ok sent (view s) → msg_type m = RAFT_MSG_APPEND_ENTRIES_REP → is_vote_granted m = true →
  keeps sent s (dispatch_any_rep merge e m s).
Proof.
  intros Hok Hm Hg. apply from_member_keeps; [done|]. intros s1 Hv. rewrite Hm.
  apply append_rep_ok; [done | by rewrite Hv | done].
Qed.

Lemma store_ok sent e ok s :
  node_ok sent (view s) →
  (∀ b, pending_store s = Some (b, true) → rc_voted_for (buf_raft_ctx b) = voted_for_uuid s) →
  let r := store_finalize merge e ok s in
  node_ok (sent ++ r.2) (view r.1).
Proof.
  intros Hok Hpv. unfold store_finalize.
  destruct (pending_store s) as [[b req]|] eqn:Hp; [|simpl; by rewrite app_nil_r].
  assert (Hok' : node_ok sent (with_vote (voted_for_uuid s) (vs_to_commit_rx (view s)) None (view s))).
  { apply with_vote_ok; [done | apply (ok_to_commit _ _ _ Hok) | apply (ok_vote _ _ _ Hok) | done]. }
  destruct ok.
  2:{ simpl. rewrite app_nil_r. case_match; exact Hok'. }
  cbv zeta. set (s1 := set_pending_store None _). assert (Hok1 : node_ok sent (view s1)) by exact Hok'.
  unfold try_to_send_spurious_rep. case_decide as Hn; [simpl; by rewrite app_nil_r|].
  cbv zeta. set (s2 := nvmeibt_topology_serialize_active_topology e s1).
  assert (Hv2 : view s2 = view s1) by apply view_serialize.
  destruct (is_applied_topo_ready_and_different e || is_members_unsent e); [|simpl; by rewrite app_nil_r, Hv2].
  assert (Hf : my_uuid s2 = my_uuid s ∧ current_term s2 = current_term s ∧
    voted_for_uuid s2 = voted_for_uuid s ∧ pending_vote s2 = None).
  { revert Hv2. clearbody s2. intros [=]. auto. }
  destruct Hf as (Hme & Ht & Hvote & Hpend). clearbody s2. rewrite <- Hv2 in Hok1.
  apply send_keeps; [done| |].
  - intros Hd s3 m Hv3 (Hm & _ & _ & _ & Hg & _).
    assert (req = false) as ->.
    { destruct req; [|done]. exfalso. rewrite Hme in Hd.
      assert (vs_pending (view s) = Some (rc_voted_for (buf_raft_ctx b))) as Hq
        by (simpl; unfold pending_vote; by rewrite Hp).
      destruct (ok_pending _ _ _ Hok _ Hq) as (_ & Hneq & _). by apply Hneq. }
    apply any_rep_keeps; [by rewrite Hv3 | done | done].
  - intros _ m (Hm & Hs & Hd & _). rewrite Hme, Ht, Hvote.
    refine (conj _ (conj _ _)); [by destruct req | by destruct req; intros [] |].
    intros c [[E _] | (E & _ & ->)]; [destruct req; congruence|]. destruct req; [|congruence].
    rewrite Hd. split_and!; [done | symmetry; by apply Hpv | done |].
    assert (vs_pending (view s) = Some (rc_voted_for (buf_raft_ctx b))) as Hq
      by (simpl; unfold pending_vote; by rewrite Hp).
    by destruct (ok_pending _ _ _ Hok _ Hq) as (_ & _ & ?).
Qed.

Lemma restart_ok sent e s :
  node_ok sent (view s) →
  rc_current_term (buf_raft_ctx (default empty_buf (disk s))) = current_term s →
  rc_voted_for (buf_raft_ctx (default empty_buf (disk s))) = voted_for_uuid s →
  rc_last_rx_term (buf_raft_ctx (default empty_buf (disk s))) = last_rx_append_entries_term s →
  let r := restart e s in
  node_ok (sent ++ r.2) (view r.1).
Proof.
  intros Hok Ht Hv Hrx. simpl. rewrite app_nil_r.
  assert (Hlen : Z.of_nat (length (raft_members s)) = Z.of_nat (length M)).
  { rewrite <- (member_uuids _ _ _ Hok). by rewrite length_fmap. }
  destruct Hok. split; simpl in *; rewrite ?Ht, ?Hv, ?Hrx; auto; try done; try lia.
  - etrans; [|exact ok_members]. by rewrite <- !list_fmap_compose.
  - intros c (p' & -> & (p & -> & Hp)%list_elem_of_fmap)%list_elem_of_fmap. simpl.
    apply (ok_is_me (ballot p)). apply list_elem_of_fmap. eauto.
Qed.

End handlers.

(* ------------------------------------------------------------------ *)
(** ** Schedules *)

Section schedule.

Context (merge : indices → indices → option indices).

(** The conditions on one step.  A candidate gets no reply to a vote of an older
    term; no request for votes arrives in a term whose leader was heard; the
    term does not wrap; the vote that a save asked for is still the node's when
    the save ends; a node that restarts has its term and vote on its disk; a
    leader does not step down within its term. *)
Definition orderly_action (c : cluster) (l : label) (s : raft_ctx) : bool :=
  match act l with
  | Deliver k =>
      match net c !! k with
      | Some m =>
          match msg_type m with
          | RAFT_MSG_REQ_VOTE_REP => negb (bool_decide (role s = RAFT_ROLE_CANDIDATE))
                                     || (current_term s <=? msg_current_term m)
          | RAFT_MSG_REQ_VOTE => negb (last_rx_append_entries_term s =? msg_current_term m)
          | _ => true
          end
      | None => true
      end
  | Timeout _ => current_term s + 1 <? 2 ^ 64
  | StoreDone _ =>
      match pending_store s with
      | Some (b, true) => bool_decide (rc_voted_for (buf_raft_ctx b) = voted_for_uuid s)
      | _ => true
      end
  | Restart =>
      let r := buf_raft_ctx (default empty_buf (disk s)) in
      (rc_current_term r =? current_term s) && bool_decide (rc_voted_for r = voted_for_uuid s)
      && (rc_last_rx_term r =? last_rx_append_entries_term s)
  end.

Definition stays_leader (s s' : raft_ctx) : bool :=
  negb (bool_decide (role s = RAFT_ROLE_LEADER)) || bool_decide (role s' = RAFT_ROLE_LEADER)
  || (current_term s <? current_term s').

Definition orderly (c : cluster) (l : label) : bool :=
  match nodes c !! at_node l with
  | Some s => orderly_action c l s && stays_leader s (node_step merge l (net c) s).1
  | None => true
  end.

Fixpoint orderly_run (c : cluster) (ls : list label) : bool :=
  match ls with
  | [] => true
  | l :: ls => orderly c l && orderly_run (cluster_step merge c l) ls
  end.

Lemma stays_leader_spec s s' : stays_leader s s' = true → no_step_down s s'.
Proof.
  unfold stays_leader, no_step_down. intros H HL. rewrite bool_decide_eq_true_2 in H by done.
  apply orb_true_iff in H as [H%bool_decide_eq_true | H%Z.ltb_lt]; auto.
Qed.

End schedule.

(* ------------------------------------------------------------------ *)
(** ** The cluster *)

Section safety.

Context (M : list uuid) (M_nodup : NoDup M) (M_null : uuid_null ∉ M) (M_two : (2 ≤ length M)%nat).
Context (merge : indices → indices → option indices).

Record cluster_ok (c : cluster) : Prop := {
  nodes_are : my_uuid <$> nodes c = M;
  nodes_ok : ∀ i s, nodes c !! i = Some s → node_ok M (net c) (view s);
  net_ok : ∀ m, m ∈ net c → src_node_id m ∈ M
}.

Lemma node_of c u : cluster_ok c → u ∈ M → ∃ s, node_ok M (net c) (view s) ∧ my_uuid s = u.
Proof.
  intros Hc Hu. rewrite <- (nodes_are _ Hc) in Hu. apply list_elem_of_fmap in Hu as (s & -> & Hs).
  apply list_elem_of_lookup_1 in Hs as [i Hi]. eauto using nodes_ok.
Qed.

(** Messages that were sent have the shape the handlers rely on. *)
Lemma sent_msg_ok c s m : cluster_ok c → node_ok M (net c) (view s) → m ∈ net c → msg_ok (net c) s m.
Proof.
  intros Hc Hs Hm. pose proof (net_ok _ Hc m Hm) as Hsrc.
  destruct (node_of c _ Hc Hsrc) as (s0 & Hs0 & E).
  destruct (ok_sent _ _ _ Hs0 m Hm (eq_sym E)) as (_ & _ & _ & Hb & _).
  split; [|refine (conj _ (conj Hb _))].
  - intros E'. destruct (ok_sent _ _ _ Hs m Hm E') as (? & ? & _). auto.
  - intros E'. apply M_null. by rewrite <- E'.
  - intros HT HG. exists m. unfold votes_for. split_and!; auto.
Qed.

Lemma node_step_ok c l s :
  cluster_ok c → node_ok M (net c) (view s) → orderly_action c l s = true →
  let r := node_step merge l (net c) s in
  no_step_down s r.1 → node_ok M (net c ++ r.2) (view r.1).
Proof.
  intros Hc Hs. unfold orderly_action, node_step. assert (Hnil : node_ok M (net c ++ []) (view s)).
  { by rewrite app_nil_r. }
  destruct (act l) as [k|f|ok|]; intros Ho.
  - destruct (net c !! k) as [m|] eqn:Hk; [|done].
    apply list_elem_of_lookup_2 in Hk. destruct (is_aborted s); [done|].
    apply incoming_ok; auto using sent_msg_ok.
    + intros HT HC. rewrite HT, bool_decide_eq_true_2 in Ho by done. by apply Z.leb_le.
    + intros HT. rewrite HT in Ho. by apply negb_true_iff, Z.eqb_neq in Ho.
  - destruct (is_aborted s); [done|]. apply timeout_ok; auto. by apply Z.ltb_lt.
  - destruct (is_aborted s); [done|]. intros _. apply store_ok; auto. intros b Hp. rewrite Hp in Ho. by apply bool_decide_eq_true in Ho.
  - intros _. apply andb_true_iff in Ho as [[H1%Z.eqb_eq H2%bool_decide_eq_true]%andb_true_iff H3%Z.eqb_eq].
    by apply restart_ok.
Qed.

Lemma cluster_step_ok c l : cluster_ok c → orderly merge c l = true → cluster_ok (cluster_step merge c l).
Proof.
  intros Hc. unfold orderly, cluster_step. destruct (nodes c !! at_node l) as [s|] eqn:Hn; [|done].
  intros [Ha Hl%stays_leader_spec]%andb_true_iff. pose proof (nodes_ok _ Hc _ _ Hn) as Hs.
  pose proof (node_step_ok c l s Hc Hs Ha Hl) as Hs'.
  destruct (node_step_me merge l (net c) s) as [Hme Hfrom].
  destruct (node_step merge l (net c) s) as [s' o]. simpl in *. rewrite Forall_forall in Hfrom.
  pose proof (nodes_are _ Hc) as HM. split; simpl.
  - rewrite list_fmap_insert, list_insert_id; [done|]. rewrite list_lookup_fmap, Hn. simpl. by rewrite Hme.
  - intros i s1 Hi. apply list_lookup_insert_Some in Hi as [(<- & <- & _) | [Hne Hi]]; [done|].
    apply node_ok_others; [|eauto using nodes_ok]. intros m Hm E. rewrite Hfrom in E by done.
    apply Hne. apply (NoDup_lookup M _ _ (my_uuid s)); [done | |]; rewrite <- HM, list_lookup_fmap.
    + by rewrite Hn.
    + rewrite Hi. simpl. by rewrite E.
  - intros m [Hm | Hm]%elem_of_app; [by apply (net_ok _ Hc)|]. rewrite Hfrom by done.
    apply (ok_member _ _ _ Hs).
Qed.

Lemma run_ok ls : ∀ c, cluster_ok c → orderly_run merge c ls = true → cluster_ok (run merge c ls).
Proof.
  induction ls as [|l ls IH]; intros c Hc H; [done|].
  apply andb_true_iff in H as [H1 H2]. apply (IH (cluster_step merge c l)); auto using cluster_step_ok.
Qed.

Lemma boot_ok : cluster_ok (boot M).
Proof.
  assert (Hc : ∀ j t c, ¬ cast [] j t c) by (intros j t c (m & []%elem_of_nil & _)).
  split; simpl.
  - rewrite <- list_fmap_compose. apply list_fmap_id.
  - intros i s (u & -> & Hu)%list_lookup_fmap_Some. apply list_elem_of_lookup_2 in Hu.
    split; simpl; try done; try (by intros; exfalso; eapply Hc).
    + rewrite <- !list_fmap_compose. apply list_fmap_id.
    + intros b (p & -> & (v & -> & _)%list_elem_of_fmap)%list_elem_of_fmap. done.
    + rewrite bool_decide_eq_true_2 by done. done.
    + by intros m ?%elem_of_nil.
  - by intros m ?%elem_of_nil.
Qed.

(** Two majorities share a node, which votes once in a term. *)
Lemma won_unique c a b t : cluster_ok c → won M (net c) a t → won M (net c) b t → a = b.
Proof.
  intros Hc (Q & HN & HS & HL & HQ) (R & RN & RS & RL & HR).
  assert (∃ j, j ∈ Q ∧ j ∈ R) as (j & HjQ & HjR).
  { destruct (decide (Exists (λ j, j ∈ R) Q)) as [(j & ? & ?)%Exists_exists | Hno]; [eauto|]. exfalso.
    assert (HD : NoDup (Q ++ R)).
    { apply NoDup_app. split_and!; [done | | done]. intros j Hj Hj'. apply Hno, Exists_exists. eauto. }
    assert (Hsub : Q ++ R ⊆ M) by set_solver.
    pose proof (submseteq_length _ _ (NoDup_submseteq _ _ HD Hsub)). rewrite length_app in *. lia. }
  destruct (node_of c j Hc (HS j HjQ)) as (s & Hs & <-).
  apply (ok_unique _ _ _ Hs t); [by apply HQ | by apply HR].
Qed.

(** A node that leads, and the sender of a leader's message, have won the term. *)
Lemma leader_won c i s :
  cluster_ok c → nodes c !! i = Some s → role s = RAFT_ROLE_LEADER → won M (net c) (my_uuid s) (current_term s).
Proof. intros Hc Hi HR. apply (ok_leader _ _ _ (nodes_ok _ Hc _ _ Hi) HR). Qed.

Lemma append_won c m :
  cluster_ok c → m ∈ net c → msg_type m = RAFT_MSG_APPEND_ENTRIES →
  won M (net c) (src_node_id m) (msg_current_term m).
Proof.
  intros Hc Hm HT. destruct (node_of c _ Hc (net_ok _ Hc m Hm)) as (s & Hs & E).
  destruct (ok_sent _ _ _ Hs m Hm (eq_sym E)) as (_ & _ & Hw & _). rewrite <- E. auto.
Qed.

End safety.

(* ------------------------------------------------------------------ *)
(** ** The theorem *)

(** C2: Election safety of the topology managers.  Whatever the number of members
    (two or more), from the first boot and under every interleaving of message
    deliveries, losses and repetitions, timeouts, ends of saves and restarts that
    keeps the conditions of [orderly], two nodes that lead in the same term are
    the same node, and all append-entries messages of a term come from one node,
    which is the leader of the term if there is one. *)
Theorem one_leader_per_term M merge ls :
  NoDup M → uuid_null ∉ M → (2 ≤ length M)%nat → orderly_run merge (boot M) ls = true →
  let c := run merge (boot M) ls in
  (∀ i j a b, nodes c !! i = Some a → nodes c !! j = Some b →
     role a = RAFT_ROLE_LEADER → role b = RAFT_ROLE_LEADER → current_term a = current_term b → i = j) ∧
  (∀ m m', m ∈ net c → m' ∈ net c →
     msg_type m = RAFT_MSG_APPEND_ENTRIES → msg_type m' = RAFT_MSG_APPEND_ENTRIES →
     msg_current_term m = msg_current_term m' → src_node_id m = src_node_id m') ∧
  (∀ i a m, nodes c !! i = Some a → role a = RAFT_ROLE_LEADER → m ∈ net c →
     msg_type m = RAFT_MSG_APPEND_ENTRIES → msg_current_term m = current_term a →
     src_node_id m = my_uuid a).
Proof.
  intros HN H0 H2 Ho c. pose proof (run_ok M HN H0 H2 merge ls _ (boot_ok M) Ho) as Hc. fold c in Hc.
  split_and!.
  - intros i j a b Hi Hj Ha Hb Ht. apply (NoDup_lookup M _ _ (my_uuid a)); [done | |];
      rewrite <- (nodes_are _ _ Hc), list_lookup_fmap; [by rewrite Hi|]. rewrite Hj. simpl. f_equal.
    apply (won_unique M HN H0 H2 c _ _ (current_term a) Hc); [rewrite Ht|]; eauto using leader_won.
  - intros m m' Hm Hm' HT HT' Ht. apply (won_unique M HN H0 H2 c _ _ (msg_current_term m) Hc); [|rewrite Ht];
      eauto using append_won.
  - intros i a m Hi Ha Hm HT Ht. apply (won_unique M HN H0 H2 c _ _ (msg_current_term m) Hc); [|rewrite Ht];
      eauto using append_won, leader_won.
Qed.

(* ------------------------------------------------------------------ *)
(** ** Runs of three nodes *)

Definition at_time (t : Z) : env :=
  {| now := t; boot_now := t; startup_time := 0; election_ns := 12; heartbeat_ns := 10; survive_ns := 30;
     alive_ns := 30; activation_sec := 1000; sw_ver := 1; conf_rest := 0;
     is_HW_config_functional := true; is_in_paused := false; is_crc_and_len_ok := true;
     did_pselect_allow_time := true; n_connected_members := 3; other_stores := false;
     is_save_submitted := true; is_disk_written := true; is_reserialized := true;
     is_applied_topo_ready_and_different := true; is_members_unsent := false;
     is_in_transmission := false; is_transmission_cancelled := false; is_wire_empty := false;
     praids_reset := None; calc_topology := None |}.

Definition on (i : nat) (a : node_action) (t : Z) : label := {| at_node := i; act := a; in_env := at_time t |}.

Definition no_merge (_ _ : indices) : option indices := None.

Definition three : list uuid := [1%N; 2%N; 3%N].

Definition run3 (ls : list label) : cluster := run no_merge (boot three) ls.

(** Who leads in term [t], and who sent append-entries messages in it *)
Definition leaders (t : Z) (c : cluster) : list uuid :=
  my_uuid <$> filter (λ s, role s = RAFT_ROLE_LEADER ∧ current_term s = t) (nodes c).

Definition append_senders (t : Z) (c : cluster) : list uuid :=
  remove_dups (src_node_id <$> filter (λ m, msg_type m = RAFT_MSG_APPEND_ENTRIES ∧ msg_current_term m = t) (net c)).

(** No process aborted. *)
Definition all_running (c : cluster) : bool := forallb (λ s, negb (is_aborted s)) (nodes c).

(** Node 1 asks for votes, node 2 saves its vote and grants it. *)
Definition ask_and_grant : list label :=
  [on 0 (Timeout false) 100; on 1 (Deliver 0) 100; on 1 (StoreDone true) 100].

(** Node 1 wins term 1 while node 3 is a candidate of the same term. *)
Definition win : list label := ask_and_grant ++ [on 2 (Timeout false) 100; on 0 (Deliver 2) 100].

(** The leader is heard, and the other candidate gives up its candidacy. *)
Definition heard : list label :=
  win ++ [on 0 (StoreDone true) 100; on 1 (Deliver 5) 100; on 1 (StoreDone true) 100; on 2 (Deliver 6) 100;
          on 2 (StoreDone true) 100; on 0 (Timeout false) 110].

Lemma one_leader_per_term_witness :
  let c := run no_merge (boot three) heard in
  leaders 1 c = [1%N] ∧ append_senders 1 c = [1%N] ∧ all_running c = true ∧
  (∀ i j a b, nodes c !! i = Some a → nodes c !! j = Some b →
     role a = RAFT_ROLE_LEADER → role b = RAFT_ROLE_LEADER → current_term a = current_term b → i = j).
Proof.
  do 3 (split; [vm_compute; reflexivity|]).
  refine (proj1 (one_leader_per_term three no_merge heard _ _ _ _)).
  - apply (bool_decide_eq_true_1 (NoDup three)). vm_compute. reflexivity.
  - apply (bool_decide_eq_true_1 (uuid_null ∉ three)). vm_compute. reflexivity.
  - simpl. lia.
  - vm_compute. reflexivity.
Defined.

(** Node 1 asks in term 1, is granted node 2's vote, and asks again in term 2.
    Node 3 asks in term 2 and gets node 2's vote of term 2.  Then the vote of term
    1 reaches node 1. *)
Definition late_vote : list label :=
  ask_and_grant ++
  [on 0 (Timeout false) 200; on 2 (Timeout false) 100; on 2 (Timeout false) 200;
   on 1 (Deliver 8) 200; on 1 (StoreDone true) 200; on 2 (Deliver 9) 200; on 0 (Deliver 2) 200].


(** The leader of term 1 loses its majority, becomes a follower without a vote,
    and grants its vote to the other candidate of term 1. *)
Definition stepped_down : list label :=
  win ++ [on 0 (Timeout false) 200; on 0 (StoreDone true) 200; on 0 (Deliver 3) 200; on 0 (StoreDone true) 200;
          on 2 (Deliver 7) 200].

(** The leader of term 1 restarts before its first save, and votes again. *)
Definition restarted : list label :=
  win ++ [on 0 Restart 200; on 0 (Deliver 3) 200; on 0 (StoreDone true) 200; on 2 (Deliver 7) 200].

(** While node 2 saves its vote of term 1 for node 1, it learns of term 2; the
    end of the save sends the vote in term 2, and node 3 gets another one. *)
Definition overtaken_save : list label :=
  [on 0 (Timeout false) 100; on 1 (Deliver 0) 100; on 2 (Timeout false) 100; on 2 (Timeout false) 200;
   on 0 (Timeout false) 200; on 1 (Deliver 5) 200; on 1 (StoreDone true) 200;
   on 1 (Deliver 5) 200; on 1 (StoreDone true) 200; on 0 (Deliver 8) 200; on 2 (Deliver 9) 200].

