(* ===== verification/RaftCommit.v ===== *)
(** Counting: the members that committed what the leader distributes, and the
    members and votes while members come and go. *)

From stdpp Require Import base list numbers sets.
From Stdlib Require Import ZArith Lia.
From S2P Require Import Prelude Raft RaftCluster RaftVotes.

Local Open Scope Z_scope.

(* ------------------------------------------------------------------ *)
(** ** The sections of the log *)

Inductive log_section := LogTopo | LogTopoConfig | LogKafkaMgmtConfig | LogRaftMembers.

Definition idx_of (f : log_section) (i : indices) : Z :=
  match f with
  | LogTopo => TOPO i
  | LogTopoConfig => TOPO_CONFIG i
  | LogKafkaMgmtConfig => KAFKA_MGMT_CONFIG i
  | LogRaftMembers => RAFT_MEMBERS i
  end.

(** What each member last reported *)
Definition reported (s : raft_ctx) : list (uuid * indices) :=
  (λ p, (m_uuid p, buf_idx (committed_hdr p))) <$> raft_members s.

(** The number of members that reported index [v] of a section *)
Definition at_index (f : log_section) (v : Z) (l : list (uuid * indices)) : Z :=
  Z.of_nat (length (filter (λ h, idx_of f h.2 = v) l)).

Definition report (u : uuid) (i : indices) (l : list (uuid * indices)) : list (uuid * indices) :=
  (λ h, if decide (h.1 = u) then (h.1, i) else h) <$> l.

Lemma at_index_cons f v h l : at_index f v (h :: l) = (if decide (idx_of f h.2 = v) then 1 else 0) + at_index f v l.
Proof. unfold at_index. rewrite filter_cons. case_decide; simpl; lia. Qed.

Lemma report_others u i l : u ∉ l.*1 → report u i l = l.
Proof.
  intros H. unfold report. rewrite <- (list_fmap_id l) at 2. apply list_fmap_ext. intros k h Hk. simpl.
  rewrite decide_False; [done|]. intros <-. apply H, list_elem_of_fmap. exists h.
  split; [done|]. by eapply list_elem_of_lookup_2.
Qed.

(** A report moves its member from one index to another. *)
Lemma at_index_report f v u old i l :
  NoDup l.*1 → (u, old) ∈ l →
  at_index f v (report u i l) = at_index f v l - (if decide (idx_of f old = v) then 1 else 0)
                                               + (if decide (idx_of f i = v) then 1 else 0).
Proof.
  induction l as [|[u' j] l IH]; [by intros _ ?%elem_of_nil|]. rewrite fmap_cons. intros [Hn HN]%NoDup_cons.
  intros [E | Hu]%elem_of_cons; simpl in Hn.
  - simplify_eq. unfold report. rewrite fmap_cons. fold (report u' i l). rewrite report_others by done.
    cbn [fst]. rewrite decide_True by done. rewrite !at_index_cons. cbn [snd]. lia.
  - assert (u' ≠ u) as Hne.
    { intros ->. apply Hn, list_elem_of_fmap. by exists (u, old). }
    unfold report. rewrite fmap_cons. fold (report u i l). cbn [fst]. rewrite decide_False by done.
    rewrite !at_index_cons, IH by done. cbn [snd]. lia.
Qed.

(* ------------------------------------------------------------------ *)
(** ** The counters *)

Lemma idx_of_upd f c old new n :
  idx_of f (upd_all_n_peers_committed c old new n) =
  upd_n_peers_committed (idx_of f c) (idx_of f old) (idx_of f <$> new) (idx_of f n).
Proof. by destruct f, new. Qed.

Lemma idx_of_zero f : idx_of f zero_idx = 0.
Proof. by destruct f. Qed.

Lemma idx_of_committed f s :
  idx_of f (leader_committed_by_majority (check_committed_by_majority s)) =
  if n_raft_active_members s <? idx_of f (leader_n_peers_committed s) * 2
  then idx_of f (leader_to_commit s) else idx_of f (leader_committed_by_majority s).
Proof. by destruct f. Qed.

(** The counter of a section is the number of members that reported the index to
    commit, and the committed index is that index once they are a majority;
    before, it is the committed index [old] of earlier. *)
Definition counted (f : log_section) (old : Z) (s : raft_ctx) : Prop :=
  idx_of f (leader_n_peers_committed s) = at_index f (idx_of f (leader_to_commit s)) (reported s) ∧
  idx_of f (leader_committed_by_majority s) =
    if n_raft_active_members s <? 2 * idx_of f (leader_n_peers_committed s)
    then idx_of f (leader_to_commit s) else old.

Lemma reset_counted f s :
  counted f (idx_of f (leader_committed_by_majority s)) (raft_leader_reset_counters s).
Proof.
  unfold raft_leader_reset_counters.
  set (n := foldl _ _ _).
  assert (Hn : idx_of f n = at_index f (idx_of f (leader_to_commit s)) (reported s)).
  { unfold n, reported. rewrite <- (Z.add_0_l (at_index _ _ _)), <- (idx_of_zero f).
    generalize zero_idx as z. induction (raft_members s) as [|p l IH]; intros z; [simpl; unfold at_index; simpl; lia|].
    cbn [foldl]. rewrite IH, idx_of_upd, fmap_cons, at_index_cons. cbn. unfold upd_n_peers_committed.
    destruct (Z.eqb_spec (idx_of f (buf_idx (committed_hdr p))) (idx_of f (leader_to_commit s)));
      case_decide; lia. }
  clearbody n. split; [exact Hn|]. rewrite idx_of_committed. cbn.
  replace (idx_of f n * 2) with (2 * idx_of f n) by lia. done.
Qed.

(** What a reply changes of the counters: nothing but the index of its sender *)
Definition log_of (s : raft_ctx) :=
  (leader_to_commit s, leader_n_peers_committed s, leader_committed_by_majority s, n_raft_active_members s).

Lemma counted_same f old s s' : log_of s' = log_of s → reported s' = reported s → counted f old s → counted f old s'.
Proof. unfold log_of, counted. intros [= -> -> -> ->] ->. done. Qed.

Lemma new_vote_log e u s : log_of (new_vote_majority e u s).1 = log_of s ∧ reported (new_vote_majority e u s).1 = reported s.
Proof.
  unfold new_vote_majority, leader_handle_new_vote, reported. split; [by repeat case_match|].
  repeat case_match; simpl; rewrite <- ?list_fmap_compose; try done; apply list_fmap_ext; intros k p _; simpl;
    repeat case_decide; done.
Qed.

Lemma reported_on_member u g s :
  (∀ p, m_uuid (g p) = m_uuid p) →
  (∀ p, p ∈ raft_members s → m_uuid p = u → buf_idx (committed_hdr (g p)) = buf_idx (committed_hdr p)) →
  reported (on_member u g s) = reported s.
Proof.
  intros Hu Hg. unfold reported. simpl. rewrite <- list_fmap_compose. apply list_fmap_ext. intros k p Hp. simpl.
  case_decide; [|done]. rewrite Hu, Hg; [done | by eapply list_elem_of_lookup_2 | done].
Qed.

Lemma reported_report u b s : reported (on_member u (set_committed_hdr b) s) = report u (buf_idx b) (reported s).
Proof.
  unfold reported, report. simpl. rewrite <- !list_fmap_compose. apply list_fmap_ext. intros k p _. simpl.
  by case_decide.
Qed.

Lemma member_unique s p q :
  NoDup (m_uuid <$> raft_members s) → p ∈ raft_members s → q ∈ raft_members s → m_uuid p = m_uuid q → p = q.
Proof.
  intros HN [i Hi]%list_elem_of_lookup_1 [j Hj]%list_elem_of_lookup_1 E.
  assert (i = j) as ->; [|congruence].
  apply (NoDup_lookup _ _ _ (m_uuid p) HN); rewrite list_lookup_fmap; [by rewrite Hi|]. rewrite Hj. simpl. by rewrite E.
Qed.

Lemma compare_tlvs_equal f a b : compare_tlvs a b = DIFF_EQUAL → idx_of f a = idx_of f b.
Proof.
  unfold compare_tlvs. intros H. destruct (Z.eqb_spec (TOPO_CONFIG a) (TOPO_CONFIG b)),
    (Z.eqb_spec (KAFKA_MGMT_CONFIG a) (KAFKA_MGMT_CONFIG b)), (Z.eqb_spec (RAFT_MEMBERS a) (RAFT_MEMBERS b)),
    (Z.eqb_spec (TOPO a) (TOPO b)); try done. by destruct f.
Qed.

(** A member that has the index to commit does not report another one. *)
Definition settled (f : log_section) (m : raft_msg) (s : raft_ctx) : bool :=
  match get_member (src_node_id m) s with
  | Some p => negb (idx_of f (buf_idx (committed_hdr p)) =? idx_of f (leader_to_commit s))
              || (idx_of f (buf_idx (persist_and_wire_buf m)) =? idx_of f (leader_to_commit s))
  | None => true
  end.

Lemma update_counted f old b p s :
  NoDup (reported s).*1 → (m_uuid p, buf_idx (committed_hdr p)) ∈ reported s → counted f old s →
  (idx_of f (buf_idx (committed_hdr p)) = idx_of f (leader_to_commit s) →
     idx_of f (buf_idx b) = idx_of f (leader_to_commit s)) →
  counted f old (update_committed_values_of_a_peer p b s).
Proof.
  intros HN Hp Hcs Hs. pose proof Hcs as [Hn Hc]. unfold update_committed_values_of_a_peer.
  assert (H : counted f old (on_member (m_uuid p) (set_committed_hdr b) (check_committed_by_majority
    (set_leader_n_peers_committed (upd_all_n_peers_committed (leader_to_commit s) (buf_idx (committed_hdr p))
       (Some (buf_idx b)) (leader_n_peers_committed s)) s)))).
  { set (n := upd_all_n_peers_committed _ _ _ _).
    assert (Hn' : idx_of f n = at_index f (idx_of f (leader_to_commit s))
                    (report (m_uuid p) (buf_idx b) (reported s)) ∧
                  idx_of f (leader_n_peers_committed s) ≤ idx_of f n).
    { rewrite (at_index_report f _ _ (buf_idx (committed_hdr p))) by done. rewrite <- Hn. unfold n.
      rewrite idx_of_upd. unfold upd_n_peers_committed. simpl.
      destruct (Z.eqb_spec (idx_of f (buf_idx b)) (idx_of f (buf_idx (committed_hdr p)))) as [E|E];
        destruct (Z.eqb_spec (idx_of f (buf_idx b)) (idx_of f (leader_to_commit s))) as [E'|E'];
        simpl; repeat case_decide; intuition (congruence || lia). }
    clearbody n. destruct Hn' as [Hn' Hle]. split; [by rewrite reported_report|].
    etrans; [apply (idx_of_committed f (set_leader_n_peers_committed n s))|]. cbn. rewrite Hc.
    destruct (Z.ltb_spec (n_raft_active_members s) (idx_of f n * 2)),
      (Z.ltb_spec (n_raft_active_members s) (2 * idx_of f n)),
      (Z.ltb_spec (n_raft_active_members s) (2 * idx_of f (leader_n_peers_committed s))); done || lia. }
  destruct (compare_tlvs _ _); done.
Qed.

Lemma reported_uuids s : (reported s).*1 = m_uuid <$> raft_members s.
Proof. unfold reported. by rewrite <- list_fmap_compose. Qed.

(** One reply: the counters stay right, and the members, the index to commit and
    the number of active members are the ones of before. *)
Lemma append_rep_counted f old e m s :
  NoDup (m_uuid <$> raft_members s) → counted f old s → settled f m s = true →
  counted f old (raft_handle_append_entries_rep e m s).
Proof.
  unfold settled, raft_handle_append_entries_rep. intros HN Hc Hs.
  destruct (negb _); [done|]. destruct (get_member (src_node_id m) s) as [p|] eqn:Hp; [|done].
  apply get_member_Some in Hp as [Hu Hp]. case_match; [done|]. case_match; [done|].
  destruct (new_vote_log e (src_node_id m) (leader_process_peer_msg_data (persist_and_wire_buf m) p s)) as [E1 E2].
  eapply counted_same; [exact E1 | exact E2 |]. clear E1 E2. unfold leader_process_peer_msg_data.
  case_match; [done|]. set (hdr := {| buf_idx := buf_idx (committed_hdr p) |}).
  assert (Hr : reported (on_member (m_uuid p) (set_committed_hdr hdr) s) = reported s).
  { apply reported_on_member; [done|]. intros q Hq E. by rewrite (member_unique s q p HN Hq Hp E). }
  apply update_counted.
  - by rewrite Hr, reported_uuids.
  - rewrite Hr. apply list_elem_of_fmap. by exists p.
  - by apply (counted_same _ _ s).
  - cbn. intros E. apply orb_true_iff in Hs as [Hs%negb_true_iff%Z.eqb_neq | Hs%Z.eqb_eq]; [done | exact Hs].
Qed.

Lemma process_stays b p s :
  let s' := leader_process_peer_msg_data b p s in
  m_uuid <$> raft_members s' = m_uuid <$> raft_members s ∧ leader_to_commit s' = leader_to_commit s ∧
  n_raft_active_members s' = n_raft_active_members s.
Proof.
  assert (Hm : ∀ u b l, m_uuid <$> ((λ m, if decide (m_uuid m = u) then set_committed_hdr b m else m) <$> l) =
    m_uuid <$> (l : list member)).
  { intros. rewrite <- list_fmap_compose. apply list_fmap_ext. intros k q _. simpl. by case_decide. }
  unfold leader_process_peer_msg_data, update_committed_values_of_a_peer.
  repeat case_match; simpl; rewrite ?Hm; done.
Qed.

Lemma append_rep_stays e m s :
  let s' := raft_handle_append_entries_rep e m s in
  m_uuid <$> raft_members s' = m_uuid <$> raft_members s ∧ leader_to_commit s' = leader_to_commit s ∧
  n_raft_active_members s' = n_raft_active_members s.
Proof.
  unfold raft_handle_append_entries_rep. repeat (case_match; [done|]). case_match; [|done]. case_match; [done|].
  case_match; [done|]. destruct (process_stays (persist_and_wire_buf m) m0 s) as (E1 & E2 & E3).
  set (s1 := leader_process_peer_msg_data _ _ _) in *.
  destruct (new_vote_log e (src_node_id m) s1) as [[= E4 _ _ E5] E6].
  rewrite E4, E5, <- reported_uuids, E6, reported_uuids. done.
Qed.

(** The replies a leader gets, in the order of their arrival *)
Definition replies (es : list (env * raft_msg)) (s : raft_ctx) : raft_ctx :=
  foldl (λ s em, raft_handle_append_entries_rep em.1 em.2 s) s es.

Fixpoint all_settled (f : log_section) (es : list (env * raft_msg)) (s : raft_ctx) : bool :=
  match es with
  | [] => true
  | em :: es => settled f em.2 s && all_settled f es (raft_handle_append_entries_rep em.1 em.2 s)
  end.

Lemma replies_counted f old es : ∀ s,
  NoDup (m_uuid <$> raft_members s) → counted f old s → all_settled f es s = true →
  counted f old (replies es s) ∧ leader_to_commit (replies es s) = leader_to_commit s ∧
  n_raft_active_members (replies es s) = n_raft_active_members s.
Proof.
  induction es as [|[e m] es IH]; intros s HN Hc Hs; [done|]. apply andb_true_iff in Hs as [H1 H2].
  destruct (append_rep_stays e m s) as (E1 & E2 & E3). simpl.
  destruct (IH (raft_handle_append_entries_rep e m s)) as (? & ? & ?);
    [by rewrite E1 | by apply append_rep_counted | done |]. split_and!; [done | congruence | congruence].
Qed.

(** The committed indices are not above the ones to commit. *)
Definition indices_le (a b : indices) : Prop :=
  (∀ f, idx_of f a ≤ idx_of f b) ∧ RAFT_MEMBERS_SEQ_NO a ≤ RAFT_MEMBERS_SEQ_NO b.

Definition in_order (s : raft_ctx) : Prop := indices_le (leader_committed_by_majority s) (leader_to_commit s).

Lemma goes_back_le a b : indices_le b a → goes_back a b = false.
Proof.
  intros [Hf Hs]. unfold goes_back. pose proof (Hf LogTopo) as H1. pose proof (Hf LogTopoConfig) as H2.
  pose proof (Hf LogKafkaMgmtConfig) as H3. pose proof (Hf LogRaftMembers) as H4. simpl in *.
  by rewrite !(proj2 (Z.ltb_ge _ _)) by done.
Qed.

Lemma check_in_order s :
  in_order s → in_order (check_committed_by_majority s) ∧ is_aborted (check_committed_by_majority s) = is_aborted s.
Proof.
  intros [Hf Hs]. unfold check_committed_by_majority. cbv zeta. set (v := {| TOPO := _ |}).
  assert (Hv : indices_le (leader_committed_by_majority s) v ∧ indices_le v (leader_to_commit s)).
  { unfold v. split; (split; [intros f; specialize (Hf f); destruct f|]); simpl in *; case_match; lia. }
  destruct Hv as [H1 H2]. split; [exact H2|]. simpl. by rewrite goes_back_le, orb_false_r.
Qed.

Lemma append_rep_in_order e m s :
  in_order s → let s' := raft_handle_append_entries_rep e m s in in_order s' ∧ is_aborted s' = is_aborted s.
Proof.
  intros Hs. unfold raft_handle_append_entries_rep. case_match; [done|]. case_match; [|done].
  case_match; [done|]. case_match; [done|]. cbv zeta.
  assert (H3 : ∀ b p t, in_order t → in_order (update_committed_values_of_a_peer p b t) ∧
    is_aborted (update_committed_values_of_a_peer p b t) = is_aborted t).
  { intros b p t Ht. unfold update_committed_values_of_a_peer.
    destruct (compare_tlvs _ _); [done|..];
      match goal with |- context [check_committed_by_majority ?u] => exact (check_in_order u Ht) end. }
  set (s1 := leader_process_peer_msg_data _ _ s).
  assert (H4 : in_order s1 ∧ is_aborted s1 = is_aborted s).
  { unfold s1, leader_process_peer_msg_data. case_match; [done|].
    match goal with |- context [update_committed_values_of_a_peer ?p ?b ?u] => exact (H3 b p u Hs) end. }
  destruct H4 as [H4 <-]. clearbody s1. unfold new_vote_majority, leader_handle_new_vote. by repeat case_match.
Qed.

Lemma replies_in_order es : ∀ s,
  in_order s → in_order (replies es s) ∧ is_aborted (replies es s) = is_aborted s.
Proof.
  induction es as [|[e m] es IH]; intros s Hs; [done|]. destruct (append_rep_in_order e m s Hs) as [H1 <-].
  apply (IH _ H1).
Qed.


(* ------------------------------------------------------------------ *)
(** ** Five members *)

Definition log_index (i : Z) : indices :=
  {| TOPO := i; TOPO_CONFIG := i; KAFKA_MGMT_CONFIG := i; RAFT_MEMBERS := i; RAFT_MEMBERS_SEQ_NO := i |}.

(** The leader of term 1, with the log at index 6 committed and at 7 to commit *)
Definition leader_of_five : raft_ctx :=
  set_leader_committed_by_majority (log_index 6)
    (set_leader_to_commit (log_index 7)
       (set_current_term 1 (set_raft_role RAFT_ROLE_LEADER (first_boot [1%N; 2%N; 3%N; 4%N; 5%N] 1%N)))).

Definition env_of_five (busy : bool) (calculated : option indices) : env :=
  {| now := 100; boot_now := 100; startup_time := 0; election_ns := 12; heartbeat_ns := 10; survive_ns := 30;
     alive_ns := 30; activation_sec := 1000; sw_ver := 1; conf_rest := 0;
     is_HW_config_functional := true; is_in_paused := false; is_crc_and_len_ok := true;
     did_pselect_allow_time := true; n_connected_members := 5; other_stores := false;
     is_save_submitted := true; is_disk_written := true; is_reserialized := true;
     is_applied_topo_ready_and_different := true; is_members_unsent := false;
     is_in_transmission := busy; is_transmission_cancelled := false; is_wire_empty := false;
     praids_reset := None; calc_topology := calculated |}.

(** The reply of member [u] to message [num], with its log at index [i] *)
Definition reply (u : uuid) (num i : Z) : env * raft_msg :=
  (env_of_five false None,
   {| msg_type := RAFT_MSG_APPEND_ENTRIES_REP; src_node_id := u; dst_node_id := 1%N; msg_current_term := 1;
      append_entries_msg_num := num; is_vote_granted := true; is_with_raft_log := false;
      is_forced_reelect := false; msg_sw_ver := 1;
      persist_and_wire_buf :=
        {| buf_encoding_ver := TOMA_ENCODING_VER;
           buf_raft_ctx := {| rc_current_term := 1; rc_last_rx_term := 1; rc_voted_for := 1%N;
                              rc_guaranteed_sw_ver := 0; rc_rest := 0 |};
           buf_idx := log_index i |} |}).

Definition replies_of_three : list (env * raft_msg) :=
  [reply 1 1 6; reply 2 1 6; reply 3 1 7; reply 2 2 7; reply 1 2 7; reply 3 2 7].


(** The number of the last reply of a member is compared but never stored, so
    an old reply that arrives late is taken for a new one, and its sender is
    counted again at its next reply.  Two of five members have the index 7, and
    the leader takes it as committed by a majority. *)
Theorem old_reply_counts_twice :
  let s := replies [reply 1 2 7; reply 2 2 7; reply 2 1 6; reply 2 3 7]
             (raft_leader_reset_counters leader_of_five) in
  at_index LogTopo 7 (reported s) = 2 ∧ n_raft_active_members s = 5 ∧
  idx_of LogTopo (leader_committed_by_majority s) = 7 ∧ is_aborted s = false.
Proof. vm_compute. done. Qed.

(** The leader with index 7 committed by three members, ready to distribute *)
Definition ready_leader : raft_ctx :=
  set_is_leader_mature true (set_last_time_leader_had_a_majority 100
    (replies replies_of_three (raft_leader_reset_counters leader_of_five))).


(* ------------------------------------------------------------------ *)
(** ** Members that come and go *)

(** The counters of the members agree with the members: all of them, those that
    are not ignored, and, on a node that is not a follower, those whose vote is
    valid. *)
Record members_ok (s : raft_ctx) : Prop := {
  members_uniq : NoDup (m_uuid <$> raft_members s);
  members_total : n_raft_members s = Z.of_nat (length (raft_members s));
  members_active : n_raft_active_members s = Z.of_nat (length (filter (λ p, is_ignored p = false) (raft_members s)));
  members_voted : role s ≠ RAFT_ROLE_FOLLOWER → n_peers_voted_for_me s = n_valid (raft_members s)
}.

Definition leads_with_majority (s : raft_ctx) : Prop :=
  role s = RAFT_ROLE_LEADER → is_raft_majority s = true.

Lemma if_majority_is_lost_ok s :
  members_ok s → members_ok (convert_to_follower_if_majority_is_lost s) ∧
  leads_with_majority (convert_to_follower_if_majority_is_lost s).
Proof.
  intros []. unfold convert_to_follower_if_majority_is_lost, leads_with_majority.
  destruct (is_raft_majority s) eqn:E; simpl; [done|].
  case_bool_decide as Hr; [done|]. split; [done|]. intros HL. congruence.
Qed.

Lemma filter_others u (l : list member) : u ∉ m_uuid <$> l → filter (λ q, m_uuid q ≠ u) l = l.
Proof.
  induction l as [|q l IH]; [done|]. rewrite fmap_cons, not_elem_of_cons. intros [Hq Hl].
  rewrite filter_cons_True by (intros E; by apply Hq). by rewrite IH.
Qed.

Lemma filter_any (l : list member) : filter (λ _, True) l = l.
Proof. induction l as [|q l IH]; [done|]. rewrite filter_cons_True by done. by rewrite IH. Qed.

Lemma count_filter_del (P : member → Prop) `{∀ p, Decision (P p)} u (l : list member) p :
  NoDup (m_uuid <$> l) → p ∈ l → m_uuid p = u →
  Z.of_nat (length (filter P l)) =
  Z.of_nat (length (filter P (filter (λ q, m_uuid q ≠ u) l))) + (if decide (P p) then 1 else 0).
Proof.
  induction l as [|q l IH]; [by intros _ ?%elem_of_nil|]. rewrite fmap_cons. intros [Hn HN]%NoDup_cons Hp Hu.
  rewrite (filter_cons (λ q, m_uuid q ≠ u)). apply elem_of_cons in Hp as [-> | Hp].
  - rewrite decide_False by (intros Hq; by apply Hq). rewrite filter_others by (by rewrite <- Hu).
    rewrite filter_cons. case_decide; simpl; lia.
  - assert (m_uuid q ≠ u).
    { intros <-. apply Hn. rewrite <- Hu. apply list_elem_of_fmap. eauto. }
    rewrite decide_True by done. rewrite !filter_cons. specialize (IH HN Hp Hu). destruct (decide (P q)); simpl; lia.
Qed.

Lemma get_member_None u s : get_member u s = None → u ∉ m_uuid <$> raft_members s.
Proof.
  unfold get_member. intros H%fmap_None%list_find_None (p & -> & Hp)%list_elem_of_fmap.
  rewrite Forall_forall in H. by apply (H p Hp).
Qed.

Lemma add_member_ok u me n inc s :
  members_ok s → leads_with_majority s →
  members_ok (nvmeibt_raft_add_member u me n inc s) ∧ leads_with_majority (nvmeibt_raft_add_member u me n inc s).
Proof.
  intros Hs Hm. unfold nvmeibt_raft_add_member. destruct (get_member u s) eqn:Hu; [done|].
  apply get_member_None in Hu. case_match; [done|]. case_match; [done|].
  apply if_majority_is_lost_ok. destruct Hs as [HN Ht Ha Hv].
  destruct me; split; simpl; rewrite ?fmap_app, ?filter_app, ?length_app; simpl;
    try (rewrite Ht || rewrite Ha; lia);
    try (apply NoDup_app; split_and!; [done | | apply NoDup_singleton]; intros x Hx ->%list_elem_of_singleton; done).
  all: intros Hr; unfold n_valid; rewrite filter_app, length_app, Hv by done; unfold n_valid; simpl; lia.
Qed.

Lemma del_member_ok u n inc s :
  members_ok s → leads_with_majority s →
  members_ok (nvmeibt_raft_del_member u n inc s) ∧ leads_with_majority (nvmeibt_raft_del_member u n inc s).
Proof.
  intros Hs Hm. unfold nvmeibt_raft_del_member. destruct (get_member u s) as [p|] eqn:Hu; [|done].
  apply get_member_Some in Hu as [Hu Hp]. case_match; [done|]. case_match; [done|]. cbv zeta.
  apply if_majority_is_lost_ok. destruct Hs as [HN Ht Ha Hv].
  set (s1 := set_n_raft_members _ _).
  set (s2 := if is_ignored p then s1 else _). set (s3 := if is_vote_valid p then _ else s2).
  assert (H3 : members_ok s3).
  { pose proof (count_filter_del (λ _, True) u _ p HN Hp Hu) as C1. rewrite !filter_any in C1.
    pose proof (count_filter_del (λ q, is_ignored q = false) u _ p HN Hp Hu) as C2.
    pose proof (count_filter_del (λ q, is_vote_valid q = true) u _ p HN Hp Hu) as C3.
    rewrite decide_True in C1 by done. unfold n_valid in Hv. unfold s3, s2, s1.
    assert (HN' : NoDup (m_uuid <$> filter (λ q, m_uuid q ≠ u) (raft_members s))).
    { eapply sublist_NoDup; [exact HN|]. apply fmap_sublist, sublist_filter. }
    cbv beta in C2, C3. revert C2 C3.
    destruct (is_ignored p), (is_vote_valid p);
      repeat ((case_decide; [|congruence]) || rewrite decide_False by done); simpl; intros C2 C3; split; simpl; try done; try lia.
    all: intros Hr; unfold n_valid; rewrite Hv by done; lia. }
  clearbody s3. clear -H3. repeat case_decide; destruct H3; split; auto.
Qed.

Lemma filter_ignore u (l : list member) p :
  NoDup (m_uuid <$> l) → p ∈ l → m_uuid p = u → is_ignored p = false →
  Z.of_nat (length (filter (λ q, is_ignored q = false)
    ((λ q, if decide (m_uuid q = u) then set_is_ignored true q else q) <$> l))) =
  Z.of_nat (length (filter (λ q, is_ignored q = false) l)) - 1.
Proof.
  intros HN Hp Hu Hi. rewrite (count_filter_del _ u l p HN Hp Hu), decide_True by done.
  rewrite Z.add_simpl_r. do 2 f_equal. clear. induction l as [|q l IH]; [done|].
  rewrite fmap_cons, (filter_cons (λ q, m_uuid q ≠ u)). destruct (decide (m_uuid q = u)) as [E|E].
  - rewrite filter_cons_False by done. rewrite decide_False by (intros H; by apply H). done.
  - rewrite decide_True by done. rewrite !filter_cons. destruct (decide (is_ignored q = false)); by rewrite IH.
Qed.

Lemma ignore_member_ok u s :
  members_ok s → leads_with_majority s →
  members_ok (nvmeibt_raft_ignore_member u s) ∧ leads_with_majority (nvmeibt_raft_ignore_member u s).
Proof.
  intros Hs Hm. unfold nvmeibt_raft_ignore_member. destruct (get_member u s) as [p|] eqn:Hu; [|done].
  destruct (is_ignored p) eqn:Hi; [done|]. apply get_member_Some in Hu as [Hu Hp].
  destruct Hs as [HN Ht Ha Hv]. split; [split; simpl|].
  - rewrite <- list_fmap_compose. erewrite list_fmap_ext; [exact HN|]. intros k q _. simpl. by case_decide.
  - by rewrite length_fmap.
  - rewrite (filter_ignore u _ p) by done. lia.
  - intros Hr. rewrite Hv by done. unfold n_valid. f_equal. clear. induction (raft_members s) as [|q l IH]; [done|].
    rewrite fmap_cons, !filter_cons. destruct (decide (m_uuid q = u)); simpl;
      destruct (decide (is_vote_valid q = true)); simpl; by rewrite IH.
  - unfold leads_with_majority, is_raft_majority in *. simpl. intros Hr.
    specialize (Hm Hr). apply Z.ltb_lt. apply Z.ltb_lt in Hm. lia.
Qed.

(** The changes of the members *)
Inductive member_change :=
  | AddMember (u : uuid) (me : bool) (n_before : Z) (incremental : bool)
  | DelMember (u : uuid) (n_before : Z) (incremental : bool)
  | IgnoreMember (u : uuid).

Definition change_members (s : raft_ctx) (c : member_change) : raft_ctx :=
  match c with
  | AddMember u me n inc => nvmeibt_raft_add_member u me n inc s
  | DelMember u n inc => nvmeibt_raft_del_member u n inc s
  | IgnoreMember u => nvmeibt_raft_ignore_member u s
  end.


Definition voted_for_by (us : list uuid) (s : raft_ctx) : raft_ctx :=
  foldl (λ s u, leader_handle_new_vote (env_of_five false None) u s) s us.

